(* ===== verification/_CoqProject ===== *)
-Q . S2P
Prelude.v
PyTime.v
Sha256.v
Canonical.v
Errors.v
OutboxModel.v
Redaction.v
OutboxStore.v
OutboxClaim.v
OutboxLifecycle.v
Runner.v
RunnerOrder.v
RunnerStore.v
RunnerFailures.v
RunnerDrain.v
Conformance.v
JsonParse.v
CacheModel.v
Cache.v
CacheProofs.v
CacheStore.v
CacheCatalog.v
CacheFlights.v
MigrationModel.v
Migration.v
CallLog.v
MigrationOrder.v
MigrationRun.v
MigrationCrash.v
Rebuild.v
RebuildOrder.v
RebuildRun.v
PortModel.v
Port.v
PortReading.v
PortOrder.v
PortRecord.v
PortExport.v
PortRoundTrip.v
Transactional.v
TransactionalOrder.v
VersionedTarget.v
Delivery.v
Projection.v
Host.v
Release.v
ReleaseGates.v
