(* ===== verification/Prelude.v ===== *)
(** * Meridian Storage Projection: verification development

    [meridian-storage-projection] (under src/src/meridian_storage/projection/)
    is a library around a storage runtime it does not contain: a transactional
    outbox with a projection runner, a read cache, Schema migrations, projection
    rebuilds, and logical export and import.  Its coordinators drive injected
    collaborators (adapters, clocks, evidence sinks, hooks, the runtime).  This
    development models the coordinators, the values they exchange, and the
    reference implementations the package ships, and proves what they promise.

    ** How programs are modelled

    - This file: Python exceptions ([exn]), pure code that can raise ([res]),
      and stateful code that can raise ([M W A], a function of the world [W]
      that keeps what was written before an exception).  [try_except],
      [try_finally], [for_list], [for_iter] and [with_locals] are the statements
      of the same name.  [wp] is the weakest precondition the proofs compute with.
    - A class that is injected is a Class or a Record of computations
      ([EvidenceSink], [OutboxPort], [CacheBackend], [migration_hooks], ...); the
      coordinator's theorems are about every instance, and the reference
      implementations are instances with theorems of their own.
    - Theorems about the order of calls are stated on a log: the collaborators
      are wrapped ([recorded]) so that every call is appended with its outcome,
      and an inductive predicate [ordered] says what may follow what.  They hold
      for arbitrary collaborators, whatever they do or raise.
    - Strings are the UTF-8 bytes of a [str]; integers are unbounded as in
      Python; instants and durations are microseconds with Python's range and
      its [OverflowError]; floats are binary64 ([spec_float]).
    - A lock of the code makes its block one step; threads are interleavings of
      such steps ([OutboxLifecycle], [CacheFlights]).

    ** Parts

    - [PyTime], [Sha256], [Canonical], [JsonParse]: datetime arithmetic,
      [hashlib.sha256], canonical JSON of _canonical.py, and [json.loads].
      Canonical bytes do not depend on key order, and decoding them gives the
      value back.
    - [Errors]: errors.py, control.py (cancellation), evidence.py.
    - [OutboxModel], [Redaction], [OutboxStore]: outbox/model.py and the
      in-memory store of outbox/store.py, with the redaction of failure causes.
      [OutboxClaim] gives [atomic_claim] an abstract specification (the heads of
      the partitions, in order, up to the limit) and proves the refinement and
      that a claim below its limit leaves nothing claimable.  A constructed
      record meets the published JSON Schema of the outbox ([OutboxModel]).
      [OutboxLifecycle] makes the operations a transition system and proves the
      state machine of a record, the exclusivity of a lease until it ends, the
      order within a partition and the meaning of a checkpoint (in stores whose
      checkpoints no adapter fixture has set by hand).
    - [Runner]: runner/runner.py.  [RunnerOrder]: an event is completed only
      after its validated expression was executed and acknowledged, for any
      collaborators.  [RunnerStore]: the runner over the reference store, with a
      clock that advances at every call, settles every record it claims by the
      record's own delivery and before its lease expires, and [run_until_idle]
      terminates.  [RunnerFailures]: what
      happens when a delivery outlasts its lease, or the evidence of a
      completion cannot be recorded.  [RunnerDrain]: a host that sets [stop]
      drains in bounded time and leaves no lease behind.
    - [Conformance]: testing/outbox_conformance.py, evaluated over the reference
      store as an example.
    - [CacheModel], [Cache]: cache/model.py, backends.py, coordinator.py.
      [CacheProofs]: what a hit was taken from, stated without the coordinator's
      own tests; survival of cache outages, with the two cases in which a read
      raises; versions of compare-and-set.  [CacheStore] states the contract of a
      backend ([VersionedStore]), proves read-through over every backend that
      meets it, and that the in-memory backend does; [CacheCatalog] proves that
      the adapter over a conforming cache Catalog does, values surviving the
      wire.  [CacheFlights]: single flight with any number of readers.
    - [MigrationModel], [Migration]: migration/model.py, planner.py, executor.py.
      [CallLog] is the program logic for call logs.  [MigrationOrder]: lock,
      steps, validation, activation and release come in order.  [MigrationRun]:
      migrations complete and resume, with exactly the calls that are missing:
      each step applied once, the lock released last.
      [MigrationCrash]: wherever an execution is interrupted, its history stays
      one that can be resumed.
    - [Rebuild]: rebuild/coordinator.py.  [RebuildOrder]: only filled and
      validated generations are activated, others are discarded; evidence is
      returned only after the previous one was retained.  Its log has every
      batch the scan yields and every record of the evidence sink.  [RebuildRun]:
      a rebuild whose hooks answer makes exactly its calls and completes; a
      rollback interval that leaves the calendar raises after the activation,
      before the sink is called.
    - [PortModel], [Port]: portability/model.py and coordinator.py.
      [PortReading]: the reader does not depend on how artifacts are cut into
      chunks, and its memory is bounded.  [PortOrder]: the target is written
      only after everything was verified, and what is written is what was read.
      [PortRecord], [PortExport], [PortRoundTrip]: an import of an export gives
      the target exactly the exported records.
    - [Transactional], [TransactionalOrder]: outbox/transactional.py; a mutation
      and its validated intent are committed together or not at all.
    - [VersionedTarget]: examples/versioned_target.py (of src/examples); the
      reduction of a snapshot keeps the newest visible row of every source.
    - [Delivery]: a worker among others.  Workers, producers and operators
      change the store and the target in steps, which keep them consistent; a
      run is a sequence of such steps, whatever happens between its calls and
      however it ends; what it leaves is delivered by the next one.
    - [Projection]: the runner, the reference store and the versioned target
      together: whatever fails, interferes or dies on the way the target has a
      row for every completed event and no other rows, and when events can be
      delivered its visible rows become those of the events.
    - [Host]: conformance/postgresql/host.py: the process of the conformance
      suite with the faults it injects at the boundaries of a delivery.
    - [Release]: scripts/verify.py (of src/scripts).  [ReleaseGates]: the report
      of a release is written only after every command ran, and every file that
      the checks of the script are about was read, with the content they ask for.

    How the parts meet: the runner is proved against the port ([OutboxPort]),
    composed with the reference store ([RunnerStore]), with other workers
    ([Delivery]), with the versioned target ([Projection]) and with the host
    process ([Host]); the cache coordinator is proved against
    [VersionedStore], which both backends implement; coordinators share the
    sink, the token and canonical JSON; exports and imports meet in the
    artifacts.

    ** Recursion and bounds

    Loops over the data of the code are structural.  Iterables are inductive
    ([iter]), so they end, at a length that may depend on the collaborators.
    [idle_loop] counts the cycles the caller allows, as the code does, and
    [RunnerStore] shows that the attempts left in the store bound the cycles it
    needs.  The decoder of [JsonParse] has the length of the text as fuel, which
    is shown to be enough for every canonical text.  [run_until_stopped] polls a
    flag the host sets at any time, and takes a number of iterations;
    [RunnerDrain] shows how many are enough when the host sets it by a deadline.

    ** What is assumed

    No axioms.  Code outside the repository is a parameter: the registry,
    catalogs, operations and errors of the Core package, [datetime.fromisoformat]
    ([CacheModel]), the value of a float literal ([JsonParse]), the [repr] of a
    float ([Runner]), [json.loads] of bytes that are not plain UTF-8 ([Port]),
    and the operating system and the other parsers of the library ([Release]).
    Nothing assumes that SHA-256 has no collisions, except that events with the
    same row id have the same row ([Projection.one_row_per_id]).  That runs
    terminate and settle what they claim ([RunnerStore], [RunnerDrain],
    [Projection.projection_converges]) assumes what the host must provide: every
    call of a collaborator ends within a given time, and a lease outlasts the
    calls of a batch ([RunnerStore.in_time]).  That nothing is corrupted
    ([Projection.workers_interleave]) does not; there, a claim is made at a time
    whose leases end before the year 9999.

    ** What is not modelled

    - The [__init__] modules, which re-export names; of the conformance host
      the wiring before its callbacks, which calls constructors of released
      packages; the Binding literal, fixtures and hash listing beside it.
    - [os._exit] and a wait that never ends are exceptions that nothing between
      them and the end of the process handles ([Host]).
    - Arguments whose type breaks the annotations, except where the code tests
      for them.
    - Lone surrogates in strings, and the text of decoding errors. *)
From Stdlib Require Export Ascii.
From stdpp Require Export base list strings gmap sorting pretty.
From Stdlib Require Export ZArith Lia.

Declare Scope py_scope.
Delimit Scope py_scope with py.
Open Scope py_scope.
Open Scope Z_scope.

(** ** Exceptions

    [EMeridian] is an instance of a class derived from Core's
    [MeridianError]: the Core class it derives from, its own class name, the
    code and message it passes to Core, and the [retryable] keyword when the
    constructor passes one ([None]: Core's default for that class applies).
    [EPython] is any other subclass of [Exception]; [EBase] is a
    [BaseException] that is not an [Exception] ([SystemExit], a killed
    process), which [except Exception] does not catch. *)
Inductive core_error : Type :=
| ValidationError | ConflictError | TransientError | UnavailableError
| LifecycleError | CorruptionError | NotFoundError
| OtherCoreError (name : string).

Inductive exn : Type :=
| EMeridian (base : core_error) (cls code message : string) (retryable : option bool)
| EPython (module qualname message : string)
| EBase (module qualname message : string).

#[export] Instance core_error_eq_dec : EqDecision core_error.
Proof. solve_decision. Defined.
#[export] Instance exn_eq_dec : EqDecision exn.
Proof. solve_decision. Defined.

Definition is_exception (e : exn) : bool :=
  match e with EBase _ _ _ => false | _ => true end.

Definition is_meridian (e : exn) : bool :=
  match e with EMeridian _ _ _ _ _ => true | _ => false end.

(** [type(error).__name__]: the part of the qualified name after the last dot. *)
Fixpoint last_component_go (cur s : string) : string :=
  match s with
  | "" => String.rev cur
  | String c s' =>
      if bool_decide (c = "."%char) then last_component_go "" s'
      else last_component_go (String c cur) s'
  end%string.
Definition last_component (s : string) : string := last_component_go "" s.

Definition type_name (e : exn) : string :=
  match e with
  | EMeridian _ cls _ _ _ => cls
  | EPython _ q _ | EBase _ q _ => last_component q
  end.

Definition ValueError (m : string) : exn := EPython "builtins" "ValueError" m.
Definition TypeError (m : string) : exn := EPython "builtins" "TypeError" m.
Definition KeyError (m : string) : exn := EPython "builtins" "KeyError" m.
Definition RuntimeError (m : string) : exn := EPython "builtins" "RuntimeError" m.
Definition OverflowError (m : string) : exn := EPython "builtins" "OverflowError" m.
Definition AssertionError : exn := EPython "builtins" "AssertionError" "".

(** [except ValueError] also catches its standard-library subclasses. *)
Definition is_value_error (e : exn) : bool :=
  match e with
  | EPython _ q _ => bool_decide (q ∈ ["ValueError"; "UnicodeDecodeError"; "JSONDecodeError"]%string)
  | _ => false
  end.

(** ** Pure code that can raise *)
Inductive res (A : Type) : Type := Ok (a : A) | Raise (e : exn).
Arguments Ok {A} a.
Arguments Raise {A} e.

#[export] Instance res_eq_dec `{EqDecision A} : EqDecision (res A).
Proof. solve_decision. Defined.

Definition res_bind {A B} (r : res A) (k : A → res B) : res B :=
  match r with Ok a => k a | Raise e => Raise e end.
Definition res_map {A B} (f : A → B) (r : res A) : res B :=
  match r with Ok a => Ok (f a) | Raise e => Raise e end.

Notation "'let?' x ':=' r 'in' k" := (res_bind r (λ x, k))
  (at level 10, x binder, r at level 100, k at level 200) : py_scope.
Notation "'do?' r 'in' k" := (res_bind r (λ _, k))
  (at level 10, r at level 100, k at level 200) : py_scope.

(** [if b: raise e] *)
Definition raise_if (b : bool) (e : exn) : res unit :=
  if b then Raise e else Ok ().

(** [tuple(f(x) for x in l)] *)
Section res_all.
Context {A B : Type} (f : A → res B).
Fixpoint res_all (l : list A) : res (list B) :=
  match l with
  | [] => Ok []
  | x :: l' => let? y := f x in let? ys := res_all l' in Ok (y :: ys)
  end.
End res_all.

(** The exceptions of a pure computation. *)
Definition raises_only {A} (P : exn → Prop) (r : res A) : Prop := ∀ e, r = Raise e → P e.

Section raises_only.
Context {P : exn → Prop}.
Lemma raises_ok {A} (a : A) : raises_only P (Ok a).
Proof. done. Qed.
Lemma raises_raise {A} e : P e → raises_only P (Raise e : res A).
Proof. by intros He e' [= <-]. Qed.
Lemma raises_bind {A B} (r : res A) (k : A → res B) :
  raises_only P r → (∀ a, raises_only P (k a)) → raises_only P (res_bind r k).
Proof. intros Hr Hk. destruct r as [a|e]; [apply Hk|]. intros e' [= <-]. by apply Hr. Qed.
Lemma raises_map {A B} (f : A → B) (r : res A) : raises_only P r → raises_only P (res_map f r).
Proof. intros Hr. destruct r as [a|e]; [done|]. intros e' [= <-]. by apply Hr. Qed.
Lemma raises_all {A B} (f : A → res B) l : Forall (λ x, raises_only P (f x)) l → raises_only P (res_all f l).
Proof.
  induction 1 as [|x l Hx _ IH]; [apply raises_ok|]. cbn [res_all]. apply raises_bind; [done|intros y].
  apply raises_bind; [done|intros]. apply raises_ok.
Qed.
End raises_only.

Definition is_ok {A} (r : res A) : bool :=
  match r with Ok _ => true | Raise _ => false end.

Lemma res_bind_ok {A B} (r : res A) (k : A → res B) b :
  res_bind r k = Ok b ↔ ∃ a, r = Ok a ∧ k a = Ok b.
Proof. destruct r; simpl; split; [eauto|by intros (? & [= <-] & ?)|done|by intros (? & ? & _)]. Qed.

Lemma res_bind_intro {A B} (r : res A) (k : A → res B) a b :
  r = Ok a → k a = Ok b → res_bind r k = Ok b.
Proof. by intros ->. Qed.

Lemma res_map_ok {A B} (f : A → B) (r : res A) b :
  res_map f r = Ok b ↔ ∃ a, r = Ok a ∧ b = f a.
Proof.
  destruct r; simpl; split; [intros [= <-]; eauto|by intros (? & [= <-] & ->)|done|].
  by intros (? & [=] & _).
Qed.

Lemma raise_if_ok b e u : raise_if b e = Ok u ↔ b = false.
Proof. destruct b, u; simpl; split; done. Qed.

Lemma raise_if_intro b e : b = false → raise_if b e = Ok ().
Proof. by intros ->. Qed.

(** Split the hypotheses that say a chain of fallible steps succeeded. *)
Ltac simplify_res :=
  repeat match goal with
  | H : res_bind _ _ = Ok _ |- _ => apply res_bind_ok in H as (? & ? & H)
  | H : res_map _ _ = Ok _ |- _ => apply res_map_ok in H as (? & H & ?)
  | H : raise_if _ _ = Ok _ |- _ => apply raise_if_ok in H
  | H : Ok _ = Ok _ |- _ => injection H as H
  | H : Raise _ = Ok _ |- _ => discriminate H
  | u : unit |- _ => destruct u
  end; subst.

Ltac simplify_bool :=
  repeat match goal with
  | H : negb _ = false |- _ => apply negb_false_iff in H
  | H : negb _ = true |- _ => apply negb_true_iff in H
  | H : bool_decide _ = true |- _ => apply bool_decide_eq_true in H
  | H : bool_decide _ = false |- _ => apply bool_decide_eq_false in H
  | H : String.eqb _ _ = true |- _ => apply String.eqb_eq in H
  | H : String.eqb _ _ = false |- _ => apply String.eqb_neq in H
  | H : _ || _ = false |- _ => apply orb_false_iff in H as [? ?]
  | H : _ && _ = true |- _ => apply andb_true_iff in H as [? ?]
  | H : (_ <? _) = true |- _ => apply Z.ltb_lt in H
  | H : (_ <? _) = false |- _ => apply Z.ltb_ge in H
  | H : (_ <=? _) = true |- _ => apply Z.leb_le in H
  | H : (_ <=? _) = false |- _ => apply Z.leb_gt in H
  end.

(** ** Stateful code that can raise

    A computation takes the world [W] it runs in (the object's own state, the
    state of the collaborators it is injected with, or both) and returns its
    outcome with the world it leaves behind; what was written before an
    exception stays written. *)
Definition M (W A : Type) : Type := W → res A * W.

Section monad.
Context {W : Type}.

Definition ret {A} (a : A) : M W A := λ w, (Ok a, w).
Definition raise {A} (e : exn) : M W A := λ w, (Raise e, w).
Definition lift_res {A} (r : res A) : M W A := λ w, (r, w).
Definition get : M W W := λ w, (Ok w, w).
Definition put (w : W) : M W unit := λ _, (Ok (), w).
Definition gets {A} (f : W → A) : M W A := λ w, (Ok (f w), w).
Definition modify (f : W → W) : M W unit := λ w, (Ok (), f w).

Definition bind {A B} (m : M W A) (k : A → M W B) : M W B := λ w,
  match m w with
  | (Ok a, w') => k a w'
  | (Raise e, w') => (Raise e, w')
  end.

(** [try: m except <catches> as error: h(error)] *)
Definition try_except {A} (m : M W A) (catches : exn → bool) (h : exn → M W A) : M W A := λ w,
  match m w with
  | (Ok a, w') => (Ok a, w')
  | (Raise e, w') => if catches e then h e w' else (Raise e, w')
  end.

(** [try: m finally: f]: an exception of [f] replaces the outcome of [m]. *)
Definition try_finally {A} (m : M W A) (f : M W unit) : M W A := λ w,
  let '(r, w') := m w in
  match f w' with
  | (Ok _, w'') => (r, w'')
  | (Raise e, w'') => (Raise e, w'')
  end.

(** [for x in l: s = body(s, x)], the loop's local variables being [s]. *)
Fixpoint for_list {A S} (l : list A) (s : S) (body : S → A → M W S) : M W S :=
  match l with
  | [] => ret s
  | x :: l' => bind (body s x) (λ s', for_list l' s' body)
  end.

Fixpoint map_list {A B} (f : A → M W B) (l : list A) : M W (list B) :=
  match l with
  | [] => ret []
  | x :: l' => bind (f x) (λ y, bind (map_list f l') (λ ys, ret (y :: ys)))
  end.
End monad.

Notation "'let!' x ':=' m 'in' k" := (bind m (λ x, k))
  (at level 10, x binder, m at level 100, k at level 200) : py_scope.
Notation "'do!' m 'in' k" := (bind m (λ _, k))
  (at level 10, m at level 100, k at level 200) : py_scope.

(** Run a computation on the second component of a larger world. *)
Definition lift_snd {L W A} (m : M W A) : M (L * W) A := λ '(l, w),
  let '(r, w') := m w in (r, (l, w')).

(** Run a computation on the first component of a larger world. *)
Definition lift_fst {W X A} (m : M W A) : M (W * X) A := λ '(w, x),
  let '(r, w') := m w in (r, (w', x)).

(** Run a body whose local variables outlive the exceptions it catches: they
    are kept beside the world, start at [l], and are returned with the value. *)
Definition with_locals {L W A} (l : L) (m : M (L * W) A) : M W (A * L) := λ w,
  match m (l, w) with
  | (Ok a, (l', w')) => (Ok (a, l'), w')
  | (Raise e, (_, w')) => (Raise e, w')
  end.

Definition get_locals {L W} : M (L * W) L := λ lw, (Ok lw.1, lw).
Definition set_locals {L W} (f : L → L) : M (L * W) unit := λ '(l, w), (Ok (), (f l, w)).

(** ** Iterables

    The iterable a hook returns is consumed by calls to [next], each of which
    may run code, raise, or end the iteration.  The type is inductive, so an
    iterable is finite whatever the collaborators do, with a length that may
    depend on them. *)
Inductive iter (W A : Type) : Type :=
  MkIter (next : W → res (option (A * iter W A)) * W).
Arguments MkIter {W A} next.

(** [for x in it: s = body(s, x)] *)
Fixpoint for_iter {W A S} (it : iter W A) (s : S) (body : S → A → M W S) : M W S := λ w,
  match it with
  | MkIter next =>
      match next w with
      | (Ok None, w') => (Ok s, w')
      | (Ok (Some (x, it')), w') =>
          match body s x w' with
          | (Ok s', w'') => for_iter it' s' body w''
          | (Raise e, w'') => (Raise e, w'')
          end
      | (Raise e, w') => (Raise e, w')
      end
  end.

Fixpoint iter_of_list {W A} (l : list A) : iter W A :=
  MkIter (λ w, match l with
               | [] => (Ok None, w)
               | x :: l' => (Ok (Some (x, iter_of_list l')), w)
               end).

(** ** Recording the calls made to collaborators

    [recorded ev m] runs [m] and appends the event [ev r] to the log, [r] being
    the outcome.  The theorems about the order of calls are stated about a
    coordinator whose hooks are recorded; the coordinator itself has no log. *)
Definition recorded {E W A} (ev : res A → E) (m : M W A) : M (list E * W) A := λ '(l, w),
  let '(r, w') := m w in (r, (l ++ [ev r], w')).

(** ** Weakest preconditions of computations *)
Definition wp {W A} (m : M W A) (Q : res A → W → Prop) (w : W) : Prop :=
  Q (m w).1 (m w).2.

Section wp.
Context {W : Type}.
Implicit Types (w : W).

Lemma wp_mono {A} (m : M W A) (Q Q' : res A → W → Prop) w :
  wp m Q w → (∀ r w', Q r w' → Q' r w') → wp m Q' w.
Proof. unfold wp. auto. Qed.

Lemma wp_ret {A} (a : A) (Q : res A → W → Prop) w : Q (Ok a) w → wp (ret a) Q w.
Proof. done. Qed.

Lemma wp_raise {A} e (Q : res A → W → Prop) w : Q (Raise e) w → wp (raise e) Q w.
Proof. done. Qed.

Lemma wp_lift_res {A} (r : res A) (Q : res A → W → Prop) w : Q r w → wp (lift_res r) Q w.
Proof. done. Qed.

Lemma wp_bind {A B} (m : M W A) (k : A → M W B) (Q : res B → W → Prop) w :
  wp m (λ r w', match r with Ok a => wp (k a) Q w' | Raise e => Q (Raise e) w' end) w →
  wp (bind m k) Q w.
Proof. unfold wp, bind. destruct (m w) as [[a|e] w']; auto. Qed.

Lemma wp_try_except {A} (m : M W A) (c : exn → bool) (h : exn → M W A) (Q : res A → W → Prop) w :
  wp m (λ r w', match r with
                | Ok a => Q (Ok a) w'
                | Raise e => if c e then wp (h e) Q w' else Q (Raise e) w'
                end) w →
  wp (try_except m c h) Q w.
Proof. unfold wp, try_except. destruct (m w) as [[a|e] w']; simpl; [done|]. by destruct (c e). Qed.

Lemma wp_try_finally {A} (m : M W A) (f : M W unit) (Q : res A → W → Prop) w :
  wp m (λ r w', wp f (λ r' w'', match r' with Ok _ => Q r w'' | Raise e => Q (Raise e) w'' end) w') w →
  wp (try_finally m f) Q w.
Proof.
  unfold wp, try_finally. destruct (m w) as [r w']; simpl.
  destruct (f w') as [[?|e] w'']; auto.
Qed.

Lemma wp_for_list {A S} (I : list A → S → W → Prop) (l : list A) (s : S)
    (body : S → A → M W S) (Q : res S → W → Prop) w :
  I l s w →
  (∀ s w, I [] s w → Q (Ok s) w) →
  (∀ x l s w, I (x :: l) s w →
    wp (body s x) (λ r w', match r with Ok s' => I l s' w' | Raise e => Q (Raise e) w' end) w) →
  wp (for_list l s body) Q w.
Proof.
  intros HI Hdone Hbody. revert s w HI. induction l as [|x l IH]; intros s w HI; simpl.
  - apply wp_ret. auto.
  - apply wp_bind. eapply wp_mono; [by apply Hbody|].
    intros [s'|e] w'; auto.
Qed.
End wp.

Lemma iter_induction {W A} (P : iter W A → Prop) :
  (∀ next, (∀ w x it w', next w = (Ok (Some (x, it)), w') → P it) → P (MkIter next)) →
  ∀ it, P it.
Proof.
  intros Hnext. fix IH 1. intros [next]. apply Hnext. intros w x it w'.
  destruct (next w) as [[[[x' it']|]|e] w'']; intros E;
    [|discriminate E..].
  injection E as <- <- <-. apply IH.
Qed.

(** An exception that leaves a loop was raised by an iteration, in a state
    where the invariant held. *)
Lemma wp_for_iter {W A S} (I : S → W → Prop) (it : iter W A) (s : S)
    (body : S → A → M W S) (Q : res S → W → Prop) w :
  (∀ s w (next : W → res (option (A * iter W A)) * W), I s w →
     match (next w).1 with
     | Ok None => Q (Ok s) (next w).2
     | Ok (Some (x, _)) =>
         wp (body s x) (λ r w', match r with Ok s' => I s' w' | Raise e => Q (Raise e) w' end) (next w).2
     | Raise e => Q (Raise e) (next w).2
     end) →
  I s w → wp (for_iter it s body) Q w.
Proof.
  intros Hstep. revert s w. induction it as [next IH] using iter_induction.
  intros s w HI. specialize (Hstep s w next HI). specialize (IH w).
  unfold wp in *; simpl. destruct (next w) as [[[[x it']|]|e] w']; simpl in *; [|done..].
  destruct (body s x w') as [[s'|e] w'']; simpl in *; [|done]. by eapply IH.
Qed.

Lemma wp_recorded {E W A} (ev : res A → E) (m : M W A) (Q : res A → list E * W → Prop) l w :
  (∀ r w', Q r (l ++ [ev r], w')) → wp (recorded ev m) Q (l, w).
Proof. intros HQ. unfold wp, recorded. destruct (m w) as [r w']. apply HQ. Qed.

Lemma wp_lift_snd {L W A} (m : M W A) (Q : res A → L * W → Prop) l w :
  (∀ r w', Q r (l, w')) → wp (lift_snd m) Q (l, w).
Proof. intros HQ. unfold wp, lift_snd. destruct (m w) as [r w']. apply HQ. Qed.

Lemma wp_with_locals {L W A} (l : L) (m : M (L * W) A) (Q : res (A * L) → W → Prop) w :
  wp m (λ r lw, match r with Ok a => Q (Ok (a, lw.1)) lw.2 | Raise e => Q (Raise e) lw.2 end) (l, w) →
  wp (with_locals l m) Q w.
Proof. unfold wp, with_locals. by destruct (m (l, w)) as [[a|e] [l' w']]. Qed.

Lemma wp_set_locals {L W} (f : L → L) (Q : res unit → L * W → Prop) l w :
  Q (Ok ()) (f l, w) → wp (set_locals f) Q (l, w).
Proof. done. Qed.

Lemma wp_lift_snd_run {L W A} (m : M W A) (Q : res A → L * W → Prop) l w :
  wp m (λ r w', Q r (l, w')) w → wp (lift_snd m) Q (l, w).
Proof. unfold wp, lift_snd. by destruct (m w). Qed.

Lemma wp_lift_fst {W X A} (m : M W A) (Q : res A → W * X → Prop) w x :
  wp m (λ r w', Q r (w', x)) w → wp (lift_fst m) Q (w, x).
Proof. unfold wp, lift_fst. by destruct (m w). Qed.

Lemma wp_get_locals {L W} (Q : res L → L * W → Prop) lw : Q (Ok lw.1) lw → wp get_locals Q lw.
Proof. done. Qed.

Lemma wp_eq {W A} (m : M W A) (Q : res A → W → Prop) w r w' :
  m w = (r, w') → Q r w' → wp m Q w.
Proof. unfold wp. by intros ->. Qed.

(** [m] returns, whatever the world, a value that satisfies [Q]. *)
Definition succeeds {W A} (m : M W A) (Q : A → Prop) : Prop := ∀ w, ∃ a w', m w = (Ok a, w') ∧ Q a.

Lemma succeeds_wp {W A} (m : M W A) (P : A → Prop) (Q : res A → W → Prop) w :
  succeeds m P → (∀ a w', P a → Q (Ok a) w') → wp m Q w.
Proof. intros Hm HQ. destruct (Hm w) as (a & w' & Hrun & Ha). unfold wp. rewrite Hrun. by apply HQ. Qed.

Lemma wp_run {W A} (m : M W A) (Q : res A → W → Prop) w :
  wp m Q w → ∃ r w', m w = (r, w') ∧ Q r w'.
Proof. unfold wp. destruct (m w) as [r w'] eqn:E. eauto. Qed.

Global Opaque wp.

(** A pure step: its outcome with the equation [H]. *)
Ltac wp_check H :=
  apply wp_bind, wp_lift_res;
  lazymatch goal with |- match ?r with Ok _ => _ | Raise _ => _ end => destruct r eqn:H end;
  repeat match goal with u : unit |- _ => destruct u end.

(** Steps that end a computation, and checks that pass. *)
Create HintDb python.
#[export] Hint Resolve wp_ret wp_raise wp_lift_res raise_if_intro res_bind_intro : python.

(** ** Strings

    A Python [str] is represented by its UTF-8 encoding (lone surrogates
    excluded): concatenation, equality, the order of [<] (code points compare
    like their encodings) and JSON output are then operations on the bytes. *)

(** [bool(s)] *)
Definition nonempty (s : string) : bool := negb (String.eqb s "").

(** [sep.join(l)] *)
Fixpoint join (sep : string) (l : list string) : string :=
  match l with
  | [] => ""
  | [s] => s
  | s :: l' => s +:+ sep +:+ join sep l'
  end.

Fixpoint strip_prefix (p s : string) : option string :=
  match p, s with
  | "", _ => Some s
  | String a p', String b s' => if bool_decide (a = b) then strip_prefix p' s' else None
  | _, "" => None
  end%string.

(** [s.replace(old, new)] for a non-empty [old]: left to right, without overlap.
    The fuel is the length of the string. *)
Fixpoint replace_go (fuel : nat) (old new s : string) : string :=
  match fuel with
  | O => s
  | S fuel' =>
      match strip_prefix old s with
      | Some rest => new +:+ replace_go fuel' old new rest
      | None => match s with
                | "" => ""
                | String c s' => String c (replace_go fuel' old new s')
                end%string
      end
  end.
Definition str_replace (old new s : string) : string := replace_go (String.length s) old new s.

(** The decimal digit of [0 <= d < 10], and the last [w] decimal digits of [z]. *)
Definition digit (d : Z) : ascii := ascii_of_N (Z.to_N (48 + d)).
Fixpoint digits (w : nat) (z : Z) : string :=
  match w with
  | O => ""
  | S w' => digits w' (z / 10) +:+ String (digit (z mod 10)) ""
  end.

(** [repr(s)]: single quotes unless the text has a single and no double quote;
    backslash, the quote and control characters escaped.  Text above ASCII is
    kept (Python escapes its unprintable part). *)
Definition hex_digit (d : Z) : ascii :=
  if d <? 10 then ascii_of_N (Z.to_N (48 + d)) else ascii_of_N (Z.to_N (87 + d)).

Fixpoint has_char (c : ascii) (s : string) : bool :=
  match s with "" => false | String d s' => bool_decide (c = d) || has_char c s' end%string.

Definition quote_char : ascii := "'"%char.
Definition dquote_char : ascii := ascii_of_N 34.
Definition backslash : ascii := ascii_of_N 92.

Definition repr_char (q c : ascii) : string :=
  let n := Z.of_N (N_of_ascii c) in
  if bool_decide (c = q) || bool_decide (c = backslash) then String backslash (String c "")
  else if n =? 9 then String backslash "t"
  else if n =? 10 then String backslash "n"
  else if n =? 13 then String backslash "r"
  else if (n <? 32) || (n =? 127) then
    String backslash (String "x"%char (String (hex_digit (n / 16)) (String (hex_digit (n mod 16)) "")))
  else String c "".

Fixpoint repr_body (q : ascii) (s : string) : string :=
  match s with "" => "" | String c s' => repr_char q c +:+ repr_body q s' end%string.

Definition py_repr (s : string) : string :=
  let q := if has_char quote_char s && negb (has_char dquote_char s)
           then dquote_char else quote_char in
  String q (repr_body q s +:+ String q "").

(** [len(set(l)) == len(l)] *)
Definition unique (l : list string) : bool := bool_decide (NoDup l).

(** [if supplied and supplied != expected: raise] let the value through. *)
Lemma supplied_matches supplied expected :
  nonempty supplied && negb (String.eqb supplied expected) = false ↔
  supplied = ""%string ∨ supplied = expected.
Proof.
  unfold nonempty. destruct (String.eqb_spec supplied ""), (String.eqb_spec supplied expected);
    simpl; split; try done; auto; by intros [?|?].
Qed.

Lemma strip_prefix_app p s : strip_prefix p (p +:+ s) = Some s.
Proof.
  induction p as [|c p IH]; [by destruct s|]. simpl. rewrite bool_decide_true by done. exact IH.
Qed.

Lemma nonempty_spec s : nonempty s = true ↔ s ≠ ""%string.
Proof.
  unfold nonempty. rewrite negb_true_iff. destruct (String.eqb_spec s ""); naive_solver.
Qed.
Lemma nonempty_false s : nonempty s = false ↔ s = ""%string.
Proof.
  unfold nonempty. rewrite negb_false_iff. apply String.eqb_eq.
Qed.
