(* ===== verification/PyTime.v ===== *)
(** * Date and time

    The part of Python's [datetime] the lifecycle code uses, and the helpers
    [ensure_utc] and [rfc3339] of [_canonical.py].

    A [datetime] is a local time in microseconds since 0001-01-01T00:00:00 with
    the offset from UTC its [tzinfo] gives ([None]: naive).  A value normalised
    to UTC is an [instant], the number of microseconds; an instant has the range
    of the type, and arithmetic outside it raises [OverflowError].  A
    [timedelta] is its exact number of microseconds. *)
From S2P Require Import Prelude.
From Stdlib Require Import SpecFloat.

Definition us_per_second : Z := 1000000.
Definition us_per_day : Z := 86400 * us_per_second.
(** The first microsecond after 9999-12-31T23:59:59.999999. *)
Definition max_instant : Z := 3652059 * us_per_day.

Abbreviation instant := Z.
Abbreviation timedelta := Z.

Definition in_range (t : Z) : bool := (0 <=? t) && (t <? max_instant).

Record datetime : Type := Datetime { local : Z; utcoffset : option Z }.

#[export] Instance datetime_eq_dec : EqDecision datetime.
Proof. solve_decision. Defined.

(** The aware UTC datetime of an instant. *)
Definition at_utc (t : instant) : datetime := Datetime t (Some 0).

Definition date_overflow : exn := OverflowError "date value out of range".

(** [_canonical.ensure_utc] *)
Definition ensure_utc (value : datetime) (field : string) : res instant :=
  match utcoffset value with
  | None => Raise (ValueError (field +:+ " must be timezone-aware"))
  | Some off =>
      let t := local value - off in
      if in_range t then Ok t else Raise date_overflow
  end.

(** [t + delta] *)
Definition dt_add (t : instant) (delta : timedelta) : res instant :=
  if in_range (t + delta) then Ok (t + delta) else Raise date_overflow.

(** ** Calendar *)
Definition days_before_month (month : Z) : Z :=
  nth (Z.to_nat month) [0; 0; 31; 59; 90; 120; 151; 181; 212; 243; 273; 304; 334] 0.
Definition days_in_month (month : Z) : Z :=
  nth (Z.to_nat month) [0; 31; 28; 31; 30; 31; 30; 31; 31; 30; 31; 30; 31] 0.

(** [datetime.date.fromordinal], day 1 being 0001-01-01. *)
Definition ord2ymd (ordinal : Z) : Z * Z * Z :=
  let n := ordinal - 1 in
  let n400 := n / 146097 in let n := n mod 146097 in
  let n100 := n / 36524 in let n := n mod 36524 in
  let n4 := n / 1461 in let n := n mod 1461 in
  let n1 := n / 365 in let n := n mod 365 in
  let year := n400 * 400 + 1 + n100 * 100 + n4 * 4 + n1 in
  if (n1 =? 4) || (n100 =? 4) then (year - 1, 12, 31)
  else
    let leap := (n1 =? 3) && (negb (n4 =? 24) || (n100 =? 3)) in
    let month := Z.shiftr (n + 50) 5 in
    let preceding := days_before_month month + Z.b2z ((2 <? month) && leap) in
    if n <? preceding then
      let month := month - 1 in
      let preceding := preceding - (days_in_month month + Z.b2z ((month =? 2) && leap)) in
      (year, month, n - preceding + 1)
    else (year, month, n - preceding + 1).

(** [value.isoformat(timespec="microseconds")] of an aware UTC value. *)
Definition isoformat_utc (t : instant) : string :=
  let '(y, m, d) := ord2ymd (t / us_per_day + 1) in
  let us := t mod us_per_day in
  let s := us / us_per_second in
  digits 4 y +:+ "-" +:+ digits 2 m +:+ "-" +:+ digits 2 d +:+ "T" +:+
  digits 2 (s / 3600) +:+ ":" +:+ digits 2 (s / 60 mod 60) +:+ ":" +:+ digits 2 (s mod 60) +:+
  "." +:+ digits 6 (us mod us_per_second) +:+ "+00:00".

(** [_canonical.rfc3339] of a value already normalised to UTC. *)
Definition rfc3339 (t : instant) : string := str_replace "+00:00" "Z" (isoformat_utc t).

Example rfc3339_epoch : rfc3339 (719162 * us_per_day) = "1970-01-01T00:00:00.000000Z"%string.
Proof. vm_compute. reflexivity. Qed.
Example rfc3339_leap : rfc3339 (738944 * us_per_day + 3723000004) = "2024-02-29T01:02:03.000004Z"%string.
Proof. vm_compute. reflexivity. Qed.

(** ** Floats

    A Python [float] is an IEEE 754 binary64 number, computed with the Standard
    Library's [spec_float].  Integers passed where a float is annotated are
    taken as their (exact) float value. *)
Abbreviation float := spec_float.

Definition f64_mul : float → float → float := SFmul 53 1024.
Definition f64_div : float → float → float := SFdiv 53 1024.
Definition f64_of_Z (z : Z) : float := binary_normalize 53 1024 z 0 false.
Definition f64_lt : float → float → bool := SFltb.
Definition f64_le : float → float → bool := SFleb.
Definition f64_zero : float := S754_zero false.

Definition f64_isfinite (x : float) : bool :=
  match x with S754_infinity _ | S754_nan => false | _ => true end.

(** [delta.total_seconds()], correctly rounded while the number of microseconds
    is below 2^53 (285 years). *)
Definition total_seconds (delta : timedelta) : float :=
  f64_div (f64_of_Z delta) (f64_of_Z us_per_second).

(** The integral and fractional parts of a finite magnitude [m * 2^e]. *)
Definition split_finite (m : positive) (e : Z) : Z * float :=
  if 0 <=? e then (Zpos m * 2 ^ e, f64_zero)
  else (Zpos m / 2 ^ (- e), binary_normalize 53 1024 (Zpos m mod 2 ^ (- e)) e false).

Definition nan_to_int : exn := ValueError "cannot convert float NaN to integer".
Definition inf_to_int : exn := OverflowError "cannot convert float infinity to integer".

(** [int(x)] *)
Definition f64_trunc (x : float) : res Z :=
  match x with
  | S754_zero _ => Ok 0
  | S754_finite s m e =>
      let i := (split_finite m e).1 in Ok (if s then - i else i)
  | S754_infinity _ => Raise inf_to_int
  | S754_nan => Raise nan_to_int
  end.

(** A non-negative finite float rounded to an integer, ties to even. *)
Definition round_half_even (x : float) : Z :=
  match x with
  | S754_finite false m e =>
      if 0 <=? e then Zpos m * 2 ^ e
      else
        let d := 2 ^ (- e) in
        let q := Zpos m / d in
        match 2 * (Zpos m mod d) ?= d with
        | Lt => q
        | Gt => q + 1
        | Eq => if Z.even q then q else q + 1
        end
  | _ => 0
  end.

Definition max_timedelta_days : Z := 999999999.

(** [timedelta(seconds=x)] *)
Definition timedelta_seconds (x : float) : res timedelta :=
  let? us :=
    match x with
    | S754_zero _ => Ok 0
    | S754_finite s m e =>
        let '(i, frac) := split_finite m e in
        let us := i * us_per_second + round_half_even (f64_mul (f64_of_Z us_per_second) frac) in
        Ok (if s then - us else us)
    | S754_infinity _ => Raise inf_to_int
    | S754_nan => Raise nan_to_int
    end in
  if Z.abs (us / us_per_day) <=? max_timedelta_days then Ok us
  else Raise (OverflowError "days out of range").

(** [max(1, int(ttl.total_seconds() * 1000))]: the product is a binary64
    product, so 1.001 s gives 1000 and not 1001 milliseconds. *)
Definition ttl_ms (ttl : timedelta) : res Z :=
  let? ms := f64_trunc (f64_mul (total_seconds ttl) (f64_of_Z 1000)) in Ok (Z.max 1 ms).

Example timedelta_60s : timedelta_seconds (f64_of_Z 60) = Ok 60000000.
Proof. vm_compute. reflexivity. Qed.
Example timedelta_quarter_ms :
  timedelta_seconds (f64_div (f64_of_Z 1) (f64_of_Z 4000)) = Ok 250.
Proof. vm_compute. reflexivity. Qed.
Example ttl_ms_30s : ttl_ms (30 * us_per_second) = Ok 30000.
Proof. vm_compute. reflexivity. Qed.
Example ttl_ms_1001ms : ttl_ms 1001000 = Ok 1000.
Proof. vm_compute. reflexivity. Qed.

(** ** Lemmas *)
Lemma in_range_spec t : in_range t = true ↔ 0 ≤ t < max_instant.
Proof. unfold in_range. lia. Qed.

Lemma ensure_utc_ok v f t :
  ensure_utc v f = Ok t → in_range t = true ∧ ∃ off, utcoffset v = Some off ∧ t = local v - off.
Proof.
  unfold ensure_utc. destruct (utcoffset v) as [off|]; [|done].
  destruct (in_range (local v - off)) eqn:E; [|done]. intros [= <-]. eauto.
Qed.

Lemma ensure_utc_at_utc t f : in_range t = true → ensure_utc (at_utc t) f = Ok t.
Proof.
  intros Ht. unfold ensure_utc, at_utc. cbn [utcoffset local].
  rewrite Z.sub_0_r, Ht. done.
Qed.

Lemma dt_add_ok t d u : dt_add t d = Ok u → u = t + d ∧ in_range u = true.
Proof. unfold dt_add. destruct (in_range (t + d)) eqn:E; [|done]. by intros [= <-]. Qed.

Lemma ttl_ms_positive ttl ms : ttl_ms ttl = Ok ms → 1 ≤ ms.
Proof. unfold ttl_ms. destruct (f64_trunc _); simpl; [|done]. intros [= <-]. lia. Qed.
