(* ===== verification/Sha256.v ===== *)
(** * SHA-256

    [hashlib.sha256(data).hexdigest()] of the standard library, written out on
    32-bit words so that every digest of the development evaluates.  The
    incremental interface ([update]) is the digest of the concatenation.
    Nothing in the development assumes that the function has no collisions. *)
From S2P Require Import Prelude.

Definition w32 (z : Z) : Z := Z.land z 4294967295.
Definition add32 (x y : Z) : Z := w32 (x + y).
Definition rotr (n x : Z) : Z := Z.lor (Z.shiftr x n) (w32 (Z.shiftl x (32 - n))).

Definition big_sigma0 (x : Z) : Z := Z.lxor (rotr 2 x) (Z.lxor (rotr 13 x) (rotr 22 x)).
Definition big_sigma1 (x : Z) : Z := Z.lxor (rotr 6 x) (Z.lxor (rotr 11 x) (rotr 25 x)).
Definition small_sigma0 (x : Z) : Z := Z.lxor (rotr 7 x) (Z.lxor (rotr 18 x) (Z.shiftr x 3)).
Definition small_sigma1 (x : Z) : Z := Z.lxor (rotr 17 x) (Z.lxor (rotr 19 x) (Z.shiftr x 10)).
Definition ch (x y z : Z) : Z := Z.lxor (Z.land x y) (Z.land (Z.lxor x 4294967295) z).
Definition maj (x y z : Z) : Z := Z.lxor (Z.land x y) (Z.lxor (Z.land x z) (Z.land y z)).

Definition round_constants : list Z :=
  [1116352408; 1899447441; 3049323471; 3921009573; 961987163; 1508970993; 2453635748; 2870763221;
   3624381080; 310598401; 607225278; 1426881987; 1925078388; 2162078206; 2614888103; 3248222580;
   3835390401; 4022224774; 264347078; 604807628; 770255983; 1249150122; 1555081692; 1996064986;
   2554220882; 2821834349; 2952996808; 3210313671; 3336571891; 3584528711; 113926993; 338241895;
   666307205; 773529912; 1294757372; 1396182291; 1695183700; 1986661051; 2177026350; 2456956037;
   2730485921; 2820302411; 3259730800; 3345764771; 3516065817; 3600352804; 4094571909; 275423344;
   430227734; 506948616; 659060556; 883997877; 958139571; 1322822218; 1537002063; 1747873779;
   1955562222; 2024104815; 2227730452; 2361852424; 2428436474; 2756734187; 3204031479; 3329325298].

Record hash_state : Type := HashState { ha : Z; hb : Z; hc : Z; hd : Z; he : Z; hf : Z; hg : Z; hh : Z }.

Definition initial_state : hash_state :=
  HashState 1779033703 3144134277 1013904242 2773480762 1359893119 2600822924 528734635 1541459225.

(** The message schedule, most recent word first. *)
Fixpoint schedule (n : nat) (w : list Z) : list Z :=
  match n with
  | O => w
  | S n' =>
      schedule n'
        (add32 (add32 (small_sigma1 (nth 1 w 0)) (nth 6 w 0))
               (add32 (small_sigma0 (nth 14 w 0)) (nth 15 w 0)) :: w)
  end.

Definition round (s : hash_state) (k w : Z) : hash_state :=
  let t1 := add32 (add32 (hh s) (big_sigma1 (he s)))
                  (add32 (ch (he s) (hf s) (hg s)) (add32 k w)) in
  let t2 := add32 (big_sigma0 (ha s)) (maj (ha s) (hb s) (hc s)) in
  HashState (add32 t1 t2) (ha s) (hb s) (hc s) (add32 (hd s) t1) (he s) (hf s) (hg s).

Fixpoint rounds (s : hash_state) (ks ws : list Z) : hash_state :=
  match ks, ws with
  | k :: ks', w :: ws' => rounds (round s k w) ks' ws'
  | _, _ => s
  end.

Definition compress (s : hash_state) (block : list Z) : hash_state :=
  let r := rounds s round_constants (reverse (schedule 48 (reverse block))) in
  HashState (add32 (ha s) (ha r)) (add32 (hb s) (hb r)) (add32 (hc s) (hc r)) (add32 (hd s) (hd r))
            (add32 (he s) (he r)) (add32 (hf s) (hf r)) (add32 (hg s) (hg r)) (add32 (hh s) (hh r)).

Fixpoint bytes_of_string (s : string) : list Z :=
  match s with
  | "" => []
  | String c s' => Z.of_N (N_of_ascii c) :: bytes_of_string s'
  end%string.

Fixpoint words_of_bytes (l : list Z) : list Z :=
  match l with
  | b0 :: b1 :: b2 :: b3 :: l' =>
      Z.lor (Z.shiftl b0 24) (Z.lor (Z.shiftl b1 16) (Z.lor (Z.shiftl b2 8) b3)) :: words_of_bytes l'
  | _ => []
  end.

Fixpoint be_bytes (n : nat) (z : Z) : list Z :=
  match n with
  | O => []
  | S n' => be_bytes n' (Z.shiftr z 8) ++ [Z.land z 255]
  end.

Definition pad (l : list Z) : list Z :=
  let len := Z.of_nat (length l) in
  l ++ 128 :: replicate (Z.to_nat ((55 - len) mod 64)) 0 ++ be_bytes 8 (8 * len).

Fixpoint blocks (fuel : nat) (s : hash_state) (ws : list Z) : hash_state :=
  match fuel, ws with
  | S fuel', _ :: _ => blocks fuel' (compress s (take 16 ws)) (drop 16 ws)
  | _, _ => s
  end.

Fixpoint hex (n : nat) (z : Z) : string :=
  match n with
  | O => ""
  | S n' => hex n' (z / 16) +:+ String (hex_digit (z mod 16)) ""
  end.

Definition hex_state (s : hash_state) : string :=
  hex 8 (ha s) +:+ hex 8 (hb s) +:+ hex 8 (hc s) +:+ hex 8 (hd s) +:+
  hex 8 (he s) +:+ hex 8 (hf s) +:+ hex 8 (hg s) +:+ hex 8 (hh s).

(** [hashlib.sha256(data).hexdigest()] *)
Definition sha256_hex (data : string) : string :=
  let ws := words_of_bytes (pad (bytes_of_string data)) in
  hex_state (blocks (length ws) initial_state ws).

Example sha256_empty : sha256_hex "" =
  "e3b0c44298fc1c149afbf4c8996fb92427ae41e4649b934ca495991b7852b855"%string.
Proof. vm_compute. reflexivity. Qed.
Example sha256_abc : sha256_hex "abc" =
  "ba7816bf8f01cfea414140de5dae2223b00361a396177a9cb410ff61f20015ad"%string.
Proof. vm_compute. reflexivity. Qed.
Example sha256_two_blocks : sha256_hex "abcdbcdecdefdefgefghfghighijhijkijkljklmklmnlmnomnopnopq" =
  "248d6a61d20638b8e5c026930c3e6039a33ce45964ff2167f6ecedd419db06c1"%string.
Proof. vm_compute. reflexivity. Qed.

(** ** The shape of a digest *)
Definition is_hex_digit (c : ascii) : bool :=
  let n := N_of_ascii c in
  ((48 <=? n) && (n <=? 57) || (97 <=? n) && (n <=? 102))%N.

Fixpoint all_chars (p : ascii → bool) (s : string) : bool :=
  match s with "" => true | String c s' => p c && all_chars p s' end%string.

Lemma all_chars_app p s1 s2 : all_chars p (s1 +:+ s2) = all_chars p s1 && all_chars p s2.
Proof. induction s1 as [|c s1 IH]; simpl; [done|]. rewrite <- andb_assoc. f_equal. apply IH. Qed.

Lemma length_append s1 s2 : String.length (s1 +:+ s2) = (String.length s1 + String.length s2)%nat.
Proof. induction s1 as [|c s1 IH]; simpl; [done|]. f_equal. apply IH. Qed.

Lemma hex_digit_is_hex d : 0 ≤ d < 16 → is_hex_digit (hex_digit d) = true.
Proof.
  intros Hd. unfold hex_digit, is_hex_digit.
  rewrite orb_true_iff, !andb_true_iff, !N.leb_le.
  destruct (Z.ltb_spec d 10); rewrite N_ascii_embedding by lia; lia.
Qed.

Lemma hex_shape n z : String.length (hex n z) = n ∧ all_chars is_hex_digit (hex n z) = true.
Proof.
  revert z. induction n as [|n IH]; intros z; cbn [hex]; [done|].
  rewrite length_append, all_chars_app. destruct (IH (z / 16)) as [-> ->]. cbn [String.length all_chars].
  rewrite hex_digit_is_hex by (apply Z.mod_pos_bound; lia). split; [lia|done].
Qed.

Lemma sha256_hex_shape data :
  String.length (sha256_hex data) = 64%nat ∧ all_chars is_hex_digit (sha256_hex data) = true.
Proof.
  unfold sha256_hex. generalize (blocks (length (words_of_bytes (pad (bytes_of_string data))))
    initial_state (words_of_bytes (pad (bytes_of_string data)))). intros s.
  unfold hex_state. rewrite !length_append, !all_chars_app.
  split; repeat (erewrite (proj1 (hex_shape _ _)) || erewrite (proj2 (hex_shape _ _))); done.
Qed.

Global Opaque sha256_hex.
