(* ===== verification/Canonical.v ===== *)
(** * Canonical JSON ([_canonical.py])

    [pyval] is the universe of Python values the serializer dispatches on,
    [json] the JSON values it produces.  The deeply immutable copies of
    [immutable_value] (mapping proxies and tuples) hold the same data as the
    JSON value they copy and are represented by it: serializing such a copy
    gives the JSON value back.

    Objects keep their insertion order in [JObj], as a [dict] does; the encoder
    sorts the keys.  A finite float is represented by its [repr], which
    determines it. *)
From S2P Require Import Prelude PyTime Sha256.

Inductive json : Type :=
| JNull
| JBool (b : bool)
| JInt (z : Z)
| JFloat (repr : string)
| JStr (s : string)
| JArr (items : list json)
| JObj (entries : list (string * json)).

Inductive pyfloat : Type := FFinite (repr : string) | FNan | FInfinity (negative : bool).

Inductive pyval : Type :=
| PNone
| PBool (b : bool)
| PInt (z : Z)
| PFloat (f : pyfloat)
| PStr (s : string)
| PDatetime (t : datetime)
| PEnum (value : pyval)
| PDataclass (fields : list (string * pyval))
| PMapping (items : list (pyval * pyval))
| PSequence (items : list pyval)
| POther (type_name : string).

Section json_induction.
Context (P : json → Prop)
  (Hnull : P JNull) (Hbool : ∀ b, P (JBool b)) (Hint : ∀ z, P (JInt z))
  (Hfloat : ∀ r, P (JFloat r)) (Hstr : ∀ s, P (JStr s))
  (Harr : ∀ l, Forall P l → P (JArr l))
  (Hobj : ∀ l, Forall (λ e, P e.2) l → P (JObj l)).

Fixpoint json_induction (j : json) : P j :=
  match j with
  | JNull => Hnull
  | JBool b => Hbool b
  | JInt z => Hint z
  | JFloat r => Hfloat r
  | JStr s => Hstr s
  | JArr l => Harr l ((fix go l := match l return Forall P l with
                       | [] => Forall_nil_2 _
                       | x :: l' => Forall_cons_2 _ _ _ (json_induction x) (go l')
                       end) l)
  | JObj l => Hobj l ((fix go l := match l return Forall (λ e, P e.2) l with
                       | [] => Forall_nil_2 _
                       | x :: l' => Forall_cons_2 _ _ _ (json_induction x.2) (go l')
                       end) l)
  end.
End json_induction.

Fixpoint json_eqb (x y : json) : bool :=
  match x, y with
  | JNull, JNull => true
  | JBool a, JBool b => Bool.eqb a b
  | JInt a, JInt b => a =? b
  | JFloat a, JFloat b | JStr a, JStr b => String.eqb a b
  | JArr l, JArr l' =>
      (fix go l l' := match l, l' with
       | [], [] => true
       | a :: l, b :: l' => json_eqb a b && go l l'
       | _, _ => false
       end) l l'
  | JObj l, JObj l' =>
      (fix go l l' := match l, l' with
       | [], [] => true
       | (k, a) :: l, (k', b) :: l' => String.eqb k k' && json_eqb a b && go l l'
       | _, _ => false
       end) l l'
  | _, _ => false
  end.

Lemma json_eqb_spec x y : json_eqb x y = true ↔ x = y.
Proof.
  revert y. induction x as [|b|z|r|s|l IH|l IH] using json_induction;
    intros [|b'|z'|r'|s'|l'|l']; simpl; try (split; congruence).
  - rewrite Bool.eqb_true_iff. split; congruence.
  - rewrite Z.eqb_eq. split; congruence.
  - rewrite String.eqb_eq. split; congruence.
  - rewrite String.eqb_eq. split; congruence.
  - trans (l = l'); [|split; congruence].
    revert l'. induction IH as [|x l Hx _ IHl]; intros [|y l']; try (split; congruence).
    rewrite andb_true_iff, Hx, IHl. split; [intros [-> ->]; done|intros [= -> ->]; done].
  - trans (l = l'); [|split; congruence].
    revert l'. induction IH as [|[k x] l Hx _ IHl]; intros [|[k' y] l']; try (split; congruence).
    simpl in Hx. rewrite !andb_true_iff, String.eqb_eq, Hx, IHl.
    split; [intros [[-> ->] ->]; done|intros [= -> -> ->]; done].
Qed.

#[export] Instance json_eq_dec : EqDecision json.
Proof.
  intros x y. destruct (json_eqb x y) eqn:E.
  - left. by apply json_eqb_spec.
  - right. intros H%json_eqb_spec. congruence.
Defined.

(** ** [_json_value] *)

(** [d[key] = value] on a [dict] in insertion order. *)
Fixpoint dict_set {A} (k : string) (v : A) (d : list (string * A)) : list (string * A) :=
  match d with
  | [] => [(k, v)]
  | (k', v') :: d' => if String.eqb k k' then (k, v) :: d' else (k', v') :: dict_set k v d'
  end.

Fixpoint dict_get {A} (k : string) (d : list (string * A)) : option A :=
  match d with
  | [] => None
  | (k', v) :: d' => if String.eqb k k' then Some v else dict_get k d'
  end.

Section dict_of.
Context {A B : Type} (key : A → res string) (value : A → res B).
(** [{key(x): value(x) for x in l}], built in order. *)
Fixpoint dict_of (acc : list (string * B)) (l : list A) : res (list (string * B)) :=
  match l with
  | [] => Ok acc
  | x :: l' => let? k := key x in let? v := value x in dict_of (dict_set k v acc) l'
  end.
End dict_of.

Lemma raises_dict {P : exn → Prop} {A B} (key : A → res string) (value : A → res B) acc l :
  Forall (λ x, raises_only P (key x) ∧ raises_only P (value x)) l → raises_only P (dict_of key value acc l).
Proof.
  intros Hl. revert acc. induction Hl as [|x l [Hk Hv] _ IH]; intros acc; [apply raises_ok|]. cbn [dict_of].
  apply raises_bind; [done|intros k]. by apply raises_bind.
Qed.
Definition json_key (k : pyval) : res string :=
  match k with
  | PStr s => Ok s
  | _ => Raise (TypeError "canonical JSON object keys must be strings")
  end.

Definition float_value (f : pyfloat) : res json :=
  match f with
  | FFinite r => Ok (JFloat r)
  | _ => Raise (ValueError "non-finite floating-point values are not canonical JSON")
  end.

(** A [StrEnum] member is a [str] and is passed as [PStr]; [PEnum] is any other
    [Enum].  [dataclasses.asdict] gives the mapping of the fields. *)
Fixpoint json_value (v : pyval) : res json :=
  match v with
  | PNone => Ok JNull
  | PBool b => Ok (JBool b)
  | PInt z => Ok (JInt z)
  | PStr s => Ok (JStr s)
  | PFloat f => float_value f
  | PDatetime t => let? t := ensure_utc t "timestamp" in Ok (JStr (rfc3339 t))
  | PEnum v => json_value v
  | PDataclass fields =>
      res_map JObj (dict_of (λ e, Ok e.1) (λ e, json_value e.2) [] fields)
  | PMapping items =>
      res_map JObj (dict_of (λ e, json_key e.1) (λ e, json_value e.2) [] items)
  | PSequence items => res_map JArr (res_all json_value items)
  | POther name => Raise (TypeError ("unsupported canonical JSON value: " +:+ name))
  end.

(** ** [json.dumps(..., ensure_ascii=False, sort_keys=True, separators=(",", ":"))] *)
Definition escape_char (c : ascii) : string :=
  let n := Z.of_N (N_of_ascii c) in
  if n =? 34 then String backslash (String c "")
  else if n =? 92 then String backslash (String c "")
  else if n =? 8 then String backslash "b"
  else if n =? 12 then String backslash "f"
  else if n =? 10 then String backslash "n"
  else if n =? 13 then String backslash "r"
  else if n =? 9 then String backslash "t"
  else if n <? 32 then
    String backslash ("u00" +:+ String (hex_digit (n / 16)) (String (hex_digit (n mod 16)) ""))
  else String c "".

Fixpoint escape (s : string) : string :=
  match s with "" => "" | String c s' => escape_char c +:+ escape s' end%string.

Definition dump_str (s : string) : string :=
  String dquote_char (escape s +:+ String dquote_char "").

Definition key_le {A} (p q : string * A) : Prop := (p.1 ≤ q.1)%string.
#[export] Instance key_le_dec {A} (p q : string * A) : Decision (key_le p q).
Proof. unfold key_le. apply _. Defined.

Definition sort_keys {A} : list (string * A) → list (string * A) := merge_sort key_le.

Definition dump_entry (e : string * string) : string := dump_str e.1 +:+ ":" +:+ e.2.

(** Entries are encoded before they are sorted: the order looks at keys only. *)
Fixpoint dumps (j : json) : string :=
  match j with
  | JNull => "null"
  | JBool true => "true"
  | JBool false => "false"
  | JInt z => pretty z
  | JFloat r => r
  | JStr s => dump_str s
  | JArr l => "[" +:+ join "," (map dumps l) +:+ "]"
  | JObj l => "{" +:+ join "," (map dump_entry (sort_keys (map (λ e, (e.1, dumps e.2)) l))) +:+ "}"
  end.

(** [_canonical.canonical_json_bytes] of a value already converted, and of any value. *)
Definition canonical_json_bytes : json → string := dumps.
Definition canonical_bytes_of (v : pyval) : res string := res_map dumps (json_value v).

(** [_canonical.sha256_digest] of a value already converted. *)
Definition sha256_digest (j : json) : string := "sha256:" +:+ sha256_hex (canonical_json_bytes j).

(** [_canonical.require_sha256]: the pattern [sha256:[0-9a-f]{64}], matched in full. *)
Definition is_sha256 (value : string) : bool :=
  match strip_prefix "sha256:" value with
  | Some rest => (String.length rest =? 64)%nat && all_chars is_hex_digit rest
  | None => false
  end.
Definition require_sha256 (value field : string) : res string :=
  if is_sha256 value then Ok value
  else Raise (ValueError (field +:+ " must use the sha256:<lowercase hex> form")).

(** [_canonical.immutable_value] and [immutable_mapping]. *)
Definition immutable_value (v : pyval) : res json := json_value v.
Definition immutable_mapping (items : list (pyval * pyval)) : res json := json_value (PMapping items).

Example dumps_sorted :
  dumps (JObj [("b", JArr [JInt 1; JNull; JInt (-20)]); ("a", JStr "x")]) =
  ("{" +:+ dump_str "a" +:+ ":" +:+ dump_str "x" +:+ "," +:+ dump_str "b" +:+ ":[1,null,-20]}")%string.
Proof. vm_compute. reflexivity. Qed.

(** ** Well-formed values: the keys of every object are distinct *)
Fixpoint json_wf (j : json) : Prop :=
  match j with
  | JArr l => foldr (λ x P, json_wf x ∧ P) True l
  | JObj l => NoDup (map fst l) ∧ foldr (λ e P, json_wf e.2 ∧ P) True l
  | _ => True
  end.

(** Objects with sorted keys, at every depth. *)
Fixpoint normalize (j : json) : json :=
  match j with
  | JArr l => JArr (map normalize l)
  | JObj l => JObj (sort_keys (map (λ e, (e.1, normalize e.2)) l))
  | _ => j
  end.

(** Equality up to the order of object entries. *)
Definition json_equiv (a b : json) : Prop := normalize a = normalize b.

(** The value a Python program holds after converting: plain dicts and lists. *)
Fixpoint of_json (j : json) : pyval :=
  match j with
  | JNull => PNone
  | JBool b => PBool b
  | JInt z => PInt z
  | JFloat r => PFloat (FFinite r)
  | JStr s => PStr s
  | JArr l => PSequence (map of_json l)
  | JObj l => PMapping (map (λ e, (PStr e.1, of_json e.2)) l)
  end.

Lemma json_wf_arr l : json_wf (JArr l) ↔ Forall json_wf l.
Proof. simpl. induction l as [|x l IH]; simpl; [by split|]. rewrite Forall_cons, IH. done. Qed.

Lemma json_wf_obj l :
  json_wf (JObj l) ↔ NoDup (map fst l) ∧ Forall (λ e, json_wf e.2) l.
Proof.
  simpl. assert (foldr (λ e P, json_wf e.2 ∧ P) True l ↔ Forall (λ e, json_wf e.2) l) as ->; [|done].
  induction l as [|x l IH]; simpl; [by split|]. rewrite Forall_cons, IH. done.
Qed.

Fixpoint json_wfb (j : json) : bool :=
  match j with
  | JArr l => forallb json_wfb l
  | JObj l => unique (map fst l) && forallb (λ e, json_wfb e.2) l
  | _ => true
  end.

Lemma json_wfb_sound j : json_wfb j = true → json_wf j.
Proof.
  induction j as [| | | | |l IH|l IH] using json_induction; try done.
  - rewrite json_wf_arr. cbn [json_wfb]. rewrite forallb_forall, !Forall_forall in *.
    intros Hl x Hx. apply IH; [done|]. apply Hl. by apply list_elem_of_In.
  - rewrite json_wf_obj. cbn [json_wfb]. unfold unique.
    rewrite andb_true_iff, bool_decide_eq_true, forallb_forall, !Forall_forall in *.
    intros [Hnd Hl]. split; [done|]. intros x Hx. apply IH; [done|]. apply Hl. by apply list_elem_of_In.
Qed.

(** *** Sorting by key *)
Section sort_keys.
Context {A : Type}.
Implicit Types (l : list (string * A)).

#[local] Instance key_le_trans : Transitive (@key_le A).
Proof. intros p q r. unfold key_le. apply transitivity. Qed.
#[local] Instance key_le_total : Total (@key_le A).
Proof. intros p q. apply (total String.le). Qed.

Lemma sort_keys_perm l : sort_keys l ≡ₚ l.
Proof. apply merge_sort_Permutation. Qed.

Lemma sort_keys_sorted l : Sorted key_le (sort_keys l).
Proof. apply Sorted_merge_sort; apply _. Qed.

Lemma NoDup_fst_inj l p q : NoDup (map fst l) → p ∈ l → q ∈ l → p.1 = q.1 → p = q.
Proof.
  induction l as [|e l IH]; simpl; [by intros _ ?%not_elem_of_nil|].
  rewrite NoDup_cons, !elem_of_cons, list_elem_of_In.
  intros [Hnot Hnd] [->|Hp] [->|Hq] Hk; auto.
  - destruct Hnot. apply in_map_iff. exists q. by rewrite <-list_elem_of_In.
  - destruct Hnot. apply in_map_iff. exists p. by rewrite <-list_elem_of_In.
Qed.

Lemma sort_keys_unique l l' :
  NoDup (map fst l) → l ≡ₚ l' → Sorted key_le l' → sort_keys l = l'.
Proof.
  intros Hnd Hperm Hs. apply (Sorted_unique_strong key_le).
  - intros p q Hp Hq Hpq Hqp. rewrite sort_keys_perm in Hp. rewrite <-Hperm in Hq.
    apply (NoDup_fst_inj l); auto. by apply (anti_symm String.le).
  - apply sort_keys_sorted.
  - done.
  - by rewrite sort_keys_perm.
Qed.

Lemma sort_keys_permutation l l' : NoDup (map fst l) → l ≡ₚ l' → sort_keys l = sort_keys l'.
Proof.
  intros Hnd Hp. apply sort_keys_unique; [done| |apply sort_keys_sorted].
  by rewrite sort_keys_perm.
Qed.
End sort_keys.

Lemma map_fst_keep {A B} (f : A → B) (l : list (string * A)) :
  map fst (map (λ e, (e.1, f e.2)) l) = map fst l.
Proof. rewrite List.map_map. by apply List.map_ext. Qed.

Lemma sort_keys_map {A B} (f : A → B) (l : list (string * A)) :
  NoDup (map fst l) →
  sort_keys (map (λ e, (e.1, f e.2)) l) = map (λ e, (e.1, f e.2)) (sort_keys l).
Proof.
  intros Hnd. apply sort_keys_unique.
  - by rewrite map_fst_keep.
  - apply Permutation_map. by rewrite sort_keys_perm.
  - apply (Sorted_fmap (λ e : string * A, (e.1, f e.2)) key_le); [done|apply sort_keys_sorted].
Qed.

Lemma sort_keys_idem {A} (l : list (string * A)) :
  NoDup (map fst l) → sort_keys (sort_keys l) = sort_keys l.
Proof.
  intros Hnd. apply sort_keys_permutation; [|apply sort_keys_perm].
  by rewrite (sort_keys_perm l).
Qed.

(** *** The encoder looks at the normal form only *)
Lemma map_ext_Forall {A B} (f g : A → B) (l : list A) :
  Forall (λ x, f x = g x) l → map f l = map g l.
Proof. induction 1; simpl; congruence. Qed.

Lemma Forall_impl_Forall {A} (P Q : A → Prop) (l : list A) :
  Forall (λ x, P x → Q x) l → Forall P l → Forall Q l.
Proof. induction 1; inv 1; auto. Qed.

Lemma normalize_fst l : map fst (map (λ e : string * json, (e.1, normalize e.2)) l) = map fst l.
Proof. apply map_fst_keep. Qed.

Lemma dumps_normalize j : json_wf j → dumps (normalize j) = dumps j.
Proof.
  induction j as [| | | | |l IH|l IH] using json_induction; try done.
  - rewrite json_wf_arr. intros Hwf. simpl. rewrite List.map_map.
    rewrite (map_ext_Forall (λ x, dumps (normalize x)) dumps); [done|].
    eapply Forall_impl_Forall; [exact IH|done].
  - rewrite json_wf_obj. intros [Hnd Hwf]. simpl.
    rewrite (sort_keys_permutation _ (map (λ e, (e.1, dumps e.2)) l)); [done| |].
    + rewrite map_fst_keep, (sort_keys_perm _). by rewrite normalize_fst.
    + rewrite (sort_keys_perm _), List.map_map.
      rewrite (map_ext_Forall _ (λ e, (e.1, dumps e.2))); [done|].
      eapply Forall_impl; [apply Forall_and; split; [exact IH|exact Hwf]|].
      intros [k x] [Hx Hw]. simpl in *. by rewrite Hx.
Qed.

Lemma normalize_wf j : json_wf j → json_wf (normalize j).
Proof.
  induction j as [| | | | |l IH|l IH] using json_induction; try done.
  - cbn [normalize]. rewrite !json_wf_arr. intros Hwf.
    apply List.Forall_map. eapply Forall_impl_Forall; [exact IH|done].
  - cbn [normalize]. rewrite !json_wf_obj. intros [Hnd Hwf]. split.
    + rewrite (sort_keys_perm _). by rewrite normalize_fst.
    + rewrite (sort_keys_perm _). apply List.Forall_map.
      eapply Forall_impl_Forall; [exact IH|done].
Qed.

Lemma normalize_idem j : json_wf j → normalize (normalize j) = normalize j.
Proof.
  induction j as [| | | | |l IH|l IH] using json_induction; try done.
  - rewrite json_wf_arr. intros Hwf. simpl. f_equal. rewrite List.map_map.
    apply map_ext_Forall. eapply Forall_impl_Forall; [exact IH|done].
  - rewrite json_wf_obj. intros [Hnd Hwf]. simpl. f_equal.
    rewrite (sort_keys_map normalize l) by done. rewrite List.map_map. cbn [fst snd].
    assert (map (λ x : string * json, (x.1, normalize (normalize x.2))) (sort_keys l)
            = map (λ e, (e.1, normalize e.2)) (sort_keys l)) as ->.
    { apply map_ext_Forall. rewrite (sort_keys_perm l).
      eapply Forall_impl; [apply Forall_and; split; [exact IH|exact Hwf]|].
      intros [k x] [Hx Hw]. simpl in *. by rewrite Hx. }
    rewrite (sort_keys_map normalize) by (by rewrite (sort_keys_perm l)).
    by rewrite sort_keys_idem.
Qed.

#[export] Instance json_equiv_equivalence : Equivalence json_equiv.
Proof. unfold json_equiv. split; [done|by intros ??|intros ???; by etrans]. Qed.

Lemma json_equiv_permutation l l' :
  NoDup (map fst l) → l ≡ₚ l' → json_equiv (JObj l) (JObj l').
Proof.
  intros Hnd Hp. unfold json_equiv. simpl. f_equal. apply sort_keys_permutation.
  - by rewrite normalize_fst.
  - by apply Permutation_map.
Qed.

Lemma json_equiv_arr l l' : Forall2 json_equiv l l' → json_equiv (JArr l) (JArr l').
Proof. intros H. unfold json_equiv. simpl. f_equal. induction H; simpl; congruence. Qed.

Lemma json_equiv_obj l l' :
  Forall2 (λ e e', e.1 = e'.1 ∧ json_equiv e.2 e'.2) l l' → json_equiv (JObj l) (JObj l').
Proof.
  intros H. unfold json_equiv. simpl. do 2 f_equal.
  induction H as [|[k x] [k' y] l l' [Hk Hx] _ IH]; simpl in *; congruence.
Qed.

(** *** Conversion *)
Section pyval_induction.
Context (P : pyval → Prop)
  (Hnone : P PNone) (Hbool : ∀ b, P (PBool b)) (Hint : ∀ z, P (PInt z))
  (Hfloat : ∀ f, P (PFloat f)) (Hstr : ∀ s, P (PStr s)) (Hdt : ∀ t, P (PDatetime t))
  (Henum : ∀ v, P v → P (PEnum v))
  (Hdata : ∀ l, Forall (λ e, P e.2) l → P (PDataclass l))
  (Hmap : ∀ l, Forall (λ e, P e.2) l → P (PMapping l))
  (Hseq : ∀ l, Forall P l → P (PSequence l))
  (Hother : ∀ n, P (POther n)).

Fixpoint pyval_induction (v : pyval) : P v :=
  match v with
  | PNone => Hnone
  | PBool b => Hbool b
  | PInt z => Hint z
  | PFloat f => Hfloat f
  | PStr s => Hstr s
  | PDatetime t => Hdt t
  | PEnum v => Henum v (pyval_induction v)
  | PDataclass l => Hdata l ((fix go l := match l return Forall (λ e, P e.2) l with
                       | [] => Forall_nil_2 _
                       | x :: l' => Forall_cons_2 _ _ _ (pyval_induction x.2) (go l')
                       end) l)
  | PMapping l => Hmap l ((fix go l := match l return Forall (λ e, P e.2) l with
                       | [] => Forall_nil_2 _
                       | x :: l' => Forall_cons_2 _ _ _ (pyval_induction x.2) (go l')
                       end) l)
  | PSequence l => Hseq l ((fix go l := match l return Forall P l with
                       | [] => Forall_nil_2 _
                       | x :: l' => Forall_cons_2 _ _ _ (pyval_induction x) (go l')
                       end) l)
  | POther n => Hother n
  end.
End pyval_induction.

Section dict.
Context {A : Type}.
Implicit Types (d : list (string * A)) (k : string) (v : A).

Lemma dict_set_fst k v d :
  map fst (dict_set k v d) =
    if bool_decide (k ∈ map fst d) then map fst d else map fst d ++ [k].
Proof.
  induction d as [|[k' v'] d IH]; simpl; [done|].
  destruct (String.eqb_spec k k') as [->|Hne]; simpl.
  - rewrite bool_decide_true; [done|by left].
  - rewrite IH. destruct (decide (k ∈ map fst d)).
    + by rewrite !bool_decide_true by (by try right).
    + by rewrite !bool_decide_false by (by rewrite ?not_elem_of_cons).
Qed.

Lemma dict_set_NoDup k v d : NoDup (map fst d) → NoDup (map fst (dict_set k v d)).
Proof.
  intros Hnd. rewrite dict_set_fst. case_bool_decide; [done|].
  apply NoDup_app. split_and!; [done| |apply NoDup_singleton].
  by intros x Hx ->%list_elem_of_singleton.
Qed.

Lemma dict_set_Forall (P : A → Prop) k v d :
  P v → Forall (λ e, P e.2) d → Forall (λ e, P e.2) (dict_set k v d).
Proof.
  intros Hv. induction 1 as [|[k' v'] d Hx Hd IH]; simpl.
  - by repeat constructor.
  - destruct (String.eqb k k'); by constructor.
Qed.

Lemma dict_set_fresh k v d : k ∉ map fst d → dict_set k v d = d ++ [(k, v)].
Proof.
  induction d as [|[k' v'] d IH]; simpl; [done|].
  rewrite not_elem_of_cons. intros [Hne Hd].
  destruct (String.eqb_spec k k'); [done|]. by rewrite IH.
Qed.

Lemma dict_get_set k v d k' : dict_get k' (dict_set k v d) = if String.eqb k' k then Some v else dict_get k' d.
Proof.
  induction d as [|[q x] d IH]; simpl; [done|].
  destruct (String.eqb_spec k q) as [->|Hne]; simpl.
  - by destruct (String.eqb k' q).
  - rewrite IH. destruct (String.eqb_spec k' q) as [->|]; [|done]. by destruct (String.eqb_spec q k) as [->|].
Qed.

Lemma dict_get_in k v d : NoDup (map fst d) → dict_get k d = Some v ↔ (k, v) ∈ d.
Proof.
  intros Hnd. induction d as [|[q x] d IH]; simpl; [by rewrite elem_of_nil|].
  apply NoDup_cons in Hnd as [Hq Hnd]. rewrite elem_of_cons. destruct (String.eqb_spec k q) as [->|Hne].
  - split; [intros [= ->]; by left|]. intros [[= ->]|Hin]; [done|]. destruct Hq. apply list_elem_of_fmap. by exists (q, v).
  - rewrite IH by done. split; [by right|]. by intros [[= -> _]|?].
Qed.
End dict.

Lemma dict_of_inv {A B} (P : B → Prop) (key : A → res string) (value : A → res B) l acc d :
  Forall (λ x, ∀ y, value x = Ok y → P y) l →
  NoDup (map fst acc) → Forall (λ e, P e.2) acc →
  dict_of key value acc l = Ok d → NoDup (map fst d) ∧ Forall (λ e, P e.2) d.
Proof.
  intros Hl. revert acc. induction Hl as [|x l Hx Hl IH]; intros acc Hnd Hacc; simpl.
  - by intros [= <-].
  - destruct (key x) as [k|]; simpl; [|done]. destruct (value x) as [y|]; simpl; [|done].
    apply IH; [by apply dict_set_NoDup|]. apply dict_set_Forall; auto.
Qed.

Lemma res_all_inv {A B} (P : B → Prop) (f : A → res B) l ys :
  Forall (λ x, ∀ y, f x = Ok y → P y) l → res_all f l = Ok ys → Forall P ys.
Proof.
  intros Hl. revert ys. induction Hl as [|x l Hx Hl IH]; intros ys; simpl.
  - by intros [= <-].
  - destruct (f x) as [y|]; simpl; [|done]. destruct (res_all f l) as [zs|]; simpl; [|done].
    intros [= <-]. constructor; auto.
Qed.

(** Every converted value has distinct keys in every object. *)
Lemma json_value_wf v j : json_value v = Ok j → json_wf j.
Proof.
  revert j. induction v as [| | |f| |t|v IH|l IH|l IH|l IH|n] using pyval_induction;
    intros j; cbn [json_value]; try (by intros [= <-]); try done.
  - destruct f; intros [= <-]; done.
  - destruct (ensure_utc t _); simpl; [|done]. by intros [= <-].
  - apply IH.
  - destruct (dict_of _ _ [] l) as [d|] eqn:E; simpl; [|done]. intros [= <-].
    rewrite json_wf_obj. exact (dict_of_inv json_wf _ _ _ [] _ IH NoDup_nil_2 (Forall_nil_2 _) E).
  - destruct (dict_of _ _ [] l) as [d|] eqn:E; simpl; [|done]. intros [= <-].
    rewrite json_wf_obj. exact (dict_of_inv json_wf _ _ _ [] _ IH NoDup_nil_2 (Forall_nil_2 _) E).
  - destruct (res_all json_value l) as [d|] eqn:E; simpl; [|done]. intros [= <-].
    rewrite json_wf_arr. eapply (res_all_inv json_wf); [exact IH|exact E].
Qed.

Lemma dict_of_fresh (acc l : list (string * json)) :
  NoDup (map fst (acc ++ l)) →
  Forall (λ e, json_value (of_json e.2) = Ok e.2) l →
  dict_of (λ e, json_key e.1) (λ e, json_value e.2) acc
    (map (λ e, (PStr e.1, of_json e.2)) l) = Ok (acc ++ l).
Proof.
  intros Hnd Hl. revert acc Hnd.
  induction Hl as [|[k x] l Hx Hl IH]; intros acc Hnd; simpl; [by rewrite app_nil_r|].
  simpl in Hx. rewrite Hx. simpl.
  rewrite map_app in Hnd. apply NoDup_app in Hnd as (H1 & H2 & H3).
  rewrite dict_set_fresh by (intros Hk; by apply (H2 k Hk), list_elem_of_here).
  rewrite IH; [by rewrite <-app_assoc|].
  rewrite <-app_assoc, map_app. by apply NoDup_app.
Qed.

(** Converting a JSON value, or an immutable copy of one, is the identity. *)
Lemma json_value_of_json j : json_wf j → json_value (of_json j) = Ok j.
Proof.
  induction j as [| | | | |l IH|l IH] using json_induction; try done.
  - rewrite json_wf_arr. intros Hwf. cbn [of_json json_value].
    assert (res_all json_value (map of_json l) = Ok l) as ->; [|done].
    induction IH as [|x l Hx _ IHl]; simpl; [done|]. inv Hwf. rewrite Hx, IHl; done.
  - rewrite json_wf_obj. intros [Hnd Hwf]. cbn [of_json json_value].
    rewrite (dict_of_fresh [] l); [done|done|].
    eapply Forall_impl_Forall; [exact IH|done].
Qed.

(** The canonical bytes of a value, and so its digest, do not depend on the
    order in which the entries of its objects (at any depth) were inserted. *)
Theorem canonical_bytes_key_order a b :
  json_wf a → json_wf b → json_equiv a b →
  canonical_json_bytes a = canonical_json_bytes b ∧ sha256_digest a = sha256_digest b.
Proof.
  intros Ha Hb Hab. unfold sha256_digest, canonical_json_bytes.
  rewrite <-(dumps_normalize a), <-(dumps_normalize b) by done. by rewrite Hab.
Qed.

Lemma require_sha256_ok fp f u : require_sha256 fp f = Ok u ↔ is_sha256 fp = true ∧ u = fp.
Proof. unfold require_sha256. destruct (is_sha256 fp); [|naive_solver]. split; [by intros [= <-]|by intros [_ ->]]. Qed.

(** A computed digest passes the validation of digests. *)
Lemma sha256_digest_valid j field : require_sha256 (sha256_digest j) field = Ok (sha256_digest j).
Proof.
  unfold require_sha256. assert (is_sha256 (sha256_digest j) = true) as ->; [|done].
  unfold sha256_digest, is_sha256.
  destruct (sha256_hex_shape (canonical_json_bytes j)) as [Hlen Hall].
  by rewrite strip_prefix_app, Hlen, Hall.
Qed.

Lemma canonical_bytes_key_order_witness :
  canonical_json_bytes (JObj [("b", JInt 1); ("a", JObj [("y", JNull); ("x", JBool true)])]) =
  canonical_json_bytes (JObj [("a", JObj [("x", JBool true); ("y", JNull)]); ("b", JInt 1)]).
Proof.
  apply canonical_bytes_key_order;
    [by apply json_wfb_sound|by apply json_wfb_sound|unfold json_equiv; vm_compute; reflexivity].
Defined.

(** The items of a frozen mapping, as its [items()] gives them. *)
Definition items_of (j : json) : list (pyval * pyval) :=
  match j with
  | JObj l => map (λ e, (PStr e.1, of_json e.2)) l
  | _ => []
  end.

Lemma immutable_mapping_obj items j :
  immutable_mapping items = Ok j → (∃ l, j = JObj l) ∧ json_wf j.
Proof.
  unfold immutable_mapping. intros H. split; [|by eapply json_value_wf].
  cbn [json_value] in H. apply res_map_ok in H as (l & _ & ->). eauto.
Qed.

Lemma immutable_mapping_items items j :
  immutable_mapping items = Ok j → immutable_mapping (items_of j) = Ok j.
Proof.
  intros H. apply immutable_mapping_obj in H as [[l ->] Hwf].
  by apply (json_value_of_json (JObj l)).
Qed.

Lemma immutable_value_of_json v j : immutable_value v = Ok j → immutable_value (of_json j) = Ok j.
Proof. intros H. apply json_value_of_json. by eapply json_value_wf. Qed.
