(* ===== verification/Errors.v ===== *)
(** * Lifecycle failures, cancellation and evidence

    [errors.py] (the exceptions the package raises), [control.py] (the
    cooperative cancellation token) and [evidence.py] (lifecycle evidence and
    its sinks). *)
From S2P Require Import Prelude PyTime Canonical.

(** ** [errors.py] *)
Definition DataLifecycleValidationError (message code : string) : exn :=
  EMeridian ValidationError "DataLifecycleValidationError" code message None.
Definition lifecycle_invalid (message : string) : exn :=
  DataLifecycleValidationError message "MERIDIAN_LIFECYCLE_INVALID".
Definition LeaseLostError (message : string) : exn :=
  EMeridian ConflictError "LeaseLostError" "MERIDIAN_OUTBOX_LEASE_LOST" message None.
Definition CheckpointConflict (message : string) : exn :=
  EMeridian ConflictError "CheckpointConflict" "MERIDIAN_CHECKPOINT_CONFLICT" message None.
Definition ProjectionRejected (message : string) : exn :=
  EMeridian ValidationError "ProjectionRejected" "MERIDIAN_PROJECTION_REJECTED" message None.
Definition CacheUnavailable (message : string) : exn :=
  EMeridian UnavailableError "CacheUnavailable" "MERIDIAN_CACHE_UNAVAILABLE" message (Some true).
Definition IncompatibleMigration (message : string) : exn :=
  EMeridian ValidationError "IncompatibleMigration" "MERIDIAN_MIGRATION_INCOMPATIBLE" message None.
Definition MigrationConflict (message : string) : exn :=
  EMeridian ConflictError "MigrationConflict" "MERIDIAN_MIGRATION_CONFLICT" message None.
Definition MigrationFailed (message : string) (retryable : bool) : exn :=
  EMeridian LifecycleError "MigrationFailed" "MERIDIAN_MIGRATION_FAILED" message (Some retryable).
Definition IntegrityError (message : string) : exn :=
  EMeridian CorruptionError "IntegrityError" "MERIDIAN_PORTABILITY_INTEGRITY" message None.
Definition OperationCancelled : exn :=
  EMeridian TransientError "OperationCancelled" "MERIDIAN_LIFECYCLE_CANCELLED"
    "lifecycle operation cancelled" (Some true).

(** The code under which the coordinators report a failure: the code of a
    [MeridianError], the class name of any other exception. *)
Definition error_code (e : exn) : string :=
  match e with
  | EMeridian _ _ code _ _ => code
  | _ => type_name e
  end.

(** What Core decides about the exceptions derived from its classes: their
    [str], and whether one is retryable when the constructor does not say.
    Core is not part of this repository, so both are parameters. *)
Class Core : Type := {
  core_str : core_error → string → string → string;
  core_default_retryable : core_error → bool;
}.

(** [str(error)] *)
Definition exn_str `{Core} (e : exn) : string :=
  match e with
  | EMeridian base _ code message _ => core_str base code message
  | EPython _ _ message | EBase _ _ message => message
  end.

(** [isinstance(error, MeridianError) and error.retryable] *)
Definition is_retryable `{Core} (e : exn) : bool :=
  match e with
  | EMeridian base _ _ _ retryable => default (core_default_retryable base) retryable
  | _ => false
  end.

(** ** [control.py]

    The token is an event the host sets, possibly from another thread, at any
    time.  A coordinator polls it through [cancelled], a computation that reads
    the flag the host controls; [never_cancelled] is the token a coordinator
    makes for itself when the caller passes none. *)
Record CancellationToken : Type := Token { event_set : bool }.
Definition new_token : CancellationToken := Token false.
Definition cancel (t : CancellationToken) : CancellationToken := Token true.
Definition token_cancelled (t : CancellationToken) : bool := event_set t.

Definition cancelled_poll (W : Type) : Type := M W bool.
Definition never_cancelled {W} : cancelled_poll W := ret (token_cancelled new_token).

(** [CancellationToken.raise_if_cancelled] *)
Definition raise_if_cancelled {W} (token : cancelled_poll W) : M W unit :=
  let! c := token in
  if c then raise OperationCancelled else ret ().

(** ** [evidence.py] *)
Record LifecycleEvidence : Type := MkEvidence {
  ev_kind : string;
  ev_subject : string;
  ev_state : string;
  ev_details : json;
  ev_occurred_at : instant;
  ev_fingerprint : string;
}.

Definition evidence_fingerprint (kind subject state : string) (details : json) : string :=
  sha256_digest (JObj [("kind", JStr kind); ("subject", JStr subject);
                       ("state", JStr state); ("details", details)]).

(** [LifecycleEvidence.__post_init__] *)
Definition make_evidence (kind subject state : string) (details : list (pyval * pyval))
    (occurred_at : datetime) (fingerprint : string) : res LifecycleEvidence :=
  do? raise_if (negb (nonempty kind) || negb (nonempty subject) || negb (nonempty state))
        (ValueError "evidence kind, subject, and state must be non-empty") in
  let? details := immutable_mapping details in
  let? occurred_at := ensure_utc occurred_at "occurred_at" in
  let expected := evidence_fingerprint kind subject state details in
  do? raise_if (nonempty fingerprint && negb (String.eqb fingerprint expected))
        (ValueError "evidence fingerprint does not match canonical content") in
  Ok (MkEvidence kind subject state details occurred_at expected).

Definition evidence_to_mapping (e : LifecycleEvidence) : json :=
  JObj [("kind", JStr (ev_kind e)); ("subject", JStr (ev_subject e));
        ("state", JStr (ev_state e)); ("details", ev_details e);
        ("occurredAt", JStr (rfc3339 (ev_occurred_at e)));
        ("fingerprint", JStr (ev_fingerprint e))].

(** An injected evidence writer. *)
Class EvidenceSink (W : Type) : Type := evidence_record : LifecycleEvidence → M W unit.

Definition NullEvidenceSink {W} : EvidenceSink W := λ _, ret ().

(** [InMemoryEvidenceSink]: the list of recorded events. *)
Definition InMemoryEvidenceSink : EvidenceSink (list LifecycleEvidence) := λ e,
  modify (λ events, events ++ [e]).

(** [MeridianEvidenceSink]: evidence appended to a Resource of the evidence
    Catalog.  The Catalog, its [append] and the execution are the runtime's. *)
Record evidence_runtime (W : Type) : Type := EvidenceRuntime {
  evidence_expression : Type;
  evidence_catalog : M W unit;                                (* [catalog("evidence")] *)
  evidence_append : string → json → M W evidence_expression;  (* resource, data *)
  evidence_execute : evidence_expression → M W unit;
}.
Arguments evidence_expression {W} _.
Arguments evidence_catalog {W} _.
Arguments evidence_append {W} _ _ _.
Arguments evidence_execute {W} _ _.

Definition make_evidence_sink (resource : string) : res string :=
  do? raise_if (negb (nonempty resource)) (ValueError "evidence resource must be non-empty") in Ok resource.
Definition MeridianEvidenceSink {W} (runtime : evidence_runtime W) (resource : string)
    (map_data : option (LifecycleEvidence → M W json)) : EvidenceSink W := λ e,
  do! evidence_catalog runtime in
  let! data := default (λ e, ret (evidence_to_mapping e)) map_data e in
  let! expression := evidence_append runtime resource data in
  evidence_execute runtime expression.

(** Build the evidence and hand it to the sink, as every coordinator does. *)
Definition record_evidence {W} `{EvidenceSink W} (kind subject state : string)
    (details : list (pyval * pyval)) (occurred_at : datetime) : M W unit :=
  let! e := lift_res (make_evidence kind subject state details occurred_at "") in
  evidence_record e.

(** The stored fingerprint of evidence is the digest of its kind, subject,
    state and details, and a caller's fingerprint was empty or that digest. *)
Theorem make_evidence_fingerprint kind subject state details at_ fp e :
  make_evidence kind subject state details at_ fp = Ok e →
  ev_fingerprint e = evidence_fingerprint (ev_kind e) (ev_subject e) (ev_state e) (ev_details e) ∧
  (fp = "" ∨ fp = ev_fingerprint e)%string.
Proof.
  unfold make_evidence, raise_if.
  destruct (_ || _ || _); [done|]. simpl.
  destruct (immutable_mapping details) as [d|]; [|done]. simpl.
  destruct (ensure_utc at_ _) as [t|]; [|done]. simpl.
  destruct (_ && _) eqn:Hfp; [done|]. apply supplied_matches in Hfp. by intros [= <-].
Qed.

(** A concrete [Core] for the examples and witnesses. *)
Definition example_core : Core := {|
  core_str _ code message := code +:+ ": " +:+ message;
  core_default_retryable c := bool_decide (c ∈ [TransientError; UnavailableError]);
|}.

Definition built_evidence (r : res LifecycleEvidence) : LifecycleEvidence :=
  match r with Ok e => e | Raise _ => MkEvidence "" "" "" JNull 0 "" end.
Definition sample_evidence : LifecycleEvidence :=
  Eval vm_compute in built_evidence
    (make_evidence "projection_run" "orders" "COMPLETED" [(PStr "claimed", PInt 3)] (at_utc 0) "").

Lemma make_evidence_fingerprint_witness :
  ev_fingerprint sample_evidence =
    evidence_fingerprint (ev_kind sample_evidence) (ev_subject sample_evidence)
      (ev_state sample_evidence) (ev_details sample_evidence) ∧
  ("" = "" ∨ "" = ev_fingerprint sample_evidence)%string.
Proof.
  refine (make_evidence_fingerprint "projection_run" "orders" "COMPLETED" [(PStr "claimed", PInt 3)]
    (at_utc 0) "" sample_evidence _). vm_compute. reflexivity.
Defined.
