(* ===== verification/OutboxModel.v ===== *)
(** * Outbox data and records ([outbox/model.py])

    The frozen dataclasses of the transactional outbox.  A constructor function
    [make_*] is the dataclass call with its [__post_init__]: it validates the
    arguments in the order of the code and returns the stored fields. *)
From S2P Require Import Prelude PyTime Canonical Errors.

Definition OUTBOX_FORMAT_VERSION : string := "meridian.outbox.v1".

(** [CatalogName]: Meridian has exactly these five Catalogs (README). *)
Definition catalog_names : list string :=
  ["structured"; "object"; "cache"; "evidence"; "streaming"]%string.

Inductive OutboxState : Type := PENDING | LEASED | COMPLETED | RETRYABLE | QUARANTINED.
#[export] Instance OutboxState_eq_dec : EqDecision OutboxState.
Proof. solve_decision. Defined.

Definition state_value (s : OutboxState) : string :=
  match s with
  | PENDING => "PENDING" | LEASED => "LEASED" | COMPLETED => "COMPLETED"
  | RETRYABLE => "RETRYABLE" | QUARANTINED => "QUARANTINED"
  end.

(** A [str | int] version; [VBool] is the [bool] the type annotation lets in. *)
Inductive version : Type := VInt (z : Z) | VStr (s : string) | VBool (b : bool).
#[export] Instance version_eq_dec : EqDecision version.
Proof. solve_decision. Defined.

Definition version_json (v : option version) : json :=
  match v with
  | None => JNull
  | Some (VInt z) => JInt z
  | Some (VStr s) => JStr s
  | Some (VBool b) => JBool b
  end.

(** [type(a)] up to identity, and Python's [a == b] ([True == 1]). *)
Inductive version_type : Type := TNone | TInt | TStr | TBool.
#[export] Instance version_type_eq_dec : EqDecision version_type.
Proof. solve_decision. Defined.
Definition type_of_version (v : option version) : version_type :=
  match v with
  | None => TNone
  | Some (VInt _) => TInt
  | Some (VStr _) => TStr
  | Some (VBool _) => TBool
  end.
Definition version_num (v : version) : option Z :=
  match v with VInt z => Some z | VBool b => Some (Z.b2z b) | VStr _ => None end.
Definition version_eqb (a b : option version) : bool :=
  match a, b with
  | None, None => true
  | Some a, Some b =>
      match version_num a, version_num b with
      | Some x, Some y => x =? y
      | None, None => bool_decide (a = b)
      | _, _ => false
      end
  | _, _ => false
  end.

(** ** [OutboxDataV1] *)
Record outbox_args : Type := OutboxArgs {
  arg_source_resource : string;
  arg_source_schema : string;
  arg_source_identity : pyval;
  arg_mutation_kind : string;
  arg_source_version : option version;
  arg_payload : option (list (pyval * pyval));
  arg_immutable_reference : option (list (pyval * pyval));
  arg_target_labels : list string;
  arg_occurred_at : datetime;
  arg_operation_context : list (pyval * pyval);
  arg_source_catalog : string;
  arg_event_id : string;
  arg_digest : string;
  arg_format_version : string;
}.

Record OutboxDataV1 : Type := MkOutboxData {
  source_resource : string;
  source_schema : string;
  source_identity : json;
  mutation_kind : string;
  source_version : option version;
  payload : option json;
  immutable_reference : option json;
  target_labels : list string;
  occurred_at : instant;
  operation_context : json;
  source_catalog : string;
  event_id : string;
  digest : string;
  format_version : string;
}.

#[export] Instance OutboxDataV1_eq_dec : EqDecision OutboxDataV1.
Proof. solve_decision. Defined.

Definition json_opt (j : option json) : json := default JNull j.

(** [OutboxDataV1._digest_material] *)
Definition digest_material (d : OutboxDataV1) : list (string * json) :=
  [("formatVersion", JStr (format_version d));
   ("eventId", JStr (event_id d));
   ("sourceCatalog", JStr (source_catalog d));
   ("sourceResource", JStr (source_resource d));
   ("sourceSchema", JStr (source_schema d));
   ("sourceIdentity", source_identity d);
   ("sourceVersion", version_json (source_version d));
   ("mutationKind", JStr (mutation_kind d));
   ("payload", json_opt (payload d));
   ("immutableReference", json_opt (immutable_reference d));
   ("targetLabels", JArr (map JStr (target_labels d)));
   ("occurredAt", JStr (rfc3339 (occurred_at d)));
   ("operationContext", operation_context d)].

Definition set_digest (d : OutboxDataV1) (h : string) : OutboxDataV1 :=
  MkOutboxData (source_resource d) (source_schema d) (source_identity d) (mutation_kind d)
    (source_version d) (payload d) (immutable_reference d) (target_labels d) (occurred_at d)
    (operation_context d) (source_catalog d) (event_id d) h (format_version d).

Definition is_str (v : pyval) : bool := match v with PStr _ => true | _ => false end.

(** [for field_name in (...): if not getattr(self, field_name): raise] *)
Fixpoint require_nonempty (fields : list (string * string)) : res unit :=
  match fields with
  | [] => Ok ()
  | (name, value) :: fields' =>
      do? raise_if (negb (nonempty value)) (ValueError (name +:+ " must be non-empty")) in
      require_nonempty fields'
  end.

Definition opt_immutable (m : option (list (pyval * pyval))) : res (option json) :=
  match m with
  | None => Ok None
  | Some items => res_map Some (immutable_mapping items)
  end.

(** [OutboxDataV1.__post_init__] *)
Definition make_outbox_data (a : outbox_args) : res OutboxDataV1 :=
  do? raise_if (negb (String.eqb (arg_format_version a) OUTBOX_FORMAT_VERSION))
        (ValueError ("format_version must be " +:+ py_repr OUTBOX_FORMAT_VERSION)) in
  do? require_nonempty
        [("source_resource", arg_source_resource a); ("source_schema", arg_source_schema a);
         ("mutation_kind", arg_mutation_kind a); ("source_catalog", arg_source_catalog a);
         ("event_id", arg_event_id a)] in
  do? raise_if (bool_decide (arg_payload a = None) && bool_decide (arg_immutable_reference a = None))
        (ValueError "outbox data requires a payload or immutable reference") in
  do? raise_if (negb (bool_decide (arg_payload a = None)) &&
                negb (bool_decide (arg_immutable_reference a = None)))
        (ValueError "payload and immutable_reference are mutually exclusive") in
  do? raise_if (negb (unique (arg_target_labels a)))
        (ValueError "target_labels must not contain duplicates") in
  do? raise_if (negb (bool_decide (arg_source_catalog a ∈ catalog_names)))
        (ValueError ("unknown source Catalog " +:+ py_repr (arg_source_catalog a))) in
  do? raise_if (bool_decide (type_of_version (arg_source_version a) = TBool))
        (ValueError "source_version cannot be boolean") in
  do? raise_if (negb (forallb (λ e, is_str e.1 && is_str e.2) (arg_operation_context a)))
        (ValueError "operation_context must contain only string keys and values") in
  let? identity := immutable_value (arg_source_identity a) in
  let? occurred := ensure_utc (arg_occurred_at a) "occurred_at" in
  let? context := immutable_mapping (arg_operation_context a) in
  let? pay := opt_immutable (arg_payload a) in
  let? reference := opt_immutable (arg_immutable_reference a) in
  let d := MkOutboxData (arg_source_resource a) (arg_source_schema a) identity
             (arg_mutation_kind a) (arg_source_version a) pay reference (arg_target_labels a)
             occurred context (arg_source_catalog a) (arg_event_id a) "" (arg_format_version a) in
  let expected := sha256_digest (JObj (digest_material d)) in
  do? raise_if (nonempty (arg_digest a) && negb (String.eqb (arg_digest a) expected))
        (ValueError "outbox digest does not match canonical content") in
  Ok (set_digest d expected).

(** [OutboxDataV1.partition_key] *)
Definition partition_key (d : OutboxDataV1) : string :=
  sha256_digest (JObj [("sourceCatalog", JStr (source_catalog d));
                       ("sourceResource", JStr (source_resource d));
                       ("sourceIdentity", source_identity d)]).

(** [OutboxDataV1.to_mapping] *)
Definition outbox_to_mapping (d : OutboxDataV1) : json :=
  JObj (dict_set "digest" (JStr (digest d)) (digest_material d)).

(** ** [OutboxLease], [OutboxFailure] *)
Record OutboxLease : Type := MkLease {
  owner : string; acquired_at : instant; expires_at : instant; lease_attempt : Z }.
#[export] Instance OutboxLease_eq_dec : EqDecision OutboxLease.
Proof. solve_decision. Defined.

Definition make_lease (owner : string) (acquired_at expires_at : datetime) (attempt : Z)
    : res OutboxLease :=
  do? raise_if (negb (nonempty owner)) (ValueError "lease owner must be non-empty") in
  do? raise_if (attempt <? 1) (ValueError "lease attempt must be positive") in
  let? acquired := ensure_utc acquired_at "acquired_at" in
  let? expires := ensure_utc expires_at "expires_at" in
  do? raise_if (expires <=? acquired) (ValueError "lease expiry must follow acquisition") in
  Ok (MkLease owner acquired expires attempt).

Record OutboxFailure : Type := MkFailure {
  failure_code : string; redacted_cause : string; failed_at : instant }.
#[export] Instance OutboxFailure_eq_dec : EqDecision OutboxFailure.
Proof. solve_decision. Defined.

Definition make_failure (code redacted_cause : string) (failed_at : datetime) : res OutboxFailure :=
  do? raise_if (negb (nonempty code) || negb (nonempty redacted_cause))
        (ValueError "failure code and redacted cause must be non-empty") in
  let? failed := ensure_utc failed_at "failed_at" in
  Ok (MkFailure code redacted_cause failed).

(** ** [OutboxRecord]: also the fields of the store's [_MutableRecord] *)
Record OutboxRecord : Type := MkRecord {
  data : OutboxDataV1;
  state : OutboxState;
  attempt_count : Z;
  lease : option OutboxLease;
  failure : option OutboxFailure;
  target_fingerprint : option string;
  completed_at : option instant;
}.
#[export] Instance OutboxRecord_eq_dec : EqDecision OutboxRecord.
Proof. solve_decision. Defined.

Definition is_some {A} (o : option A) : bool := match o with Some _ => true | None => false end.

(** [OutboxRecord.__post_init__] on stored fields ([completed_at] is already in UTC). *)
Definition make_record (r : OutboxRecord) : res OutboxRecord :=
  do? raise_if (attempt_count r <? 0) (ValueError "outbox attempt_count cannot be negative") in
  do? raise_if (negb (Bool.eqb (bool_decide (state r = LEASED)) (is_some (lease r))))
        (ValueError "only a LEASED outbox record may contain a lease") in
  Ok r.

(** ** [Checkpoint], [ProjectionLag] *)
Record Checkpoint : Type := MkCheckpoint {
  cp_partition_key : string;
  revision : Z;
  cp_event_id : option string;
  cp_source_version : option version;
  cp_target_fingerprint : option string;
  advanced_at : option instant;
}.
#[export] Instance Checkpoint_eq_dec : EqDecision Checkpoint.
Proof. solve_decision. Defined.

Definition make_checkpoint (c : Checkpoint) : res Checkpoint :=
  do? raise_if (negb (nonempty (cp_partition_key c)) || (revision c <? 0))
        (ValueError "checkpoint partition_key and revision are invalid") in
  Ok c.

Record ProjectionLag : Type := MkLag {
  incomplete_count : Z;
  oldest_incomplete_at : option instant;
  lag_seconds : float;
  target_seconds : float;
}.

Definition make_lag (l : ProjectionLag) : res ProjectionLag :=
  do? raise_if ((incomplete_count l <? 0) || f64_lt (lag_seconds l) f64_zero
                || f64_le (target_seconds l) f64_zero)
        (ValueError "projection lag counts and durations are invalid") in
  Ok l.

(** [ProjectionLag.within_target] *)
Definition within_target (l : ProjectionLag) : bool := f64_le (lag_seconds l) (target_seconds l).

(** ** What construction establishes *)
Definition exactly_one {A B} (a : option A) (b : option B) : Prop :=
  (is_some a = true ∧ b = None) ∨ (a = None ∧ is_some b = true).

Record outbox_data_ok (d : OutboxDataV1) : Prop := {
  ok_format : format_version d = OUTBOX_FORMAT_VERSION;
  ok_event_id : event_id d ≠ ""%string;
  ok_names : source_resource d ≠ ""%string ∧ source_schema d ≠ ""%string ∧ mutation_kind d ≠ ""%string;
  ok_catalog : source_catalog d ∈ catalog_names;
  ok_content : exactly_one (payload d) (immutable_reference d);
  ok_objects j : payload d = Some j ∨ immutable_reference d = Some j → ∃ l, j = JObj l;
  ok_context : ∃ l, operation_context d = JObj l ∧ NoDup (map fst l) ∧ Forall (λ e, ∃ s, e.2 = JStr s) l;
  ok_labels : NoDup (target_labels d);
  ok_version : type_of_version (source_version d) ≠ TBool;
  ok_occurred : in_range (occurred_at d) = true;
  ok_digest : digest d = sha256_digest (JObj (digest_material d));
}.

(** The published contract [contracts/data-lifecycle/meridian-outbox.v1.schema.json],
    on the members of an object. *)
Record meets_outbox_schema (l : list (string * json)) : Prop := {
  ms_members : NoDup (map fst l) ∧ map fst l ≡ₚ
    ["formatVersion"; "eventId"; "sourceCatalog"; "sourceResource"; "sourceSchema"; "sourceIdentity"; "sourceVersion";
     "mutationKind"; "payload"; "immutableReference"; "targetLabels"; "occurredAt"; "operationContext"; "digest"]%string;
  ms_format : dict_get "formatVersion" l = Some (JStr "meridian.outbox.v1");
  ms_strings k : k ∈ ["eventId"; "sourceResource"; "sourceSchema"; "mutationKind"]%string →
    ∃ s, dict_get k l = Some (JStr s) ∧ s ≠ ""%string;
  ms_catalog : ∃ c, dict_get "sourceCatalog" l = Some (JStr c) ∧
    c ∈ ["structured"; "object"; "cache"; "evidence"; "streaming"]%string;
  ms_version : ∃ v, dict_get "sourceVersion" l = Some v ∧ ((∃ s, v = JStr s) ∨ (∃ z, v = JInt z) ∨ v = JNull);
  ms_content :
    (∃ p, dict_get "payload" l = Some (JObj p) ∧ dict_get "immutableReference" l = Some JNull) ∨
    (∃ p, dict_get "payload" l = Some JNull ∧ dict_get "immutableReference" l = Some (JObj p));
  ms_labels : ∃ labels, dict_get "targetLabels" l = Some (JArr (map JStr labels)) ∧ NoDup labels;
  ms_occurred : ∃ t, dict_get "occurredAt" l = Some (JStr (rfc3339 t)) ∧ in_range t = true;
  ms_context : ∃ entries, dict_get "operationContext" l = Some (JObj entries) ∧ Forall (λ e, ∃ s, e.2 = JStr s) entries;
  ms_digest : ∃ h, dict_get "digest" l = Some (JStr h) ∧ is_sha256 h = true;
}.

Lemma sha256_digest_is j : is_sha256 (sha256_digest j) = true.
Proof. exact (proj1 (proj1 (require_sha256_ok _ ""%string _) (sha256_digest_valid j _))). Qed.

Lemma outbox_meets_schema d :
  outbox_data_ok d → ∃ l, outbox_to_mapping d = JObj l ∧ meets_outbox_schema l.
Proof.
  intros [Hf He (Hr & Hs & Hm) Hc Hx Ho (context & Hcontext & _ & Hstr) Hl Hv Ht Hh]. eexists. split; [reflexivity|].
  split.
  - assert (map fst (dict_set "digest" (JStr (digest d)) (digest_material d)) =
      ["formatVersion"; "eventId"; "sourceCatalog"; "sourceResource"; "sourceSchema"; "sourceIdentity"; "sourceVersion";
       "mutationKind"; "payload"; "immutableReference"; "targetLabels"; "occurredAt"; "operationContext"; "digest"]%string)
      as -> by reflexivity.
    split; [|done]. by apply (bool_decide_unpack _).
  - unfold digest_material. by rewrite Hf.
  - intros k. rewrite !elem_of_cons, elem_of_nil. intros [->|[->|[->|[->|[]]]]]; by eexists.
  - exists (source_catalog d). split; [reflexivity|exact Hc].
  - eexists. split; [reflexivity|]. destruct (source_version d) as [[]|]; cbn in *; try done; eauto.
  - cbn. destruct Hx as [[Hp Hn]|[Hn Hp]]; rewrite Hn; cbn.
    + destruct (payload d) as [p|]; [|done]. destruct (Ho p) as [l ->]; [by left|]. left. by exists l.
    + destruct (immutable_reference d) as [p|]; [|done]. destruct (Ho p) as [l ->]; [by right|]. right. by exists l.
  - by eexists.
  - by eexists.
  - exists context. cbn. by rewrite Hcontext.
  - exists (digest d). split; [reflexivity|]. rewrite Hh. apply sha256_digest_is.
Qed.

Lemma require_nonempty_ok l :
  require_nonempty l = Ok () ↔ Forall (λ e, e.2 ≠ ""%string) l.
Proof.
  induction l as [|[name v] l IH]; simpl; [by split|].
  rewrite Forall_cons, res_bind_ok. simpl. split.
  - intros (u & Hv & Hl). simplify_res. rewrite negb_false_iff, nonempty_spec in Hv. by rewrite <-IH.
  - intros [Hv Hl]. exists (). rewrite raise_if_ok, negb_false_iff, nonempty_spec. by rewrite IH.
Qed.

Lemma opt_immutable_some m o : opt_immutable m = Ok o → is_some o = is_some m.
Proof. destruct m; simpl; intros H; simplify_res; done. Qed.

Lemma opt_immutable_object m o : opt_immutable m = Ok o → ∀ j, o = Some j → ∃ l, j = JObj l.
Proof.
  destruct m as [items|]; simpl; [|by intros [= <-]]. intros H j ->. apply res_map_ok in H as (x & H & [= <-]).
  by apply immutable_mapping_obj in H as [? _].
Qed.

Lemma is_some_false {A} (o : option A) : is_some o = false ↔ o = None.
Proof. by destruct o. Qed.

Lemma is_some_decide {A} (o : option A) : bool_decide (o = None) = negb (is_some o).
Proof. destruct o; [by rewrite bool_decide_false|by rewrite bool_decide_true]. Qed.

Lemma exactly_one_flags {A B C D} (a : option A) (b : option B) (c : option C) (d : option D) :
  is_some c = is_some a → is_some d = is_some b →
  negb (is_some a) && negb (is_some b) = false →
  negb (negb (is_some a)) && negb (negb (is_some b)) = false → exactly_one c d.
Proof. unfold exactly_one. destruct a, b, c, d; simpl; try done; auto. Qed.

(** Strings go in, strings are stored. *)
Lemma str_context items j :
  forallb (λ e, is_str e.1 && is_str e.2) items = true → immutable_mapping items = Ok j →
  ∃ l, j = JObj l ∧ NoDup (map fst l) ∧ Forall (λ e, ∃ s, e.2 = JStr s) l.
Proof.
  intros Hstr Hj. unfold immutable_mapping in Hj. cbn [json_value] in Hj.
  apply res_map_ok in Hj as (d & Hd & ->). exists d. split; [done|]. rewrite forallb_forall in Hstr.
  refine (dict_of_inv (λ j, ∃ s, j = JStr s) _ _ _ [] _ _ NoDup_nil_2 (Forall_nil_2 _) Hd).
  apply Forall_forall. intros [k v] Hin%list_elem_of_In y Hy. specialize (Hstr _ Hin).
  simpl in *. apply andb_true_iff in Hstr as [_ Hv]. destruct v; try done. injection Hy as <-. by eexists.
Qed.

(** C33: an outbox record that was constructed carries the format version, non-empty
    identifiers, a known Catalog, exactly one of payload and reference (an
    object), distinct labels, a version that is not a boolean, a context of
    strings, a UTC time in range, and the digest of its own canonical content (a
    caller's digest was empty or that digest); and its mapping meets the
    published JSON Schema [meridian-outbox.v1], member by member. *)
Theorem make_outbox_data_ok a d :
  make_outbox_data a = Ok d →
  outbox_data_ok d ∧ (∃ l, outbox_to_mapping d = JObj l ∧ meets_outbox_schema l) ∧ event_id d = arg_event_id a ∧
  (arg_digest a = "" ∨ arg_digest a = digest d)%string.
Proof.
  unfold make_outbox_data, unique. intros H. simplify_res. simplify_bool.
  rename select (require_nonempty _ = _) into Hne.
  apply require_nonempty_ok in Hne. rewrite !Forall_cons in Hne. simpl in Hne.
  rename select (opt_immutable (arg_payload _) = _) into Hp.
  rename select (opt_immutable (arg_immutable_reference _) = _) into Hr.
  rename select (forallb _ _ = true) into Hstr.
  rename select (immutable_mapping _ = _) into Hc. pose proof (str_context _ _ Hstr Hc) as Hcontext.
  pose proof (opt_immutable_object _ _ Hp) as Hpo. pose proof (opt_immutable_object _ _ Hr) as Hro.
  apply opt_immutable_some in Hp, Hr.
  repeat match goal with H : ensure_utc _ _ = Ok _ |- _ => apply ensure_utc_ok in H as [? _] end.
  rewrite !is_some_decide in *.
  rename select (_ && _ = false) into Hdigest. apply supplied_matches in Hdigest.
  cut (∀ d, outbox_data_ok d → outbox_data_ok d ∧ ∃ l, outbox_to_mapping d = JObj l ∧ meets_outbox_schema l).
  { intros Hboth. rewrite (and_assoc (outbox_data_ok _)). split; [apply Hboth|by split].
    split; simpl; try tauto; [by eapply exactly_one_flags|]. intros j [Hj|Hj]; [by apply Hpo|by apply Hro]. }
  intros d Hd. split; [done|by apply outbox_meets_schema].
Qed.

(** The constructor arguments that stored data gives back, its digest included. *)
Definition args_of (d : OutboxDataV1) : outbox_args :=
  OutboxArgs (source_resource d) (source_schema d) (of_json (source_identity d)) (mutation_kind d)
    (source_version d) (items_of <$> payload d) (items_of <$> immutable_reference d)
    (target_labels d) (at_utc (occurred_at d)) (items_of (operation_context d))
    (source_catalog d) (event_id d) (digest d) (format_version d).

Lemma opt_immutable_items m o : opt_immutable m = Ok o → opt_immutable (items_of <$> o) = Ok o.
Proof.
  destruct m as [items|]; simpl; intros H; simplify_res; simpl; [|done].
  by erewrite immutable_mapping_items.
Qed.

Lemma str_items items j :
  forallb (λ e, is_str e.1 && is_str e.2) items = true → immutable_mapping items = Ok j →
  forallb (λ e, is_str e.1 && is_str e.2) (items_of j) = true.
Proof.
  intros Hstr Hj. destruct (str_context _ _ Hstr Hj) as (l & -> & _ & Hall).
  rewrite forallb_forall. intros e He. apply in_map_iff in He as ((k & v) & <- & Hin).
  rewrite Forall_forall in Hall. by destruct (Hall (k, v)) as [x ->]; [apply list_elem_of_In|].
Qed.

Lemma is_some_fmap {A B} (f : A → B) (o : option A) : is_some (f <$> o) = is_some o.
Proof. by destruct o. Qed.

(** Outbox data rebuilt from its stored fields and its digest is the same data. *)
Theorem outbox_data_roundtrip a d : make_outbox_data a = Ok d → make_outbox_data (args_of d) = Ok d.
Proof.
  unfold make_outbox_data at 1. intros H. simplify_res.
  rename select (opt_immutable (arg_payload _) = _) into Hp.
  rename select (opt_immutable (arg_immutable_reference _) = _) into Hr.
  rename select (negb (forallb _ _) = _) into Hstr. apply negb_false_iff in Hstr.
  rename select (immutable_mapping _ = _) into Hc.
  rename select (immutable_value _ = _) into Hi.
  rename select (ensure_utc _ _ = _) into Ht. apply ensure_utc_ok in Ht as [Ht _].
  unfold make_outbox_data. rewrite !is_some_decide in *. unfold args_of, arg_payload, arg_immutable_reference.
  rewrite !is_some_fmap. cbn [payload immutable_reference set_digest].
  rewrite (opt_immutable_some _ _ Hp), (opt_immutable_some _ _ Hr).
  do 8 (eapply res_bind_intro; [first [eassumption|by apply raise_if_intro, negb_false_iff, (str_items _ _ Hstr)
    |apply raise_if_intro; eassumption]|]).
  eapply res_bind_intro; [by eapply immutable_value_of_json|].
  eapply res_bind_intro; [by apply ensure_utc_at_utc|].
  eapply res_bind_intro; [by eapply immutable_mapping_items|].
  eapply res_bind_intro; [by eapply opt_immutable_items|].
  eapply res_bind_intro; [by eapply opt_immutable_items|].
  eapply res_bind_intro; [by apply raise_if_intro, supplied_matches; right|].
  done.
Qed.

(** ** Concrete events

    The events the examples and witnesses run on: one source record that is
    upserted twice, and another source record. *)
Definition sample_args (id : string) (identity : Z) (version : Z) (seconds : Z) : outbox_args :=
  OutboxArgs "orders" "orders.v1" (PMapping [(PStr "id", PInt identity)]) "UPSERT" (Some (VInt version))
    (Some [(PStr "total", PInt (10 * version)); (PStr "tags", PSequence [PStr "a"; PBool true])]) None
    ["search"] (Datetime (seconds * us_per_second + 3600 * us_per_second) (Some (3600 * us_per_second)))
    [(PStr "tenant", PStr "t1")] "structured" id "" "meridian.outbox.v1".

Definition built (r : res OutboxDataV1) : OutboxDataV1 :=
  match r with
  | Ok d => d
  | Raise _ => MkOutboxData "" "" JNull "" None None None [] 0 JNull "" "" "" ""
  end.

Definition sample_event1 : OutboxDataV1 :=
  Eval vm_compute in built (make_outbox_data (sample_args "evt-1" 1 1 100)).
Definition sample_event2 : OutboxDataV1 :=
  Eval vm_compute in built (make_outbox_data (sample_args "evt-2" 1 2 200)).
Definition sample_event3 : OutboxDataV1 :=
  Eval vm_compute in built (make_outbox_data (sample_args "evt-3" 2 7 150)).

Lemma make_outbox_data_ok_witness :
  outbox_data_ok sample_event1 ∧ (∃ l, outbox_to_mapping sample_event1 = JObj l ∧ meets_outbox_schema l) ∧
  event_id sample_event1 = "evt-1"%string ∧
  ("" = "" ∨ "" = digest sample_event1)%string.
Proof. refine (make_outbox_data_ok (sample_args "evt-1" 1 1 100) _ _). vm_compute. reflexivity. Defined.

Lemma outbox_data_roundtrip_witness : make_outbox_data (args_of sample_event3) = Ok sample_event3.
Proof. refine (outbox_data_roundtrip (sample_args "evt-3" 2 7 150) _ _). vm_compute. reflexivity. Defined.

Lemma partition_nonempty d : partition_key d ≠ ""%string.
Proof. unfold partition_key, sha256_digest. discriminate. Qed.

(** Two partition keys are compared, never computed, outside the witnesses. *)
Global Opaque partition_key.
