(* ===== verification/Redaction.v ===== *)
(** * Redaction of failure causes

    The text processing of [InMemoryOutboxStore._redacted_failure]
    ([outbox/store.py]): the substitution of the pattern [_SENSITIVE_VALUE],
    [str.strip] and the slice to 512 characters.  These work on code points, so
    the text is decoded from its UTF-8 representation and encoded again. *)
From S2P Require Import Prelude PyTime Sha256 Canonical Errors OutboxModel.

(** ** Code points *)
Definition byte_of (c : ascii) : Z := Z.of_N (N_of_ascii c).
Definition char_of (z : Z) : ascii := ascii_of_N (Z.to_N z).

Fixpoint decode_utf8 (fuel : nat) (s : list Z) : list Z :=
  match fuel, s with
  | S n, b0 :: s' =>
      if b0 <? 128 then b0 :: decode_utf8 n s'
      else match s' with
           | b1 :: s1 =>
               if b0 <? 224 then (b0 - 192) * 64 + (b1 - 128) :: decode_utf8 n s1
               else match s1 with
                    | b2 :: s2 =>
                        if b0 <? 240 then
                          ((b0 - 224) * 64 + (b1 - 128)) * 64 + (b2 - 128) :: decode_utf8 n s2
                        else match s2 with
                             | b3 :: s3 =>
                                 (((b0 - 240) * 64 + (b1 - 128)) * 64 + (b2 - 128)) * 64 + (b3 - 128)
                                   :: decode_utf8 n s3
                             | [] => []
                             end
                    | [] => []
                    end
           | [] => []
           end
  | _, _ => []
  end.

Definition encode_cp (c : Z) : list Z :=
  if c <? 128 then [c]
  else if c <? 2048 then [192 + c / 64; 128 + c mod 64]
  else if c <? 65536 then [224 + c / 4096; 128 + c / 64 mod 64; 128 + c mod 64]
  else [240 + c / 262144; 128 + c / 4096 mod 64; 128 + c / 64 mod 64; 128 + c mod 64].

Definition code_points (s : string) : list Z :=
  decode_utf8 (String.length s) (bytes_of_string s).
Fixpoint string_of_bytes (l : list Z) : string :=
  match l with [] => "" | b :: l' => String (char_of b) (string_of_bytes l') end.
Definition of_code_points (l : list Z) : string := string_of_bytes (concat (map encode_cp l)).

(** [str.isspace], also the class [\s] of a [str] pattern. *)
Definition is_space (c : Z) : bool :=
  (9 <=? c) && (c <=? 13) || (28 <=? c) && (c <=? 32) || (8192 <=? c) && (c <=? 8202) ||
  bool_decide (c ∈ [133; 160; 5760; 8232; 8233; 8239; 8287; 12288]).

Fixpoint skip_while (p : Z → bool) (l : list Z) : list Z :=
  match l with
  | c :: l' => if p c then skip_while p l' else l
  | [] => []
  end.

Fixpoint take_while (p : Z → bool) (l : list Z) : list Z :=
  match l with
  | c :: l' => if p c then c :: take_while p l' else []
  | [] => []
  end.

(** [str.strip()] *)
Definition strip (l : list Z) : list Z :=
  reverse (skip_while is_space (reverse (skip_while is_space l))).

(** ** The pattern
    [(?i)(password|secret|token|credential|endpoint)\s*[:=]\s*[^\s,;]+] *)

(** The letter a character matches under [IGNORECASE]: ASCII capitals, and the
    four characters whose case variants are the ASCII letters i, s and k. *)
Definition fold_case (c : Z) : Z :=
  if (65 <=? c) && (c <=? 90) then c + 32
  else if (c =? 304) || (c =? 305) then 105
  else if c =? 383 then 115
  else if c =? 8490 then 107
  else c.

Definition keywords : list (list Z) :=
  map bytes_of_string ["password"; "secret"; "token"; "credential"; "endpoint"]%string.

(** The text matched by a keyword at the head of [l], and what follows it. *)
Fixpoint match_keyword (k l : list Z) : option (list Z * list Z) :=
  match k, l with
  | [], _ => Some ([], l)
  | a :: k', c :: l' =>
      if fold_case c =? a then
        match match_keyword k' l' with
        | Some (g, rest) => Some (c :: g, rest)
        | None => None
        end
      else None
  | _ :: _, [] => None
  end.

Definition is_separator (c : Z) : bool := (c =? 58) || (c =? 61).
Definition is_value_char (c : Z) : bool := negb (is_space c || (c =? 44) || (c =? 59)).

(** What must follow the keyword; the rest of the text after the value. *)
Definition match_value (l : list Z) : option (list Z) :=
  match skip_while is_space l with
  | c :: l' =>
      if is_separator c then
        match skip_while is_space l' with
        | v :: l'' => if is_value_char v then Some (skip_while is_value_char l'') else None
        | [] => None
        end
      else None
  | [] => None
  end.

(** A match of the whole pattern at the head of [l]: its first group and the
    text after it.  No choice of the matcher can succeed where this one fails:
    no two keywords start with the same letter, and the character classes that
    follow each other are disjoint. *)
Fixpoint match_at (ks : list (list Z)) (l : list Z) : option (list Z * list Z) :=
  match ks with
  | [] => None
  | k :: ks' =>
      match match_keyword k l with
      | Some (g, rest) =>
          match match_value rest with
          | Some rest' => Some (g, rest')
          | None => match_at ks' l
          end
      | None => match_at ks' l
      end
  end.

Definition redacted_mark : list Z := bytes_of_string "=<redacted>".

(** [_SENSITIVE_VALUE.sub(r"\1=<redacted>", text)] *)
Fixpoint redact (fuel : nat) (l : list Z) : list Z :=
  match fuel, l with
  | S n, c :: l' =>
      match match_at keywords l with
      | Some (g, rest) => g ++ redacted_mark ++ redact n rest
      | None => c :: redact n l'
      end
  | _, _ => []
  end.

(** [cause = sub(...).strip(); (cause or type(error).__name__)[:512]] *)
Definition redacted_cause_of `{Core} (e : exn) : string :=
  let text := code_points (exn_str e) in
  let cause := strip (redact (length text) text) in
  let cause := match cause with [] => code_points (type_name e) | _ => cause end in
  of_code_points (take 512 cause).

(** [InMemoryOutboxStore._redacted_failure] *)
Definition redacted_failure `{Core} (e : exn) (failed_at : instant) : res OutboxFailure :=
  let code := match e with
              | EMeridian _ _ code _ _ => code
              | EPython m q _ | EBase m q _ => m +:+ "." +:+ q
              end in
  make_failure code (redacted_cause_of e) (at_utc failed_at).

Definition redact_text (s : string) : string :=
  let l := code_points s in of_code_points (redact (length l) l).

Example redact_token : redact_text "token=synthetic-secret" = "token=<redacted>"%string.
Proof. vm_compute. reflexivity. Qed.
Example redact_many :
  redact_text "Password : hunter2, user=bob; ENDPOINT=db:5432 secret" =
  "Password=<redacted>, user=bob; ENDPOINT=<redacted> secret"%string.
Proof. vm_compute. reflexivity. Qed.
Example redact_none : redact_text "no such row; tokens were fine" = "no such row; tokens were fine"%string.
Proof. vm_compute. reflexivity. Qed.

(** ** Failures can be recorded

    The exceptions whose failure the store can build: a code and a class name
    that are not empty. *)
Definition reportable (e : exn) : Prop :=
  is_exception e = true ∧ code_points (type_name e) ≠ [] ∧
  match e with EMeridian _ _ code _ _ => code ≠ ""%string | _ => True end.

Lemma encode_cp_nonempty c : encode_cp c ≠ [].
Proof. unfold encode_cp. repeat case_match; done. Qed.

Lemma of_code_points_nonempty l : l ≠ [] → of_code_points l ≠ ""%string.
Proof.
  unfold of_code_points. destruct l as [|c l]; [done|]. intros _. cbn [map concat].
  pose proof (encode_cp_nonempty c). by destruct (encode_cp c).
Qed.

Lemma redacted_cause_nonempty `{Core} e :
  code_points (type_name e) ≠ [] → redacted_cause_of e ≠ ""%string.
Proof.
  intros Hname. unfold redacted_cause_of. cbv zeta. apply of_code_points_nonempty.
  destruct (strip _) as [|c l]; [|done]. by destruct (code_points (type_name e)).
Qed.

Lemma append_dot_nonempty m q : (m +:+ "." +:+ q)%string ≠ ""%string.
Proof. by destruct m. Qed.

Lemma redacted_failure_total `{Core} e t :
  in_range t = true → reportable e → ∃ f, redacted_failure e t = Ok f.
Proof.
  intros Ht (_ & Hname & Hcode). unfold redacted_failure, make_failure. cbv zeta.
  rewrite (proj2 (nonempty_spec (redacted_cause_of e))) by by apply redacted_cause_nonempty.
  rewrite (proj2 (nonempty_spec _)) by (destruct e; [done|apply append_dot_nonempty..]).
  rewrite ensure_utc_at_utc by done. cbn. eauto.
Qed.
