(* ===== verification/OutboxStore.v ===== *)
(** * The reference outbox store ([outbox/store.py])

    [InMemoryOutboxStore]: records by event id, checkpoints by partition key.
    Every operation runs under the store's lock, so it is one atomic step on the
    store.  Operations mutate the record objects in the order of the code, and
    what they wrote before raising stays written.

    The argument [now] of an operation is the value of [now or utc_now()]. *)
From S2P Require Import Prelude PyTime Sha256 Canonical Errors OutboxModel Redaction.

Record store : Type := Store {
  poison_threshold : Z;
  visibility_target_seconds : float;
  records : gmap string OutboxRecord;
  checkpoints : gmap string Checkpoint;
}.

Definition with_records (s : store) (rs : gmap string OutboxRecord) : store :=
  Store (poison_threshold s) (visibility_target_seconds s) rs (checkpoints s).
Definition with_checkpoints (s : store) (cs : gmap string Checkpoint) : store :=
  Store (poison_threshold s) (visibility_target_seconds s) (records s) cs.

(** Write back a record object. *)
Definition put_record (key : string) (r : OutboxRecord) : M store unit :=
  modify (λ s, with_records s (<[key := r]> (records s))).
Definition put_checkpoint (c : Checkpoint) : M store unit :=
  modify (λ s, with_checkpoints s (<[cp_partition_key c := c]> (checkpoints s))).

(** [InMemoryOutboxStore.__init__] *)
Definition make_store (poison_threshold : Z) (visibility_target_seconds : float) : res store :=
  do? raise_if (poison_threshold <? 1) (ValueError "poison_threshold must be positive") in
  do? raise_if (f64_le visibility_target_seconds f64_zero)
        (ValueError "visibility_target_seconds must be positive") in
  Ok (Store poison_threshold visibility_target_seconds ∅ ∅).

(** A new [_MutableRecord(data=data)]. *)
Definition new_record (d : OutboxDataV1) : OutboxRecord :=
  MkRecord d PENDING 0 None None None None.

(** [_MutableRecord.snapshot] *)
Definition snapshot (r : OutboxRecord) : res OutboxRecord := make_record r.

Definition not_found (event_id : string) : exn :=
  EMeridian NotFoundError "NotFoundError" "MERIDIAN_OUTBOX_NOT_FOUND"
    ("outbox event " +:+ py_repr event_id +:+ " was not found") None.

(** ** [append] and [append_many] *)
Definition append (d : OutboxDataV1) : M store unit :=
  let! s := get in
  match records s !! event_id d with
  | None => put_record (event_id d) (new_record d)
  | Some existing =>
      lift_res (raise_if (negb (String.eqb (digest (data existing)) (digest d)))
        (EMeridian ConflictError "ConflictError" "MERIDIAN_OUTBOX_IDEMPOTENCY_CONFLICT"
           ("event " +:+ py_repr (event_id d) +:+ " already exists with different content") None))
  end.

Definition append_many (l : list OutboxDataV1) : M store unit :=
  for_list l () (λ _ d, append d).

(** ** [atomic_claim] *)

(** [sorted(records, key=lambda record: (occurred_at, event_id))]; the keys of
    the dict identify the record objects. *)
Definition claim_le (p q : string * OutboxRecord) : Prop :=
  occurred_at (data p.2) < occurred_at (data q.2) ∨
  (occurred_at (data p.2) = occurred_at (data q.2) ∧
   (event_id (data p.2) ≤ event_id (data q.2))%string).
#[export] Instance claim_le_dec p q : Decision (claim_le p q).
Proof. unfold claim_le. apply _. Defined.

Definition ordered_records (s : store) : list (string * OutboxRecord) :=
  merge_sort claim_le (map_to_list (records s)).

(** Field updates of a record object. *)
Definition set_state (r : OutboxRecord) (st : OutboxState) : OutboxRecord :=
  MkRecord (data r) st (attempt_count r) (lease r) (failure r) (target_fingerprint r) (completed_at r).
Definition set_lease (r : OutboxRecord) (l : option OutboxLease) : OutboxRecord :=
  MkRecord (data r) (state r) (attempt_count r) l (failure r) (target_fingerprint r) (completed_at r).
Definition set_failure (r : OutboxRecord) (f : option OutboxFailure) : OutboxRecord :=
  MkRecord (data r) (state r) (attempt_count r) (lease r) f (target_fingerprint r) (completed_at r).
Definition bump_attempt (r : OutboxRecord) : OutboxRecord :=
  MkRecord (data r) (state r) (attempt_count r + 1) (lease r) (failure r) (target_fingerprint r) (completed_at r).
Definition set_completed (r : OutboxRecord) (fingerprint : string) (at_ : instant) : OutboxRecord :=
  MkRecord (data r) COMPLETED (attempt_count r) None None (Some fingerprint) (Some at_).

Inductive claim_decision : Type :=
| Skip                         (* the record is not claimable *)
| Broken                       (* [assert record.lease is not None] fails *)
| Expired (r : OutboxRecord)   (* an expired lease was taken back *)
| Claimable.

(** The tests of the loop body on a record that is first in its partition. *)
Definition claim_test (current : instant) (r : OutboxRecord) : claim_decision :=
  match state r with
  | LEASED =>
      match lease r with
      | None => Broken
      | Some l =>
          if current <? expires_at l then Skip
          else Expired (set_lease (set_state r RETRYABLE) None)
      end
  | PENDING | RETRYABLE => Claimable
  | COMPLETED | QUARANTINED => Skip
  end.

(** Lease the record object under [key] and return its snapshot. *)
Definition grant (owner : string) (lease_duration : timedelta) (current : instant)
    (key : string) (r : OutboxRecord) : M store OutboxRecord :=
  let r := set_state (set_failure (bump_attempt r) None) LEASED in
  do! put_record key r in
  let! expires := lift_res (dt_add current lease_duration) in
  let! l := lift_res (make_lease owner (at_utc current) (at_utc expires) (attempt_count r)) in
  let r := set_lease r (Some l) in
  do! put_record key r in
  lift_res (snapshot r).

Fixpoint claim_loop (owner : string) (limit : Z) (lease_duration : timedelta) (current : instant)
    (ordered : list (string * OutboxRecord)) (seen : gset string) (claimed : list OutboxRecord)
    : M store (list OutboxRecord) :=
  match ordered with
  | [] => ret claimed
  | (key, r) :: rest =>
      let continue seen := claim_loop owner limit lease_duration current rest seen claimed in
      let lease_it r seen :=
        let! snap := grant owner lease_duration current key r in
        let claimed := claimed ++ [snap] in
        if Z.of_nat (length claimed) =? limit then ret claimed
        else claim_loop owner limit lease_duration current rest seen claimed in
      if bool_decide (state r = COMPLETED) then continue seen
      else
        let partition := partition_key (data r) in
        if bool_decide (partition ∈ seen) then continue seen
        else
          let seen := {[partition]} ∪ seen in
          match claim_test current r with
          | Skip => continue seen
          | Broken => raise AssertionError
          | Expired r => do! put_record key r in lease_it r seen
          | Claimable => lease_it r seen
          end
  end.

Definition atomic_claim (owner : string) (limit : Z) (lease_duration : timedelta) (now : datetime)
    : M store (list OutboxRecord) :=
  do! lift_res (raise_if (negb (nonempty owner)) (ValueError "owner must be non-empty")) in
  do! lift_res (raise_if (limit <? 1) (ValueError "limit must be positive")) in
  do! lift_res (raise_if (lease_duration <=? 0) (ValueError "lease_duration must be positive")) in
  let! current := lift_res (ensure_utc now "now") in
  let! s := get in
  claim_loop owner limit lease_duration current (ordered_records s) ∅ [].

(** ** [_leased_record], [complete] and [release] *)
Definition leased_record (event_id owner_ : string) (now : instant) (s : store)
    : res OutboxRecord :=
  match records s !! event_id with
  | None => Raise (not_found event_id)
  | Some r =>
      match state r, lease r with
      | LEASED, Some l =>
          do? raise_if (negb (String.eqb (owner l) owner_))
                (LeaseLostError ("outbox event " +:+ py_repr event_id +:+ " is leased by another owner")) in
          do? raise_if (expires_at l <=? now)
                (LeaseLostError ("lease for outbox event " +:+ py_repr event_id +:+ " has expired")) in
          Ok r
      | _, _ => Raise (LeaseLostError ("outbox event " +:+ py_repr event_id +:+ " is not leased"))
      end
  end.

(** [type(a) is not type(b) or a != b] *)
Definition version_mismatch (a b : option version) : bool :=
  negb (bool_decide (type_of_version a = type_of_version b)) || negb (version_eqb a b).

Definition next_revision (previous : option Checkpoint) : Z :=
  match previous with None => 1 | Some c => revision c + 1 end.

Definition complete (event_id owner : string) (acknowledged : option version)
    (target_fingerprint : string) (now : datetime) : M store Checkpoint :=
  do! lift_res (require_sha256 target_fingerprint "target_fingerprint") in
  let! current := lift_res (ensure_utc now "now") in
  let! s := get in
  let! r := lift_res (leased_record event_id owner current s) in
  do! lift_res (raise_if (version_mismatch acknowledged (source_version (data r)))
        (CheckpointConflict "target acknowledgement does not match the exact source version")) in
  do! put_record event_id (set_completed r target_fingerprint current) in
  let partition := partition_key (data r) in
  let! checkpoint := lift_res (make_checkpoint
        (MkCheckpoint partition (next_revision (checkpoints s !! partition)) (Some event_id)
           (source_version (data r)) (Some target_fingerprint) (Some current))) in
  do! put_checkpoint checkpoint in
  ret checkpoint.

Definition release `{Core} (event_id owner : string) (error : exn) (retryable : bool)
    (now : datetime) : M store OutboxRecord :=
  let! current := lift_res (ensure_utc now "now") in
  let! s := get in
  let! r := lift_res (leased_record event_id owner current s) in
  let! f := lift_res (redacted_failure error current) in
  let r := set_lease (set_failure r (Some f)) None in
  let r := set_state r (if negb retryable || (poison_threshold s <=? attempt_count r)
                        then QUARANTINED else RETRYABLE) in
  do! put_record event_id r in
  lift_res (snapshot r).

(** ** [operator_retry] *)

(** [s.strip()] is non-empty. *)
Definition has_text (s : string) : bool := negb (bool_decide (strip (code_points s) = [])).

Definition operator_retry (event_id reason : string) : M store OutboxRecord :=
  do! lift_res (raise_if (negb (has_text reason))
        (ValueError "operator retry reason must be non-empty")) in
  let! s := get in
  match records s !! event_id with
  | None => raise (not_found event_id)
  | Some r =>
      do! lift_res (raise_if (negb (bool_decide (state r = QUARANTINED)))
            (EMeridian ConflictError "ConflictError" "MERIDIAN_OUTBOX_STATE_CONFLICT"
               ("outbox event " +:+ py_repr event_id +:+ " is not quarantined") None)) in
      let r := set_failure (set_state r RETRYABLE) None in
      do! put_record event_id r in
      lift_res (snapshot r)
  end.

(** ** Checkpoints and inspection *)
Definition compare_and_set_checkpoint (c : Checkpoint) (expected_revision : Z) : M store Checkpoint :=
  let! s := get in
  let current := match checkpoints s !! cp_partition_key c with
                 | None => 0
                 | Some c' => revision c'
                 end in
  do! lift_res (raise_if (negb (current =? expected_revision))
        (CheckpointConflict ("checkpoint revision " +:+ pretty current +:+ " does not match "
           +:+ pretty expected_revision))) in
  do! lift_res (raise_if (negb (revision c =? expected_revision + 1))
        (CheckpointConflict "new checkpoint revision must increment by one")) in
  do! put_checkpoint c in
  ret c.

Definition initial_checkpoint (partition : string) : Checkpoint :=
  MkCheckpoint partition 0 None None None None.

Definition checkpoint (partition : string) : M store Checkpoint :=
  let! s := get in
  let! initial := lift_res (make_checkpoint (initial_checkpoint partition)) in
  ret (default initial (checkpoints s !! partition)).

Definition get_record (event_id : string) : M store OutboxRecord :=
  let! s := get in
  match records s !! event_id with
  | None => raise (not_found event_id)
  | Some r => lift_res (snapshot r)
  end.

Definition list_records : M store (list OutboxRecord) :=
  let! s := get in
  lift_res (res_all (λ e, snapshot e.2) (ordered_records s)).

(** ** [lag] *)
Definition incomplete (s : store) : list instant :=
  map (λ e, occurred_at (data e.2))
    (filter (λ e : string * OutboxRecord, state e.2 ≠ COMPLETED) (map_to_list (records s))).

(** [min(l)] of a non-empty list. *)
Definition list_min (l : list instant) : option instant :=
  match l with
  | [] => None
  | x :: l' => Some (fold_left Z.min l' x)
  end.

(** [max(0.0, x)] *)
Definition f64_max0 (x : float) : float := if f64_lt f64_zero x then x else f64_zero.

Definition lag (now : datetime) : M store ProjectionLag :=
  let! current := lift_res (ensure_utc now "now") in
  let! s := get in
  let oldest := list_min (incomplete s) in
  let seconds := match oldest with
                 | Some t => f64_max0 (total_seconds (current - t))
                 | None => f64_zero
                 end in
  lift_res (make_lag (MkLag (Z.of_nat (length (incomplete s))) oldest seconds
                        (visibility_target_seconds s))).
