(* ===== verification/OutboxClaim.v ===== *)
(** * Claiming leases: specification and refinement

    The abstract specification of [atomic_claim]: of the incomplete records, in
    the order of [(occurred_at, event_id)], the first of each partition is its
    head; the claim leases the claimable heads, up to the limit.  The loop of
    [OutboxStore.v] is shown to compute exactly that; the order of a claim and its
    work conservation are read off the specification. *)
From S2P Require Import Prelude PyTime Canonical Errors OutboxModel Redaction OutboxStore.

(** ** Well-formed stores *)
Record lease_ok (r : OutboxRecord) (l : OutboxLease) : Prop := {
  lease_owner : owner l ≠ ""%string;
  lease_interval : acquired_at l < expires_at l;
  lease_attempt_eq : lease_attempt l = attempt_count r;
}.

Record record_ok (r : OutboxRecord) : Prop := {
  record_lease : state r = LEASED ↔ is_some (lease r) = true;
  record_lease_ok : ∀ l, lease r = Some l → lease_ok r l;
  record_attempts : 0 ≤ attempt_count r;
  record_pending : state r = PENDING → attempt_count r = 0;
  record_started : state r ≠ PENDING → 1 ≤ attempt_count r;
  record_completed : state r = COMPLETED ↔ is_some (completed_at r) = true;
  record_fingerprint : is_some (target_fingerprint r) = is_some (completed_at r);
}.

Record store_ok (s : store) : Prop := {
  store_threshold : 1 ≤ poison_threshold s;
  store_keys : map_Forall (λ key r, event_id (data r) = key) (records s);
  store_records : map_Forall (λ _ r, record_ok r) (records s);
  store_partitions : map_Forall (λ p c, cp_partition_key c = p ∧ p ≠ ""%string ∧ 1 ≤ revision c)
                       (checkpoints s);
}.

(** ** The specification *)
Definition claimable (current : instant) (r : OutboxRecord) : bool :=
  match state r with
  | PENDING | RETRYABLE => true
  | LEASED => match lease r with Some l => expires_at l <=? current | None => false end
  | COMPLETED | QUARANTINED => false
  end.

Fixpoint heads (seen : gset string) (l : list (string * OutboxRecord)) : list (string * OutboxRecord) :=
  match l with
  | [] => []
  | e :: l' =>
      if bool_decide (state e.2 = COMPLETED) then heads seen l'
      else
        let partition := partition_key (data e.2) in
        if bool_decide (partition ∈ seen) then heads seen l'
        else e :: heads ({[partition]} ∪ seen) l'
  end.

Definition claim_targets (limit : Z) (current : instant) (s : store) : list (string * OutboxRecord) :=
  take (Z.to_nat limit) (List.filter (λ e, claimable current e.2) (heads ∅ (ordered_records s))).

(** The record after it was leased. *)
Definition leased (owner : string) (duration : timedelta) (current : instant) (r : OutboxRecord)
    : OutboxRecord :=
  MkRecord (data r) LEASED (attempt_count r + 1)
    (Some (MkLease owner current (current + duration) (attempt_count r + 1)))
    None (target_fingerprint r) (completed_at r).

Definition lease_all (owner : string) (duration : timedelta) (current : instant)
    (l : list (string * OutboxRecord)) (rs : gmap string OutboxRecord) : gmap string OutboxRecord :=
  fold_left (λ m e, <[e.1 := leased owner duration current e.2]> m) l rs.

(** ** The loop computes the specification *)
Section claim.
Context (owner : string) (duration : timedelta) (current : instant).
Context (Howner : owner ≠ ""%string) (Hduration : 0 < duration)
        (Hcurrent : in_range current = true) (Hexpires : in_range (current + duration) = true).

Lemma grant_spec key r s :
  0 ≤ attempt_count r →
  grant owner duration current key r s =
    (Ok (leased owner duration current r),
     with_records s (<[key := leased owner duration current r]> (records s))).
Proof.
  intros Hattempt. unfold grant, bind, put_record, modify, lift_res. cbn.
  unfold dt_add. rewrite Hexpires. cbn. unfold make_lease.
  rewrite !ensure_utc_at_utc by done. rewrite (proj2 (nonempty_spec owner)) by done.
  rewrite (proj2 (Z.ltb_ge _ _)) by lia. cbn.
  rewrite (proj2 (Z.leb_gt _ _)) by lia. cbn.
  unfold snapshot, make_record. cbn. rewrite (proj2 (Z.ltb_ge _ _)) by lia. cbn.
  unfold with_records; simpl. by rewrite insert_insert_eq.
Qed.

Lemma claim_test_spec r :
  record_ok r → state r ≠ COMPLETED →
  match claim_test current r with
  | Skip => claimable current r = false
  | Broken => False
  | Expired r' => claimable current r = true ∧ attempt_count r' = attempt_count r ∧
                  leased owner duration current r' = leased owner duration current r
  | Claimable => claimable current r = true
  end.
Proof.
  intros Hr Hstate. unfold claim_test, claimable. pose proof (record_lease _ Hr) as Hl.
  destruct (state r); try done. destruct (lease r) as [l|]; [|by discriminate (proj1 Hl eq_refl)].
  destruct (Z.ltb_spec current (expires_at l)), (Z.leb_spec (expires_at l) current); done || lia.
Qed.

Lemma with_records_same s : with_records s (records s) = s.
Proof. by destruct s. Qed.

Lemma claim_loop_spec limit l seen claimed s :
  Forall (λ e, record_ok e.2) l → Z.of_nat (length claimed) < limit →
  claim_loop owner limit duration current l seen claimed s =
    let targets := take (Z.to_nat limit - length claimed)
                     (List.filter (λ e, claimable current e.2) (heads seen l)) in
    (Ok (claimed ++ map (λ e, leased owner duration current e.2) targets),
     with_records s (lease_all owner duration current targets (records s))).
Proof.
  intros Hl. revert seen claimed s.
  induction Hl as [|[key r] l Hr Hl IH]; intros seen claimed s Hlen; cbn [claim_loop heads List.filter].
  { rewrite take_nil, app_nil_r. unfold lease_all. cbn. by rewrite with_records_same. }
  cbn [snd] in *. case_bool_decide as Hc; [by apply IH|].
  case_bool_decide as Hs; [by apply IH|].
  pose proof (claim_test_spec r Hr Hc) as Htest.
  assert (∃ n, Z.to_nat limit - length claimed = S n)%nat as [n Hn]
    by (exists (pred (Z.to_nat limit - length claimed)); lia).
  assert (∀ r' s', attempt_count r' = attempt_count r →
    leased owner duration current r' = leased owner duration current r →
    with_records s' (<[key := leased owner duration current r]> (records s')) =
    with_records s (<[key := leased owner duration current r]> (records s)) →
    claimable current r = true →
    (let! snap := grant owner duration current key r' in
     if Z.of_nat (length (claimed ++ [snap])) =? limit then ret (claimed ++ [snap])
     else claim_loop owner limit duration current l ({[partition_key (data r)]} ∪ seen)
            (claimed ++ [snap])) s' =
    let targets := take (Z.to_nat limit - length claimed)
      (List.filter (λ e, claimable current e.2) ((key, r) :: heads ({[partition_key (data r)]} ∪ seen) l)) in
    (Ok (claimed ++ map (λ e, leased owner duration current e.2) targets),
     with_records s (lease_all owner duration current targets (records s)))) as Hclaim.
  { intros r' s' Hattempt Hleased Hput Hclaimable. unfold bind at 1.
    rewrite grant_spec by (rewrite Hattempt; apply Hr). rewrite Hleased, Hput. rewrite Hn.
    cbn [List.filter snd]. rewrite Hclaimable. cbn [firstn map lease_all fold_left fst snd].
    rewrite length_app. cbn [length]. destruct (Z.eqb_spec (Z.of_nat (length claimed + 1)) limit).
    - assert (n = 0%nat) as -> by lia. done.
    - rewrite IH by (rewrite length_app; cbn [length]; lia). cbv zeta. rewrite length_app. cbn [length].
      replace (Z.to_nat limit - (length claimed + 1))%nat with n by lia.
      rewrite <-app_assoc. done. }
  destruct (claim_test current r) as [| |r'|].
  - cbn [List.filter snd]. rewrite Htest. by apply IH.
  - done.
  - destruct Htest as (Hcl & Hattempt & Hleased). unfold bind at 1, put_record, modify. cbn.
    apply Hclaim; try done. unfold with_records; simpl. by rewrite insert_insert_eq.
  - apply Hclaim; done.
Qed.
End claim.

(** ** Heads of partitions *)
#[export] Instance claim_le_reflexive : Reflexive claim_le.
Proof. intros p. right. done. Qed.
#[export] Instance claim_le_transitive : Transitive claim_le.
Proof.
  intros p q r [Hpq|[Hpq Hid]] [Hqr|[Hqr Hid']]; unfold claim_le; [left; lia..|right].
  split; [lia|by etrans].
Qed.
#[export] Instance claim_le_total : Total claim_le.
Proof.
  intros p q. unfold claim_le. destruct (total String.le (event_id (data p.2)) (event_id (data q.2)));
    destruct (Z.lt_trichotomy (occurred_at (data p.2)) (occurred_at (data q.2))) as [|[|]]; auto.
Qed.

Definition partition_of (e : string * OutboxRecord) : string := partition_key (data e.2).
Definition incomplete_entry (e : string * OutboxRecord) : Prop := state e.2 ≠ COMPLETED.

Lemma ordered_records_perm s : ordered_records s ≡ₚ map_to_list (records s).
Proof. apply merge_sort_Permutation. Qed.

Lemma elem_of_ordered_records s key r : (key, r) ∈ ordered_records s ↔ records s !! key = Some r.
Proof. by rewrite ordered_records_perm, elem_of_map_to_list. Qed.

Lemma ordered_records_sorted s : StronglySorted claim_le (ordered_records s).
Proof. apply Sorted_StronglySorted; [apply _|]. apply Sorted_merge_sort; apply _. Qed.

Lemma ordered_records_keys s : NoDup (map fst (ordered_records s)).
Proof. rewrite ordered_records_perm. apply NoDup_fst_map_to_list. Qed.

Lemma elem_of_heads seen l e :
  e ∈ heads seen l → e ∈ l ∧ incomplete_entry e ∧ partition_of e ∉ seen.
Proof.
  revert seen. induction l as [|e' l IH]; intros seen; cbn [heads]; [by intros ?%not_elem_of_nil|].
  case_bool_decide as Hc; [intros (?&?&?)%IH; by split_and!; [right|..]|].
  case_bool_decide as Hs; [intros (?&?&?)%IH; by split_and!; [right|..]|].
  intros [->|(?&?&?)%IH]%elem_of_cons; [split_and!; [left|done|done]|].
  split_and!; [by right|done|]. intros ?. by apply H1, elem_of_union_r.
Qed.

Lemma heads_sublist seen l : heads seen l `sublist_of` l.
Proof.
  revert seen. induction l as [|e l IH]; intros seen; cbn [heads]; [done|].
  repeat case_bool_decide; [by apply sublist_cons..|by apply sublist_skip].
Qed.

Lemma heads_partitions seen l : NoDup (map partition_of (heads seen l)).
Proof.
  revert seen. induction l as [|e l IH]; intros seen; cbn [heads]; [apply NoDup_nil_2|].
  repeat case_bool_decide; [done|done|]. cbn [map]. constructor; [|done].
  intros ([k r] & Hk & Hin)%list_elem_of_In%in_map_iff. apply list_elem_of_In, elem_of_heads in Hin.
  destruct Hin as (_ & _ & Hn). by apply Hn, elem_of_union_l, elem_of_singleton.
Qed.

(** A head comes before every incomplete record of its partition. *)
Lemma heads_first seen l e e' :
  StronglySorted claim_le l → e ∈ heads seen l → e' ∈ l → incomplete_entry e' →
  partition_of e' = partition_of e → claim_le e e'.
Proof.
  intros Hs. revert seen. induction Hs as [|x l Hs IH Hx]; intros seen; cbn [heads].
  { intros []%elem_of_nil. }
  rewrite Forall_forall in Hx. intros Hin [->|He']%elem_of_cons Hinc Hp.
  - rewrite bool_decide_false in Hin by done. case_bool_decide.
    + apply elem_of_heads in Hin as (_ & _ & Hn). rewrite <-Hp in Hn. contradiction.
    + apply elem_of_cons in Hin as [->|(_ & _ & Hn)%elem_of_heads]; [done|].
      destruct Hn. by apply elem_of_union_l, elem_of_singleton.
  - revert Hin. repeat case_bool_decide; [intros Hin; by eapply IH..|].
    intros [->|Hin]%elem_of_cons; [by apply Hx|by eapply IH].
Qed.

(** Every partition with an incomplete record has a head. *)
Lemma heads_cover seen l e :
  e ∈ l → incomplete_entry e → partition_of e ∉ seen →
  ∃ h, h ∈ heads seen l ∧ partition_of h = partition_of e.
Proof.
  intros Hin Hinc. revert seen. induction l as [|x l IH]; intros seen Hseen; [by apply not_elem_of_nil in Hin|].
  cbn [heads]. apply elem_of_cons in Hin as [->|Hin].
  - rewrite !bool_decide_false by done. exists x. split; [left|done].
  - repeat case_bool_decide; [by apply IH|by apply IH|].
    destruct (decide (partition_of x = partition_of e)) as [Hx|Hx].
    + exists x. split; [left|done].
    + destruct (IH Hin ({[partition_of x]} ∪ seen)) as (h & Hh & Hp);
        [intros [?%elem_of_singleton|?]%elem_of_union; [by destruct Hx|contradiction]|].
      exists h. split; [by right|done].
Qed.

(** ** Leasing the targets *)
Lemma lease_all_lookup owner dur cur l rs key :
  NoDup (map fst l) →
  lease_all owner dur cur l rs !! key =
    match (list_to_map l : gmap string OutboxRecord) !! key with
    | Some r => Some (leased owner dur cur r)
    | None => rs !! key
    end.
Proof.
  unfold lease_all. revert rs.
  induction l as [|[k r] l IH]; intros rs Hnd; cbn [fold_left fst snd map list_to_map foldr] in *; [done|].
  apply NoDup_cons in Hnd as [Hk Hnd]. rewrite IH by done.
  destruct (decide (key = k)) as [->|Hne].
  - rewrite lookup_insert_eq, lookup_insert_eq.
    assert ((list_to_map l : gmap string OutboxRecord) !! k = None) as ->; [|done].
    by apply not_elem_of_list_to_map.
  - by rewrite (lookup_insert_ne _ k key), (lookup_insert_ne _ k key) by done.
Qed.

Lemma claim_targets_sublist limit cur s : claim_targets limit cur s `sublist_of` ordered_records s.
Proof.
  unfold claim_targets. etrans; [apply sublist_take|]. etrans; [|apply (heads_sublist ∅)].
  induction (heads ∅ (ordered_records s)) as [|e l IH]; simpl; [done|].
  destruct (claimable cur e.2); [by apply sublist_skip|by apply sublist_cons].
Qed.

Lemma sublist_map {A B} (f : A → B) (l k : list A) : l `sublist_of` k → map f l `sublist_of` map f k.
Proof. induction 1; simpl; by constructor. Qed.

Lemma claim_targets_keys limit cur s : NoDup (map fst (claim_targets limit cur s)).
Proof.
  eapply sublist_NoDup; [apply (ordered_records_keys s)|].
  apply sublist_map, claim_targets_sublist.
Qed.

Lemma elem_of_claim_targets limit cur s e :
  e ∈ claim_targets limit cur s → e ∈ heads ∅ (ordered_records s) ∧ claimable cur e.2 = true.
Proof.
  unfold claim_targets. intros Hin%subseteq_take.
  by rewrite list_elem_of_In, List.filter_In, <-list_elem_of_In in Hin.
Qed.

Lemma claim_targets_claimable limit cur s key r :
  (key, r) ∈ claim_targets limit cur s → claimable cur r = true.
Proof. by intros [_ ?]%elem_of_claim_targets. Qed.

Lemma claim_targets_lookup limit cur s key r :
  (key, r) ∈ claim_targets limit cur s → records s !! key = Some r.
Proof.
  intros [Hin%elem_of_heads _]%elem_of_claim_targets. by apply elem_of_ordered_records, Hin.
Qed.

Lemma claim_targets_partitions limit cur s : NoDup (map partition_of (claim_targets limit cur s)).
Proof.
  unfold claim_targets. eapply sublist_NoDup; [apply (heads_partitions ∅ (ordered_records s))|].
  apply sublist_map. etrans; [apply sublist_take|].
  induction (heads ∅ (ordered_records s)) as [|e l IH]; simpl; [done|].
  destruct (claimable cur e.2); [by apply sublist_skip|by apply sublist_cons].
Qed.

(** What a claim does to the record under a key. *)
Definition claim_step (owner : string) (limit : Z) (dur : timedelta) (cur : instant) (s : store)
    : store :=
  with_records s (lease_all owner dur cur (claim_targets limit cur s) (records s)).

Lemma claim_step_lookup owner limit dur cur s key :
  records (claim_step owner limit dur cur s) !! key =
    match records s !! key with
    | Some r => Some (if bool_decide ((key, r) ∈ claim_targets limit cur s)
                      then leased owner dur cur r else r)
    | None => None
    end.
Proof.
  unfold claim_step. cbn [records with_records]. rewrite lease_all_lookup by apply claim_targets_keys.
  destruct ((list_to_map (claim_targets limit cur s) : gmap string OutboxRecord) !! key) as [r|] eqn:E.
  - apply elem_of_list_to_map in E; [|apply claim_targets_keys].
    rewrite (claim_targets_lookup _ _ _ _ _ E). by rewrite bool_decide_true.
  - apply not_elem_of_list_to_map in E. destruct (records s !! key) as [r|]; [|done].
    rewrite bool_decide_false; [done|]. intros Hin. apply E, list_elem_of_In, in_map_iff.
    exists (key, r). split; [done|]. by apply list_elem_of_In.
Qed.

Lemma store_ok_ordered s : store_ok s → Forall (λ e, record_ok e.2) (ordered_records s).
Proof.
  intros Hs. apply Forall_forall. intros [key r] Hin%elem_of_ordered_records.
  by eapply (store_records s).
Qed.

(** The arguments under which a claim proceeds: the guards of [atomic_claim]
    and a lease that ends before the year 10000. *)
Record claim_args (owner : string) (limit : Z) (dur : timedelta) (now : datetime) (cur : instant)
    : Prop := {
  ca_owner : owner ≠ ""%string;
  ca_limit : 1 ≤ limit;
  ca_duration : 0 < dur;
  ca_now : ensure_utc now "now" = Ok cur;
  ca_expires : in_range (cur + dur) = true;
}.

Lemma atomic_claim_eq owner limit dur now cur s :
  store_ok s → claim_args owner limit dur now cur →
  atomic_claim owner limit dur now s =
    (Ok (map (λ e, leased owner dur cur e.2) (claim_targets limit cur s)),
     claim_step owner limit dur cur s).
Proof.
  intros Hs [Howner Hlimit Hdur Hnow Hexp]. unfold atomic_claim, bind, lift_res, get.
  rewrite (proj2 (nonempty_spec owner)) by done. cbn.
  rewrite (proj2 (Z.ltb_ge _ _)) by lia. rewrite (proj2 (Z.leb_gt _ _)) by lia. cbn. rewrite Hnow.
  rewrite claim_loop_spec; [|done|done|by eapply ensure_utc_ok|done|by apply store_ok_ordered|simpl; lia].
  cbn [length app]. rewrite Nat.sub_0_r. done.
Qed.

Lemma leased_ok owner dur cur r :
  owner ≠ ""%string → 0 < dur → record_ok r → claimable cur r = true →
  record_ok (leased owner dur cur r).
Proof.
  intros Howner Hdur Hr Hc. pose proof (record_attempts _ Hr).
  split; simpl; try done; try lia.
  - intros l [= <-]. split; simpl; [done|lia|done].
  - pose proof (record_completed _ Hr) as Hcomp. unfold claimable in Hc.
    split; [done|]. intros H'. apply Hcomp in H'. by rewrite H' in Hc.
  - apply Hr.
Qed.

Lemma claim_step_ok owner limit dur cur s :
  owner ≠ ""%string → 0 < dur → store_ok s → store_ok (claim_step owner limit dur cur s).
Proof.
  intros Howner Hdur [Hthr Hkeys Hrec Hparts]. split; [done| | |done].
  - intros key r. rewrite claim_step_lookup. destruct (records s !! key) as [r'|] eqn:E; [|done].
    intros [= <-]. case_bool_decide; simpl; by apply (Hkeys key r').
  - intros key r. rewrite claim_step_lookup. destruct (records s !! key) as [r'|] eqn:E; [|done].
    intros [= <-]. case_bool_decide as Hin; [|by eapply Hrec].
    apply elem_of_claim_targets in Hin as [_ Hc]. apply leased_ok; try done. by eapply Hrec.
Qed.

Lemma leased_data owner dur cur r : data (leased owner dur cur r) = data r.
Proof. done. Qed.

(** A record that a claim step left behind: the old record, leased or not. *)
Lemma claim_step_inv owner limit dur cur s key r :
  records (claim_step owner limit dur cur s) !! key = Some r →
  ∃ old, records s !! key = Some old ∧ data r = data old ∧
         (state r ≠ COMPLETED → claimable cur old = true ∨ r = old).
Proof.
  rewrite claim_step_lookup. destruct (records s !! key) as [old|]; [|done].
  intros [= <-]. exists old. case_bool_decide as Hin; [|by auto].
  apply elem_of_claim_targets in Hin as [_ Hc]. auto.
Qed.

Lemma claimable_incomplete cur r : claimable cur r = true → state r ≠ COMPLETED.
Proof. unfold claimable. by destruct (state r). Qed.

Lemma claim_target_first limit cur s e key r :
  e ∈ claim_targets limit cur s → records s !! key = Some r → state r ≠ COMPLETED →
  partition_key (data r) = partition_key (data e.2) → claim_le e (key, r).
Proof.
  intros [Hh _]%elem_of_claim_targets Hr Hst Hp.
  eapply (heads_first ∅ (ordered_records s));
    [apply ordered_records_sorted|done|by apply elem_of_ordered_records|done|done].
Qed.

Lemma claim_le_antisymm e e' :
  claim_le e e' → claim_le e' e → event_id (data e.2) = event_id (data e'.2).
Proof.
  unfold claim_le. intros [Hl|[He H1]] [Hl2|[He2 H2]]; try lia. apply (anti_symm String.le); [exact H1|exact H2].
Qed.

Lemma NoDup_partitions_records owner dur cur l :
  NoDup (map partition_of l) →
  NoDup (map (λ r, partition_key (data r)) (map (λ e : string * OutboxRecord, leased owner dur cur e.2) l)).
Proof. by rewrite map_map. Qed.

(** ** Concrete stores *)
Lemma new_record_ok d : record_ok (new_record d).
Proof. split; simpl; done || lia. Qed.

Lemma insert_record_ok s key r :
  store_ok s → event_id (data r) = key → record_ok r → store_ok (with_records s (<[key := r]> (records s))).
Proof.
  intros [Ht Hk Hr Hp] Hid Hok. split; [done| | |done]; simpl; by apply map_Forall_insert_2.
Qed.

Lemma empty_store_ok threshold visibility s : make_store threshold visibility = Ok s → store_ok s.
Proof.
  unfold make_store. intros H. simplify_res. simplify_bool.
  split; [simpl; lia|apply map_Forall_empty..].
Qed.

Definition added (d : OutboxDataV1) (s : store) : store :=
  with_records s (<[event_id d := new_record d]> (records s)).

Lemma added_ok d s : store_ok s → store_ok (added d s).
Proof. intros Hs. by apply insert_record_ok, new_record_ok. Qed.

Definition sample_store : store :=
  added sample_event3 (added sample_event2 (added sample_event1 (Store 2 (f64_of_Z 30) ∅ ∅))).

Lemma sample_store_ok : store_ok sample_store.
Proof. do 3 apply added_ok. by apply (empty_store_ok 2 (f64_of_Z 30)). Qed.

Definition second (n : Z) : Z := n * us_per_second.

Lemma claim_args_at owner limit dur cur :
  owner ≠ ""%string → 1 ≤ limit → 0 < dur → in_range cur = true → in_range (cur + dur) = true →
  claim_args owner limit dur (at_utc cur) cur.
Proof. intros. split; try done. by apply ensure_utc_at_utc. Qed.

(** ** Guarantees of a claim *)

(** C1: under the guards of [atomic_claim] the loop returns exactly the
    claimable heads of the partitions, in [(occurred_at, event_id)] order and
    cut at the limit, each leased to the owner with one more attempt; it changes
    those records and nothing else, and leaves a well-formed store. *)
Theorem atomic_claim_refines owner limit dur now cur s :
  store_ok s → claim_args owner limit dur now cur →
  ∃ s', atomic_claim owner limit dur now s =
          (Ok (map (λ e, leased owner dur cur e.2) (claim_targets limit cur s)), s') ∧
        store_ok s' ∧ checkpoints s' = checkpoints s ∧
        ∀ key, records s' !! key =
          (λ r, if bool_decide ((key, r) ∈ claim_targets limit cur s)
                then leased owner dur cur r else r) <$> records s !! key.
Proof.
  intros Hs Ha. exists (claim_step owner limit dur cur s). split_and!.
  - by apply atomic_claim_eq.
  - by apply claim_step_ok; [apply Ha..|].
  - done.
  - intros key. rewrite claim_step_lookup. by destruct (records s !! key).
Qed.

(** Every claimed record was claimable, is stored leased under its event id,
    and precedes every incomplete record of its partition; a claim returns at
    most [limit] records and at most one per partition. *)
Theorem atomic_claim_heads owner limit dur now cur s rs s' :
  store_ok s → claim_args owner limit dur now cur →
  atomic_claim owner limit dur now s = (Ok rs, s') →
  Z.of_nat (length rs) ≤ limit ∧ NoDup (map (λ r, partition_key (data r)) rs) ∧
  ∀ r, r ∈ rs → ∃ old,
    records s !! event_id (data r) = Some old ∧ records s' !! event_id (data r) = Some r ∧
    claimable cur old = true ∧ r = leased owner dur cur old ∧
    ∀ key other, records s !! key = Some other → state other ≠ COMPLETED →
      partition_key (data other) = partition_key (data r) →
      claim_le (event_id (data r), old) (key, other).
Proof.
  intros Hs Ha. rewrite (atomic_claim_eq _ _ _ _ cur) by done. intros [= <- <-].
  split_and!.
  - rewrite length_map. unfold claim_targets. rewrite length_take.
    pose proof (ca_limit _ _ _ _ _ Ha). lia.
  - apply NoDup_partitions_records, claim_targets_partitions.
  - intros r ((key & old) & <- & Hin)%list_elem_of_In%in_map_iff. apply list_elem_of_In in Hin.
    pose proof (claim_targets_lookup _ _ _ _ _ Hin) as Hk.
    pose proof (store_keys _ Hs _ _ Hk) as Hid. cbn beta in Hid. cbn [snd] in *. rewrite leased_data, Hid. exists old.
    split_and!; [done| |by eapply claim_targets_claimable|done|].
    + rewrite claim_step_lookup, Hk. by rewrite bool_decide_true.
    + intros k other Ho Hst Hp. by eapply claim_target_first.
Qed.

(** C32: a claim that returned fewer records than its limit left no claimable
    partition behind: the earliest incomplete record of every partition was
    claimed, or is leased and unexpired, or is quarantined and blocks it. *)
Theorem atomic_claim_work_conserving owner limit dur now cur s rs s' key r :
  store_ok s → claim_args owner limit dur now cur →
  atomic_claim owner limit dur now s = (Ok rs, s') → Z.of_nat (length rs) < limit →
  records s !! key = Some r → state r ≠ COMPLETED →
  ∃ head, partition_key (data head) = partition_key (data r) ∧
    records s !! event_id (data head) = Some head ∧ claim_le (event_id (data head), head) (key, r) ∧
    (leased owner dur cur head ∈ rs ∨ state head = QUARANTINED ∨
     ∃ l, state head = LEASED ∧ lease head = Some l ∧ cur < expires_at l).
Proof.
  intros Hs Ha. rewrite (atomic_claim_eq _ _ _ _ cur) by done. intros [= <- <-] Hlen Hk Hst.
  rewrite length_map in Hlen.
  destruct (heads_cover ∅ (ordered_records s) (key, r)) as ([k h] & Hh & Hp);
    [by apply elem_of_ordered_records|done|apply not_elem_of_empty|].
  unfold partition_of in Hp. cbn [snd] in Hp.
  pose proof (elem_of_heads _ _ _ Hh) as (Hord & Hinc & _). unfold incomplete_entry in Hinc. cbn in Hinc.
  apply elem_of_ordered_records in Hord. pose proof (store_keys _ Hs _ _ Hord) as Hid. simpl in Hid.
  exists h. rewrite Hid. split_and!; [done|done| |].
  { eapply (heads_first ∅ (ordered_records s));
      [apply ordered_records_sorted|done|by apply elem_of_ordered_records|done|done]. }
  destruct (claimable cur h) eqn:Hc.
  - left. apply list_elem_of_In, in_map_iff. exists (k, h). split; [done|].
    apply list_elem_of_In. unfold claim_targets in *. rewrite length_take in Hlen.
    rewrite take_ge by lia. rewrite list_elem_of_In, List.filter_In, <-list_elem_of_In. exact (conj Hh Hc).
  - right. unfold claimable in Hc. pose proof (record_lease _ (store_records _ Hs _ _ Hord)) as Hl.
    destruct (state h) eqn:Eh; try discriminate Hc; [|by destruct Hinc|by left]. right.
    destruct (lease h) as [l|]; [|by discriminate (proj1 Hl eq_refl)]. exists l. repeat split. lia.
Qed.

(** ** The guarantees at a concrete store *)
Definition claim_of (owner : string) (limit dur now : Z) (s : store) : list OutboxRecord * store :=
  match atomic_claim owner limit dur (at_utc now) s with
  | (Ok rs, s') => (rs, s')
  | (Raise _, s') => ([], s')
  end.

Lemma atomic_claim_refines_witness :
  ∃ s', atomic_claim "w1" 5 (second 30) (at_utc (second 1000)) sample_store =
          (Ok (map (λ e, leased "w1" (second 30) (second 1000) e.2)
             (claim_targets 5 (second 1000) sample_store)), s') ∧
        store_ok s' ∧ checkpoints s' = checkpoints sample_store ∧
        ∀ key, records s' !! key =
          (λ r, if bool_decide ((key, r) ∈ claim_targets 5 (second 1000) sample_store)
                then leased "w1" (second 30) (second 1000) r else r) <$> records sample_store !! key.
Proof.
  apply atomic_claim_refines; [apply sample_store_ok|by apply claim_args_at].
Defined.

Lemma atomic_claim_heads_witness :
  map (λ r, event_id (data r)) (claim_of "w1" 5 (second 30) (second 1000) sample_store).1 =
    ["evt-1"; "evt-3"]%string ∧
  Z.of_nat (length (claim_of "w1" 5 (second 30) (second 1000) sample_store).1) ≤ 5.
Proof.
  split; [vm_compute; reflexivity|].
  refine (proj1 (atomic_claim_heads "w1" 5 (second 30) (at_utc (second 1000)) (second 1000) sample_store _
    (claim_of "w1" 5 (second 30) (second 1000) sample_store).2 sample_store_ok _ _));
    [by apply claim_args_at|vm_compute; reflexivity].
Defined.

Lemma atomic_claim_work_conserving_witness :
  let after := claim_of "w1" 5 (second 30) (second 1000) sample_store in
  ∃ head, partition_key (data head) = partition_key sample_event2 ∧
    records sample_store !! event_id (data head) = Some head ∧
    claim_le (event_id (data head), head) ("evt-2"%string, new_record sample_event2) ∧
    (leased "w1" (second 30) (second 1000) head ∈ after.1 ∨ state head = QUARANTINED ∨
     ∃ l, state head = LEASED ∧ lease head = Some l ∧ second 1000 < expires_at l).
Proof.
  intros after.
  refine (atomic_claim_work_conserving "w1" 5 (second 30) (at_utc (second 1000)) (second 1000)
    sample_store after.1 after.2 "evt-2" (new_record sample_event2) sample_store_ok _ _ _ _ _);
    [by apply claim_args_at|vm_compute; reflexivity|vm_compute; reflexivity|reflexivity|discriminate].
Defined.
