(* ===== verification/OutboxLifecycle.v ===== *)
(** * The lifecycle of outbox records

    What every operation of the reference store does to a well-formed store, on
    its successful and failing branches, and the state machine their
    interleavings make: each operation runs under the store's lock, so a run of
    any number of workers is a sequence of operations.  A lease excludes other
    claims of its partition until it ends. *)
From stdpp Require Import relations.
From S2P Require Import Prelude PyTime Sha256 Canonical Errors OutboxModel Redaction OutboxStore OutboxClaim.

(** ** Leases *)
Record held (s : store) (id own : string) (cur : instant) (r : OutboxRecord) : Prop := {
  held_record : records s !! id = Some r;
  held_state : state r = LEASED;
  held_lease : ∃ l, lease r = Some l ∧ owner l = own ∧ cur < expires_at l;
}.

Lemma leased_record_ok id own cur s r : leased_record id own cur s = Ok r ↔ held s id own cur r.
Proof.
  unfold leased_record. destruct (records s !! id) as [r'|] eqn:Hr.
  2:{ split; [done|]. intros [Hr' _ _]. congruence. }
  split.
  - destruct (state r') eqn:Hst, (lease r') as [l|] eqn:Hl; try done. intros H. simplify_res. simplify_bool.
    split; [done..|]. exists l. split_and!; try done.
  - intros [Hr' Hst (l & Hl & Ho & Hexp)]. rewrite Hr in Hr'. injection Hr' as ->. rewrite Hst, Hl.
    rewrite Ho, String.eqb_refl, (proj2 (Z.leb_gt _ _)) by done. done.
Qed.

Lemma version_mismatch_false a b : version_mismatch a b = false ↔ a = b.
Proof.
  unfold version_mismatch. rewrite orb_false_iff, !negb_false_iff, bool_decide_eq_true.
  split; [|intros ->; split; [done|]].
  - destruct a as [[]|], b as [[]|]; simpl; intros [[=] H]; try done;
      repeat case_bool_decide; simplify_eq; try done.
    + by apply Z.eqb_eq in H as ->.
    + destruct b, b0; done.
  - destruct b as [[]|]; simpl; try done; [apply Z.eqb_refl|by apply bool_decide_eq_true|apply Z.eqb_refl].
Qed.

(** ** Bookkeeping of updates *)
Lemma put_record_run key r s : put_record key r s = (Ok (), with_records s (<[key := r]> (records s))).
Proof. done. Qed.

Lemma store_ok_id s key r : store_ok s → records s !! key = Some r → event_id (data r) = key.
Proof. intros Hs Hr. exact (store_keys s Hs key r Hr). Qed.

Lemma store_ok_record s key r : store_ok s → records s !! key = Some r → record_ok r.
Proof. intros Hs Hr. exact (store_records s Hs key r Hr). Qed.

Lemma snapshot_ok r : record_ok r → snapshot r = Ok r.
Proof.
  intros Hr. unfold snapshot, make_record. pose proof (record_attempts _ Hr).
  rewrite (proj2 (Z.ltb_ge _ _)) by lia. cbn.
  pose proof (record_lease _ Hr) as Hl. case_bool_decide as Hst.
  - by rewrite (proj1 Hl Hst).
  - destruct (is_some (lease r)); [|done]. destruct Hst. by apply Hl.
Qed.

(** ** [complete] *)
Definition completed (fp : string) (cur : instant) (r : OutboxRecord) : OutboxRecord := set_completed r fp cur.

Lemma completed_ok fp cur r : record_ok r → state r = LEASED → record_ok (completed fp cur r).
Proof.
  intros Hr Hst. assert (1 ≤ attempt_count r) by (apply (record_started _ Hr); by rewrite Hst).
  split; cbn; split || intros; done || lia.
Qed.

Definition next_checkpoint (s : store) (id fp : string) (cur : instant) (r : OutboxRecord) : Checkpoint :=
  MkCheckpoint (partition_key (data r)) (next_revision (checkpoints s !! partition_key (data r)))
    (Some id) (source_version (data r)) (Some fp) (Some cur).

Definition completed_store (s : store) (id fp : string) (cur : instant) (r : OutboxRecord) : store :=
  Store (poison_threshold s) (visibility_target_seconds s) (<[id := completed fp cur r]> (records s))
    (<[partition_key (data r) := next_checkpoint s id fp cur r]> (checkpoints s)).

Record complete_args (s : store) (id own : string) (ack : option version) (fp : string) (now : datetime)
    (cur : instant) (r : OutboxRecord) : Prop := {
  co_fingerprint : is_sha256 fp = true;
  co_now : ensure_utc now "now" = Ok cur;
  co_held : held s id own cur r;
  co_ack : ack = source_version (data r);
}.

Lemma next_revision_positive s p : store_ok s → 1 ≤ next_revision (checkpoints s !! p).
Proof.
  intros Hs. unfold next_revision. destruct (checkpoints s !! p) as [c|] eqn:E; [|lia].
  destruct (store_partitions s Hs p c E) as (_ & _ & ?). lia.
Qed.

Lemma complete_run s id own ack fp now cur r :
  store_ok s → complete_args s id own ack fp now cur r →
  complete id own ack fp now s =
    (Ok (next_checkpoint s id fp cur r), completed_store s id fp cur r).
Proof.
  intros Hs [Hfp Hnow Hheld Hack]. unfold complete, bind, lift_res, get.
  rewrite (proj2 (require_sha256_ok fp _ fp)), Hnow by done.
  rewrite (proj2 (leased_record_ok _ _ _ _ _) Hheld). cbn.
  rewrite (proj2 (version_mismatch_false _ _) Hack). cbn.
  unfold make_checkpoint. cbn [cp_partition_key revision].
  rewrite (proj2 (nonempty_spec _)) by apply partition_nonempty.
  pose proof (next_revision_positive s (partition_key (data r)) Hs).
  rewrite (proj2 (Z.ltb_ge _ _)) by lia. done.
Qed.

(** Each operation either ran as described or raised and changed nothing. *)
Lemma complete_cases s id own ack fp now :
  store_ok s →
  (∃ cur r, complete_args s id own ack fp now cur r) ∨
  (∃ e, complete id own ack fp now s = (Raise e, s)).
Proof.
  intros Hs. destruct (is_sha256 fp) eqn:Hfp.
  2:{ right. unfold complete, bind, lift_res, require_sha256. rewrite Hfp. eauto. }
  destruct (ensure_utc now "now") as [cur|e] eqn:Hnow.
  2:{ right. exists e. unfold complete, bind, lift_res, require_sha256. by rewrite Hfp, Hnow. }
  destruct (leased_record id own cur s) as [r|e] eqn:Hr.
  2:{ right. exists e. unfold complete, bind, lift_res, require_sha256, get. by rewrite Hfp, Hnow, Hr. }
  destruct (version_mismatch ack (source_version (data r))) eqn:Hv.
  { right. eexists. unfold complete, bind, lift_res, require_sha256, get. rewrite Hfp, Hnow, Hr, Hv. done. }
  left. exists cur, r. split; [done..|by apply leased_record_ok|by apply version_mismatch_false].
Qed.

(** ** [release] *)
Definition released (s : store) (f : OutboxFailure) (retryable : bool) (r : OutboxRecord) : OutboxRecord :=
  MkRecord (data r)
    (if negb retryable || (poison_threshold s <=? attempt_count r) then QUARANTINED else RETRYABLE)
    (attempt_count r) None (Some f) (target_fingerprint r) (completed_at r).

Record release_args `{Core} (s : store) (id own : string) (error : exn) (now : datetime) (cur : instant)
    (f : OutboxFailure) (r : OutboxRecord) : Prop := {
  re_now : ensure_utc now "now" = Ok cur;
  re_held : held s id own cur r;
  re_failure : redacted_failure error cur = Ok f;
}.

(** A started record that goes back to waiting or is set aside. *)
Lemma parked_ok r st f :
  record_ok r → state r ≠ PENDING → state r ≠ COMPLETED → st = QUARANTINED ∨ st = RETRYABLE →
  record_ok (MkRecord (data r) st (attempt_count r) None f (target_fingerprint r) (completed_at r)).
Proof.
  intros Hr Hp Hc Hst. pose proof (record_completed _ Hr) as Hcomp.
  pose proof (record_started _ Hr Hp). pose proof (record_fingerprint _ Hr).
  split; simpl; try done; try lia.
  - by destruct Hst as [-> | ->].
  - by destruct Hst as [-> | ->].
  - split; [by destruct Hst as [-> | ->]|]. intros H'. by apply Hcomp in H'.
Qed.

Lemma released_ok s f retryable r : record_ok r → state r = LEASED → record_ok (released s f retryable r).
Proof.
  intros Hr Hst. apply parked_ok; [done|by rewrite Hst..|]. destruct (_ || _); auto.
Qed.

Lemma release_run `{Core} s id own error retryable now cur f r :
  store_ok s → release_args s id own error now cur f r →
  release id own error retryable now s =
    (Ok (released s f retryable r), with_records s (<[id := released s f retryable r]> (records s))).
Proof.
  intros Hs [Hnow Hheld Hf]. unfold release, bind, lift_res, get.
  rewrite Hnow, (proj2 (leased_record_ok _ _ _ _ _) Hheld), Hf. rewrite put_record_run.
  pose proof (held_record _ _ _ _ _ Hheld) as Hr.
  fold (released s f retryable r). rewrite <-(snapshot_ok (released s f retryable r)); [done|].
  apply released_ok; [by eapply store_ok_record|by eapply held_state].
Qed.

Lemma release_cases `{Core} s id own error retryable now :
  (∃ cur f r, release_args s id own error now cur f r) ∨
  (∃ e, release id own error retryable now s = (Raise e, s)).
Proof.
  unfold release, bind, lift_res, get.
  destruct (ensure_utc now "now") as [cur|e] eqn:Hnow; [|by eauto].
  destruct (leased_record id own cur s) as [r|e] eqn:Hr; [|by eauto].
  destruct (redacted_failure error cur) as [f|e] eqn:Hf; [|by eauto].
  left. exists cur, f, r. split; [done|by apply leased_record_ok|done].
Qed.

(** ** [operator_retry] *)
Definition retried (r : OutboxRecord) : OutboxRecord := set_failure (set_state r RETRYABLE) None.

Record retry_args (s : store) (id reason : string) (r : OutboxRecord) : Prop := {
  rt_reason : has_text reason = true;
  rt_record : records s !! id = Some r;
  rt_state : state r = QUARANTINED;
}.

Lemma retried_ok r : record_ok r → state r = QUARANTINED → record_ok (retried r).
Proof.
  intros Hr Hst. assert (lease r = None) as Hl.
  { pose proof (record_lease _ Hr) as Hl. rewrite Hst in Hl. destruct (lease r); [|done].
    by discriminate (proj2 Hl eq_refl). }
  unfold retried, set_failure, set_state. cbn. rewrite Hl. apply parked_ok; [done|by rewrite Hst..|by right].
Qed.

Lemma operator_retry_run s id reason r :
  store_ok s → retry_args s id reason r →
  operator_retry id reason s = (Ok (retried r), with_records s (<[id := retried r]> (records s))).
Proof.
  intros Hs [Hreason Hr Hst]. unfold operator_retry, bind, lift_res, get. rewrite Hreason. cbn.
  rewrite Hr, Hst. cbn. rewrite <-(snapshot_ok (retried r)); [done|].
  apply retried_ok; [by eapply store_ok_record|done].
Qed.

Lemma operator_retry_cases s id reason :
  (∃ r, retry_args s id reason r) ∨ (∃ e, operator_retry id reason s = (Raise e, s)).
Proof.
  unfold operator_retry, bind, lift_res, get.
  destruct (has_text reason) eqn:Hreason; [|by right; eauto]. cbn.
  destruct (records s !! id) as [r|] eqn:Hr; [|by right; eexists].
  case_bool_decide as Hst; [|by right; eexists]. left. by exists r.
Qed.

(** ** [append] *)
Lemma append_cases d s :
  (records s !! event_id d = None ∧ append d s = (Ok (), added d s)) ∨
  (∃ r, records s !! event_id d = Some r ∧ digest (data r) = digest d ∧ append d s = (Ok (), s)) ∨
  (∃ r e, records s !! event_id d = Some r ∧ digest (data r) ≠ digest d ∧ append d s = (Raise e, s)).
Proof.
  unfold append, bind, get. destruct (records s !! event_id d) as [r|] eqn:Hr; [|by left].
  right. destruct (String.eqb_spec (digest (data r)) (digest d)) as [Heq|Hne].
  - left. by exists r.
  - right. exists r. eexists. done.
Qed.

(** ** [compare_and_set_checkpoint] *)
Definition current_revision (s : store) (p : string) : Z :=
  match checkpoints s !! p with None => 0 | Some c => revision c end.

Lemma cas_cases c expected s :
  (current_revision s (cp_partition_key c) = expected ∧ revision c = expected + 1 ∧
   compare_and_set_checkpoint c expected s =
     (Ok c, with_checkpoints s (<[cp_partition_key c := c]> (checkpoints s)))) ∨
  (¬ (current_revision s (cp_partition_key c) = expected ∧ revision c = expected + 1) ∧
   ∃ e, compare_and_set_checkpoint c expected s = (Raise e, s)).
Proof.
  unfold compare_and_set_checkpoint, bind, get, lift_res. fold (current_revision s (cp_partition_key c)).
  destruct (Z.eqb_spec (current_revision s (cp_partition_key c)) expected); simpl; [|right; naive_solver].
  destruct (Z.eqb_spec (revision c) (expected + 1)); simpl; [left; done|right; naive_solver].
Qed.

(** ** Operations and what they can do to a store *)
Inductive operation : Type :=
| Append (d : OutboxDataV1)
| Claim (own : string) (limit : Z) (dur : timedelta) (now : datetime)
| Complete (id own : string) (ack : option version) (fp : string) (now : datetime)
| Release (id own : string) (error : exn) (retryable : bool) (now : datetime)
| OperatorRetry (id reason : string)
| CompareAndSet (c : Checkpoint) (expected : Z).

Definition discard {W A} (m : M W A) : M W unit := do! m in ret ().

Definition run `{Core} (o : operation) : M store unit :=
  match o with
  | Append d => append d
  | Claim own limit dur now => discard (atomic_claim own limit dur now)
  | Complete id own ack fp now => discard (complete id own ack fp now)
  | Release id own error retryable now => discard (release id own error retryable now)
  | OperatorRetry id reason => discard (operator_retry id reason)
  | CompareAndSet c expected => discard (compare_and_set_checkpoint c expected)
  end.

Definition after `{Core} (o : operation) (s : store) : store := (run o s).2.

(** A claim whose leases end within the calendar; a checkpoint its constructor
    accepted. *)
Definition admissible (o : operation) : Prop :=
  match o with
  | Claim _ _ dur now => ∀ cur, ensure_utc now "now" = Ok cur → in_range (cur + dur) = true
  | CompareAndSet c _ => make_checkpoint c = Ok c
  | _ => True
  end.

Inductive change `{Core} (s : store) : operation → store → Prop :=
| change_none o : change s o s
| change_append d : records s !! event_id d = None → change s (Append d) (added d s)
| change_claim own limit dur now cur :
    own ≠ ""%string → 0 < dur → ensure_utc now "now" = Ok cur →
    change s (Claim own limit dur now) (claim_step own limit dur cur s)
| change_complete id own ack fp now cur r :
    complete_args s id own ack fp now cur r →
    change s (Complete id own ack fp now) (completed_store s id fp cur r)
| change_release id own error retryable now cur f r :
    release_args s id own error now cur f r →
    change s (Release id own error retryable now)
      (with_records s (<[id := released s f retryable r]> (records s)))
| change_retry id reason r :
    retry_args s id reason r →
    change s (OperatorRetry id reason) (with_records s (<[id := retried r]> (records s)))
| change_checkpoint c expected :
    make_checkpoint c = Ok c → revision c = current_revision s (cp_partition_key c) + 1 →
    change s (CompareAndSet c expected)
      (with_checkpoints s (<[cp_partition_key c := c]> (checkpoints s))).

Lemma discard_snd {W A} (m : M W A) w : (discard m w).2 = (m w).2.
Proof. unfold discard, bind. by destruct (m w) as [[]]. Qed.

Lemma atomic_claim_cases own limit dur now s :
  (∃ cur, own ≠ ""%string ∧ 1 ≤ limit ∧ 0 < dur ∧ ensure_utc now "now" = Ok cur) ∨
  (∃ e, atomic_claim own limit dur now s = (Raise e, s)).
Proof.
  unfold atomic_claim, bind, lift_res, get.
  destruct (nonempty own) eqn:Ho; [|right; eexists; done].
  destruct (Z.ltb_spec limit 1); [right; eexists; done|].
  destruct (Z.leb_spec dur 0); [right; eexists; done|]. cbn.
  destruct (ensure_utc now "now") as [cur|e]; [|right; by exists e].
  left. exists cur. apply nonempty_spec in Ho. done.
Qed.

Lemma after_change `{Core} o s : store_ok s → admissible o → change s o (after o s).
Proof.
  intros Hs Ho. unfold after. destruct o as [d|own limit dur now|id own ack fp now
    |id own error retryable now|id reason|c expected]; cbn [run]; rewrite ?discard_snd.
  - destruct (append_cases d s) as [[? ->]|[(r & _ & _ & ->)|(r & e & _ & _ & ->)]]; [by apply change_append|apply change_none..].
  - destruct (atomic_claim_cases own limit dur now s) as [(cur & ? & ? & ? & Hnow)|[e ->]]; [|constructor].
    rewrite (atomic_claim_eq _ _ _ _ cur) by (first [exact Hs|split; auto]). by apply (change_claim _ own limit dur now cur).
  - destruct (complete_cases s id own ack fp now Hs) as [(cur & r & Hc)|[e ->]]; [|constructor].
    rewrite (complete_run _ _ _ _ _ _ cur r) by done. by econstructor.
  - destruct (release_cases s id own error retryable now) as [(cur & f & r & Hc)|[e ->]]; [|constructor].
    rewrite (release_run _ _ _ _ _ _ cur f r) by done. by econstructor.
  - destruct (operator_retry_cases s id reason) as [(r & Hc)|[e ->]]; [|constructor].
    rewrite (operator_retry_run _ _ _ r) by done. by econstructor.
  - destruct (cas_cases c expected s) as [(? & ? & ->)|(_ & e & ->)]; [|constructor].
    constructor; [done|lia].
Qed.

Lemma claim_args_limit own limit dur now cur :
  own ≠ ""%string → 1 ≤ limit → 0 < dur → ensure_utc now "now" = Ok cur → in_range (cur + dur) = true →
  claim_args own limit dur now cur.
Proof. by split. Qed.

Lemma change_ok `{Core} s o s' : store_ok s → change s o s' → store_ok s'.
Proof.
  intros Hs [o'|d Hd|own limit dur now cur Ho Hdur _|id own ack fp now cur r [_ _ Hh _]
    |id own error retryable now cur f r [_ Hh _]|id reason r [_ Hr Hst]|c expected Hc Hrev].
  - done.
  - by apply added_ok.
  - by apply claim_step_ok.
  - destruct Hh as [Hr Hst (l & Hl & _)]. pose proof (store_ok_record _ _ _ Hs Hr) as Hok.
    destruct Hs as [Ht Hk Hrec Hp]. pose proof (Hk _ _ Hr) as Hid. cbn in Hid.
    split; [done| | |]; simpl; apply map_Forall_insert_2; try done.
    + by apply completed_ok.
    + simpl. split; [done|]. split; [apply partition_nonempty|].
      apply next_revision_positive. by split.
  - destruct Hh as [Hr Hst _]. apply insert_record_ok; [done|exact (store_ok_id _ _ _ Hs Hr)|].
    apply released_ok; [by eapply store_ok_record|done].
  - apply insert_record_ok; [done|exact (store_ok_id _ _ _ Hs Hr)|].
    apply retried_ok; [by eapply store_ok_record|done].
  - destruct Hs as [Ht Hk Hrec Hp]. split; [done..|]. simpl. apply map_Forall_insert_2; [|done].
    unfold make_checkpoint in Hc. simplify_res. simplify_bool. apply nonempty_spec in H0. split_and!; try done.
    revert Hrev. unfold current_revision. destruct (checkpoints s !! cp_partition_key c) as [c'|] eqn:E; [|lia].
    destruct (Hp _ _ E) as (_ & _ & ?). lia.
Qed.

(** ** The state machine of one record *)
Inductive record_step (threshold : Z) : OutboxRecord → OutboxRecord → Prop :=
| step_lease own dur cur r :
    own ≠ ""%string → 0 < dur → claimable cur r = true → record_step threshold r (leased own dur cur r)
| step_complete fp cur r :
    state r = LEASED → is_sha256 fp = true → record_step threshold r (completed fp cur r)
| step_release f r :
    state r = LEASED → attempt_count r < threshold →
    record_step threshold r
      (MkRecord (data r) RETRYABLE (attempt_count r) None (Some f) (target_fingerprint r) (completed_at r))
| step_quarantine f r :
    state r = LEASED →
    record_step threshold r
      (MkRecord (data r) QUARANTINED (attempt_count r) None (Some f) (target_fingerprint r) (completed_at r))
| step_retry r : state r = QUARANTINED → record_step threshold r (retried r).

Lemma record_step_data t r r' : record_step t r r' → data r' = data r ∧ state r ≠ COMPLETED.
Proof.
  intros [own dur cur r0 _ _ Hc|fp cur r0 Hst _|f r0 Hst _|f r0 Hst|r0 Hst]; (split; [done|]); try by rewrite Hst.
  by eapply claimable_incomplete.
Qed.

Lemma released_step s f retryable r :
  state r = LEASED → record_step (poison_threshold s) r (released s f retryable r).
Proof.
  intros Hst. unfold released. destruct (negb retryable || (poison_threshold s <=? attempt_count r)) eqn:E.
  - by apply step_quarantine.
  - apply orb_false_iff in E as [_ E]. apply step_release; [done|lia].
Qed.

Lemma insert_record_step s id r r' key x :
  records s !! id = Some r → record_step (poison_threshold s) r r' → records s !! key = Some x →
  ∃ x', <[id := r']> (records s) !! key = Some x' ∧ (x' = x ∨ record_step (poison_threshold s) x x').
Proof.
  intros Hr Hstep Hx. destruct (decide (id = key)) as [<-|Hne].
  - rewrite lookup_insert_eq. rewrite Hr in Hx. injection Hx as <-. by eauto.
  - rewrite lookup_insert_ne by done. by eauto.
Qed.

Lemma change_records `{Core} s o s' key r :
  change s o s' → records s !! key = Some r →
  ∃ r', records s' !! key = Some r' ∧ (r' = r ∨ record_step (poison_threshold s) r r').
Proof.
  intros [o'|d Hd|own limit dur now cur Ho Hdur _|id own ack fp now cur x [Hfp _ [Hx Hst _] _]
    |id own error retryable now cur f x [_ [Hx Hst _] _]|id reason x [_ Hx Hst]|c expected _ _] Hr; try by eauto.
  - exists r. split; [|by left]. simpl. rewrite lookup_insert_ne; [done|congruence].
  - rewrite claim_step_lookup, Hr. case_bool_decide as Hin; [|by eauto].
    eexists. split; [done|]. right. apply step_lease; [done|done|]. by eapply claim_targets_claimable.
  - eapply insert_record_step; [done|by apply step_complete|done].
  - eapply insert_record_step; [done|by apply released_step|done].
  - eapply insert_record_step; [done|by apply step_retry|done].
Qed.

(** Only [append] adds a record. *)
Lemma change_new `{Core} s o s' key r' :
  change s o s' → records s !! key = None → records s' !! key = Some r' →
  ∃ d, o = Append d ∧ key = event_id d ∧ r' = new_record d.
Proof.
  intros Hch Hnone.
  destruct Hch as [o'|d Hd|own limit dur now cur Ho' Hdur _|id own ack fp now cur x [Hfp _ [Hx Hst _] _]
    |id own error retryable now cur f x [_ [Hx Hst _] _]|id reason x [_ Hx Hst]|c expected Hc Hrev];
    cbn [records with_records completed_store with_checkpoints added]; try congruence.
  - rewrite lookup_insert_Some. intros [[<- <-]|[_ ?]]; [by exists d|congruence].
  - rewrite claim_step_lookup. by rewrite Hnone.
  - rewrite lookup_insert_ne by congruence. congruence.
  - rewrite lookup_insert_ne by congruence. congruence.
  - rewrite lookup_insert_ne by congruence. congruence.
Qed.

Lemma change_threshold `{Core} s o s' : change s o s' → poison_threshold s' = poison_threshold s.
Proof. by intros []. Qed.

(** ** Runs of operations *)
Definition moves `{Core} (allowed : store → operation → Prop) (s s' : store) : Prop :=
  ∃ o, admissible o ∧ allowed s o ∧ s' = after o s.

Definition anything (s : store) (o : operation) : Prop := True.
Definition no_cas (s : store) (o : operation) : Prop :=
  match o with CompareAndSet _ _ => False | _ => True end.

(** The producer appends the events of each source record in order. *)
Definition in_order (s : store) (o : operation) : Prop :=
  match o with
  | Append d => ∀ key r, records s !! key = Some r → partition_key (data r) = partition_key d →
      key ≠ event_id d → occurred_at (data r) < occurred_at d
  | _ => True
  end.

Definition fresh (s : store) : Prop := ∃ threshold visibility, make_store threshold visibility = Ok s.

Definition reachable `{Core} (allowed : store → operation → Prop) (s : store) : Prop :=
  ∃ s0, fresh s0 ∧ rtc (moves allowed) s0 s.

Lemma moves_change `{Core} allowed s s' : store_ok s → moves allowed s s' → (∃ o, change s o s') ∧ store_ok s'.
Proof.
  intros Hs (o & Ho & _ & ->). pose proof (after_change o s Hs Ho). split; [by exists o|by eapply change_ok].
Qed.

Lemma fresh_ok s : fresh s → store_ok s.
Proof. intros (t & v & Hs). by eapply empty_store_ok. Qed.

Lemma moves_ok `{Core} allowed s s' : store_ok s → rtc (moves allowed) s s' → store_ok s'.
Proof.
  intros Hs. induction 1 as [|s1 s2 s3 H12 _ IH]; [done|].
  apply IH. by eapply moves_change.
Qed.

Lemma reachable_ok `{Core} allowed s : reachable allowed s → store_ok s.
Proof. intros (s0 & Hs0 & Hm). eapply moves_ok; [by apply fresh_ok|done]. Qed.

(** Induction over reachable stores with the invariant at hand. *)
Lemma reachable_invariant `{Core} allowed (P : store → Prop) :
  (∀ s, fresh s → P s) →
  (∀ s o, store_ok s → admissible o → allowed s o → P s → P (after o s)) →
  ∀ s, reachable allowed s → P s.
Proof.
  intros Hfresh Hstep s (s0 & Hs0 & Hm). pose proof (fresh_ok _ Hs0) as Hok. apply Hfresh in Hs0.
  induction Hm as [|s1 s2 s3 H12 _ IH]; [done|].
  apply IH; [|by eapply moves_change]. destruct H12 as (o & ? & ? & ->). by apply Hstep.
Qed.

(** ** Counting completions *)
Definition is_completed_in (p : string) (kr : string * OutboxRecord) : Prop :=
  state kr.2 = COMPLETED ∧ partition_key (data kr.2) = p.
Definition completed_in (p : string) (s : store) : gmap string OutboxRecord :=
  filter (is_completed_in p) (records s).

Lemma completed_in_insert_other p s key r :
  ¬ is_completed_in p (key, r) → (∀ r0, records s !! key = Some r0 → ¬ is_completed_in p (key, r0)) →
  filter (is_completed_in p) (<[key := r]> (records s)) = completed_in p s.
Proof. intros Hr Hold. by apply map_filter_insert_not'. Qed.

Lemma completed_in_started p s key r r' :
  records s !! key = Some r → state r ≠ COMPLETED → state r' ≠ COMPLETED →
  filter (is_completed_in p) (<[key := r']> (records s)) = completed_in p s.
Proof.
  intros Hr Hst Hst'. apply completed_in_insert_other; [by intros [? _]|].
  rewrite Hr. by intros ? [= <-] [? _].
Qed.

Lemma completed_in_claim p own limit dur cur s :
  completed_in p (claim_step own limit dur cur s) = completed_in p s.
Proof.
  apply map_eq. intros key. apply option_eq. intros r. unfold completed_in.
  rewrite !map_lookup_filter_Some, claim_step_lookup.
  destruct (records s !! key) as [r0|]; [|done]. case_bool_decide as Hin; [|done].
  apply claim_targets_claimable, claimable_incomplete in Hin.
  split; [intros [[= <-] [? _]]|intros [[= <-] [? _]]]; done.
Qed.

Lemma completed_in_complete p s id fp cur r :
  records s !! id = Some r → state r ≠ COMPLETED →
  size (completed_in p (completed_store s id fp cur r)) =
    ((if bool_decide (partition_key (data r) = p) then 1 else 0) + size (completed_in p s))%nat.
Proof.
  intros Hr Hst. unfold completed_in at 1, completed_store. cbn [records].
  case_bool_decide as Hp.
  - rewrite map_filter_insert_True by done. rewrite map_size_insert_None; [done|].
    apply map_lookup_filter_None_2. right. rewrite Hr. by intros ? [= <-] [? _].
  - rewrite completed_in_insert_other; [done|by intros [_ ?]|]. rewrite Hr. by intros ? [= <-] [? _].
Qed.

Lemma change_count `{Core} s o s' p :
  store_ok s → no_cas s o → change s o s' →
  current_revision s' p - Z.of_nat (size (completed_in p s')) =
  current_revision s p - Z.of_nat (size (completed_in p s)).
Proof.
  intros Hs Hcas Hchange.
  destruct Hchange as [o'|d Hd|own limit dur now cur Ho' Hdur _|id own ack fp now cur x [Hfp _ [Hx Hst _] _]
    |id own error retryable now cur f x [_ [Hx Hst _] _]|id reason x [_ Hx Hst]|c expected Hc Hrev].
  - done.
  - unfold current_revision, completed_in at 1, added. cbn [records checkpoints with_records].
    rewrite completed_in_insert_other; [done|by intros [? _]|]. by rewrite Hd.
  - by rewrite completed_in_claim.
  - rewrite completed_in_complete by (done || by rewrite Hst).
    unfold current_revision, completed_store. cbn [checkpoints]. case_bool_decide as Hp.
    + rewrite <-Hp, lookup_insert_eq. unfold next_checkpoint, next_revision. cbn [revision].
      destruct (checkpoints s !! partition_key (data x)); lia.
    + rewrite lookup_insert_ne by done. lia.
  - unfold current_revision, completed_in at 1. cbn [records checkpoints with_records].
    rewrite (completed_in_started p s id x); [done|done|by rewrite Hst|].
    unfold released. cbn. by destruct (_ || _).
  - unfold current_revision, completed_in at 1. cbn [records checkpoints with_records].
    rewrite (completed_in_started p s id x); [done|done|by rewrite Hst|done].
  - done.
Qed.

(** ** Order within a partition *)
Definition first_incomplete (s : store) (k : string) (r : OutboxRecord) : Prop :=
  ∀ k0 r0, records s !! k0 = Some r0 → state r0 ≠ COMPLETED →
    partition_key (data r0) = partition_key (data r) → claim_le (k, r) (k0, r0).

(** A record that was ever started is preceded by completed records only. *)
Definition serial (s : store) : Prop :=
  ∀ k r k' r', records s !! k = Some r → records s !! k' = Some r' → k ≠ k' →
    partition_key (data r) = partition_key (data r') → claim_le (k, r) (k', r') →
    state r' ≠ PENDING → state r = COMPLETED.

Lemma claim_le_data e e' f f' :
  data e.2 = data f.2 → data e'.2 = data f'.2 → claim_le e e' → claim_le f f'.
Proof. unfold claim_le. by intros -> ->. Qed.

Lemma serial_preserved s s' :
  store_ok s → serial s →
  (∀ k r', records s' !! k = Some r' → ∃ r, records s !! k = Some r ∧ data r' = data r ∧
     (state r = COMPLETED → state r' = COMPLETED) ∧
     (state r' = PENDING ∨ state r ≠ PENDING ∨ first_incomplete s k r)) →
  serial s'.
Proof.
  intros Hs Hser Hold k r k' r' Hr Hr' Hk Hp Hle Hst.
  destruct (Hold _ _ Hr) as (x & Hx & Hd & Hc & _).
  destruct (Hold _ _ Hr') as (x' & Hx' & Hd' & _ & Hstart).
  apply Hc. rewrite Hd, Hd' in Hp.
  apply (claim_le_data _ _ (k, x) (k', x')) in Hle; [|done..].
  destruct Hstart as [Hp'|[Hst'|Hfirst]]; [by destruct Hst|by eapply Hser|].
  destruct (decide (state x = COMPLETED)) as [?|Hx0]; [done|]. destruct Hk.
  rewrite <-(store_ok_id _ _ _ Hs Hx), <-(store_ok_id _ _ _ Hs Hx').
  by apply (claim_le_antisymm (k, x) (k', x')), Hfirst.
Qed.

(** One started record changed. *)
Lemma serial_insert s k r r' :
  store_ok s → serial s → records s !! k = Some r → data r' = data r →
  state r ≠ PENDING → (state r = COMPLETED → state r' = COMPLETED) →
  serial (with_records s (<[k := r']> (records s))).
Proof.
  intros Hs Hser Hr Hd Hst Hc. apply (serial_preserved s); [done|done|].
  intros k0 x. cbn [records with_records]. rewrite lookup_insert_Some. intros [[<- <-]|[Hne Hx]].
  - exists r. split_and!; auto.
  - exists x. destruct (decide (state x = PENDING)); split_and!; auto.
Qed.

Lemma serial_same_records s s' : records s' = records s → serial s → serial s'.
Proof. unfold serial. by intros ->. Qed.

Lemma serial_append s d :
  serial s → records s !! event_id d = None → in_order s (Append d) → serial (added d s).
Proof.
  intros Hser Hd Hord k r k' r'. cbn [records added with_records].
  rewrite !lookup_insert_Some. intros [[<- <-]|[Hk Hr]] [[<- <-]|[Hk' Hr']] Hne Hp Hle Hst;
    [by destruct Hne| |by destruct Hst|].
  - cbn [data new_record] in *. pose proof (Hord _ _ Hr' (eq_sym Hp) (not_eq_sym Hk')) as Hlt.
    revert Hle. unfold claim_le. cbn. lia.
  - by eapply Hser.
Qed.

Lemma serial_claim own limit dur cur s :
  store_ok s → serial s → serial (claim_step own limit dur cur s).
Proof.
  intros Hs Hser. apply (serial_preserved s); [done|done|].
  intros k r'. rewrite claim_step_lookup. destruct (records s !! k) as [r|] eqn:Hr; [|done].
  intros [= <-]. exists r. split; [done|]. case_bool_decide as Hin.
  - split; [done|]. split.
    + intros Hc. apply claim_targets_claimable, claimable_incomplete in Hin. by rewrite Hc in Hin.
    + right. right. intros k0 r0 Hk0 Hst Hp. by eapply claim_target_first.
  - split_and!; [done|done|]. destruct (decide (state r = PENDING)); auto.
Qed.

Lemma serial_change `{Core} s o s' :
  store_ok s → in_order s o → serial s → change s o s' → serial s'.
Proof.
  intros Hs Hord Hser Hchange.
  destruct Hchange as [o'|d Hd|own limit dur now cur Ho Hdur _|id own ack fp now cur x [Hfp _ [Hx Hst _] _]
    |id own error retryable now cur f x [_ [Hx Hst _] _]|id reason x [_ Hx Hst]|c expected Hc Hrev].
  - done.
  - by apply serial_append.
  - by apply serial_claim.
  - apply (serial_same_records (with_records s (<[id := completed fp cur x]> (records s)))); [done|].
    by apply (serial_insert s id x); [..|rewrite Hst|].
  - by apply (serial_insert s id x); [..|rewrite Hst|rewrite Hst].
  - by apply (serial_insert s id x); [..|rewrite Hst|rewrite Hst].
  - by apply (serial_same_records s).
Qed.

(** ** A lease that is being held *)

(** What may happen while [own] holds the record [r] under a lease that ends at
    [until]: anything but a completion or release of it by its owner, a claim
    that reads a clock past the end of the lease, or an append that is not in
    order of occurrence. *)
Definition while_held (own : string) (r : OutboxRecord) (until : instant) (s : store) (o : operation) : Prop :=
  in_order s o ∧
  match o with
  | Claim _ _ _ now => ∀ cur, ensure_utc now "now" = Ok cur → cur < until
  | Complete id own' _ _ _ | Release id own' _ _ _ => ¬ (id = event_id (data r) ∧ own' = own)
  | _ => True
  end.

(** The record is leased to [own] until [until], and the earliest incomplete
    one of its partition. *)
Record leased_head (own : string) (r : OutboxRecord) (until : instant) (s : store) : Prop := {
  lh_record : records s !! event_id (data r) = Some r;
  lh_state : state r = LEASED;
  lh_lease : ∃ l, lease r = Some l ∧ owner l = own ∧ expires_at l = until;
  lh_first : first_incomplete s (event_id (data r)) r;
}.

Lemma leased_head_unclaimable own r until s limit cur :
  leased_head own r until s → cur < until → (event_id (data r), r) ∉ claim_targets limit cur s.
Proof.
  intros [_ Hst (l & Hl & _ & <-) _] Hcur Hin. apply claim_targets_claimable in Hin. revert Hin.
  unfold claimable. rewrite Hst, Hl. cbn. lia.
Qed.

(** A claim before the end of the lease finds nothing in the partition. *)
Lemma leased_head_blocks own r until s limit cur k x :
  store_ok s → leased_head own r until s → cur < until →
  (k, x) ∈ claim_targets limit cur s → partition_key (data x) ≠ partition_key (data r).
Proof.
  intros Hs Hh Hcur Hin Hp. pose proof (claim_targets_lookup _ _ _ _ _ Hin) as Hk.
  pose proof (lh_record _ _ _ _ Hh) as Hr.
  assert (claim_le (k, x) (event_id (data r), r)) as H1
    by (eapply claim_target_first; [exact Hin|exact Hr|by rewrite (lh_state _ _ _ _ Hh)|done]).
  assert (claim_le (event_id (data r), r) (k, x)) as H2.
  { apply (lh_first _ _ _ _ Hh _ _ Hk); [|done]. by eapply claimable_incomplete, claim_targets_claimable. }
  pose proof (claim_le_antisymm _ _ H1 H2) as Hid. cbn in Hid. rewrite (store_ok_id _ _ _ Hs Hk) in Hid.
  subst k. rewrite Hr in Hk. injection Hk as <-. by eapply leased_head_unclaimable.
Qed.

Lemma leased_head_record `{Core} own r until s o s' :
  change s o s' → while_held own r until s o → leased_head own r until s →
  records s' !! event_id (data r) = Some r.
Proof.
  intros Hch [_ Ho] Hh. pose proof (lh_record _ _ _ _ Hh) as Hr. pose proof (lh_state _ _ _ _ Hh) as Hst.
  destruct (lh_lease _ _ _ _ Hh) as (l & Hl & Hown & _).
  destruct Hch as [o'|d Hd|own' limit dur now cur Ho' Hdur Hnow|id own' ack fp now cur x [_ _ [Hx _ (l' & Hl' & Hown' & _)] _]
    |id own' error retryable now cur f x [_ [Hx _ (l' & Hl' & Hown' & _)] _]|id reason x [_ Hx Hst']|c expected Hc Hrev];
    cbn [records with_records completed_store with_checkpoints added]; try done.
  - rewrite lookup_insert_ne; [done|congruence].
  - rewrite claim_step_lookup, Hr. rewrite bool_decide_false; [done|].
    eapply leased_head_unclaimable; [exact Hh|by apply Ho].
  - rewrite lookup_insert_ne; [done|]. intros ->. apply Ho. split; [done|congruence].
  - rewrite lookup_insert_ne; [done|]. intros ->. apply Ho. split; [done|congruence].
  - rewrite lookup_insert_ne; [done|]. intros ->. congruence.
Qed.

(** The lease is kept by everything that may happen while it is held. *)
Lemma leased_head_step `{Core} own r until s o s' :
  change s o s' → while_held own r until s o → leased_head own r until s → leased_head own r until s'.
Proof.
  intros Hch Ho Hh. pose proof (leased_head_record _ _ _ _ _ _ Hch Ho Hh) as Hr'.
  destruct Hh as [Hr Hst Hl Hfirst]. split; [done..|]. intros k0 r0 Hk0 Hinc Hp.
  destruct (records s !! k0) as [x|] eqn:Hx.
  - destruct (change_records _ _ _ _ _ Hch Hx) as (y & Hy & Hstep). rewrite Hk0 in Hy. injection Hy as <-.
    assert (data r0 = data x ∧ state x ≠ COMPLETED) as [Hd Hx0]
      by (destruct Hstep as [<-|?%record_step_data]; done).
    apply (claim_le_data (event_id (data r), r) (k0, x)); [done|by symmetry|].
    apply Hfirst; [done|done|by rewrite <-Hd].
  - destruct (change_new _ _ _ _ _ Hch Hx Hk0) as (d & -> & -> & ->). destruct Ho as [Hord _].
    left. apply (Hord _ _ Hr); [done|]. intros Heq. congruence.
Qed.

Lemma leased_head_moves `{Core} own r until s s' :
  store_ok s → rtc (moves (while_held own r until)) s s' → leased_head own r until s →
  store_ok s' ∧ leased_head own r until s'.
Proof.
  intros Hs Hm. induction Hm as [|s1 s2 s3 (o & Ho & Ha & ->) _ IH]; [done|]. intros Hh.
  pose proof (after_change o s1 Hs Ho) as Hch. apply IH; [by eapply change_ok|by eapply leased_head_step].
Qed.

(** What a claim returns is such a record. *)
Lemma claimed_leased_head own limit dur now cur s rs s' r :
  store_ok s → claim_args own limit dur now cur →
  atomic_claim own limit dur now s = (Ok rs, s') → r ∈ rs →
  store_ok s' ∧ leased_head own r (cur + dur) s'.
Proof.
  intros Hs Ha. rewrite (atomic_claim_eq _ _ _ _ cur) by done. intros [= <- <-].
  intros ((k & x) & <- & Hin)%list_elem_of_In%in_map_iff. apply list_elem_of_In in Hin. cbn [snd].
  pose proof (claim_targets_lookup _ _ _ _ _ Hin) as Hk.
  split; [by apply claim_step_ok; [apply Ha..|]|].
  split; rewrite ?leased_data, ?(store_ok_id _ _ _ Hs Hk).
  - rewrite claim_step_lookup, Hk. by rewrite bool_decide_true.
  - done.
  - by eexists.
  - intros k0 r0 Hk0 Hinc Hp. destruct (claim_step_inv _ _ _ _ _ _ _ Hk0) as (y & Hy & Hd & Hcase).
    assert (state y ≠ COMPLETED) as Hsty.
    { destruct (Hcase Hinc) as [?| <-]; [by eapply claimable_incomplete|done]. }
    apply (claim_le_data (k, x) (k0, y)); [done|by symmetry|].
    eapply claim_target_first; [exact Hin|exact Hy|done|]. cbn. by rewrite <-Hd.
Qed.

(** ** The guarantees of the lifecycle *)

(** C15: whatever operations ran before, an operation moves each record along the
    state machine PENDING / RETRYABLE / expired -> LEASED -> COMPLETED,
    RETRYABLE (below the poison threshold) or QUARANTINED -> RETRYABLE, or
    leaves it alone; it never changes a record's data or removes it, and only
    [append] adds one. *)
Theorem record_lifecycle `{Core} s o :
  reachable anything s → admissible o →
  store_ok (after o s) ∧
  (∀ key r, records s !! key = Some r →
     ∃ r', records (after o s) !! key = Some r' ∧ data r' = data r ∧
           (r' = r ∨ record_step (poison_threshold s) r r')) ∧
  (∀ key r', records s !! key = None → records (after o s) !! key = Some r' →
     ∃ d, o = Append d ∧ key = event_id d ∧ r' = new_record d).
Proof.
  intros Hs%reachable_ok Ho. pose proof (after_change o s Hs Ho) as Hch.
  split; [by eapply change_ok|]. split.
  - intros key r Hr. destruct (change_records _ _ _ _ _ Hch Hr) as (r' & Hr' & Hstep).
    exists r'. split_and!; [done| |done]. destruct Hstep as [->|[Hd _]%record_step_data]; done.
  - intros key r'. by apply change_new.
Qed.

(** A completed record is final: no sequence of operations changes it. *)
Theorem completed_forever `{Core} s s' key r :
  reachable anything s → rtc (moves anything) s s' →
  records s !! key = Some r → state r = COMPLETED → records s' !! key = Some r.
Proof.
  intros Hs%reachable_ok Hm Hr Hst. induction Hm as [|s1 s2 s3 H12 _ IH]; [done|].
  destruct (moves_change _ _ _ Hs H12) as [(o & Hch) Hs2]. apply IH; [done|].
  destruct (change_records _ _ _ _ _ Hch Hr) as (r' & Hr' & [->|[_ Hn]%record_step_data]); done.
Qed.

(** C2: once a claim has granted a lease, and until it ends, no claim by any owner
    returns a record of the same partition and the leased record stays as it was
    granted, whatever operations come in between: provided that its owner does
    not complete or release the event, that no claim in between reads a clock
    past the end of the lease, and that the events of the source record are
    appended in order of occurrence. *)
Theorem claims_never_overlap `{Core} o1 l1 d1 n1 c1 s rs1 s1 r1 s2 o2 l2 d2 n2 c2 rs2 s3 :
  store_ok s → claim_args o1 l1 d1 n1 c1 → atomic_claim o1 l1 d1 n1 s = (Ok rs1, s1) → r1 ∈ rs1 →
  rtc (moves (while_held o1 r1 (c1 + d1))) s1 s2 →
  claim_args o2 l2 d2 n2 c2 → c2 < c1 + d1 → atomic_claim o2 l2 d2 n2 s2 = (Ok rs2, s3) →
  records s2 !! event_id (data r1) = Some r1 ∧
  ∀ r2, r2 ∈ rs2 → partition_key (data r2) ≠ partition_key (data r1).
Proof.
  intros Hs Ha1 Hrun1 Hin Hm Ha2 Hc.
  destruct (claimed_leased_head _ _ _ _ _ _ _ _ _ Hs Ha1 Hrun1 Hin) as [Hs1 Hh1].
  destruct (leased_head_moves _ _ _ _ _ Hs1 Hm Hh1) as [Hs2 Hh2].
  rewrite (atomic_claim_eq _ _ _ _ c2) by done. intros [= <- _]. split; [apply Hh2|]. intros r2.
  intros ((k & x) & <- & Hx)%list_elem_of_In%in_map_iff. apply list_elem_of_In in Hx.
  exact (leased_head_blocks _ _ _ _ _ _ _ _ Hs2 Hh2 Hc Hx).
Qed.

(** C7: in every store reached by any operations but [compare_and_set_checkpoint]
    (which an adapter fixture uses to move a checkpoint by hand), the checkpoint
    revision of a partition is the number of its completed events. *)
Theorem checkpoint_counts_completions `{Core} s p :
  reachable no_cas s → current_revision s p = Z.of_nat (size (completed_in p s)).
Proof.
  intros Hreach. apply Zminus_eq. revert s Hreach. apply reachable_invariant.
  - intros s (t & v & Hs). unfold make_store in Hs. simplify_res. done.
  - intros s o Hs Ho Hcas Heq. rewrite (change_count s o); [done|done|done|]. by apply after_change.
Qed.

(** C6: when the events of each source record are appended in order of
    occurrence, they are delivered one at a time and in order: a record that
    was ever leased is preceded, within its partition, by completed records
    only. *)
Theorem partitions_are_serial `{Core} s : reachable in_order s → serial s.
Proof.
  apply reachable_invariant.
  - intros s0 (t & v & Hs). unfold make_store in Hs. simplify_res. intros k r k' r' Hr. discriminate Hr.
  - intros s0 o Hs Ho Hord Hser. eapply serial_change; [done|done|done|by apply after_change].
Qed.

(** C29: [complete] succeeds exactly when the digest is valid and the caller
    acknowledges, under an unexpired lease of its own, the exact version and
    type of the source record; it then completes the record and advances the
    checkpoint of its partition by one. *)
Theorem complete_exactly s id own ack fp now c s' :
  store_ok s →
  complete id own ack fp now s = (Ok c, s') ↔
  ∃ cur r, complete_args s id own ack fp now cur r ∧
    c = next_checkpoint s id fp cur r ∧ s' = completed_store s id fp cur r.
Proof.
  intros Hs. split.
  - destruct (complete_cases s id own ack fp now Hs) as [(cur & r & Hc)|[e ->]]; [|done].
    rewrite (complete_run _ _ _ _ _ _ _ _ Hs Hc). intros [= <- <-]. by exists cur, r.
  - intros (cur & r & Hc & -> & ->). by apply complete_run.
Qed.

(** C30: [release] succeeds exactly under an unexpired lease of the caller (and a
    reportable error); the record is quarantined when the error is not
    retryable or the attempts reached the poison threshold, and becomes
    retryable otherwise, keeping its attempts and the redacted failure. *)
Theorem release_exactly `{Core} s id own error retryable now r' s' :
  store_ok s →
  release id own error retryable now s = (Ok r', s') ↔
  ∃ cur f r, release_args s id own error now cur f r ∧ r' = released s f retryable r ∧
    s' = with_records s (<[id := r']> (records s)) ∧
    (state r' = QUARANTINED ↔ retryable = false ∨ poison_threshold s ≤ attempt_count r).
Proof.
  intros Hs. split.
  - destruct (release_cases s id own error retryable now) as [(cur & f & r & Hc)|[e ->]]; [|done].
    rewrite (release_run _ _ _ _ _ _ _ _ _ Hs Hc). intros [= <- <-]. exists cur, f, r.
    split_and!; [done..|]. unfold released. cbn.
    destruct retryable, (Z.leb_spec (poison_threshold s) (attempt_count r)); simpl; intuition (done || lia).
  - intros (cur & f & r & Hc & -> & -> & _). by apply (release_run _ _ _ _ _ _ cur).
Qed.

(** An operation that raises changes nothing. *)
Theorem failed_operation_changes_nothing `{Core} s o e s' :
  store_ok s → admissible o → run o s = (Raise e, s') → s' = s.
Proof.
  intros Hs Ho. destruct o as [d|own limit dur now|id own ack fp now
    |id own error retryable now|id reason|c expected]; cbn [run]; unfold discard, bind.
  - destruct (append_cases d s) as [[? ->]|[(r & _ & _ & ->)|(r & x & _ & _ & ->)]]; congruence.
  - destruct (atomic_claim_cases own limit dur now s) as [(cur & ? & ? & ? & Hnow)|[x ->]]; [|congruence].
    rewrite (atomic_claim_eq _ _ _ _ cur) by (first [exact Hs|split; auto]). done.
  - destruct (complete_cases s id own ack fp now Hs) as [(cur & r & Hc)|[x ->]]; [|congruence].
    by rewrite (complete_run _ _ _ _ _ _ cur r).
  - destruct (release_cases s id own error retryable now) as [(cur & f & r & Hc)|[x ->]]; [|congruence].
    by rewrite (release_run _ _ _ _ _ _ cur f r).
  - destruct (operator_retry_cases s id reason) as [(r & Hc)|[x ->]]; [|congruence].
    by rewrite (operator_retry_run _ _ _ r).
  - destruct (cas_cases c expected s) as [(? & ? & ->)|(_ & x & ->)]; [done|congruence].
Qed.

(** ** A lease that would end after the year 9999

    [expires_at] is computed after the record object was marked LEASED, so the
    [OverflowError] leaves a record that is LEASED and has no lease. *)
Definition stranded (r : OutboxRecord) : OutboxRecord :=
  MkRecord (data r) LEASED (attempt_count r + 1) (lease r) None (target_fingerprint r) (completed_at r).

Lemma claim_overflow_run own dur cur key r s :
  in_range (cur + dur) = false →
  grant own dur cur key r s = (Raise date_overflow, with_records s (<[key := stranded r]> (records s))).
Proof.
  intros Hexp. unfold grant, bind, lift_res. rewrite put_record_run. unfold dt_add. by rewrite Hexp.
Qed.

(** C31: when the lease would end after the year 9999 a claim whose only event is
    pending raises [OverflowError] and strands the event: it is LEASED without a
    lease, so reading it raises [ValueError], no worker can complete or release
    it, no operator can retry it, and every later claim fails its assertion. *)
Theorem atomic_claim_overflow_strands `{Core} own dur now cur d s :
  own ≠ ""%string → 0 < dur → ensure_utc now "now" = Ok cur → in_range (cur + dur) = false →
  records s = {[event_id d := new_record d]} →
  let s' := (atomic_claim own 1 dur now s).2 in
  (atomic_claim own 1 dur now s).1 = Raise date_overflow ∧
  records s' = {[event_id d := stranded (new_record d)]} ∧
  (∃ m, (get_record (event_id d) s').1 = Raise (ValueError m)) ∧
  (∀ own' ack fp now', is_ok (complete (event_id d) own' ack fp now' s').1 = false) ∧
  (∀ own' error retryable now', is_ok (release (event_id d) own' error retryable now' s').1 = false) ∧
  (∀ reason, is_ok (operator_retry (event_id d) reason s').1 = false) ∧
  (∀ own' dur' now' cur', claim_args own' 1 dur' now' cur' →
     (atomic_claim own' 1 dur' now' s').1 = Raise AssertionError).
Proof.
  intros Ho Hdur Hnow Hexp Hrec. set (s' := (atomic_claim own 1 dur now s).2).
  assert (∀ t r, records t = {[event_id d := r]} → ordered_records t = [(event_id d, r)]) as Hord.
  { intros t r Ht. apply Permutation_singleton_r. rewrite ordered_records_perm, Ht. by rewrite map_to_list_singleton. }
  assert (atomic_claim own 1 dur now s =
    (Raise date_overflow, with_records s {[event_id d := stranded (new_record d)]})) as Hrun.
  { unfold atomic_claim. unfold bind, lift_res, get.
    rewrite (proj2 (nonempty_spec own)), (proj2 (Z.leb_gt _ _)), Hnow by done. cbn [negb raise_if Z.ltb Z.compare].
    rewrite (Hord s _ Hrec). cbn [claim_loop]. rewrite !bool_decide_false by (done || apply not_elem_of_empty).
    cbn [claim_test state new_record]. unfold bind. rewrite claim_overflow_run by done.
    by rewrite Hrec, insert_singleton_eq. }
  unfold s'. rewrite Hrun. cbn [fst snd]. clear s'.
  set (s' := with_records s _). assert (records s' = {[event_id d := stranded (new_record d)]}) as Hs' by done.
  assert (records s' !! event_id d = Some (stranded (new_record d))) as Hlookup
    by (rewrite Hs'; apply lookup_singleton_eq).
  clearbody s'. split_and!; [done|done|..].
  - unfold get_record, bind, get. rewrite Hlookup. by eexists.
  - intros own' ack fp now'. unfold complete, bind, lift_res, get.
    destruct (require_sha256 _ _); [|done]. destruct (ensure_utc now' _); [|done].
    cbn. unfold leased_record. by rewrite Hlookup.
  - intros own' error retryable now'. unfold release, bind, lift_res, get.
    destruct (ensure_utc now' _); [|done]. cbn. unfold leased_record. by rewrite Hlookup.
  - intros reason. unfold operator_retry, bind, lift_res, get.
    destruct (has_text reason); [|done]. cbn. by rewrite Hlookup.
  - intros own' dur' now' cur' [Ho' _ Hdur' Hnow' _]. unfold atomic_claim, bind, lift_res, get.
    rewrite (proj2 (nonempty_spec own')), (proj2 (Z.leb_gt _ _)), Hnow' by done. cbn [negb raise_if Z.ltb Z.compare].
    rewrite (Hord s' _ Hs'). cbn [claim_loop]. rewrite !bool_decide_false by (done || apply not_elem_of_empty). done.
Qed.

(** ** Concrete runs *)
Lemma reachable_after `{Core} allowed s o :
  reachable allowed s → admissible o → allowed s o → reachable allowed (after o s).
Proof. intros (s0 & Hs0 & Hm) Ho Ha. exists s0. split; [done|]. eapply rtc_r; [done|]. by exists o. Qed.

Definition empty_store : store := Store 2 (f64_of_Z 30) ∅ ∅.
Lemma empty_reachable `{Core} allowed : reachable allowed empty_store.
Proof. exists empty_store. split; [by exists 2, (f64_of_Z 30)|apply rtc_refl]. Qed.

Lemma after_append `{Core} d s : records s !! event_id d = None → after (Append d) s = added d s.
Proof. intros Hd. unfold after. cbn [run]. unfold append, bind, get. by rewrite Hd. Qed.

Definition sample_fingerprint : string := sha256_digest (JStr "document").
Definition run_all `{Core} (l : list operation) (s : store) : store := fold_left (λ s o, after o s) l s.

(** Two events of a source record are appended, the first is claimed and completed. *)
Definition sample_claim : operation := Claim "w1" 5 (second 30) (at_utc (second 1000)).
Definition sample_complete : operation :=
  Complete "evt-1" "w1" (Some (VInt 1)) sample_fingerprint (at_utc (second 1010)).
Definition claimed_store : store :=
  run_all (H := example_core) [Append sample_event1; Append sample_event2; sample_claim] empty_store.
Definition advanced_store : store := after (H := example_core) sample_complete claimed_store.

Lemma sample_claim_admissible : admissible sample_claim.
Proof. intros cur Hcur. injection Hcur as <-. reflexivity. Qed.

Lemma claimed_reachable (allowed : store → operation → Prop) :
  (∀ s o, ¬ (∃ d, o = Append d) → ¬ (∃ c e, o = CompareAndSet c e) → allowed s o) →
  allowed empty_store (Append sample_event1) →
  allowed (after (H := example_core) (Append sample_event1) empty_store) (Append sample_event2) →
  reachable (H := example_core) allowed claimed_store.
Proof.
  intros Hother H1 H2. unfold claimed_store, run_all. cbn [fold_left].
  apply reachable_after; [|apply sample_claim_admissible|by apply Hother; [intros (? & ?)|intros (? & ? & ?)]].
  apply reachable_after; [|done|done]. apply reachable_after; [apply empty_reachable|done|done].
Qed.

Lemma advanced_reachable (allowed : store → operation → Prop) :
  (∀ s o, ¬ (∃ d, o = Append d) → ¬ (∃ c e, o = CompareAndSet c e) → allowed s o) →
  allowed empty_store (Append sample_event1) →
  allowed (after (H := example_core) (Append sample_event1) empty_store) (Append sample_event2) →
  reachable (H := example_core) allowed advanced_store.
Proof.
  intros Hother H1 H2. apply reachable_after; [by apply claimed_reachable|done|].
  by apply Hother; [intros (? & ?)|intros (? & ? & ?)].
Qed.

Lemma record_lifecycle_witness :
  let s' := after (H := example_core) sample_complete claimed_store in
  (∀ key r, records claimed_store !! key = Some r →
     ∃ r', records s' !! key = Some r' ∧ data r' = data r ∧
           (r' = r ∨ record_step (poison_threshold claimed_store) r r')) ∧
  state <$> (records claimed_store !! "evt-1"%string) = Some LEASED ∧
  state <$> (records s' !! "evt-1"%string) = Some COMPLETED.
Proof.
  split; [|split; vm_compute; reflexivity].
  apply (record_lifecycle (H := example_core) claimed_store sample_complete); [|exact I].
  by apply claimed_reachable.
Defined.

Lemma completed_forever_witness :
  let s' := after (H := example_core) (Release "evt-1" "w1" AssertionError true (at_utc (second 1011)))
              advanced_store in
  let r := completed sample_fingerprint (second 1010)
             (leased "w1" (second 30) (second 1000) (new_record sample_event1)) in
  records s' !! "evt-1"%string = Some r.
Proof.
  intros s' r. apply (completed_forever (H := example_core) advanced_store s' "evt-1" r).
  - by apply advanced_reachable.
  - apply rtc_once. exists (Release "evt-1" "w1" AssertionError true (at_utc (second 1011))).
    split; [exact I|split; [exact I|exact eq_refl]].
  - vm_compute. reflexivity.
  - reflexivity.
Defined.

Lemma checkpoint_counts_completions_witness :
  current_revision advanced_store (partition_key sample_event1) = 1 ∧
  current_revision advanced_store (partition_key sample_event1) =
    Z.of_nat (size (completed_in (partition_key sample_event1) advanced_store)).
Proof.
  split; [vm_compute; reflexivity|]. apply (checkpoint_counts_completions (H := example_core)).
  apply advanced_reachable; [|done|done]. intros s [] _ Hc; try done. destruct Hc; eauto.
Defined.

Lemma partitions_are_serial_witness : serial advanced_store.
Proof.
  apply (partitions_are_serial (H := example_core)). apply advanced_reachable.
  - intros s [] Ha _; try exact I. destruct Ha; eauto.
  - intros key r Hr. discriminate Hr.
  - intros key r. rewrite after_append by reflexivity. cbn [records added with_records].
    rewrite lookup_insert_Some. intros [[_ <-]|[_ Hr]]; [reflexivity|discriminate Hr].
Defined.

Lemma claimed_store_ok : store_ok claimed_store.
Proof. eapply (reachable_ok (H := example_core) anything). by apply claimed_reachable. Qed.

Definition claimed_event1 : OutboxRecord :=
  leased "w1" (second 30) (second 1000) (new_record sample_event1).

Lemma claimed_lookup : records claimed_store !! "evt-1"%string = Some claimed_event1.
Proof. vm_compute. reflexivity. Qed.

Lemma claimed_held : held claimed_store "evt-1" "w1" (second 1010) claimed_event1.
Proof. split; [exact claimed_lookup|done|]. eexists. split; [reflexivity|]. split; [done|reflexivity]. Qed.

(** The order of an append, decided on the records. *)
Lemma in_order_sample s d :
  forallb (λ kr, occurred_at (data kr.2) <? occurred_at d) (map_to_list (records s)) = true →
  in_order s (Append d).
Proof.
  rewrite forallb_forall. intros Hall key r Hr _ _. apply Z.ltb_lt, (Hall (key, r)).
  by apply list_elem_of_In, elem_of_map_to_list.
Qed.

(** The first event of a source record is leased; its second event is appended and
    a worker that does not hold the lease tries to release the first; the next
    claim returns the event of another source record. *)
Definition other_release : operation := Release "evt-1" "w2" AssertionError true (at_utc (second 1010)).
Definition held_store : store := added sample_event3 (added sample_event1 empty_store).

Lemma claims_never_overlap_witness :
  let first := claim_of "w1" 1 (second 30) (second 1000) held_store in
  let between := run_all (H := example_core) [Append sample_event2; other_release] first.2 in
  let next := claim_of "w2" 5 (second 30) (second 1020) between in
  map (λ r, event_id (data r)) first.1 = ["evt-1"]%string ∧
  map (λ r, event_id (data r)) next.1 = ["evt-3"]%string ∧
  records between !! "evt-1"%string = Some claimed_event1 ∧
  ∀ r2, r2 ∈ next.1 → partition_key (data r2) ≠ partition_key (data claimed_event1).
Proof.
  intros first between next. split; [vm_compute; reflexivity|]. split; [vm_compute; reflexivity|].
  refine (claims_never_overlap (H := example_core) "w1" 1 (second 30) (at_utc (second 1000)) (second 1000)
    held_store first.1 first.2 claimed_event1 between "w2" 5 (second 30) (at_utc (second 1020)) (second 1020)
    next.1 next.2 _ _ _ _ _ _ _ _).
  - do 2 apply added_ok. by apply (empty_store_ok 2 (f64_of_Z 30)).
  - by apply claim_args_at.
  - vm_compute. reflexivity.
  - apply list_elem_of_lookup. exists 0%nat. vm_compute. reflexivity.
  - eapply rtc_l; [exists (Append sample_event2); split; [exact I|split; [|reflexivity]]|].
    { split; [|exact I]. apply in_order_sample. vm_compute. reflexivity. }
    apply rtc_once. exists other_release. split; [exact I|split; [|reflexivity]].
    split; [exact I|]. intros [_ Hown]. discriminate Hown.
  - by apply claim_args_at.
  - reflexivity.
  - vm_compute. reflexivity.
Defined.

Lemma complete_exactly_witness :
  ∃ c s', complete "evt-1" "w1" (Some (VInt 1)) sample_fingerprint (at_utc (second 1010)) claimed_store = (Ok c, s').
Proof.
  exists (next_checkpoint claimed_store "evt-1" sample_fingerprint (second 1010) claimed_event1),
    (completed_store claimed_store "evt-1" sample_fingerprint (second 1010) claimed_event1).
  apply (complete_exactly _ _ _ _ _ _ _ _ claimed_store_ok).
  exists (second 1010), claimed_event1. split; [|split; exact eq_refl].
  split; [vm_compute; reflexivity|vm_compute; reflexivity|exact claimed_held|reflexivity].
Defined.

Definition sample_failure : OutboxFailure :=
  MkFailure "builtins.RuntimeError" "boom: password=<redacted>" (second 1010).

Lemma release_exactly_witness :
  let r' := released claimed_store sample_failure false claimed_event1 in
  ∃ s', release (H := example_core) "evt-1" "w1" (RuntimeError "boom: password=hunter2") false
          (at_utc (second 1010)) claimed_store = (Ok r', s') ∧ state r' = QUARANTINED.
Proof.
  intros r'. exists (with_records claimed_store (<["evt-1"%string := r']> (records claimed_store))).
  split; [|reflexivity].
  apply (release_exactly (H := example_core) _ _ _ _ _ _ _ _ claimed_store_ok).
  exists (second 1010), sample_failure, claimed_event1. split; [|split; [exact eq_refl|split; [exact eq_refl|]]].
  - split; [vm_compute; reflexivity|exact claimed_held|vm_compute; reflexivity].
  - split; [left; reflexivity|reflexivity].
Defined.

Lemma failed_operation_changes_nothing_witness :
  let o := Complete "evt-1" "w2" (Some (VInt 1)) sample_fingerprint (at_utc (second 1010)) in
  (run (H := example_core) o claimed_store).1 =
    Raise (LeaseLostError "outbox event 'evt-1' is leased by another owner") ∧
  (run (H := example_core) o claimed_store).2 = claimed_store.
Proof.
  intros o. split; [vm_compute; reflexivity|].
  apply (failed_operation_changes_nothing (H := example_core) claimed_store o
    (LeaseLostError "outbox event 'evt-1' is leased by another owner")); [exact claimed_store_ok|exact I|].
  vm_compute. reflexivity.
Defined.

(** A claim for a thousand days in the last year of the calendar. *)
Lemma atomic_claim_overflow_strands_witness :
  let s := added sample_event1 empty_store in
  let now := max_instant - us_per_day in
  let s' := (atomic_claim "w1" 1 (1000 * us_per_day) (at_utc now) s).2 in
  (atomic_claim "w1" 1 (1000 * us_per_day) (at_utc now) s).1 = Raise date_overflow ∧
  records s' = {[event_id sample_event1 := stranded (new_record sample_event1)]}.
Proof.
  intros s now s'.
  pose proof (atomic_claim_overflow_strands (H := example_core) "w1" (1000 * us_per_day) (at_utc now) now
    sample_event1 s) as Hclaim.
  destruct Hclaim as (Hraise & Hrec & _); [discriminate|reflexivity|reflexivity|reflexivity|reflexivity|].
  exact (conj Hraise Hrec).
Defined.
