(* ===== verification/Runner.v ===== *)
(** * The projection runner ([runner/runner.py])

    [ProjectionRunner] claims a batch from an outbox port, projects every record
    with the host's projector, executes the expression against the target, and
    completes or releases the record.  The runtime, the port, the evidence sink
    and the hooks are injected; they are computations on a common world. *)
From S2P Require Import Prelude PyTime Canonical Errors OutboxModel.

(** ** What the runner uses of Core *)
Class CoreApi : Type := {
  core_errors :: Core;
  Expression : Type;
  expression_catalog : Expression → string;
  expression_argument : Expression → string → option pyval;   (* [arguments.get(name)] *)
  OperationResult : Type;
  result_data : OperationResult → pyval;
  operation_fingerprint : OperationResult → option string;
}.

(** The registry of the runtime: what [_validate_bindings] reads of it. *)
Class CoreRegistry (W : Type) : Type := {
  ResourceRef : Type; Snapshot : Type; Resource : Type;
  SchemaRef : Type; Binding : Type; Manifest : Type;
  runtime_catalog : string → M W unit;
  snapshot_for_handle : M W Snapshot;
  parse_ref : string → string → res ResourceRef;
  ref_catalog : ResourceRef → string;
  snapshot_resource : Snapshot → ResourceRef → res Resource;
  resource_schema : Resource → option SchemaRef;
  schema_str : SchemaRef → string;
  schema_logical_version : SchemaRef → string;                (* [logical_name@version] *)
  snapshot_schema : Snapshot → SchemaRef → res unit;
  binding_for : Snapshot → ResourceRef → res Binding;
  manifest_for : Binding → M W (option Manifest);
  manifest_matches : Manifest → Binding → bool;               (* adapter id and fingerprint *)
  has_violations : Manifest → Resource → bool;
}.

(** [OutboxPort] *)
Class OutboxPort (W : Type) : Type := {
  port_atomic_claim : string → Z → timedelta → datetime → M W (list OutboxRecord);
  port_complete : string → string → option version → string → datetime → M W Checkpoint;
  port_release : string → string → exn → bool → datetime → M W OutboxRecord;
  port_lag : option datetime → M W ProjectionLag;
}.

(** ** [ProjectionSpec], [ProjectionContext], [ProjectionRun] *)
Record ProjectionSpec : Type := MkSpec {
  spec_name : string; spec_source_catalog : string; spec_source : string;
  spec_target_catalog : string; spec_target : string;
  spec_source_schema : string; spec_target_schema : string;
  spec_target_labels : list string; eventual_visibility_seconds : float;
}.

Definition make_spec (s : ProjectionSpec) : res ProjectionSpec :=
  do? require_nonempty
        [("name", spec_name s); ("source_catalog", spec_source_catalog s); ("source", spec_source s);
         ("target_catalog", spec_target_catalog s); ("target", spec_target s);
         ("source_schema", spec_source_schema s); ("target_schema", spec_target_schema s)] in
  do? raise_if (negb (bool_decide (spec_source_catalog s ∈ catalog_names)))
        (ValueError ("unknown source Catalog " +:+ py_repr (spec_source_catalog s))) in
  do? raise_if (negb (bool_decide (spec_target_catalog s ∈ catalog_names)))
        (ValueError ("unknown target Catalog " +:+ py_repr (spec_target_catalog s))) in
  do? raise_if (negb (f64_isfinite (eventual_visibility_seconds s)) ||
                f64_le (eventual_visibility_seconds s) f64_zero)
        (ValueError "eventual_visibility_seconds must be positive") in
  do? raise_if (negb (unique (spec_target_labels s)))
        (ValueError "target_labels must not contain duplicates") in
  Ok s.

(** [ProjectionSpec.to_mapping]; [float_repr] is the [repr] of a float. *)
Definition spec_to_mapping (float_repr : float → string) (s : ProjectionSpec) : json :=
  JObj [("name", JStr (spec_name s)); ("sourceCatalog", JStr (spec_source_catalog s)); ("source", JStr (spec_source s));
        ("targetCatalog", JStr (spec_target_catalog s)); ("target", JStr (spec_target s));
        ("sourceSchema", JStr (spec_source_schema s)); ("targetSchema", JStr (spec_target_schema s));
        ("targetLabels", JArr (map JStr (spec_target_labels s)));
        ("eventualVisibilitySeconds", JFloat (float_repr (eventual_visibility_seconds s)))].

Record ProjectionContext : Type := MkContext {
  ctx_projection : string; ctx_event_id : string; ctx_source_catalog : string;
  ctx_source_resource : string; ctx_source_schema : string; ctx_source_identity : json;
  ctx_source_version : option version; ctx_mutation_kind : string;
  ctx_occurred_at : instant; ctx_operation_context : json;
}.

Record ProjectionRun : Type := MkRun { claimed : Z; completed_n : Z; retryable_n : Z; quarantined_n : Z }.
Definition run_zero : ProjectionRun := MkRun 0 0 0 0.
Definition run_add (a b : ProjectionRun) : ProjectionRun :=
  MkRun (claimed a + claimed b) (completed_n a + completed_n b)
        (retryable_n a + retryable_n b) (quarantined_n a + quarantined_n b).

(** ** [_default_acknowledgement] *)
Fixpoint mapping_get (key : string) (items : list (pyval * pyval)) : option pyval :=
  match items with
  | [] => None
  | (PStr k, v) :: items' => if String.eqb key k then Some v else mapping_get key items'
  | _ :: items' => mapping_get key items'
  end.

(** [value[key]] *)
Definition subscript (v : pyval) (key : string) : res pyval :=
  match v with
  | PMapping items => match mapping_get key items with Some x => Ok x | None => Raise (KeyError (py_repr key)) end
  | _ => Raise (TypeError "object is not subscriptable by a str")
  end.

Definition as_version (v : option pyval) : option version :=
  match v with
  | Some (PStr s) => Some (VStr s)
  | Some (PInt z) => Some (VInt z)
  | _ => None
  end.

Fixpoint first_version (keys : list string) (items : list (pyval * pyval)) : option version :=
  match keys with
  | [] => None
  | k :: keys' => match as_version (mapping_get k items) with
                  | Some v => Some v
                  | None => first_version keys' items
                  end
  end.

Definition acknowledgement_keys : list string :=
  ["acknowledgedSourceVersion"; "acknowledged_source_version"; "sourceVersion"]%string.

(** [sha256_digest] of any Python value. *)
Definition digest_of (v : pyval) : res string := res_map sha256_digest (json_value v).

Definition default_acknowledgement `{CoreApi} (result : OperationResult) (source : OutboxDataV1)
    : res (option version * string) :=
  let acknowledged := match result_data result with
                      | PMapping items => first_version acknowledgement_keys items
                      | _ => None
                      end in
  let? acknowledged :=
    match source_version source, acknowledged with
    | None, _ => Ok None
    | Some _, None => Raise (ProjectionRejected "target result did not acknowledge the source version")
    | Some _, Some v => Ok (Some v)
    end in
  let operation := default "" (operation_fingerprint result) in
  let? fingerprint := (if nonempty operation then Ok operation else digest_of (result_data result)) in
  Ok (acknowledged, fingerprint).

(** ** [ProjectionRunner] *)
Record runner_hooks (W : Type) `{CoreApi} : Type := Hooks {
  project : json → ProjectionContext → M W Expression;
  execute : Expression → M W OperationResult;
  source_loader : option (json → option version → M W json);
  acknowledgement : OperationResult → OutboxDataV1 → M W (option version * string);
  clock : M W datetime;
}.
Arguments Hooks {W _}.
Arguments project {W _} _ _ _.
Arguments execute {W _} _ _.
Arguments source_loader {W _} _.
Arguments acknowledgement {W _} _ _ _.
Arguments clock {W _} _.

Record runner_config : Type := Config {
  spec : ProjectionSpec;
  batch_size : Z;
  lease_duration : timedelta;
  worker_id : string;
}.

Definition is_type_error (e : exn) : bool :=
  match e with EPython _ q _ => String.eqb q "TypeError" | _ => false end.
Definition is_key_error (e : exn) : bool :=
  match e with EPython _ q _ => String.eqb q "KeyError" | _ => false end.

(** [try: r except <catches>: raise replacement] around a pure step. *)
Definition rethrow {A} (r : res A) (catches : exn → bool) (replacement : exn) : res A :=
  match r with
  | Raise e => Raise (if catches e then replacement else e)
  | Ok a => Ok a
  end.

Definition validate_binding `{CoreRegistry W} (snap : Snapshot) (role catalog name schema_name : string)
    : M W unit :=
  let! ref := lift_res (rethrow (parse_ref name catalog) (λ e, is_value_error e || is_type_error e)
        (ProjectionRejected ("invalid " +:+ role +:+ " Resource reference"))) in
  do! lift_res (raise_if (negb (String.eqb (ref_catalog ref) catalog))
        (ProjectionRejected (role +:+ " Resource Catalog does not match projection spec"))) in
  let! resource := lift_res (snapshot_resource snap ref) in
  let mismatch := ProjectionRejected (role +:+ " Resource Schema does not match projection spec") in
  let! schema := lift_res (match resource_schema resource with
                           | Some schema =>
                               do? raise_if (negb (bool_decide (schema_name ∈
                                     [schema_str schema; schema_logical_version schema]))) mismatch in
                               Ok schema
                           | None => Raise mismatch
                           end) in
  do! lift_res (snapshot_schema snap schema) in
  let! binding := lift_res (rethrow (binding_for snap ref) is_key_error
        (ProjectionRejected (role +:+ " Resource has no resolved Binding"))) in
  let! manifest := manifest_for binding in
  match manifest with
  | None => raise (ProjectionRejected (role +:+ " Resource Binding Capability is unresolved"))
  | Some m =>
      do! lift_res (raise_if (negb (manifest_matches m binding))
            (ProjectionRejected (role +:+ " Resource Binding Capability is unresolved"))) in
      lift_res (raise_if (has_violations m resource)
        (ProjectionRejected (role +:+ " Resource requires unavailable capabilities")))
  end.

Definition validate_bindings `{CoreRegistry W} (spec : ProjectionSpec) : M W unit :=
  do! runtime_catalog (spec_source_catalog spec) in
  do! runtime_catalog (spec_target_catalog spec) in
  let! snap := snapshot_for_handle in
  do! validate_binding snap "source" (spec_source_catalog spec) (spec_source spec) (spec_source_schema spec) in
  validate_binding snap "target" (spec_target_catalog spec) (spec_target spec) (spec_target_schema spec).

(** [ProjectionRunner.__init__]; [uuid] is the value of [uuid4()]. *)
Definition make_runner `{CoreRegistry W} (spec : ProjectionSpec) (batch_size : Z) (lease_seconds : float)
    (worker_id : option string) (uuid : string) : M W runner_config :=
  do! lift_res (raise_if (batch_size <? 1) (ValueError "batch_size must be positive")) in
  do! lift_res (raise_if (f64_le lease_seconds f64_zero) (ValueError "lease_seconds must be positive")) in
  let! lease := lift_res (timedelta_seconds lease_seconds) in
  let worker := match worker_id with
                | Some w => if nonempty w then w else "projection-" +:+ uuid
                | None => "projection-" +:+ uuid
                end in
  do! validate_bindings spec in
  ret (Config spec batch_size lease worker).

Section runner.
Context `{CoreApi} {W : Type} `{OutboxPort W} `{EvidenceSink W}.
Context (hooks : runner_hooks W) (config : runner_config).

Definition source (record : OutboxRecord) : M W json :=
  match payload (data record) with
  | Some p => ret p
  | None =>
      match immutable_reference (data record), source_loader hooks with
      | None, _ => raise AssertionError
      | Some _, None => raise (ProjectionRejected "referenced outbox data requires a source version loader")
      | Some reference, Some loader => loader reference (source_version (data record))
      end
  end.

Definition context (record : OutboxRecord) : ProjectionContext :=
  let d := data record in
  MkContext (spec_name (spec config)) (event_id d) (source_catalog d) (source_resource d)
    (source_schema d) (source_identity d) (source_version d) (mutation_kind d) (occurred_at d)
    (operation_context d).

Definition validate_record (record : OutboxRecord) : res unit :=
  let d := data record in
  do? raise_if (negb (String.eqb (source_catalog d) (spec_source_catalog (spec config))))
        (ProjectionRejected "outbox source Catalog does not match projection spec") in
  do? raise_if (negb (String.eqb (source_resource d) (spec_source (spec config))))
        (ProjectionRejected "outbox source Resource does not match projection spec") in
  do? raise_if (negb (String.eqb (source_schema d) (spec_source_schema (spec config))))
        (ProjectionRejected "outbox source Schema does not match projection spec") in
  raise_if (negb (forallb (λ l, bool_decide (l ∈ target_labels d)) (spec_target_labels (spec config))))
    (ProjectionRejected "outbox target labels do not match projection spec").

(** Whether the [resource] argument of an expression names the target. *)
Definition names_target (resource : option pyval) : bool :=
  match resource with
  | Some (PStr r) => String.eqb r (spec_target (spec config))
  | Some (PMapping items) =>
      let is_target v := match v with
                         | PStr c => String.eqb c (spec_target_catalog (spec config))
                         | _ => false
                         end in
      is_target (default (PStr (spec_target_catalog (spec config))) (mapping_get "catalog" items)) &&
      match mapping_get "namespace" items, mapping_get "name" items with
      | Some (PStr namespace), Some (PStr name) =>
          String.eqb (namespace +:+ "." +:+ name) (spec_target (spec config))
      | _, _ => false
      end
  | _ => false
  end.

Definition validate_expression (e : Expression) : res unit :=
  do? raise_if (negb (String.eqb (expression_catalog e) (spec_target_catalog (spec config))))
        (ProjectionRejected "projector returned an Expression for the wrong Catalog") in
  raise_if (negb (names_target (expression_argument e "resource")))
    (ProjectionRejected "projector returned an Expression for the wrong Resource").

(** The [try] block of the loop up to the acknowledgement of the target. *)
Definition deliver (record : OutboxRecord) : M W (option version * string) :=
  do! lift_res (validate_record record) in
  let! src := source record in
  let! expression := project hooks src (context record) in
  do! lift_res (validate_expression expression) in
  let! result := execute hooks expression in
  acknowledgement hooks result (data record).

Definition version_value (v : option version) : pyval :=
  match v with
  | None => PNone
  | Some (VInt z) => PInt z
  | Some (VStr s) => PStr s
  | Some (VBool b) => PBool b
  end.

Definition evidence_at (state : string) (details : list (pyval * pyval)) : M W unit :=
  let! now := clock hooks in
  record_evidence "projection" (spec_name (spec config)) state details now.

(** The counters of the loop. *)
Definition counters : Type := (Z * Z * Z)%type.
Definition add_completed : counters → counters := λ '(c, r, q), (c + 1, r, q).
Definition add_retryable : counters → counters := λ '(c, r, q), (c, r + 1, q).
Definition add_quarantined : counters → counters := λ '(c, r, q), (c, r, q + 1).

(** [except Exception as error]: the record is released. *)
Definition handle_failure (record : OutboxRecord) (error : exn) : M (counters * W) unit :=
  let id := event_id (data record) in
  let! now := lift_snd (clock hooks) in
  let! released := lift_snd (port_release id (worker_id config) error (is_retryable error) now) in
  do! set_locals (if bool_decide (state released = QUARANTINED) then add_quarantined
                  else add_retryable) in
  lift_snd (evidence_at (state_value (state released))
    [(PStr "eventId", PStr id);
     (PStr "failureCode", PStr (match failure released with
                                | Some f => failure_code f
                                | None => "unknown"
                                end))]).

(** The loop body of [run_once]. *)
Definition process (record : OutboxRecord) : M (counters * W) unit :=
  let id := event_id (data record) in
  try_except
    (let! '(version, fingerprint) := lift_snd (deliver record) in
     let! now := lift_snd (clock hooks) in
     do! lift_snd (port_complete id (worker_id config) version fingerprint now) in
     do! set_locals add_completed in
     lift_snd (evidence_at "COMPLETED"
       [(PStr "eventId", PStr id);
        (PStr "sourceVersion", version_value (source_version (data record)));
        (PStr "targetFingerprint", PStr fingerprint)]))
    is_exception (handle_failure record).

Definition run_once (now : option datetime) : M W ProjectionRun :=
  let! at_ := (match now with Some n => ret n | None => clock hooks end) in
  let! claim_time := lift_res (ensure_utc at_ "now") in
  let! records := port_atomic_claim (worker_id config) (batch_size config) (lease_duration config)
                    (at_utc claim_time) in
  let! '(_, (c, r, q)) := with_locals (0, 0, 0) (for_list records () (λ _ record, process record)) in
  ret (MkRun (Z.of_nat (length records)) c r q).

Fixpoint idle_loop (cycles : nat) (total : ProjectionRun) : M W ProjectionRun :=
  match cycles with
  | O => raise (RuntimeError "projection did not become idle within max_cycles")
  | S n =>
      let! current := run_once None in
      let total := run_add total current in
      if claimed current =? 0 then ret total else idle_loop n total
  end.

Definition run_until_idle (max_cycles : Z) : M W ProjectionRun :=
  do! lift_res (raise_if (max_cycles <? 1) (ValueError "max_cycles must be positive")) in
  idle_loop (Z.to_nat max_cycles) run_zero.

(** [while not stop.is_set()]: the host sets [stop] whenever it likes, so the
    loop is run for a number of iterations; [None]: it is still running. *)
Fixpoint stopped_loop (stop_is_set : M W bool) (stop_wait : M W unit) (fuel : nat)
    (total : ProjectionRun) : M W (option ProjectionRun) :=
  match fuel with
  | O => ret None
  | S n =>
      let! stopped := stop_is_set in
      if stopped then ret (Some total)
      else
        let! current := run_once None in
        let total := run_add total current in
        do! (if claimed current =? 0 then stop_wait else ret ()) in
        stopped_loop stop_is_set stop_wait n total
  end.

Definition run_until_stopped (stop_is_set : M W bool) (stop_wait : float → M W unit)
    (poll_interval_seconds : float) (fuel : nat) : M W (option ProjectionRun) :=
  do! lift_res (raise_if (f64_lt poll_interval_seconds f64_zero)
        (ValueError "poll_interval_seconds must be non-negative")) in
  stopped_loop stop_is_set (stop_wait poll_interval_seconds) fuel run_zero.

Definition runner_lag (now : option datetime) : M W ProjectionLag :=
  let! observed := port_lag now in
  lift_res (make_lag (MkLag (incomplete_count observed) (oldest_incomplete_at observed)
    (lag_seconds observed) (eventual_visibility_seconds (spec config)))).
End runner.
