(* ===== verification/RunnerOrder.v ===== *)
(** * The order of a runner's calls

    The runner's collaborators are wrapped so that every call is appended to a
    log with its outcome; the log is invisible to the runner.  For arbitrary
    collaborators, whatever they raise and whatever they do to the world, the
    calls of a run come in a permitted order. *)
From S2P Require Import Prelude PyTime Canonical Errors OutboxModel Runner.

Section order.
Context `{CoreApi} {W : Type} `{OutboxPort W} `{EvidenceSink W}.
Context (hooks : runner_hooks W) (config : runner_config).

Inductive call : Type :=
| Claimed (rs : res (list OutboxRecord))
| Projected (ctx : ProjectionContext) (e : res Expression)
| Executed (e : Expression) (result : res OperationResult)
| Acknowledged (result : OperationResult) (d : OutboxDataV1) (ack : res (option version * string))
| Completed (id : string) (v : option version) (fp : string) (c : res Checkpoint)
| Released (id : string) (error : exn) (r : res OutboxRecord).

Definition recorded_hooks : runner_hooks (list call * W) :=
  Hooks (λ src ctx, recorded (Projected ctx) (project hooks src ctx))
    (λ e, recorded (Executed e) (execute hooks e))
    ((λ loader reference v, lift_snd (loader reference v)) <$> source_loader hooks)
    (λ result d, recorded (Acknowledged result d) (acknowledgement hooks result d))
    (lift_snd (clock hooks)).

#[local] Instance recorded_port : OutboxPort (list call * W) := {|
  port_atomic_claim own limit dur now := recorded Claimed (port_atomic_claim own limit dur now);
  port_complete id own v fp now := recorded (Completed id v fp) (port_complete id own v fp now);
  port_release id own error retryable now :=
    recorded (Released id error) (port_release id own error retryable now);
  port_lag now := lift_snd (port_lag now);
|}.
#[local] Instance recorded_sink : EvidenceSink (list call * W) := λ e, lift_snd (evidence_record e).

(** What may follow a log [l]. *)
Definition permitted (l : list call) (c : call) : Prop :=
  match c with
  | Executed e _ => ∃ l0 ctx, l = l0 ++ [Projected ctx (Ok e)] ∧ validate_expression config e = Ok ()
  | Acknowledged result d _ =>
      ∃ l0 ctx e, l = l0 ++ [Projected ctx (Ok e); Executed e (Ok result)] ∧ ctx_event_id ctx = event_id d
  | Completed id v fp _ =>
      ∃ l0 ctx e result d,
        l = l0 ++ [Projected ctx (Ok e); Executed e (Ok result); Acknowledged result d (Ok (v, fp))] ∧
        event_id d = id
  | _ => True
  end.

Inductive ordered : list call → Prop :=
| ordered_nil : ordered []
| ordered_snoc l c : ordered l → permitted l c → ordered (l ++ [c]).

Definition in_order_after {A} (r : res A) (lw : list call * W) : Prop := ordered lw.1.

Lemma ordered_last l c : ordered l → (∀ l', permitted l' c) → ordered (l ++ [c]).
Proof. intros Hl Hc. by apply ordered_snoc. Qed.

Lemma deliver_ordered record l w :
  ordered l →
  wp (deliver recorded_hooks config record) (λ r lw, ordered lw.1 ∧
    ∀ v fp, r = Ok (v, fp) → ∃ l0 ctx e result,
      lw.1 = l0 ++ [Projected ctx (Ok e); Executed e (Ok result);
                    Acknowledged result (data record) (Ok (v, fp))]) (l, w).
Proof.
  intros Hl. unfold deliver.
  apply wp_bind, wp_lift_res. destruct (validate_record config record) as [[]|]; [|done].
  apply wp_bind. apply (wp_mono _ (λ r lw, ordered lw.1)).
  { unfold source. destruct (payload (data record)); [by apply wp_ret|].
    destruct (immutable_reference (data record)); [|by apply wp_raise]. cbn.
    destruct (source_loader hooks); cbn; [by apply wp_lift_snd|by apply wp_raise]. }
  intros [src|e] [l1 w1] Hl1; [|done]. cbn in Hl1.
  apply wp_bind, wp_recorded. intros [e|err] w2; [|split; [by apply ordered_last|done]].
  assert (ordered (l1 ++ [Projected (context config record) (Ok e)])) as Hl2 by by apply ordered_last.
  apply wp_bind, wp_lift_res. destruct (validate_expression config e) as [[]|] eqn:Hv; [|done].
  apply wp_bind, wp_recorded. intros result w3.
  assert (ordered ((l1 ++ [Projected (context config record) (Ok e)]) ++ [Executed e result])) as Hl3
    by (apply ordered_snoc; [done|by exists l1, (context config record)]).
  destruct result as [result|err]; [|done].
  apply wp_recorded. intros ack w4. cbn. split.
  - apply ordered_snoc; [done|]. exists l1, (context config record), e. by rewrite <-app_assoc.
  - intros v fp ->. exists l1, (context config record), e, result. by rewrite <-!app_assoc.
Qed.

Lemma evidence_ordered state details l w :
  ordered l → wp (evidence_at recorded_hooks config state details) in_order_after (l, w).
Proof.
  intros Hl. unfold evidence_at. apply wp_bind, wp_lift_snd. intros [now|] w1; [|done].
  unfold record_evidence. apply wp_bind, wp_lift_res.
  destruct (make_evidence _ _ _ _ _ _); [|done]. by apply wp_lift_snd.
Qed.

Lemma process_ordered record cs l w :
  ordered l →
  wp (process recorded_hooks config record) (λ r clw, ordered clw.2.1) (cs, (l, w)).
Proof.
  intros Hl. unfold process. apply wp_try_except.
  apply (wp_mono _ (λ r clw, ordered clw.2.1)).
  - apply wp_bind. apply wp_lift_snd_run. eapply wp_mono; [by apply deliver_ordered|].
    intros [[v fp]|e] [l1 w1] [Hl1 Hack]; [|done]. destruct (Hack v fp eq_refl) as (l0 & ctx & e & result & Heq).
    cbn in Heq, Hl1.
    apply wp_bind, wp_lift_snd_run, wp_lift_snd. intros [now|] w2; [|done].
    apply wp_bind, wp_lift_snd_run, wp_recorded. intros c w3.
    assert (ordered (l1 ++ [Completed (event_id (data record)) v fp c])) as Hl2.
    { apply ordered_snoc; [done|]. by exists l0, ctx, e, result, (data record). }
    destruct c; [|done]. apply wp_bind, wp_set_locals, wp_lift_snd_run. by apply evidence_ordered.
  - intros [[]|error] [cs1 [l1 w1]] Hl1; [done|]. cbn in Hl1. destruct (is_exception error); [|done]. unfold handle_failure.
    apply wp_bind, wp_lift_snd_run, wp_lift_snd. intros [now|] w2; [|done].
    apply wp_bind, wp_lift_snd_run, wp_recorded. intros r w3.
    assert (ordered (l1 ++ [Released (event_id (data record)) error r])) as Hl2 by by apply ordered_last.
    destruct r; [|done]. apply wp_bind, wp_set_locals, wp_lift_snd_run. by apply evidence_ordered.
Qed.

(** C14: whatever the injected runtime, port, projector, loader, clock and
    evidence sink do or raise, a run executes only a validated expression the
    projector just returned, asks for the acknowledgement of the result of
    that very execution, and completes an event only with the version and
    fingerprint just acknowledged for it. *)
Theorem run_once_ordered now w :
  ordered (run_once recorded_hooks config now ([], w)).2.1.
Proof.
  cut (wp (run_once recorded_hooks config now) in_order_after ([], w)).
  { intros Hwp. apply wp_run in Hwp as (r & [l w'] & -> & Hl). exact Hl. }
  unfold run_once. apply wp_bind. apply (wp_mono _ (λ r lw, ordered lw.1)).
  { destruct now; [apply wp_ret, ordered_nil|]. apply wp_lift_snd. intros. apply ordered_nil. }
  intros [now'|] [l1 w1] Hl1; [|done]. cbn in Hl1.
  apply wp_bind, wp_lift_res. destruct (ensure_utc now' "now") as [t|]; [|done].
  apply wp_bind, wp_recorded. intros rs w2.
  assert (ordered (l1 ++ [Claimed rs])) as Hl2 by by apply ordered_last. destruct rs as [records|]; [|done].
  apply wp_bind, wp_with_locals. apply (wp_for_list (λ _ _ clw, ordered clw.2.1)).
  - exact Hl2.
  - intros [] [[[c r] q] [l w3]] Hl. by apply wp_ret.
  - intros record records' [] [cs [l w3]] Hl. eapply wp_mono; [by apply process_ordered|].
    by intros [[]|] [cs' [l' w']] Hl'.
Qed.
End order.
