(* ===== verification/RunnerStore.v ===== *)
(** * The runner over the reference store

    The runner composed with [InMemoryOutboxStore]: the world is a store beside
    the state [X] of the other collaborators.  For collaborators that answer
    (the clock shows the time, every call takes at most a given time, evidence
    is accepted, failures are ordinary exceptions) and a lease that is longer
    than a batch can take, a run settles every record it claims, and
    [run_until_idle] terminates. *)
From S2P Require Import Prelude PyTime Sha256 Canonical Errors OutboxModel Redaction OutboxStore OutboxClaim OutboxLifecycle Runner.

(** ** The composition *)
Definition store_port `{Core} {X} (utc_now : M X datetime) : OutboxPort (store * X) := {|
  port_atomic_claim own limit dur now := lift_fst (atomic_claim own limit dur now);
  port_complete id own v fp now := lift_fst (complete id own v fp now);
  port_release id own error retryable now := lift_fst (release id own error retryable now);
  port_lag now := let! n := (match now with Some n => ret n | None => lift_snd utc_now end) in
                  lift_fst (lag n);
|}.
Definition sink_beside {S X} (sink : EvidenceSink X) : EvidenceSink (S * X) := λ e, lift_snd (sink e).
Definition hooks_beside `{CoreApi} {S X} (hooks : runner_hooks X) : runner_hooks (S * X) :=
  Hooks (λ src ctx, lift_snd (project hooks src ctx)) (λ e, lift_snd (execute hooks e))
    ((λ loader reference v, lift_snd (loader reference v)) <$> source_loader hooks)
    (λ result d, lift_snd (acknowledgement hooks result d)) (lift_snd (clock hooks)).

(** ** Collaborators that answer

    [time] is the instant the clock would show in a state; every call takes at
    most [pace]. *)
Section answers.
Context `{CoreApi} {X : Type} (hooks : runner_hooks X) (sink : EvidenceSink X).
Context (time : X → instant) (pace : Z).

(** At most [n] calls lie between two states. *)
Definition passes (n : Z) (x x' : X) : Prop := time x ≤ time x' ≤ time x + n * pace.

(** A call that takes its time and raises exceptions that can be reported. *)
Definition ordinary {A} (m : M X A) : Prop := ∀ x, passes 1 x (m x).2 ∧ raises_only reportable (m x).1.

Record answers : Prop := {
  answers_pace : 0 ≤ pace;
  answers_clock : ∀ x, ∃ x', clock hooks x = (Ok (at_utc (time x)), x') ∧ passes 1 x x';
  answers_sink : ∀ e x, ∃ x', sink e x = (Ok (), x') ∧ passes 1 x x';
  answers_project : ∀ src ctx, ordinary (project hooks src ctx);
  answers_execute : ∀ expr, ordinary (execute hooks expr);
  answers_loader : ∀ loader reference v, source_loader hooks = Some loader → ordinary (loader reference v);
  answers_acknowledgement : ∀ result d, ordinary (acknowledgement hooks result d);
}.

(** The worker claims under a lease that outlasts a whole batch: at most eight
    calls for every record and one before; and the calendar does not end. *)
Record in_time (config : runner_config) : Prop := {
  it_name : spec_name (spec config) ≠ ""%string;
  it_owner : worker_id config ≠ ""%string;
  it_limit : 1 ≤ batch_size config;
  it_lease : (1 + 8 * batch_size config) * pace < lease_duration config;
  it_calendar : ∀ x, in_range (time x) = true ∧ in_range (time x + lease_duration config) = true;
}.

Lemma passes_refl x : answers → passes 0 x x.
Proof. unfold passes. lia. Qed.
Lemma passes_trans m n x1 x2 x3 : passes m x1 x2 → passes n x2 x3 → passes (m + n) x1 x3.
Proof. unfold passes. lia. Qed.
Lemma passes_more m n x x' : answers → m ≤ n → passes m x x' → passes n x x'.
Proof. intros [Hp]. unfold passes. nia. Qed.

Lemma in_time_claim config x :
  answers → in_time config →
  claim_args (worker_id config) (batch_size config) (lease_duration config) (at_utc (time x)) (time x).
Proof.
  intros [Hp] [_ Ho Hl Hd Hc]. destruct (Hc x). split; try done; [nia|by apply ensure_utc_at_utc].
Qed.

(** The delivery of an event can fail, or be acknowledged with another version
    or something that is no digest. *)
Definition undelivered (config : runner_config) (d : OutboxDataV1) : Prop :=
  ∃ x, match (deliver hooks config (new_record d) x).1 with
       | Ok (v, fp) => v ≠ source_version d ∨ is_sha256 fp = false
       | Raise _ => True
       end.

Lemma deliver_data config r r' x : data r = data r' → deliver hooks config r x = deliver hooks config r' x.
Proof. intros E. unfold deliver, source, validate_record, context. by rewrite E. Qed.

Lemma undelivered_intro config r x :
  match (deliver hooks config r x).1 with
  | Ok (v, fp) => v ≠ source_version (data r) ∨ is_sha256 fp = false
  | Raise _ => True
  end → undelivered config (data r).
Proof. intros Hr. exists x. by rewrite (deliver_data _ _ r). Qed.
End answers.

Lemma projection_rejected_reportable m : reportable (ProjectionRejected m).
Proof. split_and!; done. Qed.

Lemma checkpoint_conflict_reportable m : reportable (CheckpointConflict m).
Proof. split_and!; done. Qed.

Lemma value_error_reportable m : reportable (ValueError m).
Proof. split_and!; done. Qed.

(** A computation beside the store is a composition of such computations. *)
Lemma beside_bind {S X A B} (m' : M (S * X) A) (m : M X A) (k' : A → M (S * X) B) (k : A → M X B) :
  (∀ s x, m' (s, x) = lift_snd m (s, x)) → (∀ a s x, k' a (s, x) = lift_snd (k a) (s, x)) →
  ∀ s x, bind m' k' (s, x) = lift_snd (bind m k) (s, x).
Proof.
  intros Hm Hk s x. unfold bind. rewrite Hm. unfold lift_snd at 1 2.
  destruct (m x) as [[a|e] x']; [apply Hk|done].
Qed.

(** The outcome of a claimed record: [old] is the record before the claim. *)
Inductive outcome (failing : OutboxDataV1 → Prop) (s : store) (own : string) (dur : timedelta) (t : instant)
    (old : OutboxRecord) : OutboxRecord → Prop :=
| outcome_completed fp now :
    is_sha256 fp = true → t ≤ now < t + dur → outcome failing s own dur t old (completed fp now (leased own dur t old))
| outcome_released f retryable :
    failing (data old) → outcome failing s own dur t old (released s f retryable (leased own dur t old)).

Lemma outcome_threshold failing s1 s2 own dur t old r :
  poison_threshold s1 = poison_threshold s2 → outcome failing s1 own dur t old r → outcome failing s2 own dur t old r.
Proof.
  intros Ht [fp now Hfp Hnow|f retryable Hf]; [by constructor|].
  assert (released s1 f retryable (leased own dur t old) = released s2 f retryable (leased own dur t old)) as ->
    by (unfold released; by rewrite Ht). by constructor.
Qed.

Definition counters_total (cs : Z * Z * Z) : Z := let '(c, r, q) := cs in c + r + q.

(** ** Attempts left: the measure of [run_until_idle] *)
Definition attempts_left (threshold : Z) (r : OutboxRecord) : Z :=
  match state r with
  | COMPLETED | QUARANTINED => 0
  | PENDING | LEASED | RETRYABLE => Z.max 1 (threshold - attempt_count r)
  end.

Definition potential (threshold : Z) (rs : gmap string OutboxRecord) : Z :=
  map_fold (λ _ r n, attempts_left threshold r + n) 0 rs.

Lemma potential_insert threshold k r (m : gmap string OutboxRecord) :
  m !! k = None → potential threshold (<[k := r]> m) = attempts_left threshold r + potential threshold m.
Proof. intros Hk. unfold potential. rewrite map_fold_insert_L; [done|intros; lia|done]. Qed.

Lemma potential_delete threshold k r (m : gmap string OutboxRecord) :
  m !! k = Some r → potential threshold m = attempts_left threshold r + potential threshold (delete k m).
Proof. intros Hk. unfold potential. rewrite (map_fold_delete_L _ _ k r); [done|intros; lia|done]. Qed.

Lemma attempts_left_nonneg threshold r : 0 ≤ attempts_left threshold r.
Proof. unfold attempts_left. destruct (state r); lia. Qed.

Lemma potential_nonneg threshold (m : gmap string OutboxRecord) : 0 ≤ potential threshold m.
Proof.
  induction m as [|k r m Hk IH] using map_ind; [done|].
  rewrite potential_insert by done. pose proof (attempts_left_nonneg threshold r). lia.
Qed.

(** The same keys, with at most as many attempts left under each. *)
Definition no_more (threshold : Z) (m m' : gmap string OutboxRecord) : Prop :=
  ∀ k, (m !! k = None ∧ m' !! k = None) ∨
       (∃ r r', m !! k = Some r ∧ m' !! k = Some r' ∧ attempts_left threshold r' ≤ attempts_left threshold r).

Lemma no_more_delete threshold k m m' : no_more threshold m m' → no_more threshold (delete k m) (delete k m').
Proof.
  intros H k'. destruct (decide (k = k')) as [<-|Hne].
  - left. by rewrite !lookup_delete_eq.
  - rewrite !lookup_delete_ne by done. apply H.
Qed.

Lemma potential_le threshold m m' : no_more threshold m m' → potential threshold m' ≤ potential threshold m.
Proof.
  revert m'. induction m as [|k r m Hk IH] using map_ind; intros m' H.
  - assert (m' = ∅) as ->; [|done]. apply map_empty. intros k.
    destruct (H k) as [[_ ?]|(r & _ & ? & _)]; [done|]. by rewrite lookup_empty in *.
  - destruct (H k) as [[He _]|(r0 & r' & Hr0 & Hr' & Hle)]; [by rewrite lookup_insert_eq in He|].
    rewrite lookup_insert_eq in Hr0. injection Hr0 as <-.
    rewrite potential_insert, (potential_delete _ k r' m') by done.
    apply (no_more_delete _ k) in H. rewrite delete_insert_id in H by done. specialize (IH _ H). lia.
Qed.

Lemma potential_lt threshold m m' k r r' :
  no_more threshold m m' → m !! k = Some r → m' !! k = Some r' →
  attempts_left threshold r' < attempts_left threshold r → potential threshold m' < potential threshold m.
Proof.
  intros H Hr Hr' Hlt. rewrite (potential_delete _ k r m), (potential_delete _ k r' m') by done.
  pose proof (potential_le _ _ _ (no_more_delete _ k _ _ H)). lia.
Qed.

Section composed.
Context `{CoreApi} {X : Type} (hooks : runner_hooks X) (sink : EvidenceSink X) (utc_now : M X datetime).
Context (config : runner_config) (time : X → instant) (pace : Z).
Context (Hanswers : answers hooks sink time pace) (Htime : in_time time pace config).
Abbreviation passes' := (passes time pace).
Abbreviation own := (worker_id config).
Abbreviation dur := (lease_duration config).

#[local] Instance port : OutboxPort (store * X) := store_port utc_now.
#[local] Instance beside : EvidenceSink (store * X) := sink_beside sink.
Abbreviation hooks' := (hooks_beside (S := store) hooks).
Abbreviation outcome' := (outcome (undelivered hooks config)).

(** The clock and the sink are the only collaborators called on the way. *)
Definition observes : relation X := rtc (λ a b, b = (clock hooks a).2 ∨ ∃ e, b = (sink e a).2).

(** What becomes of the record [old], claimed at [t], when its delivery starts in
    the state [x]: it is completed when that delivery is acknowledged with its
    own version and a digest, and released otherwise. *)
Definition verdict (s : store) (t : instant) (x : X) (old r' : OutboxRecord) : Prop :=
  let r := leased own dur t old in
  match (deliver hooks config r x).1 with
  | Ok (v, fp) =>
      if decide (v = source_version (data old) ∧ is_sha256 fp = true)
      then ∃ now, t ≤ now < t + dur ∧ r' = completed fp now r
      else ∃ f retryable, r' = released s f retryable r
  | Raise e => ∃ f, r' = released s f (is_retryable e) r
  end.

(** The records [l] are delivered one after the other, from the state [x] to the
    state [x']: each delivery starts where the one before it ended but for calls
    of the clock and the sink, and decides what [s'] holds of its record. *)
Inductive in_turn (s s' : store) (t : instant) : list (string * OutboxRecord) → X → X → Prop :=
| in_turn_nil x : in_turn s s' t [] x x
| in_turn_cons id old r' l x y x' :
    verdict s t x old r' → records s' !! id = Some r' →
    observes (deliver hooks config (leased own dur t old) x).2 y → in_turn s s' t l y x' →
    in_turn s s' t ((id, old) :: l) x x'.

Lemma verdict_outcome s t x old r' : verdict s t x old r' → outcome' s own dur t old r'.
Proof.
  unfold verdict. cbv zeta. assert (data (leased own dur t old) = data old) as Hdata by done.
  pose proof (undelivered_intro hooks config (leased own dur t old) x) as Hfail. rewrite Hdata in Hfail.
  destruct (deliver hooks config (leased own dur t old) x).1 as [[v fp]|e].
  - destruct (decide _) as [[_ Hfp]|Hbad].
    + intros (now & Hnow & ->). by constructor.
    + intros (f & retryable & ->). constructor. apply Hfail.
      destruct (decide (v = source_version (data old))) as [Hv|Hv]; [right|by left].
      destruct (is_sha256 fp); [by destruct Hbad|done].
  - intros (f & ->). constructor. by apply Hfail.
Qed.

Lemma verdict_threshold s1 s2 t x old r' :
  poison_threshold s1 = poison_threshold s2 → verdict s1 t x old r' → verdict s2 t x old r'.
Proof. intros Ht. unfold verdict, released. by rewrite Ht. Qed.

Lemma in_turn_threshold s1 s2 s' t l x x' :
  poison_threshold s1 = poison_threshold s2 → in_turn s1 s' t l x x' → in_turn s2 s' t l x x'.
Proof. intros Ht. induction 1; econstructor; try done. by eapply verdict_threshold. Qed.

Lemma deliver_beside record s x :
  deliver hooks' config record (s, x) = lift_snd (deliver hooks config record) (s, x).
Proof.
  apply beside_bind; [done|intros _]. apply beside_bind.
  { unfold source. cbn. destruct (payload (data record)); [done|].
    by destruct (immutable_reference (data record)), (source_loader hooks). }
  intros src. apply beside_bind; [done|intros expr]. apply beside_bind; [done|intros _].
  by apply beside_bind.
Qed.

Lemma validate_record_reportable record e : validate_record config record = Raise e → reportable e.
Proof.
  unfold validate_record, raise_if.
  repeat case_match; simpl; intros [= <-]; apply projection_rejected_reportable.
Qed.

Lemma validate_expression_reportable expr e :
  validate_expression config expr = Raise e → reportable e.
Proof.
  unfold validate_expression, raise_if.
  repeat case_match; simpl; intros [= <-]; apply projection_rejected_reportable.
Qed.

Lemma ordinary_bind {A B} n (m : M X A) (k : A → M X B) x :
  ordinary time pace m →
  (∀ a x', passes' 1 x x' → passes' n x' (k a x').2 ∧ raises_only reportable (k a x').1) → 0 ≤ n →
  passes' (1 + n) x (bind m k x).2 ∧ raises_only reportable (bind m k x).1.
Proof.
  intros Hm Hk Hn. destruct (Hm x) as [Hp Hr]. unfold bind. destruct (m x) as [[a|e] x']; cbn in *.
  - destruct (Hk a x' Hp). split; [by eapply passes_trans|done].
  - split; [|by intros e' [= <-]; apply Hr]. eapply passes_more; [done| |done]. lia.
Qed.

Lemma ordinary_check {A} n (r : res A) {B} (k : A → M X B) x :
  raises_only reportable r → 0 ≤ n →
  (∀ a, passes' n x (k a x).2 ∧ raises_only reportable (k a x).1) →
  passes' n x (bind (lift_res r) k x).2 ∧ raises_only reportable (bind (lift_res r) k x).1.
Proof.
  intros Hr Hn Hk. unfold bind, lift_res. destruct r as [a|e]; [apply Hk|]. cbn.
  split; [|intros e' [= <-]; by apply Hr]. eapply passes_more; [done| |by eapply passes_refl]. done.
Qed.

Lemma source_ordinary record : ordinary time pace (source hooks record).
Proof.
  intros x. assert (passes' 1 x x) as Hx by (eapply passes_more; [done| |by eapply passes_refl]; lia).
  unfold source. destruct (payload (data record)); [by split|].
  destruct (immutable_reference (data record)), (source_loader hooks) eqn:Hl;
    [by apply (answers_loader _ _ _ _ Hanswers)|split; [done|]; intros e [= <-]..].
  - apply projection_rejected_reportable.
  - by split_and!.
  - by split_and!.
Qed.

(** A delivery makes at most four calls. *)
Lemma deliver_ordinary record x :
  passes' 4 x (deliver hooks config record x).2 ∧ raises_only reportable (deliver hooks config record x).1.
Proof.
  unfold deliver. apply ordinary_check; [intros e; apply validate_record_reportable|done|intros _].
  apply (ordinary_bind 3); [apply source_ordinary| |done]. intros src x1 _.
  apply (ordinary_bind 2); [apply (answers_project _ _ _ _ Hanswers)| |done]. intros expr x2 _.
  apply ordinary_check; [intros e; apply validate_expression_reportable|done|intros _].
  apply (ordinary_bind 1); [apply (answers_execute _ _ _ _ Hanswers)| |done]. intros result x3 _.
  apply (answers_acknowledgement _ _ _ _ Hanswers).
Qed.

(** ** Settling one record *)
Lemma observes_clock x r x' : clock hooks x = (r, x') → observes x x'.
Proof. intros E. apply rtc_once. left. by rewrite E. Qed.
Lemma observes_sink e x r x' : sink e x = (r, x') → observes x x'.
Proof. intros E. apply rtc_once. right. exists e. by rewrite E. Qed.

Lemma clock_beside s x :
  ∃ x', clock hooks' (s, x) = (Ok (at_utc (time x)), (s, x')) ∧ passes' 1 x x' ∧ observes x x'.
Proof.
  destruct (answers_clock _ _ _ _ Hanswers x) as (x' & Hx & Hp). exists x'. cbn. rewrite Hx.
  split_and!; [done|done|by eapply observes_clock].
Qed.

Lemma evidence_at_beside st details d s x :
  st ≠ ""%string → immutable_mapping details = Ok d →
  ∃ x', evidence_at hooks' config st details (s, x) = (Ok (), (s, x')) ∧ passes' 2 x x' ∧ observes x x'.
Proof.
  intros Hst Hd. unfold evidence_at, bind. destruct (clock_beside s x) as (x1 & -> & Hp1 & Ho1).
  unfold record_evidence, make_evidence, bind, lift_res.
  rewrite (proj2 (nonempty_spec _) (it_name _ _ _ Htime)), (proj2 (nonempty_spec _) Hst), Hd.
  rewrite ensure_utc_at_utc by apply (it_calendar _ _ _ Htime). cbn.
  unfold evidence_record, beside, sink_beside, lift_snd.
  match goal with |- context [sink ?e x1] =>
    destruct (answers_sink _ _ _ _ Hanswers e x1) as (x2 & E & Hp2); rewrite E; apply observes_sink in E end.
  exists x2. split; [done|]. split; [exact (passes_trans _ _ 1 1 _ _ _ Hp1 Hp2)|by etrans].
Qed.

Lemma complete_held s id now r v fp :
  store_ok s → held s id own now r → in_range now = true →
  complete id own v fp (at_utc now) s = (Ok (next_checkpoint s id fp now r), completed_store s id fp now r) ∧
    is_sha256 fp = true ∧ v = source_version (data r) ∨
  ∃ e, complete id own v fp (at_utc now) s = (Raise e, s) ∧ reportable e ∧
    ¬ (v = source_version (data r) ∧ is_sha256 fp = true).
Proof.
  intros Hs Hheld Hnow. destruct (is_sha256 fp) eqn:Hfp.
  2:{ right. eexists. unfold complete, bind, lift_res, require_sha256. rewrite Hfp.
      split; [done|]. split; [apply value_error_reportable|by intros [_ [=]]]. }
  destruct (version_mismatch v (source_version (data r))) eqn:Hv.
  - right. eexists. unfold complete, bind, lift_res, require_sha256, get.
    rewrite Hfp, ensure_utc_at_utc by done. rewrite (proj2 (leased_record_ok _ _ _ _ _) Hheld), Hv.
    split; [done|]. split; [apply checkpoint_conflict_reportable|].
    intros [E _]. apply version_mismatch_false in E. by rewrite E in Hv.
  - apply version_mismatch_false in Hv. left. split; [|done]. apply complete_run; [done|]. split; [done| |done|done].
    by apply ensure_utc_at_utc.
Qed.

Lemma release_held s id now r error retryable :
  store_ok s → held s id own now r → in_range now = true → reportable error →
  ∃ f, release id own error retryable (at_utc now) s =
    (Ok (released s f retryable r), with_records s (<[id := released s f retryable r]> (records s))).
Proof.
  intros Hs Hheld Hnow He. destruct (redacted_failure_total error now Hnow He) as [f Hf]. exists f.
  apply (release_run _ _ _ _ _ _ now); [done|]. split; [by apply ensure_utc_at_utc|done..].
Qed.

(** [t] is the instant of the claim: a lease holds until [t + dur]. *)
Definition settles (t : instant) (x : X) (s s' : store) (id : string) (old : OutboxRecord) : Prop :=
  store_ok s' ∧ poison_threshold s' = poison_threshold s ∧
  ∃ r', records s' = <[id := r']> (records s) ∧ verdict s t x old r'.

Lemma leased_held s id t now old :
  t ≤ now < t + dur → records s !! id = Some (leased own dur t old) → held s id own now (leased own dur t old).
Proof. intros Hnow Hr. split; [done..|]. eexists. split; [done|]. cbn. split; [done|lia]. Qed.

(** The lease outlasts the eight calls from [x] on, of which at most five were
    made before the failure is handled. *)
Lemma handler_settles t (old : OutboxRecord) error cs s x0 n x :
  let r := leased own dur t old in let id := event_id (data r) in
  store_ok s → records s !! id = Some r → t ≤ time x0 → time x0 + 8 * pace < t + dur → passes' n x0 x → 0 ≤ n ≤ 5 →
  reportable error → (∀ f, verdict s t x0 old (released s f (is_retryable error) r)) →
  ∃ s' x' cs',
    handle_failure hooks' config r error (cs, (s, x)) = (Ok (), (cs', (s', x'))) ∧
    settles t x0 s s' id old ∧ counters_total cs' = counters_total cs + 1 ∧ passes' 8 x0 x' ∧ observes x x'.
Proof.
  intros r id Hs Hr Ht Hlease Hp0 Hn He Hfail. pose proof (answers_pace _ _ _ _ Hanswers) as Hpace.
  assert (t ≤ time x < t + dur) as Hnow by (unfold passes in Hp0; nia).
  unfold handle_failure. cbv zeta. fold id. unfold bind, lift_snd at 1.
  destruct (clock_beside s x) as (x1 & -> & Hp1 & Ho1). unfold lift_snd at 1. cbn [port_release port store_port].
  pose proof (leased_held s id t (time x) old Hnow Hr) as Hheld.
  unfold lift_fst. destruct (release_held s id (time x) r error (is_retryable error) Hs Hheld) as [f ->];
    [apply (it_calendar _ _ _ Htime)|done|].
  cbn [set_locals]. unfold lift_snd.
  match goal with |- context [evidence_at hooks' config ?st ?details (?s1, x1)] =>
    destruct (evidence_at_beside st details _ s1 x1 ltac:(by unfold released; cbn; destruct (_ || _)) eq_refl)
      as (x2 & -> & Hp2 & Ho2)
  end.
  eexists _, x2, _. split; [reflexivity|]. split; [|split; [|split; [|by etrans]]].
  - split; [|split; [done|]].
    + apply insert_record_ok; [done|exact (store_ok_id _ _ _ Hs Hr)|].
      apply released_ok; [by eapply store_ok_record|by eapply held_state].
    + eexists. split; [done|]. apply Hfail.
  - destruct cs as [[c r0] q]. cbn. case_bool_decide; cbn; lia.
  - unfold passes in *. nia.
Qed.

(** A record takes at most eight calls. *)
Lemma process_settles t (old : OutboxRecord) cs s x :
  let r := leased own dur t old in
  store_ok s → records s !! event_id (data r) = Some r → t ≤ time x → time x + 8 * pace < t + dur →
  ∃ s' x' cs', process hooks' config r (cs, (s, x)) = (Ok (), (cs', (s', x'))) ∧
    settles t x s s' (event_id (data r)) old ∧ counters_total cs' = counters_total cs + 1 ∧ passes' 8 x x' ∧
    observes (deliver hooks config r x).2 x'.
Proof.
  intros r Hs Hr Hx Hlease. pose proof (answers_pace _ _ _ _ Hanswers) as Hpace. unfold process, try_except.
  pose proof (handler_settles t old) as Hhandler. cbv zeta in Hhandler. fold r in Hhandler.
  destruct (deliver_ordinary r x) as [Hp1 Hraises]. unfold bind at 1. unfold lift_snd at 1. rewrite deliver_beside. unfold lift_snd at 1.
  destruct (deliver hooks config r x) as [[[v fp]|e] x1] eqn:Hd; cbn [fst snd] in Hp1, Hraises.
  2:{ pose proof (Hraises _ eq_refl) as He. rewrite (proj1 He). apply (Hhandler _ _ _ x 4); try done.
      intros f. unfold verdict. fold r. rewrite Hd. by exists f. }
  unfold bind at 1. unfold lift_snd at 1. destruct (clock_beside s x1) as (x2 & -> & Hp2 & Ho2).
  pose proof (passes_trans _ _ 4 1 _ _ _ Hp1 Hp2) as Hp.
  assert (t ≤ time x1 < t + dur) as Hnow by (unfold passes in *; nia).
  pose proof (leased_held s _ t (time x1) old Hnow Hr) as Hheld. fold r in Hheld.
  unfold bind at 1. unfold lift_snd at 1. cbn [port_complete port store_port]. unfold lift_fst at 1.
  destruct (complete_held s _ (time x1) r v fp Hs Hheld) as [(-> & Hfp & Hv)|(e & -> & He & Hbad)];
    [apply (it_calendar _ _ _ Htime)| |].
  2:{ rewrite (proj1 He).
      destruct (Hhandler e cs s x 5 x2) as (s' & x' & cs' & Hrun & Hset & Hc & Hp8 & Ho'); try done.
      - intros f. unfold verdict. fold r. rewrite Hd. cbn [fst]. rewrite decide_False by done. by exists f, (is_retryable e).
      - exists s', x', cs'. split_and!; try done. by etrans. }
  unfold bind at 1. cbn [set_locals]. unfold lift_snd at 1.
  match goal with |- context [evidence_at hooks' config ?st ?details (?s1, x2)] =>
    assert (∃ d, immutable_mapping details = Ok d) as [d Hdetails]
      by (destruct (source_version (data r)) as [[]|]; by eexists);
    destruct (evidence_at_beside st details d s1 x2 ltac:(done) Hdetails) as (x3 & -> & Hp3 & Ho3)
  end.
  exists (completed_store s (event_id (data r)) fp (time x1) r), x3, (add_completed cs).
  split; [done|]. split; [|split; [|split; [|by etrans]]].
  - split; [|split; [done|]].
    + eapply (change_ok _ (Complete (event_id (data r)) own (source_version (data r)) fp (at_utc (time x1)))); [done|].
      apply change_complete. split; [done|by apply ensure_utc_at_utc, (it_calendar _ _ _ Htime)|done|done].
    + eexists. split; [done|]. unfold verdict. fold r. rewrite Hd. cbn [fst]. rewrite decide_True by done. by exists (time x1).
  - destruct cs as [[c r0] q]. cbn. lia.
  - unfold passes in *. nia.
Qed.

(** ** Settling a batch *)
Lemma batch_settles t l cs s x :
  store_ok s → NoDup (map fst l) → t ≤ time x → time x + 8 * Z.of_nat (length l) * pace < t + dur →
  Forall (λ e, records s !! e.1 = Some (leased own dur t e.2)) l →
  ∃ s' x' cs', for_list (map (λ e : string * OutboxRecord, leased own dur t e.2) l) ()
      (λ _ r, process hooks' config r) (cs, (s, x)) = (Ok (), (cs', (s', x'))) ∧
    store_ok s' ∧ poison_threshold s' = poison_threshold s ∧ passes' (8 * Z.of_nat (length l)) x x' ∧
    counters_total cs' = counters_total cs + Z.of_nat (length l) ∧
    (∀ key, key ∉ map fst l → records s' !! key = records s !! key) ∧
    (∀ e, e ∈ l → ∃ r', records s' !! e.1 = Some r' ∧ outcome' s own dur t e.2 r') ∧
    in_turn s s' t l x x'.
Proof.
  pose proof (answers_pace _ _ _ _ Hanswers) as Hpace.
  revert cs s x. induction l as [|[id old] l IH]; intros cs s x Hs Hnd Hx Hlease Hl; cbn [map for_list fst snd].
  { exists s, x, cs. split_and!; try done; [by eapply passes_refl|cbn; lia| |constructor].
    by intros e ?%not_elem_of_nil. }
  cbn [map] in Hnd. apply NoDup_cons in Hnd as [Hid Hnd]. apply Forall_cons in Hl as [Hr Hl]. cbn in Hr.
  pose proof (store_ok_id _ _ _ Hs Hr) as Heq. rewrite leased_data in Heq. cbn [length] in Hlease. rewrite Nat2Z.inj_succ in Hlease.
  destruct (process_settles t old cs s x Hs) as (s1 & x1 & cs1 & Hrun & (Hs1 & Ht1 & r' & Hrec1 & Hver) & Hc1 & Hp1 & Ho1);
    [by rewrite leased_data, Heq|done|nia|].
  pose proof (verdict_outcome _ _ _ _ _ Hver) as Hout. rewrite leased_data, Heq in Hrec1. unfold bind. rewrite Hrun.
  destruct (IH cs1 s1 x1 Hs1 Hnd) as (s2 & x2 & cs2 & Hrun2 & Hs2 & Ht2 & Hx2 & Hc2 & Hframe & Hin & Hturn);
    [unfold passes in Hp1; lia|unfold passes in Hp1; nia| |].
  { rewrite Forall_forall in *. intros e He. rewrite Hrec1, lookup_insert_ne; [by apply Hl|].
    intros ->. apply Hid. by apply (list_elem_of_fmap_2 fst l e). }
  exists s2, x2, cs2. split_and!; [done|done|by rewrite Ht2|cbn [length]; unfold passes in *; nia| | | |].
  - rewrite Hc2, Hc1. cbn [length]. lia.
  - intros key Hkey. apply not_elem_of_cons in Hkey as [Hne Hkey]. rewrite Hframe by done.
    by rewrite Hrec1, lookup_insert_ne.
  - intros e [->|He]%elem_of_cons.
    + exists r'. split; [|done]. cbn. rewrite Hframe by done. by rewrite Hrec1, lookup_insert_eq.
    + destruct (Hin e He) as (r2 & Hr2 & Hout2). exists r2. split; [done|].
      by apply (outcome_threshold _ s1).
  - eapply in_turn_cons; [exact Hver| |exact Ho1|by eapply in_turn_threshold].
    rewrite Hframe by done. by rewrite Hrec1, lookup_insert_eq.
Qed.

Abbreviation targets t s := (claim_targets (batch_size config) t s).

(** What a run that claims at [t] does to the store. *)
Definition settled_run (t : instant) (s s' : store) (run : ProjectionRun) : Prop :=
  store_ok s' ∧ poison_threshold s' = poison_threshold s ∧
  claimed run = Z.of_nat (length (targets t s)) ∧
  completed_n run + retryable_n run + quarantined_n run = claimed run ∧
  (∀ key r, records s !! key = Some r → (key, r) ∈ targets t s →
     ∃ r', records s' !! key = Some r' ∧ outcome' s own dur t r r') ∧
  (∀ key, (∀ r, records s !! key = Some r → (key, r) ∉ targets t s) →
     records s' !! key = records s !! key).

Lemma run_once_settled s x :
  store_ok s →
  ∃ run s' x', run_once hooks' config None (s, x) = (Ok run, (s', x')) ∧ settled_run (time x) s s' run ∧
    passes' (1 + 8 * claimed run) x x' ∧
    ∃ x1, observes x x1 ∧ in_turn s s' (time x) (targets (time x) s) x1 x'.
Proof.
  intros Hs. pose proof (answers_pace _ _ _ _ Hanswers) as Hpace. set (t := time x).
  pose proof (in_time_claim _ _ _ _ _ x Hanswers Htime) as Hclaim. fold t in Hclaim.
  unfold run_once, bind at 1. destruct (clock_beside s x) as (x1 & -> & Hp1 & Ho1). fold t.
  unfold bind, lift_res. rewrite (ca_now _ _ _ _ _ Hclaim). cbn [port_atomic_claim port store_port].
  unfold lift_fst. rewrite (atomic_claim_eq _ _ _ _ t) by done. unfold with_locals.
  pose proof (claim_targets_keys (batch_size config) t s) as Hnd.
  assert (Z.of_nat (length (targets t s)) ≤ batch_size config) as Hlen.
  { unfold claim_targets. rewrite length_take. pose proof (it_limit _ _ _ Htime). lia. }
  destruct (batch_settles t (targets t s) (0, 0, 0) (claim_step own (batch_size config) dur t s) x1)
    as (s' & x' & [[c r] q] & Hrun & Hs' & Hthr & Hx' & Hc & Hframe & Hin & Hturn);
    [apply claim_step_ok; [apply Hclaim..|done]|done|unfold passes, t in *; lia| | |].
  { pose proof (it_lease _ _ _ Htime). unfold passes in Hp1. fold t in Hp1. nia. }
  { rewrite Forall_forall. intros [key old] He. cbn [fst snd]. rewrite claim_step_lookup.
    rewrite (claim_targets_lookup _ _ _ _ _ He). by rewrite bool_decide_true. }
  unfold counters in *. rewrite Hrun. eexists _, s', x'. split; [reflexivity|]. rewrite length_map.
  split; [|split; [cbn [claimed]; eapply passes_trans; [exact Hp1|done]|]];
    [|exists x1; split; [done|by apply (in_turn_threshold (claim_step own (batch_size config) dur t s))]]. split_and!; [done|done|done| | |].
  - cbn in *. lia.
  - intros key old _ He. destruct (Hin _ He) as (r' & Hr' & Hout). exists r'. split; [done|].
    by apply (outcome_threshold _ (claim_step own (batch_size config) dur t s)).
  - intros key Hnot. rewrite Hframe.
    + rewrite claim_step_lookup. destruct (records s !! key) as [old|] eqn:E; [|done].
      rewrite bool_decide_false; [done|by apply Hnot].
    + intros ([k old] & -> & He)%list_elem_of_fmap. apply (Hnot old); [|done].
      by eapply claim_targets_lookup.
Qed.

(** ** The attempts that are left *)
Lemma outcome_potential t threshold s old r' :
  poison_threshold s = threshold → claimable t old = true → outcome' s own dur t old r' →
  attempts_left threshold r' < attempts_left threshold old.
Proof.
  intros <- Hc Hout. unfold attempts_left, claimable in *.
  destruct Hout as [fp now _ _|f retryable _]; unfold released; cbn.
  - destruct (state old); try done; lia.
  - destruct retryable; cbn.
    + destruct (Z.leb_spec (poison_threshold s) (attempt_count old + 1)); destruct (state old); try done; lia.
    + destruct (state old); try done; lia.
Qed.

Lemma settled_same t s s' run : settled_run t s s' run → claimed run = 0 → records s' = records s ∧ targets t s = [].
Proof.
  intros (_ & _ & Hclaimed & _ & _ & Hframe) H0.
  assert (targets t s = []) as Hnil by (destruct (targets t s); [done|cbn in Hclaimed; lia]). split; [|done].
  apply map_eq. intros key. apply Hframe. rewrite Hnil. intros r _. apply not_elem_of_nil.
Qed.

Lemma settled_potential t s s' run :
  store_ok s → settled_run t s s' run → claimed run ≠ 0 →
  potential (poison_threshold s) (records s') < potential (poison_threshold s) (records s).
Proof.
  intros Hs (Hs' & _ & Hclaimed & _ & Hin & Hframe) Hne.
  destruct (targets t s) as [|[key old] l] eqn:Htargets; [cbn in Hclaimed; lia|].
  rewrite <-Htargets in *. assert ((key, old) ∈ targets t s) as He by (rewrite Htargets; left).
  pose proof (claim_targets_lookup _ _ _ _ _ He) as Hkey.
  destruct (Hin _ _ Hkey He) as (r' & Hr' & Hout).
  apply (potential_lt _ _ _ key old r'); [|done|done|].
  - intros k. destruct (records s !! k) as [r|] eqn:Hk.
    + destruct (decide ((k, r) ∈ targets t s)) as [Hk'|Hk'].
      * destruct (Hin _ _ Hk Hk') as (r2 & -> & Hout2). right. exists r, r2. split_and!; [done..|].
        pose proof (outcome_potential t (poison_threshold s) s r r2 eq_refl
          (claim_targets_claimable _ _ _ _ _ Hk') Hout2). lia.
      * rewrite Hframe by (intros r0; rewrite Hk; by intros [= <-]). right. exists r, r. done.
    + left. split; [done|]. rewrite Hframe; [done|]. intros r. by rewrite Hk.
  - eapply outcome_potential; [done|by eapply claim_targets_claimable|done].
Qed.

(** What every run preserves. *)
Definition preserved (P : store → X → Prop) : Prop :=
  ∀ s x run s' x', store_ok s → P s x → run_once hooks' config None (s, x) = (Ok run, (s', x')) →
    settled_run (time x) s s' run → P s' x'.

Lemma idle_loop_terminates P cycles s x total :
  preserved P → P s x →
  store_ok s → potential (poison_threshold s) (records s) < Z.of_nat cycles →
  ∃ run s' x', idle_loop hooks' config cycles total (s, x) = (Ok run, (s', x')) ∧
    store_ok s' ∧ P s' x' ∧ (∃ now, time x ≤ now ≤ time x' ∧ targets now s' = []) ∧
    claimed run - completed_n run - retryable_n run - quarantined_n run =
    claimed total - completed_n total - retryable_n total - quarantined_n total.
Proof.
  intros HP. revert s x total. induction cycles as [|n IH]; intros s x total Hsx Hs Hlt.
  { pose proof (potential_nonneg (poison_threshold s) (records s)). lia. }
  cbn [idle_loop]. unfold bind. destruct (run_once_settled s x Hs) as (run & s1 & x1 & Hrun & Hset & Hx1 & _). rewrite Hrun.
  destruct Hx1 as [Hx1 _].
  specialize (HP s x run s1 x1 Hs Hsx Hrun Hset).
  pose proof Hset as (Hs1 & Hthr & _ & Hsum & _ & _).
  destruct (Z.eqb_spec (claimed run) 0) as [H0|Hne].
  - eexists _, s1, x1. split; [reflexivity|]. do 2 (split; [done|]). split; [|destruct total; cbn; lia].
    destruct (settled_same _ _ _ _ Hset H0) as [Hrec Hnil]. exists (time x). split; [lia|].
    unfold claim_targets, ordered_records in *. by rewrite Hrec.
  - pose proof (settled_potential _ _ _ _ Hs Hset Hne) as Hdec. rewrite <-Hthr in Hdec, Hlt.
    destruct (IH s1 x1 (run_add total run) HP Hs1 ltac:(lia)) as (run' & s2 & x2 & -> & Hs2 & HP2 & (now & Hnow & Hnil) & Hsum').
    exists run', s2, x2. split_and!; [done|done|done|exists now; split; [lia|done]|]. rewrite Hsum'. destruct total, run. cbn in *. lia.
Qed.
End composed.

(** ** The guarantees of the runner *)

(** C16: with collaborators that answer and a lease that outlasts a batch, one
    run over the reference store returns normally and settles exactly the
    records it claimed; the counters add up to them, and every other record is
    untouched.  The claimed records are delivered one after the other, each once
    ([in_turn]), and a record's own delivery decides what becomes of it: when it
    ends in an acknowledgement of the record's version with a digest, the record
    is completed, before its lease expires and with that digest; when it raises,
    the record is released (retryably as the exception says), and so it is when
    the acknowledgement names another version or no digest.  The run takes one
    call and at most eight more for every record it claims. *)
Theorem run_once_settles `{CoreApi} {X} (hooks : runner_hooks X) sink utc_now config time pace s (x : X) :
  answers hooks sink time pace → in_time time pace config → store_ok s →
  ∃ run s' x1 x', run_once (H0 := store_port utc_now) (H1 := sink_beside sink) (hooks_beside hooks) config None (s, x)
                 = (Ok run, (s', x')) ∧ settled_run hooks config (time x) s s' run ∧
    passes time pace (1 + 8 * claimed run) x x' ∧ observes hooks sink x x1 ∧
    in_turn hooks sink config s s' (time x) (claim_targets (batch_size config) (time x) s) x1 x'.
Proof.
  intros Hans Htime Hs.
  destruct (run_once_settled hooks sink utc_now config time pace Hans Htime s x Hs)
    as (run & s' & x' & Hrun & Hset & Hp & x1 & Ho & Hturn). by exists run, s', x1, x'.
Qed.

(** C17: with collaborators that answer and a lease that outlasts a batch,
    [run_until_idle] terminates within the number of attempts the records have
    left (poison threshold times the number of events when none was tried): it
    returns normally, every claimed event is accounted for, and nothing was
    left to claim at the instant of the last claim. *)
Theorem run_until_idle_terminates `{CoreApi} {X} (hooks : runner_hooks X) sink utc_now config time pace s (x : X) cycles :
  answers hooks sink time pace → in_time time pace config →
  store_ok s → potential (poison_threshold s) (records s) < cycles →
  ∃ run s' x', run_until_idle (H0 := store_port utc_now) (H1 := sink_beside sink) (hooks_beside hooks) config
                 cycles (s, x) = (Ok run, (s', x')) ∧ store_ok s' ∧
    claimed run = completed_n run + retryable_n run + quarantined_n run ∧
    ∃ now, time x ≤ now ≤ time x' ∧ claim_targets (batch_size config) now s' = [].
Proof.
  intros Hans Htime Hs Hlt. pose proof (potential_nonneg (poison_threshold s) (records s)).
  unfold run_until_idle, bind, lift_res. rewrite (proj2 (Z.ltb_ge _ _)) by lia. cbn [raise_if].
  destruct (idle_loop_terminates hooks sink utc_now config time pace Hans Htime (λ _ _, True) (Z.to_nat cycles) s x run_zero)
    as (run & s' & x' & Hrun & Hs' & _ & Hnil & Hsum); [done|done|done|lia|].
  unfold port, beside in Hrun. rewrite Hrun. exists run, s', x'. cbn in Hsum. split_and!; try done. lia.
Qed.

(** ** Concrete collaborators

    A target that acknowledges the source version it is sent, but refuses the
    events of one source record. *)
Definition example_api : CoreApi := {|
  core_errors := example_core;
  Expression := string * string * ProjectionContext;
  expression_catalog e := e.1.1;
  expression_argument e name := if String.eqb name "resource" then Some (PStr e.1.2) else None;
  OperationResult := option version;
  result_data v := PMapping [(PStr "sourceVersion", version_value v)];
  operation_fingerprint v := Some (sha256_digest (version_json v));
|}.

Definition example_execute (e : @Expression example_api) : M nat (option version) :=
  if String.eqb (ctx_event_id e.2) "evt-3" then raise (RuntimeError "refused: token=abc")
  else do! modify S in ret (ctx_source_version e.2).

(** Every execution takes half a second. *)
Definition example_time (n : nat) : instant := second 1000 + 500000 * Z.min (Z.of_nat n) 1000.
Definition example_clock : M nat datetime := λ n, (Ok (at_utc (example_time n)), n).

Definition example_hooks : runner_hooks (H := example_api) nat :=
  Hooks (H := example_api) (λ _ ctx, ret ("structured", "orders.search", ctx)%string) example_execute None
    (λ v _, ret (v, sha256_digest (version_json v))) example_clock.

Definition example_config : runner_config :=
  Config (MkSpec "orders-search" "structured" "orders" "structured" "orders.search" "orders.v1" "search.v1"
            ["search"%string] (f64_of_Z 30)) 10 (second 60) "w1".

Lemma example_passes n : passes example_time 500000 1 n n ∧ passes example_time 500000 1 n (S n).
Proof. unfold passes, example_time. lia. Qed.

Lemma example_answers : answers (H := example_api) example_hooks NullEvidenceSink example_time 500000.
Proof.
  split; try done.
  - intros n. exists n. split; [done|apply example_passes].
  - intros e n. exists n. split; [done|apply example_passes].
  - intros src ctx n. split; [apply example_passes|done].
  - intros expr n. cbn. unfold example_execute. destruct (String.eqb _ _); cbn;
      (split; [apply example_passes|]); [|done]. intros e [= <-]. by split_and!.
  - intros result d n. split; [apply example_passes|done].
Qed.

Lemma small_in_range t : 0 ≤ t ≤ 10000000000 → in_range t = true.
Proof.
  intros Ht. assert (10000000000 < max_instant) by (vm_compute; reflexivity). unfold in_range.
  apply andb_true_iff. lia.
Qed.

Lemma example_in_time : in_time example_time 500000 example_config.
Proof.
  split; try done. intros n. unfold example_time, second, us_per_second. cbn [lease_duration example_config].
  unfold second, us_per_second. split; apply small_in_range; lia.
Qed.

Lemma run_once_settles_witness :
  ∃ run s' x1 x', run_once (H0 := store_port (H := example_core) (ret (at_utc 0))) (H1 := sink_beside NullEvidenceSink)
      (hooks_beside example_hooks) example_config None (sample_store, 0%nat) = (Ok run, (s', x')) ∧
    settled_run (H := example_api) example_hooks example_config (second 1000) sample_store s' run ∧
    passes example_time 500000 (1 + 8 * claimed run) 0%nat x' ∧
    observes (H := example_api) example_hooks NullEvidenceSink 0%nat x1 ∧
    in_turn (H := example_api) example_hooks NullEvidenceSink example_config sample_store s' (second 1000)
      (claim_targets 10 (second 1000) sample_store) x1 x'.
Proof.
  apply (run_once_settles (H := example_api) example_hooks NullEvidenceSink (ret (at_utc 0)) example_config example_time 500000);
    [exact example_answers|exact example_in_time|exact sample_store_ok].
Defined.

(** Two events are delivered and the refused one is quarantined at once. *)
Lemma run_until_idle_terminates_witness :
  (∃ run s' x', run_until_idle (H0 := store_port (H := example_core) (ret (at_utc 0)))
      (H1 := sink_beside NullEvidenceSink) (hooks_beside example_hooks) example_config 10 (sample_store, 0%nat) =
      (Ok run, (s', x')) ∧ store_ok s' ∧
    claimed run = completed_n run + retryable_n run + quarantined_n run ∧
    ∃ now, second 1000 ≤ now ≤ example_time x' ∧ claim_targets 10 now s' = []) ∧
  (run_until_idle (H0 := store_port (H := example_core) (ret (at_utc 0)))
      (H1 := sink_beside NullEvidenceSink) (hooks_beside example_hooks) example_config 10 (sample_store, 0%nat)).1 =
    Ok (MkRun 3 2 0 1).
Proof.
  split; [|vm_compute; reflexivity].
  apply (run_until_idle_terminates (H := example_api) example_hooks NullEvidenceSink (ret (at_utc 0)) example_config
    example_time 500000); [exact example_answers|exact example_in_time|exact sample_store_ok|vm_compute; reflexivity].
Defined.
