(* ===== verification/RunnerFailures.v ===== *)
(** * Runs that lose a lease

    What a run over the reference store does when the assumptions of
    [RunnerStore] fail: a delivery that outlasts its lease, and an evidence sink
    that raises after a completion.  Both abort the run. *)
From S2P Require Import Prelude PyTime Sha256 Canonical Errors OutboxModel Redaction OutboxStore OutboxClaim OutboxLifecycle Runner RunnerStore.

(** ** A delivery that outlasts its lease *)
Definition expired (id : string) : exn := LeaseLostError ("lease for outbox event " +:+ py_repr id +:+ " has expired").

Lemma leased_record_expired s id own dur t now old :
  records s !! id = Some (leased own dur t old) → t + dur ≤ now → leased_record id own now s = Raise (expired id).
Proof.
  intros Hr Hnow. unfold leased_record. rewrite Hr. cbn. rewrite String.eqb_refl. cbn.
  by rewrite (proj2 (Z.leb_le _ _)).
Qed.

(** The records of a batch are stored as they were leased. *)
Lemma claimed_leased (config : runner_config) t s id old rest :
  claim_targets (batch_size config) t s = (id, old) :: rest →
  ∀ key r, (key, r) ∈ (id, old) :: rest →
    records (claim_step (worker_id config) (batch_size config) (lease_duration config) t s) !! key =
      Some (leased (worker_id config) (lease_duration config) t r).
Proof.
  intros Htargets key r Hin. rewrite claim_step_lookup.
  rewrite (claim_targets_lookup (batch_size config) t s) with (r := r) by (by rewrite Htargets).
  by rewrite bool_decide_true by (by rewrite Htargets).
Qed.

Section late.
Context `{CoreApi} {X : Type} (hooks : runner_hooks X) (sink : EvidenceSink X) (utc_now : M X datetime).
Context (config : runner_config) (time : X → instant) (pace : Z) (Hanswers : answers hooks sink time pace).
Context (Hcalendar : ∀ x, in_range (time x) = true).
Abbreviation own := (worker_id config).
Abbreviation dur := (lease_duration config).

(** Neither the completion nor the release is accepted; the error of the latter
    leaves [process]. *)
Lemma process_expired t old cs s x :
  let r := leased own dur t old in let id := event_id (data r) in
  records s !! id = Some r → t + dur ≤ time (deliver hooks config r x).2 →
  ∃ x', process (H0 := store_port utc_now) (H1 := sink_beside sink) (hooks_beside hooks) config r (cs, (s, x)) =
    (Raise (expired id), (cs, (s, x'))) ∧ t + dur ≤ time x'.
Proof.
  intros r id Hr Hlate. unfold process, try_except. cbv zeta. fold id. unfold bind at 1. unfold lift_snd at 1. rewrite deliver_beside.
  destruct (deliver_ordinary hooks sink config time pace Hanswers r x) as [_ Hraises].
  assert (∀ e x1, is_exception e = true → t + dur ≤ time x1 → ∃ x',
    (if is_exception e then handle_failure (H0 := store_port utc_now) (H1 := sink_beside sink) (hooks_beside hooks) config r e
       (cs, (s, x1)) else (Raise e, (cs, (s, x1)))) = (Raise (expired id), (cs, (s, x'))) ∧ t + dur ≤ time x') as Hhandler.
  { intros e x1 He Hx1. rewrite He. unfold handle_failure. cbv zeta. fold id. unfold bind at 1. unfold lift_snd at 1.
    destruct (clock_beside hooks sink time pace Hanswers s x1) as (x2 & -> & Hp). exists x2. split; [|unfold passes in Hp; lia].
    unfold bind at 1. unfold lift_snd at 1. cbn [port_release store_port]. unfold lift_fst, release, bind, lift_res, get.
    rewrite ensure_utc_at_utc by apply Hcalendar. rewrite (leased_record_expired s id own dur t (time x1) old) by done. done. }
  unfold lift_snd at 1. destruct (deliver hooks config r x) as [[[v fp]|e] x1] eqn:Hd; cbn [fst snd] in *.
  2:{ apply Hhandler; [|done]. apply (Hraises e eq_refl). }
  unfold bind at 1. unfold lift_snd at 1. destruct (clock_beside hooks sink time pace Hanswers s x1) as (x2 & -> & Hp).
  assert (t + dur ≤ time x2) as Hx2 by (unfold passes in Hp; lia).
  unfold bind at 1. unfold lift_snd at 1. cbn [port_complete store_port]. unfold lift_fst at 1.
  assert (∃ e, complete id own v fp (at_utc (time x1)) s = (Raise e, s) ∧ is_exception e = true) as (e & -> & He).
  { unfold complete, bind, lift_res, get, require_sha256. destruct (is_sha256 fp); [|by eexists].
    rewrite ensure_utc_at_utc by apply Hcalendar. rewrite (leased_record_expired s id own dur t (time x1) old); [by eexists|done..]. }
  by apply Hhandler.
Qed.
End late.

(** ** An evidence sink that fails after a completion *)
Definition not_leased (id : string) : exn := LeaseLostError ("outbox event " +:+ py_repr id +:+ " is not leased").

Section unrecorded.
Context `{CoreApi} {X : Type} (hooks : runner_hooks X) (sink : EvidenceSink X) (utc_now : M X datetime).
Context (config : runner_config) (time : X → instant) (pace : Z).
Context (Hanswers : answers hooks NullEvidenceSink time pace) (Htime : in_time time pace config).
Context (Hsink : ∀ e x, ∃ err x', sink e x = (Raise err, x') ∧ is_exception err = true).
Abbreviation own := (worker_id config).
Abbreviation dur := (lease_duration config).

Lemma evidence_fails st details d s x :
  st ≠ ""%string → immutable_mapping details = Ok d →
  ∃ err x', evidence_at (H1 := sink_beside sink) (hooks_beside (S := store) hooks) config st details (s, x) = (Raise err, (s, x')) ∧
    is_exception err = true.
Proof.
  intros Hst Hd. unfold evidence_at, bind. destruct (clock_beside hooks _ time pace Hanswers s x) as (x1 & -> & _).
  unfold record_evidence, make_evidence, bind, lift_res.
  rewrite (proj2 (nonempty_spec _) (it_name _ _ _ Htime)), (proj2 (nonempty_spec _) Hst), Hd.
  rewrite ensure_utc_at_utc by apply (it_calendar _ _ _ Htime). cbn. unfold evidence_record, sink_beside, lift_snd.
  match goal with |- context [sink ?e x1] => destruct (Hsink e x1) as (err & x2 & -> & He) end. by exists err, x2.
Qed.

(** The completion stands; the handler then tries to release the event. *)
Lemma process_unrecorded t old cs s x fp x1 :
  let r := leased own dur t old in let id := event_id (data r) in
  store_ok s → records s !! id = Some r → t ≤ time x1 < t + dur → is_sha256 fp = true →
  deliver hooks config r x = (Ok (source_version (data r), fp), x1) →
  ∃ x', process (H0 := store_port utc_now) (H1 := sink_beside sink) (hooks_beside hooks) config r (cs, (s, x)) =
    (Raise (not_leased id), (add_completed cs, (completed_store s id fp (time x1) r, x'))).
Proof.
  intros r id Hs Hr Hx1 Hfp Hd. unfold process, try_except. cbv zeta. fold id.
  unfold bind at 1. unfold lift_snd at 1. rewrite deliver_beside. unfold lift_snd at 1. rewrite Hd.
  unfold bind at 1. unfold lift_snd at 1. destruct (clock_beside hooks _ time pace Hanswers s x1) as (x2 & -> & _).
  unfold bind at 1. unfold lift_snd at 1. cbn [port_complete store_port]. unfold lift_fst at 1.
  rewrite (complete_run s id own _ fp (at_utc (time x1)) (time x1) r); [|done|split; [done| |by apply (leased_held config s id t)|done]].
  2:{ apply ensure_utc_at_utc, (it_calendar _ _ _ Htime). }
  unfold bind at 1. cbn [set_locals]. unfold lift_snd at 1.
  match goal with |- context [evidence_at _ config ?st ?details (?s1, x2)] =>
    assert (∃ d, immutable_mapping details = Ok d) as [d Hdetails]
      by (destruct (source_version (data r)) as [[]|]; by eexists);
    destruct (evidence_fails st details d s1 x2 ltac:(done) Hdetails) as (err & x3 & -> & ->)
  end.
  unfold handle_failure. cbv zeta. fold id. unfold bind at 1. unfold lift_snd at 1.
  match goal with |- context [clock _ (?s1, x3)] =>
    destruct (clock_beside hooks _ time pace Hanswers s1 x3) as (x4 & -> & _) end.
  unfold bind at 1. unfold lift_snd at 1. cbn [port_release store_port]. unfold lift_fst, release, bind, lift_res, get.
  rewrite ensure_utc_at_utc by apply (it_calendar _ _ _ Htime).
  unfold leased_record, completed_store. cbn [records]. rewrite lookup_insert_eq. cbn. by exists x4.
Qed.
End unrecorded.

(** ** The runs *)

(** A delivery that outlasts its lease aborts the run. When the first
    claimed event is delivered so late that its lease has expired, the store
    accepts neither its completion nor its release: [LeaseLostError] leaves
    [run_once] and the rest of the batch is not tried.  Nothing is lost: every
    claimed record is stored as it was leased, all other records and the
    checkpoints are untouched, and each claimed record can be claimed again. *)
Theorem late_delivery_aborts `{CoreApi} {X} (hooks : runner_hooks X) sink utc_now config time pace s (x : X) id old rest :
  let own := worker_id config in let dur := lease_duration config in let t := time x in
  answers hooks sink time pace → (∀ x, in_range (time x) = true) →
  claim_args own (batch_size config) dur (at_utc t) t → store_ok s →
  claim_targets (batch_size config) t s = (id, old) :: rest →
  (∀ x1, t ≤ time x1 → t + dur ≤ time (deliver hooks config (leased own dur t old) x1).2) →
  ∃ x', run_once (H0 := store_port utc_now) (H1 := sink_beside sink) (hooks_beside hooks) config None (s, x) =
    (Raise (expired id), (claim_step own (batch_size config) dur t s, x')) ∧
    ∀ key r, (key, r) ∈ (id, old) :: rest →
      records (claim_step own (batch_size config) dur t s) !! key = Some (leased own dur t r) ∧
      claimable (time x') (leased own dur t r) = true.
Proof.
  intros own dur t Hans Hcal Hclaim Hs Htargets Hlate. subst own dur. unfold run_once, bind at 1.
  destruct (clock_beside hooks sink time pace Hans s x) as (x1 & -> & Hp1). fold t.
  unfold bind, lift_res. rewrite (ca_now _ _ _ _ _ Hclaim). cbn [port_atomic_claim store_port].
  unfold lift_fst. rewrite (atomic_claim_eq _ _ _ _ t) by done. rewrite Htargets.
  set (s1 := claim_step (worker_id config) (batch_size config) (lease_duration config) t s).
  pose proof (claimed_leased config t s id old rest Htargets) as Hleased. fold s1 in Hleased.
  pose proof (Hleased id old ltac:(left)) as Hr.
  assert (event_id (data (leased (worker_id config) (lease_duration config) t old)) = id) as Hid.
  { rewrite leased_data. apply (store_ok_id s); [done|]. apply (claim_targets_lookup (batch_size config) t). rewrite Htargets. left. }
  destruct (process_expired hooks sink utc_now config time pace Hans Hcal t old (0, 0, 0) s1 x1)
    as (x2 & Hrun & Hx2); [by rewrite Hid|apply Hlate; unfold passes, t in *; lia|].
  rewrite Hid in Hrun. exists x2. split; [|intros key r Hin; split; [by apply Hleased|]].
  - unfold with_locals. cbn [map for_list snd]. unfold bind. unfold counters in *. by rewrite Hrun.
  - unfold claimable. cbn. by apply Z.leb_le.
Qed.

(** C40: a failure of the evidence sink after a completion aborts the run under
    another name. When the first claimed event is delivered and completed and
    the sink then raises, the handler releases an event that is no longer
    leased: [run_once] raises [LeaseLostError] instead of the error of the sink
    and the rest of the batch stays leased, while the event is completed. *)
Theorem completion_evidence_masked `{CoreApi} {X} (hooks : runner_hooks X) sink utc_now config time pace s (x : X) id old rest :
  let own := worker_id config in let dur := lease_duration config in let r := leased own dur (time x) old in
  answers hooks NullEvidenceSink time pace → in_time time pace config →
  (∀ e x, ∃ err x', sink e x = (Raise err, x') ∧ is_exception err = true) → store_ok s →
  claim_targets (batch_size config) (time x) s = (id, old) :: rest →
  (∀ x1, ∃ fp x2, deliver hooks config r x1 = (Ok (source_version (data r), fp), x2) ∧ is_sha256 fp = true) →
  ∃ s' x', run_once (H0 := store_port utc_now) (H1 := sink_beside sink) (hooks_beside hooks) config None (s, x) =
    (Raise (not_leased id), (s', x')) ∧
    (∃ fp now, records s' !! id = Some (completed fp now r)) ∧
    ∀ key r', (key, r') ∈ rest → records s' !! key = Some (leased own dur (time x) r').
Proof.
  intros own dur r Hans Htime Hsink Hs Htargets Hdel. pose proof (answers_pace _ _ _ _ Hans) as Hpace.
  pose proof (in_time_claim _ _ _ _ _ x Hans Htime) as Hclaim. subst own dur. set (t := time x) in *.
  unfold run_once, bind at 1. destruct (clock_beside hooks _ time pace Hans s x) as (x1 & -> & Hp1). fold t.
  unfold bind, lift_res. rewrite (ca_now _ _ _ _ _ Hclaim). cbn [port_atomic_claim store_port].
  unfold lift_fst. rewrite (atomic_claim_eq _ _ _ _ t) by done. rewrite Htargets.
  set (s1 := claim_step (worker_id config) (batch_size config) (lease_duration config) t s).
  assert (store_ok s1) as Hs1 by (apply claim_step_ok; [apply Hclaim..|done]).
  pose proof (claimed_leased config t s id old rest Htargets) as Hleased. fold s1 in Hleased.
  pose proof (Hleased id old ltac:(left)) as Hr. fold r in Hr.
  pose proof (store_ok_id _ _ _ Hs1 Hr) as Hid.
  destruct (Hdel x1) as (fp & x2 & Hd & Hfp).
  destruct (deliver_ordinary hooks _ config time pace Hans r x1) as [Hp2 _]. rewrite Hd in Hp2. cbn [snd] in Hp2.
  assert (t ≤ time x2 < t + lease_duration config) as Hx2.
  { pose proof (it_lease _ _ _ Htime). pose proof (it_limit _ _ _ Htime). unfold passes, t in *. nia. }
  destruct (process_unrecorded hooks sink utc_now config time pace Hans Htime Hsink t old (0, 0, 0) s1 x1 fp x2)
    as (x3 & Hrun); [done|fold r; by rewrite Hid|done..|]. fold r in Hrun. rewrite Hid in Hrun.
  eexists _, x3. split; [|split].
  - unfold with_locals. cbn [map for_list snd]. unfold bind. unfold counters in *. fold r. by rewrite Hrun.
  - exists fp, (time x2). cbn. by rewrite lookup_insert_eq.
  - intros key r' Hin. cbn. rewrite lookup_insert_ne; [apply Hleased; by right|]. intros <-.
    pose proof (claim_targets_keys (batch_size config) t s) as Hnd. rewrite Htargets in Hnd. cbn [map fst] in Hnd.
    apply NoDup_cons in Hnd as [Hno _]. apply Hno. by apply (list_elem_of_fmap_2 fst rest (id, r')).
Qed.

(** ** Examples *)

(** A target that takes longer than the lease. *)
Definition slow_time (n : nat) : instant := second 1000 + 100000000 * Z.min (Z.of_nat n) 50.
Definition slow_hooks : runner_hooks (H := example_api) nat :=
  Hooks (H := example_api) (λ _ ctx, ret ("structured", "orders.search", ctx)%string) (λ e, do! modify S in ret (ctx_source_version e.2)) None
    (λ v _, ret (v, sha256_digest (version_json v))) (λ n, (Ok (at_utc (slow_time n)), n)).

Lemma slow_answers : answers (H := example_api) slow_hooks NullEvidenceSink slow_time 100000000.
Proof.
  assert (∀ n, passes slow_time 100000000 1 n n ∧ passes slow_time 100000000 1 n (S n)) as Hp by (intros n; unfold passes, slow_time; lia).
  split; try done.
  - intros n. exists n. split; [done|apply Hp].
  - intros e n. exists n. split; [done|apply Hp].
  - intros src ctx n. split; [apply Hp|done].
  - intros expr n. split; [apply Hp|done].
  - intros result d n. split; [apply Hp|done].
Qed.

Lemma late_delivery_aborts_witness :
  ∃ x', run_once (H0 := store_port (H := example_core) (ret (at_utc 0))) (H1 := sink_beside NullEvidenceSink)
      (hooks_beside slow_hooks) example_config None (sample_store, 0%nat) =
      (Raise (LeaseLostError "lease for outbox event 'evt-1' has expired"),
       (claim_step "w1" 10 (second 60) (second 1000) sample_store, x')) ∧
    records (claim_step "w1" 10 (second 60) (second 1000) sample_store) !! "evt-3"%string =
      Some (leased "w1" (second 60) (second 1000) (new_record sample_event3)) ∧
    claimable (slow_time x') (leased "w1" (second 60) (second 1000) (new_record sample_event3)) = true.
Proof.
  destruct (late_delivery_aborts (H := example_api) slow_hooks NullEvidenceSink (ret (at_utc 0)) example_config slow_time 100000000
    sample_store 0%nat "evt-1" (new_record sample_event1) [("evt-3"%string, new_record sample_event3)]) as (x' & Hrun & Hin).
  - exact slow_answers.
  - intros n. apply small_in_range. unfold slow_time, second, us_per_second. lia.
  - by apply claim_args_at.
  - exact sample_store_ok.
  - vm_compute. reflexivity.
  - intros n _. assert ((deliver slow_hooks example_config
      (leased "w1" (second 60) (second 1000) (new_record sample_event1)) n).2 = S n) as Hn by (vm_compute; reflexivity).
    change (slow_time 0) with (second 1000). cbn [worker_id lease_duration example_config]. rewrite Hn.
    unfold slow_time, second, us_per_second. lia.
  - exists x'. split; [exact Hrun|]. apply Hin. right. left.
Defined.

Definition failing_sink : EvidenceSink nat := λ _ n, (Raise (RuntimeError "audit log unavailable"), n).
Lemma completion_evidence_masked_witness :
  ∃ s' x', run_once (H0 := store_port (H := example_core) (ret (at_utc 0))) (H1 := sink_beside failing_sink)
      (hooks_beside example_hooks) example_config None (sample_store, 0%nat) =
      (Raise (LeaseLostError "outbox event 'evt-1' is not leased"), (s', x')) ∧
    (∃ fp now, records s' !! "evt-1"%string = Some (completed fp now (leased "w1" (second 60) (second 1000) (new_record sample_event1)))) ∧
    records s' !! "evt-3"%string = Some (leased "w1" (second 60) (second 1000) (new_record sample_event3)).
Proof.
  destruct (completion_evidence_masked (H := example_api) example_hooks failing_sink (ret (at_utc 0)) example_config example_time 500000
    sample_store 0%nat "evt-1" (new_record sample_event1) [("evt-3"%string, new_record sample_event3)]) as (s' & x' & Hrun & Hdone & Hrest).
  - exact example_answers.
  - exact example_in_time.
  - intros e n. by exists (RuntimeError "audit log unavailable"), n.
  - exact sample_store_ok.
  - vm_compute. reflexivity.
  - intros n. eexists _, _. split; vm_compute; reflexivity.
  - exists s', x'. split; [exact Hrun|]. split; [exact Hdone|]. apply Hrest. left.
Defined.
