(* ===== verification/RunnerDrain.v ===== *)
(** * The drain of a host

    [run_until_stopped] over the reference store, with a host that sets [stop]
    at some time.  The cycle during which the flag is set settles its whole
    batch, no further cycle starts, and the loop returns within the time of one
    cycle and one wait, with no lease left behind. *)
From S2P Require Import Prelude PyTime Sha256 Canonical Errors OutboxModel Redaction OutboxStore OutboxClaim OutboxLifecycle Runner RunnerStore.

Section drain.
Context `{CoreApi} {X : Type} (hooks : runner_hooks X) (sink : EvidenceSink X) (utc_now : M X datetime).
Context (config : runner_config) (time : X → instant) (pace : Z).
Context (Hanswers : answers hooks sink time pace) (Htime : in_time time pace config).
Context (stopped : X → bool) (wait : float → M X unit) (poll : float) (deadline : instant).

(** The host sets [stop] by the deadline; [stop.wait] returns at the latest one
    call after that, and takes time unless [stop] is set. *)
Record stops : Prop := {
  st_deadline : ∀ x, deadline ≤ time x → stopped x = true;
  st_wait : ∀ x, ∃ x', wait poll x = (Ok (), x') ∧ time x ≤ time x' ≤ Z.max (time x) deadline + pace ∧
                       (stopped x' = true ∨ time x < time x');
}.

(** The cycles of a loop that ends: each starts with [stop] unset, settles what
    it claims and waits when it claimed nothing; then [stop] is set. *)
Inductive drained : store * X → ProjectionRun → store * X → Prop :=
| drained_stop s x : stopped x = true → drained (s, x) run_zero (s, x)
| drained_cycle s x run s1 x1 x2 total w :
    stopped x = false → settled_run hooks config (time x) s s1 run → passes time pace (1 + 8 * claimed run) x x1 →
    (if claimed run =? 0 then wait poll x1 = (Ok (), x2) else x2 = x1) →
    drained (s1, x2) total w → drained (s, x) (run_add run total) w.

Lemma run_add_assoc a b c : run_add (run_add a b) c = run_add a (run_add b c).
Proof. unfold run_add. cbn. f_equal; lia. Qed.
Lemma run_add_zero a : run_add a run_zero = a.
Proof. destruct a. unfold run_add. cbn. f_equal; lia. Qed.

(** The counters add up, and a lease that is left was there before. *)
Lemma settled_leases t s s' run k r :
  settled_run hooks config t s s' run → records s' !! k = Some r → state r = LEASED → records s !! k = Some r.
Proof.
  intros (_ & _ & _ & _ & Hin & Hframe) Hr Hst. destruct (records s !! k) as [r0|] eqn:Hr0.
  2:{ rewrite Hframe, Hr0 in Hr; [done|]. intros r1. by rewrite Hr0. }
  destruct (decide ((k, r0) ∈ claim_targets (batch_size config) t s)) as [Hk|Hk].
  - destruct (Hin _ _ Hr0 Hk) as (r1 & Hr1 & Hout). rewrite Hr in Hr1. injection Hr1 as <-.
    exfalso. destruct Hout as [fp now _ _|f retryable _]; [done|]. revert Hst. cbn. by destruct (_ || _).
  - rewrite Hframe, Hr0 in Hr; [done|]. intros r1. rewrite Hr0. by intros [= <-].
Qed.

Lemma drained_summary w run w' : drained w run w' →
  stopped w'.2 = true ∧ claimed run = completed_n run + retryable_n run + quarantined_n run ∧
  ∀ k r, records w'.1 !! k = Some r → state r = LEASED → records w.1 !! k = Some r.
Proof.
  induction 1 as [s x Hx|s x run s1 x1 x2 total w Hx Hset _ _ _ (Hw & Hsum & Hl)]; [done|].
  split; [done|split].
  - destruct Hset as (_ & _ & _ & Hc & _). unfold run_add. cbn. lia.
  - intros k r Hr Hst. eapply settled_leases; [done| |done]. by apply Hl.
Qed.

#[local] Instance port : OutboxPort (store * X) := store_port utc_now.
#[local] Instance beside : EvidenceSink (store * X) := sink_beside sink.
Abbreviation loop := (stopped_loop (hooks_beside (S := store) hooks) config (lift_snd (gets stopped)) (lift_snd (wait poll))).

(** A run claims at most a batch. *)
Lemma settled_batch t s s' run : settled_run hooks config t s s' run → 0 ≤ claimed run ≤ batch_size config.
Proof.
  intros (_ & _ & -> & _). unfold claim_targets. rewrite length_take. pose proof (it_limit _ _ _ Htime). lia.
Qed.

(** The cycles that claim use up attempts, the others time. *)
Definition cycles_left (s : store) (x : X) : Z :=
  if stopped x then 0 else potential (poison_threshold s) (records s) + Z.max 0 (deadline - time x).
Definition drain_time : timedelta := (2 + 8 * batch_size config) * pace.

Lemma cycle_decreases s x s1 x1 x2 run :
  stops → store_ok s → stopped x = false → settled_run hooks config (time x) s s1 run → passes time pace (1 + 8 * claimed run) x x1 →
  (if claimed run =? 0 then wait poll x1 = (Ok (), x2) else x2 = x1) →
  cycles_left s1 x2 < cycles_left s x ∧ time x ≤ time x2 ≤ deadline + drain_time.
Proof.
  intros Hstops Hs Hx Hset [Hp Hp'] Hnext. pose proof (answers_pace _ _ _ _ Hanswers) as Hpace.
  pose proof (settled_batch _ _ _ _ Hset) as Hbatch. pose proof Hset as (Hs1 & Hthr & _).
  pose proof (potential_nonneg (poison_threshold s) (records s)) as Hpot.
  assert (time x < deadline) as Hlt by (destruct (Z.lt_ge_cases (time x) deadline); [done|]; by rewrite (st_deadline Hstops) in Hx).
  assert (time x1 ≤ deadline + (1 + 8 * batch_size config) * pace) as Hx1 by nia.
  unfold cycles_left, drain_time. rewrite Hx, Hthr. destruct (Z.eqb_spec (claimed run) 0) as [H0|Hne].
  - destruct (st_wait Hstops x1) as (x3 & Hwait & Hx3 & Hmoves). rewrite Hnext in Hwait. injection Hwait as <-.
    destruct (settled_same hooks config _ _ _ _ Hset H0) as [-> _]. split; [|nia].
    destruct Hmoves as [-> |Hmoves]; [lia|]. destruct (stopped x2); lia.
  - subst x2. pose proof (settled_potential hooks config _ _ _ _ Hs Hset Hne). split; [|nia]. destruct (stopped x1); [lia|].
    pose proof (potential_nonneg (poison_threshold s) (records s1)). lia.
Qed.

Lemma stopped_loop_drains fuel s x total :
  stops → store_ok s → cycles_left s x < Z.of_nat fuel →
  ∃ run s' x', loop fuel total (s, x) = (Ok (Some (run_add total run)), (s', x')) ∧ drained (s, x) run (s', x') ∧ store_ok s' ∧
    time x ≤ time x' ≤ Z.max (time x) (deadline + drain_time).
Proof.
  intros Hstops. revert s x total. induction fuel as [|n IH]; intros s x total Hs Hfuel.
  { exfalso. revert Hfuel. unfold cycles_left. pose proof (potential_nonneg (poison_threshold s) (records s)). destruct (stopped x); lia. }
  cbn [stopped_loop]. unfold bind at 1. unfold lift_snd at 1. cbn [gets].
  destruct (stopped x) eqn:Hx.
  { exists run_zero, s, x. rewrite run_add_zero. split_and!; [done|by constructor|done|lia..]. }
  destruct (run_once_settled hooks sink utc_now config time pace Hanswers Htime s x Hs) as (run & s1 & x1 & Hrun & Hset & Hp & _).
  unfold bind at 1. unfold RunnerStore.port, RunnerStore.beside in Hrun. unfold port, beside. rewrite Hrun.
  assert (∃ x2, (if claimed run =? 0 then wait poll x1 = (Ok (), x2) else x2 = x1) ∧
    (if claimed run =? 0 then lift_snd (wait poll) else ret ()) (s1, x1) = (Ok (), (s1, x2))) as (x2 & Hnext & Hwait).
  { destruct (claimed run =? 0); [|by exists x1]. destruct (st_wait Hstops x1) as (x2 & Hwait & _). exists x2.
    unfold lift_snd. by rewrite Hwait. }
  unfold bind at 1. rewrite Hwait.
  destruct (cycle_decreases s x s1 x1 x2 run Hstops Hs Hx Hset Hp Hnext) as [Hdec Hx2].
  destruct (IH s1 x2 (run_add total run)) as (run' & s' & x' & Hloop & Hdrained & Hs' & Hx');
    [apply Hset|lia|]. unfold port, beside in Hloop. rewrite Hloop.
  exists (run_add run run'), s', x'. rewrite run_add_assoc. split_and!; [done|by eapply drained_cycle|done|lia..].
Qed.
End drain.

(** C18: a host drains in bounded time.  Let every collaborator answer within
    [pace], leases outlast a batch, and the host set [stop] by [deadline],
    waiting no longer than that.  Then [run_until_stopped] returns, with [stop]
    set, at most one whole cycle and one wait after the deadline.  No cycle
    started with [stop] set, each cycle settled all it claimed, the result adds
    up the cycles, and no lease is left in the store that was not there before. *)
Theorem drain_is_bounded `{CoreApi} {X} (hooks : runner_hooks X) sink utc_now config time pace stopped wait poll deadline s (x : X) fuel :
  answers hooks sink time pace → in_time time pace config → stops time pace stopped wait poll deadline →
  f64_lt poll f64_zero = false → store_ok s →
  potential (poison_threshold s) (records s) + Z.max 0 (deadline - time x) < Z.of_nat fuel →
  ∃ run s' x', run_until_stopped (H0 := store_port utc_now) (H1 := sink_beside sink) (hooks_beside hooks) config
                 (lift_snd (gets stopped)) (λ t, lift_snd (wait t)) poll fuel (s, x) = (Ok (Some run), (s', x')) ∧
    drained hooks config time pace stopped wait poll (s, x) run (s', x') ∧
    stopped x' = true ∧ claimed run = completed_n run + retryable_n run + quarantined_n run ∧
    (∀ k r, records s' !! k = Some r → state r = LEASED → records s !! k = Some r) ∧
    time x ≤ time x' ≤ Z.max (time x) (deadline + (2 + 8 * batch_size config) * pace).
Proof.
  intros Hans Htime Hstops Hpoll Hs Hfuel. pose proof (potential_nonneg (poison_threshold s) (records s)).
  unfold run_until_stopped, bind at 1, lift_res. rewrite Hpoll. cbn [raise_if].
  destruct (stopped_loop_drains hooks sink utc_now config time pace Hans Htime stopped wait poll deadline fuel s x run_zero Hstops Hs)
    as (run & s' & x' & Hrun & Hdrained & Hs' & Hx'); [unfold cycles_left; destruct (stopped x); lia|].
  unfold port, beside in Hrun. rewrite Hrun. destruct (drained_summary _ _ _ _ _ _ _ _ _ _ Hdrained) as (Hset & Hsum & Hleases).
  exists run, s', x'. split_and!; try done; [|apply Hx'..]. by destruct run.
Qed.

(** ** An example

    The host sets [stop] right after the start: during the first cycle,
    whose two events are settled before the loop returns; the third is left. *)
Definition example_stopped (n : nat) : bool := second 1000 + 5 <=? example_time n.
Definition example_wait (t : float) : M nat unit := λ n, (Ok (), if example_stopped n then n else S n).

Lemma example_stops : stops example_time 500000 example_stopped example_wait (f64_of_Z 1) (second 1000 + 5).
Proof.
  split.
  - intros n Hn. by apply Z.leb_le.
  - intros n. eexists. split; [reflexivity|]. unfold example_stopped. destruct (Z.leb_spec (second 1000 + 5) (example_time n)) as [Hn|Hn].
    + split; [lia|]. left. by apply Z.leb_le.
    + unfold example_time, second, us_per_second in *. split; [|right]; lia.
Qed.

Lemma drain_is_bounded_witness :
  (∃ run s' x', run_until_stopped (H0 := store_port (H := example_core) (ret (at_utc 0))) (H1 := sink_beside NullEvidenceSink)
      (hooks_beside example_hooks) example_config (lift_snd (gets example_stopped)) (λ t, lift_snd (example_wait t)) (f64_of_Z 1) 12
      (sample_store, 0%nat) = (Ok (Some run), (s', x')) ∧
    drained (H := example_api) example_hooks example_config example_time 500000 example_stopped example_wait (f64_of_Z 1)
      (sample_store, 0%nat) run (s', x') ∧
    example_stopped x' = true ∧ claimed run = completed_n run + retryable_n run + quarantined_n run ∧
    (∀ k r, records s' !! k = Some r → state r = LEASED → records sample_store !! k = Some r) ∧
    second 1000 ≤ example_time x' ≤ Z.max (second 1000) (second 1000 + 5 + 82 * 500000)) ∧
  (run_until_stopped (H0 := store_port (H := example_core) (ret (at_utc 0))) (H1 := sink_beside NullEvidenceSink)
      (hooks_beside example_hooks) example_config (lift_snd (gets example_stopped)) (λ t, lift_snd (example_wait t)) (f64_of_Z 1) 5
      (sample_store, 0%nat)).1 = Ok (Some (MkRun 2 1 0 1)).
Proof.
  split; [|vm_compute; reflexivity].
  apply (drain_is_bounded (H := example_api) example_hooks NullEvidenceSink (ret (at_utc 0)) example_config example_time 500000
    example_stopped example_wait (f64_of_Z 1) (second 1000 + 5) sample_store 0%nat 12).
  - exact example_answers.
  - exact example_in_time.
  - exact example_stops.
  - reflexivity.
  - exact sample_store_ok.
  - assert (potential 2 (records sample_store) = 6) as Hp by (vm_compute; reflexivity).
    change (poison_threshold sample_store) with 2. rewrite Hp. unfold example_time, second, us_per_second. lia.
Defined.
