(* ===== verification/Conformance.v ===== *)
(** * Outbox conformance ([testing/outbox_conformance.py])

    The executable acceptance checks an adapter runs on its port, evaluated
    over the reference store. *)
From S2P Require Import Prelude PyTime Sha256 Canonical Errors OutboxModel OutboxStore OutboxClaim Runner RunnerStore.

(** [OutboxConformanceTarget]: the callbacks beside the port.  [reopen] recreates
    the port over the same storage, here the world. *)
Record OutboxConformanceTarget (W : Type) : Type := Target {
  seed : OutboxDataV1 → M W unit;
  inspect_record : string → M W OutboxRecord;
  inspect_checkpoint : string → M W Checkpoint;
  reopen : M W unit;
  source_resource_ : string;
  source_schema_ : string;
  target_labels_ : list string;
  source_catalog_ : string;
}.
Arguments Target {W}.
Arguments seed {W}. Arguments inspect_record {W}. Arguments inspect_checkpoint {W}.
Arguments reopen {W}. Arguments source_resource_ {W}. Arguments source_schema_ {W}.
Arguments target_labels_ {W}. Arguments source_catalog_ {W}.

Record OutboxConformanceReport : Type := Report {
  checks : list string; same_owner_completion : string; same_owner_release : string }.

Definition report_to_mapping (r : OutboxConformanceReport) : json :=
  JObj [("checks", JArr (map JStr (checks r)));
        ("sameOwnerCompletion", JStr (same_owner_completion r));
        ("sameOwnerRelease", JStr (same_owner_release r));
        ("generationFencing", JStr "unsupported-by-owner-only-contract");
        ("durability", JStr "requires-adapter-owned-real-storage-and-restart-evidence")].

Section conformance.
Context {W : Type} `{OutboxPort W} (target : OutboxConformanceTarget W).

Definition assert (b : bool) : M W unit := if b then ret () else raise AssertionError.

(** [_reject] *)
Definition reject {A} (call : M W A) (code : string) : M W unit :=
  let! raised := try_except (do! call in ret false) is_meridian
        (λ error, do! assert (String.eqb (error_code error) code) in ret true) in
  if raised then ret () else raise (EPython "builtins" "AssertionError" ("expected " +:+ code)).

(** [(x,) = l] *)
Definition only {A} (l : list A) : M W A :=
  match l with
  | [x] => ret x
  | [] => raise (ValueError "not enough values to unpack (expected 1, got 0)")
  | _ => raise (ValueError "too many values to unpack (expected 1)")
  end.

(** [datetime(2026, 1, 1, tzinfo=UTC)] *)
Definition start : instant := 739616 * us_per_day.
Definition fingerprint : string :=
  "sha256:aaaaaaaaaaaaaaaaaaaaaaaaaaaaaaaaaaaaaaaaaaaaaaaaaaaaaaaaaaaaaaaa".

Definition event (name : string) (identity : string) (version : Z) : M W OutboxDataV1 :=
  let id := if nonempty identity then identity else name in
  lift_res (make_outbox_data
    (OutboxArgs (source_resource_ target) (source_schema_ target) (PStr id) "put" (Some (VInt version))
       (Some [(PStr "id", PStr id)]) None (target_labels_ target) (at_utc start) []
       (source_catalog_ target) name "" OUTBOX_FORMAT_VERSION)).

Definition after_start (seconds : Z) : datetime := at_utc (start + seconds * us_per_second).

Definition claim (own : string) (at_ duration : Z) : M W (list OutboxRecord) :=
  port_atomic_claim own 1 (duration * us_per_second) (after_start at_).
Definition complete_ (d : OutboxDataV1) (own : string) (at_ : Z) (v : option version) : M W Checkpoint :=
  port_complete (event_id d) own v fingerprint (after_start at_).
Definition release_ (d : OutboxDataV1) (own : string) (at_ : Z) : M W OutboxRecord :=
  port_release (event_id d) own (RuntimeError "token=synthetic-secret") true (after_start at_).
Definition unchanged (d : OutboxDataV1) (before : OutboxRecord) (c : Checkpoint) : M W unit :=
  let! r := inspect_record target (event_id d) in
  do! assert (bool_decide (r = before)) in
  let! c' := inspect_checkpoint target (partition_key d) in
  assert (bool_decide (c' = c)).

Definition lost : string := "MERIDIAN_OUTBOX_LEASE_LOST".
Definition v1 : option version := Some (VInt 1).

(** Lines 135 to 152. *)
Definition check_claims (first second independent : OutboxDataV1) : M W OutboxRecord :=
  do! seed target first in
  do! seed target second in
  do! seed target independent in
  let! l := port_lag (Some (at_utc start)) in
  do! assert (incomplete_count l =? 3) in
  let! rs := claim "owner-a" 0 1 in
  let! leased := only rs in
  do! assert (bool_decide (data leased = first) && bool_decide (state leased = LEASED)) in
  do! assert (match lease leased with
              | Some l => (lease_attempt l =? attempt_count leased) && (attempt_count leased =? 1) &&
                          String.eqb (owner l) "owner-a" && (acquired_at l =? start) &&
                          (expires_at l =? start + us_per_second)
              | None => false
              end) in
  let! rs := claim "owner-b" 0 10 in
  let! parallel := only rs in
  do! assert (bool_decide (data parallel = independent)) in
  let! rs := claim "owner-c" 0 10 in
  do! assert (bool_decide (rs = [])) in
  let! c := complete_ independent "owner-b" 0 v1 in
  do! assert (revision c =? 1) in
  ret leased.

(** Lines 154 to 162. *)
Definition check_ownership (first : OutboxDataV1) (leased : OutboxRecord) : M W Checkpoint :=
  let! c := inspect_checkpoint target (partition_key first) in
  do! assert (revision c =? 0) in
  do! reject (complete_ first "other" 0 v1) lost in
  do! reject (release_ first "other" 0) lost in
  do! unchanged first leased c in
  do! reject (complete_ first "owner-a" 1 v1) lost in
  do! reject (release_ first "owner-a" 1) lost in
  do! unchanged first leased c in
  ret c.

(** Lines 164 to 175. *)
Definition check_reclaim (first : OutboxDataV1) (c : Checkpoint) : M W unit :=
  do! reopen target in
  let! rs := claim "owner-b" 2 10 in
  let! reclaimed := only rs in
  do! assert (bool_decide (data reclaimed = first) && (attempt_count reclaimed =? 2)) in
  do! assert (match lease reclaimed with Some l => String.eqb (owner l) "owner-b" | None => false end) in
  do! reject (complete_ first "owner-a" 3 v1) lost in
  do! reject (release_ first "owner-a" 3) lost in
  for_list [Some (VInt 2); Some (VStr "1"); Some (VBool true); None] () (λ _ wrong,
    do! reject (complete_ first "owner-b" 3 wrong) "MERIDIAN_CHECKPOINT_CONFLICT" in
    unchanged first reclaimed c).

(** Lines 176 to 193. *)
Definition check_completion (first second : OutboxDataV1) : M W unit :=
  let! committed := complete_ first "owner-b" 3 v1 in
  do! assert ((revision committed =? 1) && bool_decide (cp_event_id committed = Some (event_id first))) in
  do! assert (bool_decide (cp_source_version committed = v1) &&
              bool_decide (cp_target_fingerprint committed = Some fingerprint)) in
  do! assert (bool_decide (advanced_at committed = Some (start + 3 * us_per_second))) in
  do! reopen target in
  let! c := inspect_checkpoint target (partition_key first) in
  do! assert (bool_decide (c = committed)) in
  let! finished := inspect_record target (event_id first) in
  do! assert (bool_decide (state finished = COMPLETED) && bool_decide (lease finished = None)) in
  do! assert (bool_decide (target_fingerprint finished = Some fingerprint) &&
              bool_decide (completed_at finished = advanced_at committed)) in
  do! reject (complete_ first "owner-b" 3 v1) lost in
  let! c := inspect_checkpoint target (partition_key first) in
  do! assert (bool_decide (c = committed)) in
  let! rs := claim "owner-c" 4 10 in
  let! next_record := only rs in
  do! assert (bool_decide (data next_record = second)) in
  let! c := complete_ second "owner-c" 5 (Some (VInt 2)) in
  assert (revision c =? 2).

Fixpoint contains (needle s : string) : bool :=
  match strip_prefix needle s with
  | Some _ => true
  | None => match s with "" => false | String _ s' => contains needle s' end
  end%string.

(** Lines 195 to 215. *)
Definition check_poison : M W unit :=
  let! poison := event "03-poison" "" 1 in
  do! seed target poison in
  do! claim "owner-c" 6 10 in
  let! released := release_ poison "owner-c" 7 in
  do! assert (bool_decide (state released = RETRYABLE) && bool_decide (lease released = None)) in
  let! c := inspect_checkpoint target (partition_key poison) in
  do! assert (revision c =? 0) in
  do! assert (match failure released with
              | Some f => negb (contains "synthetic-secret" (redacted_cause f))
              | None => false
              end) in
  do! reopen target in
  let! r := inspect_record target (event_id poison) in
  do! assert (bool_decide (r = released)) in
  let! rs := claim "owner-d" 8 10 in
  let! retried := only rs in
  do! assert (attempt_count retried =? 2) in
  let! quarantined := release_ poison "owner-d" 9 in
  do! assert (bool_decide (state quarantined = QUARANTINED) && bool_decide (lease quarantined = None)) in
  do! reopen target in
  let! r := inspect_record target (event_id poison) in
  do! assert (bool_decide (r = quarantined)) in
  let! next := event "04-after-poison" "03-poison" 1 in
  do! seed target next in
  let! rs := claim "owner-e" 10 10 in
  do! assert (bool_decide (rs = [])) in
  let! c := inspect_checkpoint target (partition_key poison) in
  assert (revision c =? 0).

(** The body of the loop of lines 220 to 238: the outcome of an action. *)
Definition same_owner (index : Z) (completion : bool) : M W string :=
  let! d := event ("0" +:+ pretty index +:+ "-same-owner") "" 1 in
  do! seed target d in
  let! rs := claim "reused-owner" 11 1 in
  let! old := only rs in
  let! rs := claim "reused-owner" 13 10 in
  let! current := only rs in
  do! assert (bool_decide (data old = data current) && bool_decide (data current = d)) in
  match lease old, lease current with
  | Some l, Some l' =>
      do! assert (String.eqb (owner l) (owner l') && (attempt_count current =? 2)) in
      try_except
        (do! (if completion then
                do! complete_ d (owner l) 14 v1 in
                let! c := inspect_checkpoint target (partition_key d) in
                assert (revision c =? 1)
              else
                do! release_ d (owner l) 14 in
                let! c := inspect_checkpoint target (partition_key d) in
                assert (revision c =? 0)) in
         ret "accepted-indistinguishable-owner"%string)
        is_meridian
        (λ error, do! assert (String.eqb (error_code error) lost) in
                  ret "rejected-by-adapter-policy-not-port-guarantee"%string)
  | _, _ => raise AssertionError
  end.

Definition run_outbox_conformance : M W OutboxConformanceReport :=
  let! first := event "01-first" "ordered" 1 in
  let! second := event "02-second" "ordered" 2 in
  let! independent := event "03-independent" "" 1 in
  let! leased := check_claims first second independent in
  let! c := check_ownership first leased in
  do! check_reclaim first c in
  do! check_completion first second in
  do! check_poison in
  let! completion := same_owner 5 true in
  let! rel := same_owner 6 false in
  let! l := port_lag (Some (after_start 15)) in
  do! assert (2 <=? incomplete_count l) in
  ret (Report ["bounded-exclusive-claim-and-source-ordering"; "wrong-owner-and-exact-expiry-rejection";
               "reopen-expiry-reclaim-and-exact-version-acknowledgement";
               "completion-checkpoint-reopen-and-monotonic-revision";
               "retry-quarantine-redaction-reopen-and-no-silent-skip"]%string completion rel).
End conformance.

(** ** The reference store *)
Definition reference_target : OutboxConformanceTarget (store * unit) :=
  Target (λ d, lift_fst (append d)) (λ id, lift_fst (get_record id)) (λ p, lift_fst (checkpoint p))
    (ret ()) "conformance.source" "conformance.source@1" [] "structured".

(** The reference store, empty and with a poison threshold of two, passes the
    whole conformance run; the owner-only contract accepts the stale attempt of a
    reused owner, as the port documents. *)
Example reference_store_conforms :
  (run_outbox_conformance (H := store_port (H := example_core) (ret (at_utc 0)))
     reference_target (Store 2 (f64_of_Z 30) ∅ ∅, ())).1 =
  Ok (Report ["bounded-exclusive-claim-and-source-ordering"; "wrong-owner-and-exact-expiry-rejection";
              "reopen-expiry-reclaim-and-exact-version-acknowledgement";
              "completion-checkpoint-reopen-and-monotonic-revision";
              "retry-quarantine-redaction-reopen-and-no-silent-skip"]%string
        "accepted-indistinguishable-owner" "accepted-indistinguishable-owner").
Proof. vm_compute. reflexivity. Qed.
