(* ===== verification/JsonParse.v ===== *)
(** * Reading JSON: [json.loads]

    The decoder of the standard library, on the UTF-8 representation of strings:
    the strict string syntax, the number grammar, the [NaN] and [Infinity]
    literals, and dictionaries in which the last of equal keys wins.  What a
    number with a fraction or an exponent denotes is a parameter, since a float
    is represented by its [repr].  The message of a decoding error is not
    modelled.  The fuel of the decoder is the length of the text, and a value
    takes less. *)
From S2P Require Import Prelude PyTime Sha256 Canonical.

(** [float(text)] on a number literal. *)
Class FloatParser : Type := parse_float : string → pyfloat.

Definition json_decode_error : exn := EPython "json.decoder" "JSONDecodeError" "".

Definition code (c : ascii) : Z := Z.of_N (N_of_ascii c).
Definition is_code (n : Z) (c : ascii) : bool := code c =? n.
Definition is_digit (c : ascii) : bool := (48 <=? code c) && (code c <=? 57).
Definition is_ws (c : ascii) : bool := bool_decide (code c ∈ [32; 9; 10; 13]).

Fixpoint skip_ws (s : string) : string :=
  match s with
  | String c s' => if is_ws c then skip_ws s' else s
  | "" => ""
  end%string.

(** ** Strings *)
Definition hex_value (c : ascii) : option Z :=
  let n := code c in
  if is_digit c then Some (n - 48)
  else if (97 <=? n) && (n <=? 102) then Some (n - 87)
  else if (65 <=? n) && (n <=? 70) then Some (n - 55)
  else None.

Definition hex4 (a b c d : ascii) : option Z :=
  match hex_value a, hex_value b, hex_value c, hex_value d with
  | Some a, Some b, Some c, Some d => Some (((a * 16 + b) * 16 + c) * 16 + d)
  | _, _, _, _ => None
  end.

Definition byte_char (z : Z) : ascii := ascii_of_N (Z.to_N z).

(** The UTF-8 encoding of a code point, before [k]. *)
Definition utf8 (c : Z) (k : string) : string :=
  if c <? 128 then String (byte_char c) k
  else if c <? 2048 then String (byte_char (192 + c / 64)) (String (byte_char (128 + c mod 64)) k)
  else if c <? 65536 then
    String (byte_char (224 + c / 4096)) (String (byte_char (128 + c / 64 mod 64))
      (String (byte_char (128 + c mod 64)) k))
  else
    String (byte_char (240 + c / 262144)) (String (byte_char (128 + c / 4096 mod 64))
      (String (byte_char (128 + c / 64 mod 64)) (String (byte_char (128 + c mod 64)) k))).

Definition simple_escape (c : ascii) : option Z :=
  match code c with
  | 34 => Some 34 | 92 => Some 92 | 47 => Some 47 | 98 => Some 8 | 102 => Some 12
  | 110 => Some 10 | 114 => Some 13 | 116 => Some 9 | _ => None
  end.

Definition is_high (c : Z) : bool := (55296 <=? c) && (c <=? 56319).
Definition is_low (c : Z) : bool := (56320 <=? c) && (c <=? 57343).

Definition prepend (f : string → string) (r : option (string * string)) : option (string * string) :=
  match r with Some (t, rest) => Some (f t, rest) | None => None end.

(** The text of a string after its opening quote, and what follows the closing one. *)
Fixpoint parse_str (s : string) : option (string * string) :=
  match s with
  | "" => None
  | String c s1 =>
      if is_code 34 c then Some ("", s1)
      else if is_code 92 c then
        match s1 with
        | "" => None
        | String e s2 =>
            if is_code 117 e then
              match s2 with
              | String a (String b (String c' (String d s3))) =>
                  match hex4 a b c' d with
                  | None => None
                  | Some u =>
                      let single := prepend (utf8 u) (parse_str s3) in
                      if is_high u then
                        match s3 with
                        | String k (String k' (String a2 (String b2 (String c2 (String d2 s4))))) =>
                            match hex4 a2 b2 c2 d2 with
                            | Some l =>
                                if (is_code 92 k) && (is_code 117 k') && is_low l then
                                  prepend (utf8 (65536 + (u - 55296) * 1024 + (l - 56320))%Z) (parse_str s4)
                                else single
                            | None => single
                            end
                        | _ => single
                        end
                      else single
                  end
              | _ => None
              end
            else match simple_escape e with
                 | Some v => prepend (String (byte_char v)) (parse_str s2)
                 | None => None
                 end
        end
      else if (code c <? 32)%Z then None
      else prepend (String c) (parse_str s1)
  end%string.

(** ** Numbers: an optional sign, an integer without leading zeros, an optional
    fraction and an optional exponent. *)
Fixpoint span_digits (s : string) : string * string :=
  match s with
  | String c s' => if is_digit c then let '(d, r) := span_digits s' in (String c d, r) else ("", s)
  | "" => ("", "")
  end%string.

Fixpoint digits_value (acc : Z) (s : string) : Z :=
  match s with
  | String c s' => digits_value (10 * acc + (code c - 48))%Z s'
  | "" => acc
  end%string.

Definition scan_sign (s : string) : string * string :=
  match s with
  | String c s' => if is_code 45 c then (String c "", s') else ("", s)
  | "" => ("", "")
  end%string.

Definition scan_int (s : string) : option (string * string) :=
  match s with
  | String c s' =>
      if is_code 48 c then Some (String c "", s')
      else if is_digit c then let '(d, r) := span_digits s' in Some (String c d, r)
      else None
  | "" => None
  end%string.

Definition scan_frac (s : string) : string * string :=
  match s with
  | String c s' =>
      if is_code 46 c then
        let '(d, r) := span_digits s' in if nonempty d then (String c d, r) else ("", s)
      else ("", s)
  | "" => ("", "")
  end%string.

Definition scan_exp (s : string) : string * string :=
  match s with
  | String c s' =>
      if (is_code 101 c) || (is_code 69 c) then
        let '(sign, s1) := match s' with
                           | String g s1 => if (is_code 43 g) || (is_code 45 g) then (String g "", s1) else ("", s')
                           | "" => ("", "")
                           end in
        let '(d, r) := span_digits s1 in
        if nonempty d then (String c (sign +:+ d), r) else ("", s)
      else ("", s)
  | "" => ("", "")
  end%string.

Definition scan_number `{FloatParser} (s : string) : option (pyval * string) :=
  let '(sign, s1) := scan_sign s in
  match scan_int s1 with
  | None => None
  | Some (int, s2) =>
      let '(frac, s3) := scan_frac s2 in
      let '(exp, s4) := scan_exp s3 in
      if nonempty frac || nonempty exp then
        Some (PFloat (parse_float (sign +:+ int +:+ frac +:+ exp)), s4)
      else
        let v := digits_value 0 int in
        Some (PInt (if nonempty sign then - v else v), s4)
  end.

(** ** Values *)
Fixpoint scan_literal (literals : list (string * pyval)) (s : string) : option (pyval * string) :=
  match literals with
  | [] => None
  | (text, v) :: literals' =>
      match strip_prefix text s with
      | Some r => Some (v, r)
      | None => scan_literal literals' s
      end
  end.

Definition words : list (string * pyval) :=
  [("null", PNone); ("true", PBool true); ("false", PBool false)]%string.
Definition constants : list (string * pyval) :=
  [("NaN", PFloat FNan); ("Infinity", PFloat (FInfinity false)); ("-Infinity", PFloat (FInfinity true))]%string.

(** [dict(pairs)]: the last of equal keys wins, at the place of the first. *)
Definition dict_of_pairs (l : list (string * pyval)) : pyval :=
  PMapping (map (λ e, (PStr e.1, e.2)) (fold_left (λ d e, dict_set e.1 e.2 d) l [])).

Fixpoint parse_value `{FloatParser} (fuel : nat) (s : string) : option (pyval * string) :=
  match fuel with
  | O => None
  | S n =>
      match s with
      | "" => None
      | String c s1 =>
          if is_code 34 c then
            match parse_str s1 with Some (t, r) => Some (PStr t, r) | None => None end
          else if is_code 123 c then
            match skip_ws s1 with
            | String c' r => if is_code 125 c' then Some (PMapping [], r)
                             else match parse_members n (String c' r) with
                                  | Some (l, r') => Some (dict_of_pairs l, r')
                                  | None => None
                                  end
            | "" => None
            end
          else if is_code 91 c then
            match skip_ws s1 with
            | String c' r => if is_code 93 c' then Some (PSequence [], r)
                             else match parse_items n (String c' r) with
                                  | Some (l, r') => Some (PSequence l, r')
                                  | None => None
                                  end
            | "" => None
            end
          else match scan_literal words s with
               | Some x => Some x
               | None => match scan_number s with
                         | Some x => Some x
                         | None => scan_literal constants s
                         end
               end
      end
  end%string
with parse_items `{FloatParser} (fuel : nat) (s : string) : option (list pyval * string) :=
  match fuel with
  | O => None
  | S n =>
      match parse_value n s with
      | None => None
      | Some (v, r) =>
          match skip_ws r with
          | String c r' =>
              if is_code 93 c then Some ([v], r')
              else if is_code 44 c then
                match parse_items n (skip_ws r') with
                | Some (vs, r'') => Some (v :: vs, r'')
                | None => None
                end
              else None
          | "" => None
          end
      end
  end%string
with parse_members `{FloatParser} (fuel : nat) (s : string) : option (list (string * pyval) * string) :=
  match fuel with
  | O => None
  | S n =>
      match s with
      | String q s1 =>
          if is_code 34 q then
            match parse_str s1 with
            | None => None
            | Some (k, r) =>
                match skip_ws r with
                | String c r1 =>
                    if is_code 58 c then
                      match parse_value n (skip_ws r1) with
                      | None => None
                      | Some (v, r2) =>
                          match skip_ws r2 with
                          | String c r3 =>
                              if is_code 125 c then Some ([(k, v)], r3)
                              else if is_code 44 c then
                                match parse_members n (skip_ws r3) with
                                | Some (l, r4) => Some ((k, v) :: l, r4)
                                | None => None
                                end
                              else None
                          | "" => None
                          end
                      end
                    else None
                | "" => None
                end
            end
          else None
      | "" => None
      end
  end%string.

(** [json.loads(text)] *)
Definition json_loads `{FloatParser} (s : string) : res pyval :=
  match parse_value (S (String.length s)) (skip_ws s) with
  | Some (v, r) => if nonempty (skip_ws r) then Raise json_decode_error else Ok v
  | None => Raise json_decode_error
  end.

(** A parser for examples: the literal is its own [repr]. *)
Definition literal_floats : FloatParser := FFinite.

Example loads_nested :
  json_loads (H := literal_floats)
    (dumps (JObj [("k", JArr [JInt (-12); JFloat "1.5"; JNull; JStr "a\b"]); ("a", JObj [])])) =
  Ok (PMapping [(PStr "a", PMapping []);
                (PStr "k", PSequence [PInt (-12); PFloat (FFinite "1.5"); PNone; PStr "a\b"])]).
Proof. vm_compute. reflexivity. Qed.
Example loads_spaces : is_ok (json_loads (H := literal_floats) " [ 1 , 2.5e3 , true ] ") = true.
Proof. vm_compute. reflexivity. Qed.
Example loads_trailing : is_ok (json_loads (H := literal_floats) "[1,]") = false.
Proof. vm_compute. reflexivity. Qed.

(** ** Round trip *)
Lemma append_cons c s k : (String c s +:+ k = String c (s +:+ k))%string.
Proof. done. Qed.

Lemma append_assoc (a b c : string) : ((a +:+ b) +:+ c = a +:+ (b +:+ c))%string.
Proof. induction a as [|x a IH]; [done|]. by rewrite !append_cons, IH. Qed.

Lemma append_nil (s : string) : (s +:+ "" = s)%string.
Proof. induction s as [|c s IH]; [done|]. by rewrite append_cons, IH. Qed.

Lemma parse_str_char c k : parse_str (escape_char c +:+ k) = prepend (String c) (parse_str k).
Proof. destruct c as [[] [] [] [] [] [] [] []]; reflexivity. Qed.

Lemma parse_str_escape s rest :
  parse_str (escape s +:+ String dquote_char rest) = Some (s, rest).
Proof.
  induction s as [|c s IH]; [done|]. cbn [escape]. by rewrite append_assoc, parse_str_char, IH.
Qed.

(** The text after a value: nothing, or a separator or closing bracket. *)
Definition boundary (s : string) : Prop :=
  match s with
  | "" => True
  | String c _ => code c ∈ [44; 93; 125]
  end%string.

Lemma is_digit_range c : is_digit c = true → 48 ≤ code c ≤ 57.
Proof. unfold is_digit. rewrite andb_true_iff, !Z.leb_le. lia. Qed.

Lemma boundary_digit s : boundary s → span_digits s = (""%string, s).
Proof.
  destruct s as [|c s]; [done|]. cbn. intros Hc. unfold is_digit.
  rewrite !elem_of_cons, elem_of_nil in Hc.
  destruct (Z.leb_spec 48 (code c)), (Z.leb_spec (code c) 57); simpl; done || lia.
Qed.

Lemma span_digits_app d rest :
  all_chars is_digit d = true → span_digits rest = (""%string, rest) → span_digits (d +:+ rest) = (d, rest).
Proof.
  intros Hd Hrest. induction d as [|c d IH]; [done|]. cbn in Hd. apply andb_true_iff in Hd as [Hc Hd].
  rewrite append_cons. cbn [span_digits]. by rewrite Hc, IH.
Qed.

Lemma code_pretty_char (x : N) : (x < 10)%N → code (pretty_N_char x) = 48 + Z.of_N x.
Proof.
  intros Hx. assert (x ∈ [0; 1; 2; 3; 4; 5; 6; 7; 8; 9]%N) as Hin by (rewrite !elem_of_cons; lia).
  rewrite !elem_of_cons, elem_of_nil in Hin. by destruct_or! Hin; subst.
Qed.

Lemma pretty_char_digit (x : N) : (x < 10)%N → is_digit (pretty_N_char x) = true.
Proof. intros Hx. unfold is_digit. rewrite code_pretty_char by done. lia. Qed.

(** The digits printed before [s] are digits, denote [x], and do not start with a zero. *)
Lemma pretty_go_spec (x : N) s :
  all_chars is_digit s = true →
  all_chars is_digit (pretty_N_go x s) = true ∧
  digits_value 0 (pretty_N_go x s) = digits_value (Z.of_N x) s ∧
  ((0 < x)%N → ∃ c s', pretty_N_go x s = String c s' ∧ is_digit c = true ∧ is_code 48 c = false).
Proof.
  revert s. induction (N.lt_wf_0 x) as [x _ IH]. intros s Hs.
  destruct (N.eq_0_gt_0_cases x) as [->|Hx]; [by rewrite pretty_N_go_0|].
  assert (x mod 10 < 10)%N as Hmod by (apply N.mod_lt; lia).
  assert (x `div` 10 < x)%N as Hdiv by (apply N.div_lt; lia).
  rewrite pretty_N_go_step by done.
  destruct (IH (x `div` 10)%N Hdiv (String (pretty_N_char (x mod 10)) s)) as (Hall & Hval & Hhead).
  { cbn. by rewrite pretty_char_digit. }
  split; [done|]. split.
  - rewrite Hval. cbn [digits_value]. rewrite code_pretty_char by done.
    pose proof (N.div_mod x 10 ltac:(lia)). f_equal. lia.
  - intros _. destruct (N.eq_0_gt_0_cases (x `div` 10)) as [H0|Hpos]; [|by apply Hhead].
    rewrite H0, pretty_N_go_0. eexists _, _. split; [done|]. split; [by apply pretty_char_digit|].
    unfold is_code. rewrite code_pretty_char by done. pose proof (N.div_mod x 10 ltac:(lia)) as Hx10.
    rewrite H0 in Hx10. apply Z.eqb_neq. lia.
Qed.

Lemma scan_int_pretty (x : positive) rest :
  boundary rest →
  ∃ d, pretty (N.pos x) = d ∧ scan_int (d +:+ rest) = Some (d, rest) ∧ digits_value 0 d = Zpos x ∧
       ∃ c d', d = String c d' ∧ is_digit c = true.
Proof.
  intros Hrest. eexists. split; [reflexivity|]. unfold pretty, pretty_N.
  rewrite decide_False by done.
  destruct (pretty_go_spec (N.pos x) ""%string eq_refl) as (Hall & Hval & Hhead).
  destruct (Hhead ltac:(lia)) as (c & d' & Hd & Hc & H0). rewrite Hd in *. cbn in Hall.
  apply andb_true_iff in Hall as [_ Hall].
  split; [|split; [done|by eauto]].
  rewrite append_cons. cbn [scan_int]. rewrite H0, Hc.
  by rewrite (span_digits_app d' rest Hall (boundary_digit _ Hrest)).
Qed.

Lemma boundary_frac s : boundary s → scan_frac s = (""%string, s) ∧ scan_exp s = (""%string, s).
Proof.
  destruct s as [|c s]; [done|]. cbn. rewrite !elem_of_cons, elem_of_nil. unfold is_code.
  intros [->|[->|[->|[]]]]; done.
Qed.

Section roundtrip.
Context `{FloatParser}.

Lemma scan_number_pretty z rest :
  boundary rest → scan_number (pretty z +:+ rest) = Some (PInt z, rest).
Proof.
  intros Hrest. destruct (boundary_frac rest Hrest) as [Hfrac Hexp]. unfold scan_number.
  destruct z as [|x|x].
  - change (pretty 0 +:+ rest)%string with (String "0" rest). 
    assert (scan_sign (String "0" rest) = (""%string, String "0" rest)) as -> by done.
    assert (scan_int (String "0" rest) = Some ("0"%string, rest)) as -> by done.
    by rewrite Hfrac, Hexp.
  - destruct (scan_int_pretty x rest Hrest) as (d & Hd & Hscan & Hval & c & d' & -> & Hc).
    change (pretty (Zpos x)) with (pretty (N.pos x)). rewrite Hd.
    assert (scan_sign (String c d' +:+ rest) = (""%string, (String c d' +:+ rest)%string)) as ->.
    { rewrite append_cons. cbn [scan_sign]. apply is_digit_range in Hc. unfold is_code.
      destruct (Z.eqb_spec (code c) 45); [lia|done]. }
    rewrite Hscan, Hfrac, Hexp. cbn [nonempty String.eqb negb orb]. by rewrite Hval.
  - destruct (scan_int_pretty x rest Hrest) as (d & Hd & Hscan & Hval & _).
    change (pretty (Zneg x)) with ("-" +:+ pretty (N.pos x))%string. rewrite Hd, append_assoc.
    change ("-" +:+ (d +:+ rest))%string with (String "-" (d +:+ rest)).
    assert (scan_sign (String "-" (d +:+ rest)) = ("-"%string, (d +:+ rest)%string)) as -> by done.
    rewrite Hscan, Hfrac, Hexp. cbn [nonempty String.eqb negb orb]. by rewrite Hval.
Qed.

(** A float literal: the number grammar, and its own [repr]. *)
Definition float_literal (r : string) : Prop :=
  ∀ rest, boundary rest → scan_number (r +:+ rest) = Some (PFloat (FFinite r), rest).

(** Objects have distinct keys and floats are written as their [repr]. *)
Fixpoint readable (j : json) : Prop :=
  match j with
  | JFloat r => float_literal r
  | JArr l => foldr (λ x P, readable x ∧ P) True l
  | JObj l => NoDup (map fst l) ∧ foldr (λ e P, readable e.2 ∧ P) True l
  | _ => True
  end.

Lemma readable_arr l : readable (JArr l) ↔ Forall readable l.
Proof. simpl. induction l as [|x l IH]; simpl; [by split|]. rewrite Forall_cons, IH. done. Qed.

Lemma readable_obj l : readable (JObj l) ↔ NoDup (map fst l) ∧ Forall (λ e, readable e.2) l.
Proof.
  simpl. assert (foldr (λ e P, readable e.2 ∧ P) True l ↔ Forall (λ e, readable e.2) l) as ->; [|done].
  induction l as [|x l IH]; simpl; [by split|]. rewrite Forall_cons, IH. done.
Qed.

Lemma scan_number_head s x :
  scan_number s = Some x → ∃ c s', s = String c s' ∧ (code c = 45 ∨ is_digit c = true).
Proof.
  unfold scan_number, scan_sign. destruct s as [|c s]; [done|]. intros Hs. exists c, s. split; [done|].
  unfold is_code in Hs. destruct (Z.eqb_spec (code c) 45) as [|Hne]; [by left|]. right.
  cbn [scan_int] in Hs. unfold is_code in Hs. destruct (Z.eqb_spec (code c) 48) as [H48|].
  - unfold is_digit. rewrite H48. done.
  - by destruct (is_digit c).
Qed.

Lemma parse_value_number n s x : scan_number s = Some x → parse_value (S n) s = Some x.
Proof.
  intros Hs. destruct (scan_number_head s x Hs) as (c & s' & -> & Hc).
  assert (code c = 45 ∨ 48 ≤ code c ≤ 57) as Hr by (destruct Hc as [?|?%is_digit_range]; auto).
  cbn [parse_value]. unfold is_code.
  rewrite (proj2 (Z.eqb_neq (code c) 34)), (proj2 (Z.eqb_neq (code c) 123)), (proj2 (Z.eqb_neq (code c) 91)) by lia.
  assert (scan_literal words (String c s') = None) as ->; [|by rewrite Hs].
  cbn. rewrite !bool_decide_false; [done|..]; intros <-; unfold code in Hr; cbn in Hr; lia.
Qed.

(** The first character of an encoded value: no white space, no closing bracket. *)
Definition opens (c : ascii) : Prop := is_ws c = false ∧ is_code 93 c = false ∧ is_code 125 c = false.

Lemma opens_number c : code c = 45 ∨ is_digit c = true → opens c.
Proof.
  intros Hc. assert (code c = 45 ∨ 48 ≤ code c ≤ 57) as Hr by (destruct Hc as [?|?%is_digit_range]; auto).
  unfold opens, is_ws, is_code. rewrite bool_decide_false by (rewrite !elem_of_cons, elem_of_nil; lia).
  by rewrite !(proj2 (Z.eqb_neq _ _)) by lia.
Qed.

Lemma dumps_opens j : readable j → ∃ c s, dumps j = String c s ∧ opens c.
Proof.
  destruct j as [|[]|z|r|s|l|l]; intros Hj; try (by eexists _, _).
  - assert (∃ x, scan_number (pretty z +:+ "") = Some x) as [x Hx].
    { eexists. by apply scan_number_pretty. }
    rewrite append_nil in Hx. destruct (scan_number_head _ _ Hx) as (c & s & Hs & Hc).
    exists c, s. split; [done|]. by apply opens_number.
  - specialize (Hj ""%string I). rewrite append_nil in Hj.
    destruct (scan_number_head _ _ Hj) as (c & s & Hs & Hc).
    exists c, s. split; [done|]. by apply opens_number.
Qed.

Lemma skip_ws_opens c s : opens c → skip_ws (String c s) = String c s.
Proof. intros (Hc & _). cbn. by rewrite Hc. Qed.

(** The fuel a value takes. *)
Fixpoint jsize (j : json) : nat :=
  match j with
  | JArr l => S (sum_list_with (λ x, S (jsize x)) l)
  | JObj l => S (sum_list_with (λ e, S (jsize e.2)) l)
  | _ => 1
  end.

Definition reads (j : json) : Prop :=
  ∀ n rest, (jsize j ≤ n)%nat → boundary rest →
    parse_value n (dumps j +:+ rest) = Some (of_json (normalize j), rest).

Lemma parse_items_join l n rest :
  l ≠ [] → Forall readable l → Forall reads l → (sum_list_with (λ x, S (jsize x)) l ≤ n)%nat →
  parse_items n (join "," (map dumps l) +:+ String "]" rest) =
    Some (map (λ j, of_json (normalize j)) l, rest).
Proof.
  intros Hne Hr Hl. revert n. induction Hl as [|j l Hj Hl IH]; intros n Hn; [done|].
  apply Forall_cons in Hr as [Hrj Hr]. cbn [sum_list_with] in Hn.
  destruct n as [|n]; [lia|]. destruct l as [|j' l].
  - cbn [map join parse_items]. rewrite Hj by (done || lia || (cbn; set_solver)). done.
  - cbn [map join parse_items]. rewrite !append_assoc.
    change ("," +:+ ?k)%string with (String "," k).
    rewrite Hj by (lia || (cbn; rewrite !elem_of_cons; auto)).
    cbn [skip_ws]. replace (is_ws ",") with false by reflexivity.
    replace (is_code 93 ",") with false by reflexivity. replace (is_code 44 ",") with true by reflexivity.
    assert (∀ k, skip_ws (join "," (dumps j' :: map dumps l) +:+ k) = (join "," (dumps j' :: map dumps l) +:+ k)%string) as Hws.
    { intros k. apply Forall_cons in Hr as [Hrj' _]. destruct (dumps_opens j' Hrj') as (c & s & -> & Hc).
      destruct l as [|j2 l]; cbn [map join]; rewrite ?append_assoc, append_cons; by apply skip_ws_opens. }
    cbn [map] in IH. rewrite Hws, IH; [done|done|done|lia].
Qed.

Lemma skip_ws_dumps j k : readable j → skip_ws (dumps j +:+ k) = (dumps j +:+ k)%string.
Proof.
  intros Hj. destruct (dumps_opens j Hj) as (c & s & -> & Hc). rewrite append_cons. by apply skip_ws_opens.
Qed.

(** One member of an object, before [k]. *)
Lemma dump_entry_app key j k :
  (dump_entry (key, dumps j) +:+ k =
   String dquote_char (escape key +:+ String dquote_char (String ":" (dumps j +:+ k))))%string.
Proof. unfold dump_entry, dump_str. cbn [fst snd]. by rewrite !append_assoc, append_cons, append_assoc. Qed.

Definition member_value (e : string * json) : string * pyval := (e.1, of_json (normalize e.2)).

Lemma parse_members_join l n rest :
  l ≠ [] → Forall (λ e : string * json, readable e.2) l → Forall (λ e : string * json, reads e.2) l →
  (sum_list_with (λ e, S (jsize e.2)) l ≤ n)%nat →
  parse_members n (join "," (map (λ e, dump_entry (e.1, dumps e.2)) l) +:+ String "}" rest) =
    Some (map member_value l, rest).
Proof.
  intros Hne Hr Hl. revert n. induction Hl as [|[key j] l Hj Hl IH]; intros n Hn; [done|].
  apply Forall_cons in Hr as [Hrj Hr]. cbn [sum_list_with fst snd] in *.
  destruct n as [|n]; [lia|].
  assert (∀ k, boundary k → parse_members (S n) (dump_entry (key, dumps j) +:+ k) =
    match skip_ws k with
    | String c r3 =>
        if is_code 125 c then Some ([(key, of_json (normalize j))], r3)
        else if is_code 44 c then
          match parse_members n (skip_ws r3) with
          | Some (l, r4) => Some ((key, of_json (normalize j)) :: l, r4)
          | None => None
          end
        else None
    | "" => None
    end%string) as Hmember.
  { intros k Hk. rewrite dump_entry_app. cbn [parse_members].
    replace (is_code 34 dquote_char) with true by reflexivity. rewrite parse_str_escape.
    cbn [skip_ws]. replace (is_ws ":") with false by reflexivity.
    replace (is_code 58 ":") with true by reflexivity.
    rewrite skip_ws_dumps by done. rewrite Hj by (done || lia). done. }
  destruct l as [|[key' j'] l].
  - cbn [map join fst snd]. rewrite Hmember by (cbn; set_solver). done.
  - cbn [map join fst snd]. rewrite !append_assoc.
    change ("," +:+ ?k)%string with (String "," k).
    rewrite Hmember by (cbn; rewrite !elem_of_cons; auto).
    cbn [skip_ws]. replace (is_ws ",") with false by reflexivity.
    replace (is_code 125 ",") with false by reflexivity. replace (is_code 44 ",") with true by reflexivity.
    assert (∀ k, skip_ws (join "," (dump_entry (key', dumps j') :: map (λ e, dump_entry (e.1, dumps e.2)) l) +:+ k) =
      (join "," (dump_entry (key', dumps j') :: map (λ e, dump_entry (e.1, dumps e.2)) l) +:+ k)%string) as Hws.
    { intros k. destruct l as [|e l]; cbn [map join]; rewrite ?append_assoc, dump_entry_app; done. }
    cbn [map fst snd] in IH. rewrite Hws, IH; [done|done|done|lia].
Qed.

Lemma fold_dict_set (l d : list (string * pyval)) :
  NoDup (map fst (d ++ l)) → fold_left (λ d e, dict_set e.1 e.2 d) l d = d ++ l.
Proof.
  revert d. induction l as [|[k v] l IH]; intros d Hnd; cbn [fold_left]; [by rewrite app_nil_r|].
  rewrite map_app in Hnd. cbn in Hnd. rewrite dict_set_fresh.
  - rewrite IH; [by rewrite <-app_assoc|]. by rewrite <-app_assoc, map_app.
  - apply NoDup_app in Hnd as (_ & Hnd & _). intros Hin. by apply (Hnd k Hin); left.
Qed.

Lemma sort_keys_sum (l : list (string * json)) (f : json → nat) :
  sum_list_with (λ e, f e.2) (sort_keys l) = sum_list_with (λ e, f e.2) l.
Proof.
  assert (∀ l1 l2 : list (string * json), l1 ≡ₚ l2 →
    sum_list_with (λ e, f e.2) l1 = sum_list_with (λ e, f e.2) l2) as Hperm; [|apply Hperm, sort_keys_perm].
  induction 1; cbn; lia.
Qed.

Lemma dumps_reads j : readable j → reads j.
Proof.
  induction j as [|b|z|r|s|l IH|l IH] using json_induction; intros Hr n rest Hn Hrest;
    (destruct n as [|n]; [cbn in Hn; lia|]).
  - done.
  - by destruct b.
  - apply parse_value_number. by apply scan_number_pretty.
  - by apply parse_value_number, Hr.
  - cbn [dumps]. unfold dump_str. rewrite append_cons. cbn [parse_value].
    replace (is_code 34 dquote_char) with true by reflexivity.
    rewrite append_assoc. change (String dquote_char "" +:+ rest)%string with (String dquote_char rest).
    by rewrite parse_str_escape.
  - rewrite readable_arr in Hr. pose proof (Forall_impl_Forall _ _ _ IH Hr) as Hreads.
    cbn [dumps normalize of_json]. cbn [jsize] in Hn. rewrite !append_assoc.
    change ("[" +:+ ?k)%string with (String "[" k). change ("]" +:+ ?k)%string with (String "]" k).
    cbn [parse_value]. replace (is_code 34 "[") with false by reflexivity.
    replace (is_code 123 "[") with false by reflexivity. replace (is_code 91 "[") with true by reflexivity.
    destruct l as [|j l]; [done|].
    assert (∃ c s, (join "," (map dumps (j :: l)) +:+ String "]" rest)%string = String c s ∧ opens c) as (c & s & Hs & Hc).
    { apply Forall_cons in Hr as [Hj _]. destruct (dumps_opens j Hj) as (c & s & Hs & Hc).
      destruct l as [|j2 l]; cbn [map join]; rewrite Hs, ?append_assoc, append_cons; by eexists _, _. }
    pose proof (parse_items_join (j :: l) n rest ltac:(done) Hr Hreads ltac:(lia)) as Hitems.
    rewrite Hs in Hitems |- *. rewrite skip_ws_opens by done.
    destruct Hc as (_ & Hc & _). rewrite Hc, Hitems. by rewrite List.map_map.
  - rewrite readable_obj in Hr. destruct Hr as [Hnd Hr].
    pose proof (Forall_impl_Forall _ _ _ IH Hr) as Hreads.
    cbn [dumps normalize of_json]. cbn [jsize] in Hn.
    rewrite (sort_keys_map dumps), (sort_keys_map normalize), !List.map_map by done. cbn [fst snd].
    rewrite <-(sort_keys_sum l (λ j, S (jsize j))) in Hn.
    rewrite <-(sort_keys_perm l) in Hnd, Hr, Hreads. set (l' := sort_keys l) in *. clearbody l'. clear IH l.
    rewrite !append_assoc.
    change ("{" +:+ ?k)%string with (String "{" k). change ("}" +:+ ?k)%string with (String "}" k).
    cbn [parse_value]. replace (is_code 34 "{") with false by reflexivity.
    replace (is_code 123 "{") with true by reflexivity.
    destruct l' as [|[key j] l]; [done|].
    pose proof (parse_members_join ((key, j) :: l) n rest ltac:(done) Hr Hreads ltac:(lia)) as Hmembers.
    assert (∃ s, (join "," (map (λ e : string * json, dump_entry (e.1, dumps e.2)) ((key, j) :: l)) +:+
      String "}" rest)%string = String dquote_char s) as [s Hs].
    { destruct l as [|e l]; cbn [map join fst snd]; rewrite ?append_assoc, dump_entry_app; by eexists. }
    rewrite Hs in Hmembers |- *. cbn [skip_ws]. replace (is_ws dquote_char) with false by reflexivity.
    replace (is_code 125 dquote_char) with false by reflexivity. rewrite Hmembers.
    unfold dict_of_pairs. rewrite fold_dict_set.
    + cbn [app]. by rewrite !List.map_map.
    + cbn [app]. by rewrite List.map_map.
Qed.

(** The text of a value is at least as long as the fuel the value takes. *)
Lemma length_app_str (a b : string) : String.length (a +:+ b) = (String.length a + String.length b)%nat.
Proof. induction a as [|c a IH]; [done|]. rewrite append_cons. cbn. by rewrite IH. Qed.

Lemma join_length {A} (f : A → string) l :
  (sum_list_with (λ x, S (String.length (f x))) l ≤ S (String.length (join "," (map f l))))%nat.
Proof.
  induction l as [|x l IH]; [cbn; lia|]. destruct l as [|y l]; [cbn; lia|].
  cbn [sum_list_with map join] in *. rewrite !length_app_str. cbn [String.length]. lia.
Qed.

Lemma sum_with_le {A} (f g : A → nat) l : Forall (λ x, (f x ≤ g x)%nat) l → (sum_list_with f l ≤ sum_list_with g l)%nat.
Proof. induction 1; cbn; lia. Qed.

Lemma dumps_length j : readable j → (jsize j ≤ String.length (dumps j))%nat.
Proof.
  induction j as [|b|z|r|s|l IH|l IH] using json_induction; intros Hr; try (cbn; lia).
  - destruct b; cbn; lia.
  - destruct (dumps_opens (JInt z) I) as (c & s & -> & _). cbn. lia.
  - destruct (dumps_opens (JFloat r) Hr) as (c & s & -> & _). cbn. lia.
  - rewrite readable_arr in Hr. cbn [dumps jsize]. rewrite !length_app_str. cbn [String.length].
    pose proof (join_length dumps l) as Hjoin.
    pose proof (sum_with_le (λ j, S (jsize j)) (λ j, S (String.length (dumps j))) l) as Hle.
    specialize (Hle ltac:(eapply Forall_impl; [exact (Forall_impl_Forall _ _ _ IH Hr)|cbn; lia])). lia.
  - rewrite readable_obj in Hr. destruct Hr as [Hnd Hr]. cbn [dumps jsize]. rewrite !length_app_str. cbn [String.length].
    rewrite (sort_keys_map dumps), List.map_map by done. cbn [fst snd].
    pose proof (join_length (λ e : string * json, dump_entry (e.1, dumps e.2)) (sort_keys l)) as Hjoin.
    rewrite <-(sort_keys_sum l (λ j, S (jsize j))).
    pose proof (sum_with_le (λ e : string * json, S (jsize e.2))
      (λ e, S (String.length (dump_entry (e.1, dumps e.2)))) (sort_keys l)) as Hle.
    assert (Forall (λ e : string * json, (S (jsize e.2) ≤ S (String.length (dump_entry (e.1, dumps e.2))))%nat) (sort_keys l)) as Hall.
    { rewrite (sort_keys_perm l). eapply Forall_impl; [exact (Forall_impl_Forall _ _ _ IH Hr)|].
      intros [k j] Hj. unfold dump_entry. cbn [fst snd] in *. rewrite !length_app_str. lia. }
    specialize (Hle Hall). lia.
Qed.

Lemma readable_wf j : readable j → json_wf j.
Proof.
  induction j as [| | | | |l IH|l IH] using json_induction; try done.
  - rewrite readable_arr, json_wf_arr. by apply Forall_impl_Forall.
  - rewrite readable_obj, json_wf_obj. intros [Hnd Hl]. split; [done|]. exact (Forall_impl_Forall _ _ _ IH Hl).
Qed.

Lemma json_loads_of_dumps j : readable j → json_loads (dumps j) = Ok (of_json (normalize j)).
Proof.
  intros Hj. unfold json_loads. rewrite <-(append_nil (dumps j)) at 2. rewrite skip_ws_dumps by done.
  rewrite (dumps_reads j Hj); [done| |done]. pose proof (dumps_length j Hj). lia.
Qed.
End roundtrip.

(** C35: decoding the canonical bytes of a value gives the value back, with the
    keys of its objects sorted; converting the result gives the same bytes and
    the same digest. *)
Theorem json_loads_dumps `{FloatParser} j :
  readable j →
  json_loads (canonical_json_bytes j) = Ok (of_json (normalize j)) ∧
  json_value (of_json (normalize j)) = Ok (normalize j) ∧
  canonical_json_bytes (normalize j) = canonical_json_bytes j.
Proof.
  intros Hr. pose proof (readable_wf j Hr) as Hj. split; [by apply json_loads_of_dumps|]. split.
  - by apply json_value_of_json, normalize_wf.
  - by apply dumps_normalize.
Qed.

Lemma json_loads_dumps_witness :
  let j := JObj [("b", JArr [JInt (-120); JFloat "1.5"]); ("a", JStr "x y")]%string in
  json_loads (H := literal_floats) (canonical_json_bytes j) =
    Ok (PMapping [(PStr "a", PStr "x y"); (PStr "b", PSequence [PInt (-120); PFloat (FFinite "1.5")])]).
Proof.
  intros j. apply (json_loads_dumps (H := literal_floats) j).
  split; [by apply (bool_decide_eq_true_1 (NoDup ["b"; "a"]%string))|]. split; [|done]. split; [done|]. split; [|done].
  intros rest Hrest. destruct (boundary_frac rest Hrest) as [Hfrac Hexp].
  pose proof (boundary_digit rest Hrest) as Hdigit.
  unfold scan_number.
  assert (scan_sign ("1.5" +:+ rest) = (""%string, ("1.5" +:+ rest)%string)) as -> by reflexivity.
  assert (scan_int ("1.5" +:+ rest) = Some ("1"%string, (".5" +:+ rest)%string)) as -> by reflexivity.
  assert (scan_frac (".5" +:+ rest) = (".5"%string, rest)) as ->.
  { assert (scan_frac (".5" +:+ rest) =
      let '(d, r) := span_digits ("5" +:+ rest) in
      if nonempty d then (String "." d, r) else (""%string, (".5" +:+ rest)%string)) as -> by reflexivity.
    by rewrite (span_digits_app "5" rest). }
  rewrite Hexp. reflexivity.
Defined.
