(* ===== verification/CacheModel.v ===== *)
(** * Cache policies and backends ([cache/model.py], [cache/backends.py])

    The validated policy, the key of a cached value, the backend port with its
    in-memory implementation and the adapter over the cache Catalog.  The entry
    type [CacheEntry] belongs to Core: its constructor and fields are
    parameters, with the law that the fields are what the constructor was
    given as a separate hypothesis. *)
From S2P Require Import Prelude PyTime Sha256 Canonical Errors OutboxModel Runner.

(** ** [cache/model.py] *)
Inductive SourceVersionStrategy : Type := NONE | EXACT | AT_LEAST.
Inductive CacheOutcome : Type := HIT | MISS | NEGATIVE_HIT | STALE | BYPASS.
#[export] Instance SourceVersionStrategy_eq_dec : EqDecision SourceVersionStrategy.
Proof. solve_decision. Defined.
#[export] Instance CacheOutcome_eq_dec : EqDecision CacheOutcome.
Proof. solve_decision. Defined.

Definition strategy_value (s : SourceVersionStrategy) : string :=
  match s with NONE => "none" | EXACT => "exact" | AT_LEAST => "at-least" end.

Record CachePolicy : Type := MkPolicy {
  cp_source_resource : string;
  cp_cache_resource : string;
  cp_key_fields : list string;
  cp_serializer_id : string;
  cp_schema_fingerprint : string;
  cp_default_ttl : timedelta;
  cp_maximum_ttl : timedelta;
  cp_maximum_staleness : timedelta;
  cp_negative_ttl : option timedelta;
  cp_strategy : SourceVersionStrategy;
  cp_enabled : bool;
  cp_fallback : bool;
  cp_maximum_key_bytes : Z;
}.

(** [CachePolicy.__post_init__]; the tests of Python types hold by typing. *)
Definition make_policy (p : CachePolicy) : res CachePolicy :=
  do? require_nonempty
        [("source_resource", cp_source_resource p); ("cache_resource", cp_cache_resource p);
         ("serializer_id", cp_serializer_id p); ("schema_fingerprint", cp_schema_fingerprint p)] in
  do? raise_if (bool_decide (cp_key_fields p = []) || negb (unique (cp_key_fields p)))
        (ValueError "key_fields must be non-empty and unique") in
  do? raise_if (negb (forallb nonempty (cp_key_fields p)))
        (ValueError "key_fields must contain non-empty strings") in
  do? raise_if (negb (is_sha256 (cp_schema_fingerprint p)))
        (ValueError "schema_fingerprint must use the sha256:<hex> form") in
  do? raise_if ((cp_default_ttl p <=? 0) || (cp_maximum_ttl p <=? 0))
        (ValueError "cache TTLs must be positive") in
  do? raise_if (cp_maximum_ttl p <? cp_default_ttl p)
        (ValueError "default_ttl cannot exceed maximum_ttl") in
  do? raise_if (cp_maximum_staleness p <? 0)
        (ValueError "maximum_staleness cannot be negative") in
  do? (match cp_negative_ttl p with
       | None => Ok ()
       | Some ttl =>
           do? raise_if (ttl <=? 0) (ValueError "negative_ttl must be positive") in
           raise_if (cp_maximum_ttl p <? ttl) (ValueError "negative_ttl cannot exceed maximum_ttl")
       end) in
  do? raise_if (cp_maximum_key_bytes p <? 64)
        (ValueError "maximum_key_bytes must be at least 64") in
  Ok p.

(** [isinstance(v, (Mapping, list, tuple, set, bytes, bytearray))] or [None]. *)
Definition not_scalar (v : pyval) : bool :=
  match v with
  | PNone | PMapping _ | PSequence _ => true
  | POther name => bool_decide (name ∈ ["set"; "bytes"; "bytearray"]%string)
  | _ => false
  end.

(** [CachePolicy.key] *)
Definition policy_key (p : CachePolicy) (identity : list (string * pyval)) : res (list pyval) :=
  let missing := List.filter (λ name, negb (is_some (dict_get name identity))) (cp_key_fields p) in
  do? raise_if (negb (bool_decide (missing = [])))
        (ValueError ("cache identity is missing key fields: " +:+ join ", " missing)) in
  let get name := default PNone (dict_get name identity) in
  let invalid := List.filter (λ name, not_scalar (get name)) (cp_key_fields p) in
  do? raise_if (negb (bool_decide (invalid = [])))
        (ValueError ("cache key fields must be non-null scalars: " +:+ join ", " invalid)) in
  let key := PStr (cp_source_resource p) :: map get (cp_key_fields p) in
  let? bytes := canonical_bytes_of (PSequence key) in
  do? raise_if (cp_maximum_key_bytes p <? Z.of_nat (String.length bytes))
        (ValueError "cache key exceeds maximum_key_bytes") in
  Ok key.

(** [int(delta.total_seconds() * 1000)] *)
Definition milliseconds (delta : timedelta) : res Z := f64_trunc (f64_mul (total_seconds delta) (f64_of_Z 1000)).

(** [CachePolicy.to_mapping] *)
Definition policy_to_mapping (p : CachePolicy) : res json :=
  let? default_ms := ttl_ms (cp_default_ttl p) in
  let? maximum_ms := ttl_ms (cp_maximum_ttl p) in
  let? staleness_ms := milliseconds (cp_maximum_staleness p) in
  let? negative_ms := match cp_negative_ttl p with
                      | Some ttl => res_map JInt (ttl_ms ttl)
                      | None => Ok JNull
                      end in
  Ok (JObj [("sourceResource", JStr (cp_source_resource p)); ("cacheResource", JStr (cp_cache_resource p));
            ("keyFields", JArr (map JStr (cp_key_fields p))); ("serializerId", JStr (cp_serializer_id p));
            ("schemaFingerprint", JStr (cp_schema_fingerprint p)); ("defaultTtlMs", JInt default_ms);
            ("maximumTtlMs", JInt maximum_ms); ("maximumStalenessMs", JInt staleness_ms);
            ("negativeTtlMs", negative_ms); ("sourceVersionStrategy", JStr (strategy_value (cp_strategy p)));
            ("enabled", JBool (cp_enabled p)); ("fallbackToAuthoritative", JBool (cp_fallback p));
            ("maximumKeyBytes", JInt (cp_maximum_key_bytes p))]).

Record LoadedValue : Type := Loaded { loaded_value : pyval; loaded_version : option version }.

Record CacheRead : Type := MkRead {
  read_value : option pyval;
  read_version : option version;
  read_outcome : CacheOutcome;
  read_error : option string;
}.

Record InvalidationResult : Type := MkInvalidation {
  successful : bool; invalidated : Z; invalidation_error : option string }.

(** ** Timestamps of entries, and [_canonical.parse_rfc3339] *)

(** [datetime.fromisoformat] *)
Class DatetimeParser : Type := fromisoformat : string → res datetime.

Definition parse_rfc3339 `{DatetimeParser} (value field : string) : res instant :=
  match fromisoformat (str_replace "Z" "+00:00" value) with
  | Ok parsed => ensure_utc parsed field
  | Raise e => Raise (if is_value_error e then ValueError (field +:+ " must be an RFC 3339 timestamp") else e)
  end.

Inductive timestamp : Type := TText (s : string) | TDatetime (t : datetime).

(** ** Core's [CacheEntry] *)
Class CacheEntryApi : Type := {
  CacheEntry : Type;
  entry_key : CacheEntry → json;
  entry_value : CacheEntry → json;
  entry_serializer_id : CacheEntry → string;
  entry_schema_fingerprint : CacheEntry → string;
  entry_created_at : CacheEntry → timestamp;
  entry_expires_at : CacheEntry → option timestamp;
  entry_source_version : CacheEntry → option version;
  new_entry (key value : json) (serializer_id schema_fingerprint : string) (created_at : instant)
    (expires_at : option instant) (source_version : option version) : res CacheEntry;
  entry_to_dict : CacheEntry → list (pyval * pyval);
}.

Record VersionedCacheEntry `{CacheEntryApi} : Type := Versioned {
  versioned_entry : CacheEntry; entry_version : version }.

(** [CacheBackend] *)
Class CacheBackend (W : Type) `{CacheEntryApi} : Type := {
  cache_get : string → pyval → M W (option VersionedCacheEntry);
  cache_put : string → CacheEntry → Z → M W version;
  cache_put_if_absent : string → CacheEntry → Z → M W bool;
  cache_compare_and_set : string → CacheEntry → version → Z → M W bool;
  cache_delete : string → pyval → M W bool;
  cache_invalidate : string → list (pyval * pyval) → M W Z;
}.

(** ** [InMemoryCacheBackend] *)
Section memory.
Context `{CacheEntryApi}.

Record memory_cache : Type := MemoryCache {
  entries : gmap (string * string) VersionedCacheEntry;
  cache_revision : Z;
  available : bool;
}.

Definition empty_cache : memory_cache := MemoryCache ∅ 0 true.
Definition set_available (available : bool) : M memory_cache unit :=
  modify (λ m, MemoryCache (entries m) (cache_revision m) available).
Definition require_available : M memory_cache unit :=
  let! m := get in lift_res (raise_if (negb (available m)) (RuntimeError "cache backend unavailable")).

(** [_key] of a key that was given, and of a stored entry. *)
Definition memory_key (resource : string) (key : pyval) : res (string * string) :=
  res_map (pair resource) (digest_of key).
Definition stored_key (resource : string) (e : CacheEntry) : string * string :=
  (resource, sha256_digest (entry_key e)).

Definition next_version : M memory_cache Z :=
  do! modify (λ m, MemoryCache (entries m) (cache_revision m + 1) (available m)) in gets cache_revision.
Definition set_entries (f : gmap (string * string) VersionedCacheEntry → gmap (string * string) VersionedCacheEntry)
    : M memory_cache unit :=
  modify (λ m, MemoryCache (f (entries m)) (cache_revision m) (available m)).

Definition memory_get (resource : string) (key : pyval) : M memory_cache (option VersionedCacheEntry) :=
  do! require_available in
  let! k := lift_res (memory_key resource key) in
  gets (λ m, entries m !! k).

Definition memory_put (resource : string) (e : CacheEntry) (ttl_ms : Z) : M memory_cache version :=
  do! require_available in
  let! v := next_version in
  do! set_entries (insert (stored_key resource e) (Versioned _ e (VInt v))) in
  ret (VInt v).

Definition memory_put_if_absent (resource : string) (e : CacheEntry) (ttl_ms : Z) : M memory_cache bool :=
  do! require_available in
  let! m := get in
  if is_some (entries m !! stored_key resource e) then ret false
  else
    let! v := next_version in
    do! set_entries (insert (stored_key resource e) (Versioned _ e (VInt v))) in
    ret true.

Definition memory_compare_and_set (resource : string) (e : CacheEntry) (expected : version) (ttl_ms : Z)
    : M memory_cache bool :=
  do! require_available in
  let! m := get in
  match entries m !! stored_key resource e with
  | None => ret false
  | Some current =>
      if negb (version_eqb (Some (entry_version current)) (Some expected)) then ret false
      else
        let! v := next_version in
        do! set_entries (insert (stored_key resource e) (Versioned _ e (VInt v))) in
        ret true
  end.

Definition memory_delete (resource : string) (key : pyval) : M memory_cache bool :=
  do! require_available in
  let! k := lift_res (memory_key resource key) in
  let! m := get in
  do! set_entries (delete k) in
  ret (is_some (entries m !! k)).

Definition of_resource (resource : string) (kv : (string * string) * VersionedCacheEntry) : Prop :=
  kv.1.1 = resource.
#[export] Instance of_resource_dec resource kv : Decision (of_resource resource kv).
Proof. unfold of_resource. apply _. Defined.

Definition memory_invalidate (resource : string) (selector : list (pyval * pyval)) : M memory_cache Z :=
  do! require_available in
  do! lift_res (raise_if (match mapping_get "all" selector with Some (PBool true) => false | _ => true end)
        (ValueError "in-memory invalidation supports only {'all': true}")) in
  let! m := get in
  do! set_entries (filter (λ kv, ¬ of_resource resource kv)) in
  ret (Z.of_nat (size (filter (of_resource resource) (entries m)))).

#[export] Instance InMemoryCacheBackend : CacheBackend memory_cache := {|
  cache_get := memory_get; cache_put := memory_put; cache_put_if_absent := memory_put_if_absent;
  cache_compare_and_set := memory_compare_and_set; cache_delete := memory_delete;
  cache_invalidate := memory_invalidate |}.
End memory.

(** ** [MeridianCacheBackend]: the cache Catalog of the runtime *)
Definition CACHE_ENVELOPE_FORMAT_VERSION : string := "meridian.cache-envelope.v1".

(** The expressions built by the cache surface; executing one is Core's. *)
Inductive cache_request `{CacheEntryApi} : Type :=
| GetRequest (resource : string) (key : pyval)
| PutRequest (resource : string) (key : json) (value : list (pyval * pyval)) (ttl_ms : Z) (v : option version)
| PutIfAbsentRequest (resource : string) (key : json) (value : list (pyval * pyval)) (ttl_ms : Z) (v : option version)
| CompareAndSetRequest (resource : string) (key : json) (expected : version) (value : list (pyval * pyval)) (ttl_ms : Z)
| DeleteRequest (resource : string) (key : pyval)
| InvalidateRequest (resource : string) (selector : list (pyval * pyval)).

Section catalog.
Context `{CoreApi} `{CacheEntryApi} `{DatetimeParser} {W : Type}.
Context (cache_execute : cache_request → M W OperationResult).

Definition fingerprint_value (r : OperationResult) : pyval :=
  match operation_fingerprint r with Some f => PStr f | None => PNone end.

Definition result_mapping (r : OperationResult) : res (option (list (pyval * pyval))) :=
  match result_data r with
  | PNone => Ok None
  | PMapping items => Ok (Some items)
  | _ => Raise (ValueError "cache Catalog returned non-mapping Data")
  end.

(** [{"formatVersion": ..., **entry.to_dict()}]: a later key wins. *)
Definition wire_entry (e : CacheEntry) : list (pyval * pyval) :=
  let fields := entry_to_dict e in
  match mapping_get "formatVersion" fields with
  | Some _ => fields
  | None => (PStr "formatVersion", PStr CACHE_ENVELOPE_FORMAT_VERSION) :: fields
  end.

Definition has_format (items : list (pyval * pyval)) : bool :=
  match mapping_get "formatVersion" items with
  | Some (PStr s) => String.eqb s CACHE_ENVELOPE_FORMAT_VERSION
  | _ => false
  end.

Definition entry_mapping (value : list (pyval * pyval)) : res (list (pyval * pyval)) :=
  match default (PMapping value) (mapping_get "entry" value) with
  | PMapping candidate =>
      if has_format candidate then Ok candidate
      else
        let nested := match mapping_get "value" candidate with
                      | Some (PMapping items) => if has_format items then Some items else None
                      | _ => None
                      end in
        match nested with
        | Some items => Ok items
        | None =>
            if is_some (mapping_get "serializerId" candidate) && is_some (mapping_get "schemaFingerprint" candidate)
            then Ok candidate
            else Raise (ValueError "cache Catalog result does not contain a Meridian cache envelope")
        end
  | _ => Raise (ValueError "cache entry must be a mapping")
  end.

(** [value.get(name)]: [None] for an absent key. *)
Definition get_item (name : string) (items : list (pyval * pyval)) : pyval :=
  default PNone (mapping_get name items).

Definition parse_entry (value : list (pyval * pyval)) : res CacheEntry :=
  let? created := match get_item "createdAt" value with
                  | PStr s => Ok s
                  | _ => Raise (ValueError "cache entry createdAt must be an RFC 3339 string")
                  end in
  let? expires := match get_item "expiresAt" value with
                  | PNone => Ok ""%string
                  | PStr s => Ok s
                  | _ => Raise (ValueError "cache entry expiresAt must be an RFC 3339 string or null")
                  end in
  let? '(serializer, fingerprint) :=
    match get_item "serializerId" value, get_item "schemaFingerprint" value with
    | PStr s, PStr f => Ok (s, f)
    | _, _ => Raise (ValueError "cache entry serializer and Schema fingerprint are required")
    end in
  let? source_version := match get_item "sourceVersion" value with
                         | PNone => Ok None
                         | PStr s => Ok (Some (VStr s))
                         | PInt z => Ok (Some (VInt z))
                         | _ => Raise (ValueError "cache sourceVersion must be a string, integer, or null")
                         end in
  let? key := json_value (get_item "key" value) in
  let? payload := json_value (get_item "value" value) in
  let? created := parse_rfc3339 created "createdAt" in
  let? expires := (if nonempty expires then res_map Some (parse_rfc3339 expires "expiresAt") else Ok None) in
  new_entry key payload serializer fingerprint created expires source_version.

(** [d.get(name, default)] *)
Definition get_or (name : string) (items : list (pyval * pyval)) (d : pyval) : pyval :=
  default d (mapping_get name items).

Definition catalog_get (resource : string) (key : pyval) : M W (option VersionedCacheEntry) :=
  let! result := cache_execute (GetRequest resource key) in
  let! mapping := lift_res (result_mapping result) in
  match mapping with
  | None => ret None
  | Some items =>
      if match mapping_get "found" items with Some (PBool false) => true | _ => false end then ret None
      else
        let candidate := match mapping_get "entry" items with Some (PMapping c) => c | _ => [] end in
        let v := get_or "entryVersion" items
                   (get_or "version" items
                      (get_or "entryVersion" candidate
                         (get_or "version" candidate (fingerprint_value result)))) in
        match as_version (Some v) with
        | None => raise (ValueError "cache entry version must be a string or integer")
        | Some v =>
            let! m := lift_res (entry_mapping items) in
            let! e := lift_res (parse_entry m) in
            let! bytes := lift_res (canonical_bytes_of key) in
            if String.eqb (canonical_json_bytes (entry_key e)) bytes then ret (Some (Versioned _ e v))
            else raise (ValueError "cache Catalog returned an entry for a different key")
        end
  end.

(** A missing operation fingerprint ([None]) is represented by the empty string. *)
Definition result_version (r : OperationResult) : version :=
  let v := match result_data r with
           | PMapping items => as_version (Some (get_or "entryVersion" items (get_item "version" items)))
           | _ => None
           end in
  default (VStr (default "" (operation_fingerprint r))) v.

(** [not isinstance(result.data, Mapping) or result.data.get(name, True) is True] *)
Definition result_flag (name : string) (r : OperationResult) : bool :=
  match result_data r with
  | PMapping items => match get_or name items (PBool true) with PBool b => b | _ => false end
  | _ => true
  end.

Definition catalog_put (resource : string) (e : CacheEntry) (ttl : Z) : M W version :=
  let! r := cache_execute (PutRequest resource (entry_key e) (wire_entry e) ttl (entry_source_version e)) in
  ret (result_version r).
Definition catalog_put_if_absent (resource : string) (e : CacheEntry) (ttl : Z) : M W bool :=
  let! r := cache_execute (PutIfAbsentRequest resource (entry_key e) (wire_entry e) ttl (entry_source_version e)) in
  ret (result_flag "written" r).
Definition catalog_compare_and_set (resource : string) (e : CacheEntry) (expected : version) (ttl : Z) : M W bool :=
  let! r := cache_execute (CompareAndSetRequest resource (entry_key e) expected (wire_entry e) ttl) in
  ret (result_flag "swapped" r).
Definition catalog_delete (resource : string) (key : pyval) : M W bool :=
  let! r := cache_execute (DeleteRequest resource key) in
  ret (result_flag "deleted" r).
Definition catalog_invalidate (resource : string) (selector : list (pyval * pyval)) : M W Z :=
  let! r := cache_execute (InvalidateRequest resource selector) in
  match result_data r with
  | PMapping items =>
      match get_or "invalidated" items (PInt 0) with
      | PInt count => if 0 <=? count then ret count
                      else raise (ValueError "cache invalidation count must be a non-negative integer")
      | _ => raise (ValueError "cache invalidation count must be a non-negative integer")
      end
  | _ => ret 0
  end.

Definition MeridianCacheBackend : CacheBackend W := {|
  cache_get := catalog_get; cache_put := catalog_put; cache_put_if_absent := catalog_put_if_absent;
  cache_compare_and_set := catalog_compare_and_set; cache_delete := catalog_delete;
  cache_invalidate := catalog_invalidate |}.
End catalog.
