(* ===== verification/Cache.v ===== *)
(** * The cache coordinator ([cache/coordinator.py])

    [CacheCoordinator] over an injected backend, serializer, comparator, clock
    and evidence sink.  The table of flights is reached through [Flights]: in
    one step a reader becomes the leader of its key or finds a flight to wait
    for; [CacheFlights.v] treats the interleavings of several readers. *)
From S2P Require Import Prelude PyTime Sha256 Canonical Errors OutboxModel Runner JsonParse CacheModel.

Definition NEGATIVE_FIELD : string := "$meridian.cache.negative".
Definition VALUE_FIELD : string := "$meridian.cache.value".
Definition NEGATIVE : json := JObj [(NEGATIVE_FIELD, JBool true)].

(** [value == _NEGATIVE]: in Python [True], [1] and [1.0] are equal. *)
Definition equals_negative (v : json) : bool :=
  match v with
  | JObj [(k, x)] =>
      String.eqb k NEGATIVE_FIELD && bool_decide (x ∈ [JBool true; JInt 1; JFloat "1.0"])
  | _ => false
  end.

(** [CacheSerializer] *)
Record CacheSerializer : Type := Serializer {
  ser_id : string;
  ser_deterministic : bool;
  encode : pyval → res pyval;
  decode : json → res pyval;
}.

Definition CanonicalJsonSerializer `{FloatParser} : CacheSerializer :=
  Serializer "canonical-json-v1" true
    (λ v, res_map of_json (json_value v)) (λ j, json_loads (canonical_json_bytes j)).

(** The table [_flights] with its lock, and the events of its flights. *)
Class Flights (W : Type) : Type := {
  enter_flight : string → M W bool;        (* [true]: this reader leads *)
  wait_flight : string → M W unit;
  leave_flight : string → M W unit;
}.

Definition truthy (o : option string) : bool := match o with Some s => nonempty s | None => false end.
Definition or_else (a b : option string) : option string := if truthy a then a else b.

Section coordinator.
Context `{DatetimeParser} `{CacheEntryApi} {W : Type} `{!CacheBackend W} `{EvidenceSink W} `{Flights W}.
Context (policy : CachePolicy) (serializer : CacheSerializer)
  (version_comparator : option (version → version → res bool)) (clock : M W datetime).

(** [CacheCoordinator.__init__] *)
Definition make_coordinator (singleflight_wait_seconds : float) : res unit :=
  do? raise_if (negb (ser_deterministic serializer)) (ValueError "cache serializer must be deterministic") in
  do? raise_if (negb (String.eqb (ser_id serializer) (cp_serializer_id policy)))
        (ValueError "cache serializer id does not match policy") in
  raise_if (f64_lt singleflight_wait_seconds f64_zero)
    (ValueError "singleflight_wait_seconds cannot be negative").

Definition record_failure (state : string) (error : exn) (now : instant) : M W string :=
  let code := error_code error in
  do! record_evidence "cache" (cp_source_resource policy) state [(PStr "errorCode", PStr code)] (at_utc now) in
  ret code.

Definition version_valid (cached required : option version) : res bool :=
  match required, cp_strategy policy with
  | None, _ | _, NONE => Ok true
  | Some r, strategy =>
      match cached with
      | None => Ok false
      | Some c =>
          if bool_decide (strategy = EXACT) then Ok (version_eqb cached required)
          else match version_comparator with
               | Some f => f c r
               | None => match version_num c, version_num r with
                         | Some x, Some y => Ok (y <=? x)
                         | _, _ => Ok (version_eqb cached required)
                         end
               end
      end
  end.

Definition timestamp_instant (t : timestamp) (field : string) : res instant :=
  match t with TText s => parse_rfc3339 s field | TDatetime d => ensure_utc d field end.

Definition valid_entry (e : CacheEntry) (required : option version) (now : instant) : res bool :=
  if negb (String.eqb (entry_serializer_id e) (cp_serializer_id policy)) then Ok false
  else if negb (String.eqb (entry_schema_fingerprint e) (cp_schema_fingerprint policy)) then Ok false
  else
    let? created := timestamp_instant (entry_created_at e) "createdAt" in
    let? expires := match entry_expires_at e with
                    | None => Ok None
                    | Some t => res_map Some (timestamp_instant t "expiresAt")
                    end in
    if match expires with Some t => t <=? now | None => false end then Ok false
    else
      let? limit := dt_add created (cp_maximum_staleness policy) in
      if limit <? now then Ok false
      else version_valid (entry_source_version e) required.

(** The payload of a cached value that is not the negative marker. *)
Definition tagged_payload (v : json) : res pyval :=
  match v with
  | JObj [(k, x)] =>
      if String.eqb k VALUE_FIELD then decode serializer x
      else Raise (ValueError "cache value does not contain a tagged payload")
  | _ => Raise (ValueError "cache value does not contain a tagged payload")
  end.

(** [try: backend.delete(...) except Exception as error: record_failure(state, error)] *)
Definition delete_quietly (key : pyval) (state : string) (now : instant) : M W unit :=
  try_except (do! cache_delete (cp_cache_resource policy) key in ret ()) is_exception
    (λ error, do! record_failure state error now in ret ()).

Definition cached (key : pyval) (required : option version) (now : instant)
    : M W (option CacheRead * option string) :=
  let! found := try_except
      (let! f := cache_get (cp_cache_resource policy) key in ret (inl f)) is_exception
      (λ error,
        let! code := record_failure "READ_FAILED" error now in
        if cp_fallback policy then ret (inr code)
        else raise (CacheUnavailable "cache read failed and fallback is disabled")) in
  match found with
  | inr code => ret (None, Some code)
  | inl None => ret (None, None)
  | inl (Some found) =>
      let e := versioned_entry found in
      let! valid := lift_res (valid_entry e required now) in
      if negb valid then
        do! delete_quietly key "STALE_DELETE_FAILED" now in
        ret (None, None)
      else if equals_negative (entry_value e) then
        ret (Some (MkRead None (entry_source_version e) NEGATIVE_HIT None), None)
      else
        try_except
          (let! v := lift_res (tagged_payload (entry_value e)) in
           ret (Some (MkRead (Some v) (entry_source_version e) HIT None), None))
          is_exception
          (λ error,
            do! delete_quietly key "CORRUPT_DELETE_FAILED" now in
            do! record_failure "CORRUPT" error now in
            ret (None, None))
  end.

Definition build_entry (key : pyval) (value : pyval) (ttl : timedelta) (v : option version) (now : instant)
    : res CacheEntry :=
  let? k := json_value key in
  let? x := json_value value in
  let? expires := dt_add now ttl in
  new_entry k x (cp_serializer_id policy) (cp_schema_fingerprint policy) now (Some expires) v.

Definition tagged (v : pyval) : pyval := PMapping [(PStr VALUE_FIELD, v)].

(** [_entry] *)
Definition make_entry (key : pyval) (loaded : option LoadedValue) (now : instant)
    : res (option (CacheEntry * timedelta)) :=
  match loaded with
  | None =>
      match cp_negative_ttl policy with
      | None => Ok None
      | Some ttl => let? e := build_entry key (of_json NEGATIVE) ttl None now in Ok (Some (e, ttl))
      end
  | Some l =>
      let? x := encode serializer (loaded_value l) in
      let? e := build_entry key (tagged x) (cp_default_ttl policy) (loaded_version l) now in
      Ok (Some (e, cp_default_ttl policy))
  end.

(** [_load] *)
Definition load (key : pyval) (loader : M W (option LoadedValue)) (cache_error : option string) (now : instant)
    : M W CacheRead :=
  let! loaded := loader in
  let! entry := lift_res (make_entry key loaded now) in
  let! cache_error :=
    match entry with
    | None => ret cache_error
    | Some (e, ttl) =>
        try_except
          (let! ms := lift_res (ttl_ms ttl) in
           do! cache_put (cp_cache_resource policy) e ms in
           ret cache_error)
          is_exception
          (λ error, let! code := record_failure "POPULATE_FAILED" error now in ret (Some code))
    end in
  ret (MkRead (loaded_value <$> loaded) (loaded ≫= loaded_version)
         (if truthy cache_error then BYPASS else MISS) cache_error).

Definition now_or_clock (now : option datetime) : M W instant :=
  let! t := (match now with Some t => ret t | None => clock end) in
  lift_res (ensure_utc t "now").

Definition read (identity : list (string * pyval)) (loader : M W (option LoadedValue))
    (required : option version) (now : option datetime) : M W CacheRead :=
  let! current := now_or_clock now in
  if negb (cp_enabled policy) then
    let! loaded := loader in
    ret (MkRead (loaded_value <$> loaded) (loaded ≫= loaded_version) BYPASS None)
  else
    let! key := lift_res (policy_key policy identity) in
    let key := PSequence key in
    let! '(hit, error) := cached key required current in
    match hit with
    | Some r => ret r
    | None =>
        let! flight := lift_res (digest_of key) in
        let! leader := enter_flight flight in
        if negb leader then
          do! wait_flight flight in
          let! t := now_or_clock None in
          let! '(hit, follower_error) := cached key required t in
          match hit with
          | Some r => ret r
          | None =>
              let! t := now_or_clock None in
              load key loader (or_else follower_error error) t
          end
        else try_finally (load key loader error current) (leave_flight flight)
    end.

Definition invalidate_after_commit (selector : list (pyval * pyval)) (now : option datetime)
    : M W InvalidationResult :=
  let! current := now_or_clock now in
  try_except
    (let! count := cache_invalidate (cp_cache_resource policy) selector in
     ret (MkInvalidation true count None))
    is_exception
    (λ error,
      let! code := record_failure "INVALIDATION_FAILED" error current in
      ret (MkInvalidation false 0 (Some code))).

(** The entry of an explicit write. *)
Definition explicit_entry (identity : list (string * pyval)) (value : LoadedValue) (ttl : option timedelta)
    (now : option datetime) : M W (CacheEntry * timedelta) :=
  let! current := now_or_clock now in
  let selected := default (cp_default_ttl policy) ttl in
  do! lift_res (raise_if ((selected <=? 0) || (cp_maximum_ttl policy <? selected))
        (ValueError "explicit cache TTL is outside policy bounds")) in
  let! key := lift_res (policy_key policy identity) in
  let! k := lift_res (json_value (PSequence key)) in
  let! x := lift_res (encode serializer (loaded_value value)) in
  let! x := lift_res (json_value (tagged x)) in
  let! expires := lift_res (dt_add current selected) in
  let! e := lift_res (new_entry k x (cp_serializer_id policy) (cp_schema_fingerprint policy) current
                        (Some expires) (loaded_version value)) in
  ret (e, selected).

(** [try: m except Exception as error: raise CacheUnavailable(message) from error] *)
Definition or_unavailable {A} (m : M W A) (message : string) : M W A :=
  try_except m is_exception (λ _, raise (CacheUnavailable message)).

Definition put_if_absent (identity : list (string * pyval)) (value : LoadedValue) (ttl : option timedelta)
    (now : option datetime) : M W bool :=
  let! '(e, selected) := explicit_entry identity value ttl now in
  or_unavailable
    (let! ms := lift_res (ttl_ms selected) in
     cache_put_if_absent (cp_cache_resource policy) e ms) "put_if_absent failed".

Definition compare_and_set (identity : list (string * pyval)) (value : LoadedValue) (expected : version)
    (ttl : option timedelta) (now : option datetime) : M W bool :=
  let! '(e, selected) := explicit_entry identity value ttl now in
  or_unavailable
    (let! ms := lift_res (ttl_ms selected) in
     cache_compare_and_set (cp_cache_resource policy) e expected ms) "compare_and_set failed".

Definition delete_entry (identity : list (string * pyval)) : M W bool :=
  or_unavailable
    (let! key := lift_res (policy_key policy identity) in
     cache_delete (cp_cache_resource policy) (PSequence key)) "cache delete failed".

Definition inspect (identity : list (string * pyval)) : M W (option VersionedCacheEntry) :=
  or_unavailable
    (let! key := lift_res (policy_key policy identity) in
     cache_get (cp_cache_resource policy) (PSequence key)) "cache get failed".
End coordinator.
