(* ===== verification/CacheProofs.v ===== *)
(** * What the cache guarantees

    Soundness of hits, survival of cache outages with the cases in which a read
    still raises, and the versions of compare-and-set. *)
From stdpp Require Import relations.
From S2P Require Import Prelude PyTime Sha256 Canonical Errors OutboxModel Runner JsonParse CacheModel Cache.

(** The fields of an entry are what its constructor was given. *)
Class CacheEntryLaws `{CacheEntryApi} : Prop := {
  new_entry_fields key value serializer fingerprint created expires v e :
    new_entry key value serializer fingerprint created expires v = Ok e →
    entry_key e = key ∧ entry_value e = value ∧ entry_serializer_id e = serializer ∧
    entry_schema_fingerprint e = fingerprint ∧ entry_created_at e = TDatetime (at_utc created) ∧
    entry_expires_at e = (λ t, TDatetime (at_utc t)) <$> expires ∧ entry_source_version e = v;
}.

(** ** Hits are sound *)
Section hits.
Context `{DatetimeParser} `{CacheEntryApi} {W : Type} `{!CacheBackend W} `{EvidenceSink W}.
Context (policy : CachePolicy) (serializer : CacheSerializer)
  (version_comparator : option (version → version → res bool)).

(** The instant a timestamp stands for: an aware datetime, or the text of one. *)
Definition denotes (t : timestamp) (i : instant) : Prop :=
  ∃ d offset, (t = TDatetime d ∨ ∃ s, t = TText s ∧ fromisoformat (str_replace "Z" "+00:00" s) = Ok d) ∧
    utcoffset d = Some offset ∧ i = local d - offset.

(** Versions that are numbers (a [bool] is an [int]), equal versions, and a
    version that is at least another one. *)
Inductive numeric : version → Z → Prop :=
| numeric_int z : numeric (VInt z) z
| numeric_true : numeric (VBool true) 1
| numeric_false : numeric (VBool false) 0.
Definition same_version (a b : version) : Prop :=
  (∃ z, numeric a z ∧ numeric b z) ∨ ∃ s, a = VStr s ∧ b = VStr s.
Definition at_least (a b : version) : Prop :=
  (∃ x y, numeric a x ∧ numeric b y ∧ y ≤ x) ∨ ∃ s, a = VStr s ∧ b = VStr s.

(** The cached version serves the required one, as the policy's strategy asks. *)
Definition acceptable (cached required : option version) : Prop :=
  ∀ r, required = Some r → cp_strategy policy ≠ NONE → ∃ c, cached = Some c ∧
    match cp_strategy policy with
    | NONE => True
    | EXACT => same_version c r
    | AT_LEAST => match version_comparator with Some f => f c r = Ok true | None => at_least c r end
    end.

(** An entry that may be reused at [now] for the required version. *)
Record reusable (e : CacheEntry) (required : option version) (now : instant) : Prop := {
  re_serializer : entry_serializer_id e = cp_serializer_id policy;
  re_schema : entry_schema_fingerprint e = cp_schema_fingerprint policy;
  re_expiry : ∀ t, entry_expires_at e = Some t → ∃ at_, denotes t at_ ∧ now < at_;
  re_fresh : ∃ created, denotes (entry_created_at e) created ∧ now ≤ created + cp_maximum_staleness policy;
  re_version : acceptable (entry_source_version e) required;
}.

Lemma version_num_numeric v z : version_num v = Some z ↔ numeric v z.
Proof.
  split; [|by intros []]. destruct v as [n|s|[]]; cbn; intros [= <-]; constructor.
Qed.
Lemma version_num_none v : version_num v = None → ∃ s, v = VStr s.
Proof. destruct v; try done. by eexists. Qed.

Lemma version_eqb_same c r : version_eqb (Some c) (Some r) = true → same_version c r.
Proof.
  cbn. destruct (version_num c) as [x|] eqn:Hx, (version_num r) as [y|] eqn:Hy; try done.
  - intros Heq. apply version_num_numeric in Hx, Hy. left. exists x. split; [done|]. apply Z.eqb_eq in Heq. by subst.
  - intros Heq%bool_decide_eq_true. subst r. apply version_num_none in Hx as [t ->]. right. by exists t.
Qed.

Lemma version_valid_acceptable c required :
  version_valid policy version_comparator c required = Ok true → acceptable c required.
Proof.
  unfold version_valid. intros Hv r -> Hst. destruct (cp_strategy policy) eqn:Hs; [done|..];
    (destruct c as [c|]; [|done]); exists c; (split; [done|]); cbn in Hv.
  - injection Hv as Hv. by apply version_eqb_same.
  - destruct version_comparator as [f|]; [done|].
    destruct (version_num c) as [x|] eqn:Hx, (version_num r) as [y|] eqn:Hy; injection Hv as Hv; try done.
    + left. exists x, y. rewrite <- !version_num_numeric. split_and!; [done|done|lia].
    + apply bool_decide_eq_true in Hv. subst r. right. apply version_num_none in Hx as [t ->]. by exists t.
Qed.

Lemma ensure_utc_denotes d field i : ensure_utc d field = Ok i → denotes (TDatetime d) i.
Proof.
  unfold ensure_utc. destruct (utcoffset d) as [off|] eqn:Ho; [|done]. cbn. destruct (in_range _); [|done].
  intros [= <-]. exists d, off. split_and!; [by left|done|done].
Qed.
Lemma timestamp_denotes t field i : timestamp_instant t field = Ok i → denotes t i.
Proof.
  destruct t as [s|d]; cbn; [|apply ensure_utc_denotes]. unfold parse_rfc3339.
  destruct (fromisoformat (str_replace "Z" "+00:00" s)) as [d|e] eqn:Hd; [|done].
  intros (d' & off & [Heq|(s' & Heq & _)] & Ho & ->)%ensure_utc_denotes; [|done]. injection Heq as <-.
  exists d, off. split; [right; by exists s|done].
Qed.

Lemma valid_entry_reusable e required now :
  valid_entry policy version_comparator e required now = Ok true → reusable e required now.
Proof.
  unfold valid_entry.
  destruct (String.eqb_spec (entry_serializer_id e) (cp_serializer_id policy)); [|done].
  destruct (String.eqb_spec (entry_schema_fingerprint e) (cp_schema_fingerprint policy)); [|done]. cbn.
  destruct (timestamp_instant (entry_created_at e) "createdAt") as [created|] eqn:Hc; [|done]. cbn.
  destruct (match entry_expires_at e with None => Ok None | Some t => res_map Some (timestamp_instant t "expiresAt") end)
    as [expires|] eqn:Hx; [|done]. cbn.
  destruct (match expires with Some t => t <=? now | None => false end) eqn:Hexp; [done|].
  destruct (dt_add created (cp_maximum_staleness policy)) as [limit|] eqn:Hadd; [|done]. cbn.
  apply dt_add_ok in Hadd as [-> _]. destruct (Z.ltb_spec (created + cp_maximum_staleness policy) now); [done|].
  intros Hv. split; try done.
  - intros t Ht. rewrite Ht in Hx. apply res_map_ok in Hx as (at_ & Hat & ->). exists at_.
    split; [by eapply timestamp_denotes|]. lia.
  - exists created. split; [by eapply timestamp_denotes|lia].
  - by apply version_valid_acceptable.
Qed.

(** What a read served from the cache was taken from: the tagged payload of the
    entry, decoded, or the marker of a negative entry ([True], [1] and [1.0] are
    equal in Python). *)
Definition taken_from (e : CacheEntry) (r : CacheRead) : Prop :=
  read_version r = entry_source_version e ∧ read_error r = None ∧
  ((read_outcome r = NEGATIVE_HIT ∧ read_value r = None ∧
    ∃ x, entry_value e = JObj [("$meridian.cache.negative"%string, x)] ∧ x ∈ [JBool true; JInt 1; JFloat "1.0"]) ∨
   (read_outcome r = HIT ∧ ∃ x v, entry_value e = JObj [("$meridian.cache.value"%string, x)] ∧
      decode serializer x = Ok v ∧ read_value r = Some v)).

Lemma equals_negative_inv v :
  equals_negative v = true →
  ∃ x, v = JObj [("$meridian.cache.negative"%string, x)] ∧ x ∈ [JBool true; JInt 1; JFloat "1.0"].
Proof.
  unfold equals_negative. destruct v as [| | | | | |[|[k x] []]]; try done. intros Hv. simplify_bool.
  exists x. split; [|done]. by subst k.
Qed.
Lemma tagged_payload_inv v y :
  tagged_payload serializer v = Ok y →
  ∃ x, v = JObj [("$meridian.cache.value"%string, x)] ∧ decode serializer x = Ok y.
Proof.
  unfold tagged_payload. destruct v as [| | | | | |[|[k x] []]]; try done.
  destruct (String.eqb_spec k VALUE_FIELD) as [->|]; [|done]. intros Hx. by exists x.
Qed.

Lemma cached_hit key required now w r error w' :
  cached policy serializer version_comparator key required now w = (Ok (Some r, error), w') →
  ∃ found w1, cache_get (cp_cache_resource policy) key w = (Ok (Some found), w1) ∧
    reusable (versioned_entry found) required now ∧ taken_from (versioned_entry found) r ∧ error = None.
Proof.
  unfold cached, bind at 1, try_except at 1, bind at 1.
  destruct (cache_get (cp_cache_resource policy) key w) as [[[found|]|e] w1]; cbn; [|done|].
  2:{ destruct (is_exception e); [|done]. unfold bind.
      destruct (record_failure policy "READ_FAILED" e now w1) as [[code|] w2]; [|done]. by destruct (cp_fallback policy). }
  unfold bind at 1. cbn. destruct (valid_entry policy version_comparator (versioned_entry found) required now) as [[]|] eqn:Hv;
    cbn; [|unfold bind; by destruct (delete_quietly _ _ _ _ _) as [[]]|done].
  apply valid_entry_reusable in Hv.
  destruct (equals_negative (entry_value (versioned_entry found))) eqn:Hneg.
  - intros [= <- <- <-]. exists found, w1. split_and!; try done. split_and!; try done. left.
    split_and!; try done. by apply equals_negative_inv.
  - unfold try_except, bind, lift_res.
    destruct (tagged_payload serializer (entry_value (versioned_entry found))) as [v|e] eqn:Hp; cbn.
    + intros [= <- <- <-]. exists found, w1. split_and!; try done. split_and!; try done. right.
      apply tagged_payload_inv in Hp as (x & Hx & Hdec). split; [done|]. by exists x, v.
    + destruct (is_exception e); [|done]. destruct (delete_quietly _ _ _ _ _) as [[]]; [|done].
      by destruct (record_failure _ _ _ _ _) as [[]].
Qed.
End hits.

(** ** Outages *)
Section outages.
Context `{DatetimeParser} `{CacheEntryApi} {W : Type} `{!CacheBackend W} `{EvidenceSink W} `{Flights W}.
Context (policy : CachePolicy) (serializer : CacheSerializer)
  (version_comparator : option (version → version → res bool)) (clock : M W datetime).

(** A computation that may fail, but only with ordinary exceptions. *)
Definition fails_softly {A} (m : M W A) : Prop := ∀ w e w', m w = (Raise e, w') → is_exception e = true.

(** The collaborators of a coordinator whose cache may fail in any way: reads,
    writes and deletes of the backend and the decoder raise what they like, as
    long as it is an ordinary exception; the clock, the sink and the table of
    flights answer.  [times] are the readings of the clock. *)
Record cache_may_fail (times : instant → Prop) : Prop := {
  mf_times t : times t → in_range t = true;
  mf_fallback : cp_fallback policy = true;
  mf_subject : cp_source_resource policy ≠ ""%string;
  mf_get key : fails_softly (cache_get (cp_cache_resource policy) key);
  mf_put e ttl : fails_softly (cache_put (cp_cache_resource policy) e ttl);
  mf_delete key : fails_softly (cache_delete (cp_cache_resource policy) key);
  mf_decode j e : decode serializer j = Raise e → is_exception e = true;
  mf_sink e : succeeds (evidence_record e) (λ _, True);
  mf_clock : succeeds clock (λ t, ∃ cur, ensure_utc t "now" = Ok cur ∧ times cur);
  mf_enter k : succeeds (enter_flight k) (λ _, True);
  mf_wait k : succeeds (wait_flight k) (λ _, True);
  mf_leave k : succeeds (leave_flight k) (λ _, True);
}.

(** An entry of the policy's format that cannot be judged: a timestamp that
    denotes no instant of the calendar, a creation time so late that the maximum
    staleness ends after the calendar, or a comparator that raises. *)
Definition unreadable_time (t : timestamp) : Prop := ∀ i, denotes t i → in_range i = false.
Definition unreadable (required : option version) (e : CacheEntry) : Prop :=
  entry_serializer_id e = cp_serializer_id policy ∧ entry_schema_fingerprint e = cp_schema_fingerprint policy ∧
  (unreadable_time (entry_created_at e) ∨
   (∃ t, entry_expires_at e = Some t ∧ unreadable_time t) ∨
   (∃ t, denotes (entry_created_at e) t ∧ in_range (t + cp_maximum_staleness policy) = false) ∨
   ∃ f c r err, version_comparator = Some f ∧ entry_source_version e = Some c ∧ required = Some r ∧ f c r = Raise err).

(** An answer of the source that cannot be made an entry at [now]: the encoder
    rejects it, or what is to be stored is no JSON value, expires after the
    calendar, or is rejected by Core's constructor. *)
Definition stored_as (l : option LoadedValue) (x : pyval) (ttl : timedelta) (v : option version) : Prop :=
  match l with
  | Some l => ∃ y, encode serializer (loaded_value l) = Ok y ∧ x = PMapping [(PStr "$meridian.cache.value", y)] ∧
      ttl = cp_default_ttl policy ∧ v = loaded_version l
  | None => x = PMapping [(PStr "$meridian.cache.negative", PBool true)] ∧ cp_negative_ttl policy = Some ttl ∧ v = None
  end.
Definition unstorable (key : pyval) (now : instant) (l : option LoadedValue) : Prop :=
  (∃ l' e, l = Some l' ∧ encode serializer (loaded_value l') = Raise e) ∨
  ∃ x ttl v, stored_as l x ttl v ∧
    (is_ok (json_value x) = false ∨ in_range (now + ttl) = false ∨
     ∃ k j e, json_value key = Ok k ∧ json_value x = Ok j ∧
       new_entry k j (cp_serializer_id policy) (cp_schema_fingerprint policy) now (Some (now + ttl)) v = Raise e).

Lemma ensure_utc_unreadable d field e : ensure_utc d field = Raise e → unreadable_time (TDatetime d).
Proof.
  unfold ensure_utc. intros Hd i (d' & off & [[= <-]|(s & Hs & _)] & Ho & ->); [|done]. rewrite Ho in Hd.
  by destruct (in_range _).
Qed.
Lemma timestamp_unreadable t field e : timestamp_instant t field = Raise e → unreadable_time t.
Proof.
  destruct t as [s|d]; cbn; [|apply ensure_utc_unreadable]. unfold parse_rfc3339.
  intros Hs i (d & off & [Heq|(s' & [= <-] & Hd)] & Ho & ->); [done|]. rewrite Hd in Hs.
  apply (ensure_utc_unreadable _ _ _ Hs). exists d, off. split; [by left|done].
Qed.

Lemma version_valid_raises c required e :
  version_valid policy version_comparator c required = Raise e →
  ∃ f c' r err, version_comparator = Some f ∧ c = Some c' ∧ required = Some r ∧ f c' r = Raise err.
Proof.
  unfold version_valid. destruct required as [r|]; [|done]. destruct (cp_strategy policy); try done;
    (destruct c as [c|]; [|done]); cbn; [done|].
  destruct version_comparator as [f|]; [|by destruct (version_num c), (version_num r)].
  intros Hf. by exists f, c, r, e.
Qed.

Lemma valid_entry_raises e required now x :
  valid_entry policy version_comparator e required now = Raise x → unreadable required e.
Proof.
  unfold valid_entry, unreadable.
  destruct (String.eqb_spec (entry_serializer_id e) (cp_serializer_id policy)); [|done].
  destruct (String.eqb_spec (entry_schema_fingerprint e) (cp_schema_fingerprint policy)); [|done]. cbn.
  intros Hv. split; [done|]. split; [done|].
  destruct (timestamp_instant (entry_created_at e) "createdAt") as [created|] eqn:Hc; [|left; by eapply timestamp_unreadable].
  right. cbn in Hv.
  destruct (entry_expires_at e) as [t|].
  - destruct (timestamp_instant t "expiresAt") as [expires|] eqn:Ht; [|left; exists t; split; [done|by eapply timestamp_unreadable]].
    cbn in Hv. destruct (expires <=? now); [done|]. right.
    destruct (dt_add created _) as [limit|] eqn:Hadd; cbn in Hv.
    + destruct (limit <? now); [done|]. right. by eapply version_valid_raises.
    + left. exists created. split; [by eapply timestamp_denotes|]. unfold dt_add in Hadd. by destruct (in_range _).
  - cbn in Hv. right. destruct (dt_add created _) as [limit|] eqn:Hadd; cbn in Hv.
    + destruct (limit <? now); [done|]. right. by eapply version_valid_raises.
    + left. exists created. split; [by eapply timestamp_denotes|]. unfold dt_add in Hadd. by destruct (in_range _).
Qed.

Lemma build_entry_raises key x ttl v now e :
  is_ok (json_value key) = true → build_entry policy key x ttl v now = Raise e →
  is_ok (json_value x) = false ∨ in_range (now + ttl) = false ∨
  ∃ k j e, json_value key = Ok k ∧ json_value x = Ok j ∧
    new_entry k j (cp_serializer_id policy) (cp_schema_fingerprint policy) now (Some (now + ttl)) v = Raise e.
Proof.
  unfold build_entry. destruct (json_value key) as [k|]; [|done]. intros _.
  destruct (json_value x) as [j|]; [|by left]. cbn. intros He. right. unfold dt_add in He.
  destruct (in_range (now + ttl)); [|by left]. right. by exists k, j, e.
Qed.

Lemma make_entry_raises key l now e :
  is_ok (json_value key) = true → make_entry policy serializer key l now = Raise e → unstorable key now l.
Proof.
  intros Hkey. unfold make_entry. destruct l as [l|].
  - destruct (encode serializer (loaded_value l)) as [y|x] eqn:Hy; [|left; by exists l, x]. cbn.
    destruct (build_entry _ _ _ _ _ _) as [en|x] eqn:Hb; [done|]. intros _. right.
    apply build_entry_raises in Hb; [|done]. eexists _, _, _. split; [|exact Hb]. by exists y.
  - destruct (cp_negative_ttl policy) as [ttl|] eqn:Httl; [|done].
    destruct (build_entry _ _ _ _ _ _) as [en|x] eqn:Hb; [done|]. intros _. right.
    apply build_entry_raises in Hb; [|done]. eexists _, ttl, _. split; [|exact Hb]. done.
Qed.

Lemma ttl_ms_soft ttl e : ttl_ms ttl = Raise e → is_exception e = true.
Proof.
  unfold ttl_ms. destruct (f64_trunc _) as [x|x] eqn:Hx; cbn; [done|]. intros [= <-]. revert Hx.
  unfold f64_trunc, nan_to_int, inf_to_int. by repeat case_match; intros [= <-].
Qed.

Lemma policy_key_json identity key : policy_key policy identity = Ok key → is_ok (json_value (PSequence key)) = true.
Proof.
  unfold policy_key, canonical_bytes_of. intros Hk. apply res_bind_ok in Hk as (_ & _ & Hk).
  apply res_bind_ok in Hk as (_ & _ & Hk). apply res_bind_ok in Hk as (bytes & Hbytes & Hk).
  apply res_bind_ok in Hk as (_ & _ & [= <-]). apply res_map_ok in Hbytes as (j & Hj & _). by rewrite Hj.
Qed.

Context (required : option version) (source : option LoadedValue → Prop).
Context (times : instant → Prop) (Hfail : cache_may_fail times).

Lemma softly_wp {A} (m : M W A) (Q : res A → W → Prop) w :
  fails_softly m → (∀ r w', (∀ e, r = Raise e → is_exception e = true) → Q r w') → wp m Q w.
Proof.
  intros Hm HQ. destruct (m w) as [r w'] eqn:Hrun. eapply wp_eq; [done|]. apply HQ.
  intros e ->. by eapply Hm.
Qed.

Lemma record_failure_ok state error now (Q : res string → W → Prop) w :
  state ≠ ""%string → times now → (∀ code w', Q (Ok code) w') →
  wp (record_failure policy state error now) Q w.
Proof.
  intros Hst Hnow HQ. unfold record_failure, record_evidence, make_evidence.
  rewrite (proj2 (nonempty_spec _) (mf_subject _ Hfail)), (proj2 (nonempty_spec _) Hst).
  rewrite ensure_utc_at_utc by (by apply (mf_times _ Hfail)). cbn. apply wp_bind, wp_bind, wp_lift_res.
  eapply succeeds_wp; [apply (mf_sink _ Hfail)|]. intros _ w' _. by apply wp_ret.
Qed.

Lemma delete_quietly_ok key state now (Q : res unit → W → Prop) w :
  state ≠ ""%string → times now → (∀ w', Q (Ok ()) w') →
  wp (delete_quietly policy key state now) Q w.
Proof.
  intros Hst Hnow HQ. unfold delete_quietly. apply wp_try_except, wp_bind.
  eapply softly_wp; [apply (mf_delete _ Hfail)|]. intros [b|e] w' He; [by apply wp_ret|].
  rewrite He by done. apply wp_bind, record_failure_ok; [done|done|]. intros code w2. by apply wp_ret.
Qed.

Definition is_hit (c : CacheRead) : Prop := read_outcome c = HIT ∨ read_outcome c = NEGATIVE_HIT.

Lemma tagged_payload_soft v e : tagged_payload serializer v = Raise e → is_exception e = true.
Proof.
  unfold tagged_payload. repeat case_match; try (by intros [= <-]). apply (mf_decode _ Hfail).
Qed.

(** The backend returned an entry that cannot be judged. *)
Definition judgement_failed (key : pyval) : Prop :=
  ∃ w found w', cache_get (cp_cache_resource policy) key w = (Ok (Some found), w') ∧
    unreadable required (versioned_entry found).

Lemma cached_ok key now (Q : res (option CacheRead * option string) → W → Prop) w :
  times now →
  (∀ c e w', (∀ r, c = Some r → is_hit r) → Q (Ok (c, e)) w') →
  (∀ e w', judgement_failed key → Q (Raise e) w') →
  wp (cached policy serializer version_comparator key required now) Q w.
Proof.
  intros Hnow HQ HR. unfold cached. apply wp_bind, wp_try_except, wp_bind.
  destruct (cache_get (cp_cache_resource policy) key w) as [r w1] eqn:Hget.
  eapply wp_eq; [done|]. destruct r as [[found|]|e].
  - apply wp_ret, wp_bind, wp_lift_res.
    destruct (valid_entry policy version_comparator (versioned_entry found) required now) as [[]|x] eqn:Hv.
    + cbn. destruct (equals_negative _); [apply wp_ret, HQ; intros r [= <-]; by right|].
      apply wp_try_except, wp_bind, wp_lift_res.
      destruct (tagged_payload serializer _) as [v|e] eqn:Hp; [apply wp_ret, HQ; intros r [= <-]; by left|].
      rewrite (tagged_payload_soft _ _ Hp). apply wp_bind, delete_quietly_ok; [done|done|]. intros w2.
      apply wp_bind, record_failure_ok; [done|done|]. intros code w3. by apply wp_ret, HQ.
    + cbn. apply wp_bind, delete_quietly_ok; [done|done|]. intros w2. by apply wp_ret, HQ.
    + apply HR. exists w, found, w1. split; [done|]. by eapply valid_entry_raises.
  - apply wp_ret, wp_ret. by apply HQ.
  - rewrite (mf_get _ Hfail _ _ _ _ Hget). apply wp_bind, record_failure_ok; [done|done|].
    intros code w2. rewrite (mf_fallback _ Hfail). apply wp_ret, wp_ret. by apply HQ.
Qed.

(** A read that was not a hit returns what the source just gave. *)
Definition authoritative (c : CacheRead) : Prop :=
  (read_outcome c = MISS ∨ read_outcome c = BYPASS) ∧
  ∃ l, source l ∧ read_value c = loaded_value <$> l ∧ read_version c = l ≫= loaded_version.

(** The source gave an answer that cannot be made an entry. *)
Definition storing_failed (key : pyval) : Prop := ∃ l now, source l ∧ times now ∧ unstorable key now l.

Lemma load_ok key loader error now (Q : res CacheRead → W → Prop) w :
  times now → is_ok (json_value key) = true → succeeds loader source → (∀ c w', authoritative c → Q (Ok c) w') →
  (∀ e w', storing_failed key → Q (Raise e) w') →
  wp (load policy serializer key loader error now) Q w.
Proof.
  intros Hnow Hkey Hloader HQ HR. unfold load. apply wp_bind. eapply succeeds_wp; [done|]. intros l w1 Hl.
  apply wp_bind, wp_lift_res. pose proof (make_entry_raises key l now) as Hraise.
  destruct (make_entry policy serializer key l now) as [entry|x]; [|apply HR; exists l, now; eauto].
  assert (∀ err w', Q (Ok (MkRead (loaded_value <$> l) (l ≫= loaded_version)
    (if truthy err then BYPASS else MISS) err)) w') as Hdone.
  { intros err w'. apply HQ. split; [destruct (truthy err); auto|by exists l]. }
  apply wp_bind. destruct entry as [[e ttl]|]; [|by apply wp_ret, wp_ret].
  apply wp_try_except, wp_bind, wp_lift_res. destruct (ttl_ms ttl) as [ms|x] eqn:Hms.
  - apply wp_bind. eapply softly_wp; [apply (mf_put _ Hfail)|]. intros [v|x] w2 Hx; [by apply wp_ret, wp_ret|].
    rewrite Hx by done. apply wp_bind, record_failure_ok; [done|done|]. intros code w3. by apply wp_ret, wp_ret.
  - rewrite (ttl_ms_soft _ _ Hms). apply wp_bind, record_failure_ok; [done|done|].
    intros code w3. by apply wp_ret, wp_ret.
Qed.

Lemma now_or_clock_ok now (Q : res instant → W → Prop) w :
  (∀ t, now = Some t → ∃ cur, ensure_utc t "now" = Ok cur ∧ times cur) →
  (∀ cur w', times cur → Q (Ok cur) w') → wp (now_or_clock clock now) Q w.
Proof.
  intros Hnow HQ. unfold now_or_clock. apply wp_bind. destruct now as [t|].
  - apply wp_ret, wp_lift_res. destruct (Hnow t eq_refl) as (cur & -> & Hcur). by apply HQ.
  - eapply succeeds_wp; [apply (mf_clock _ Hfail)|]. intros t w' (cur & Ht & Hcur). apply wp_lift_res.
    rewrite Ht. by apply HQ.
Qed.

Lemma read_ok identity key loader now (Q : res CacheRead → W → Prop) w :
  policy_key policy identity = Ok key → succeeds loader source →
  (∀ t, now = Some t → ∃ cur, ensure_utc t "now" = Ok cur ∧ times cur) →
  (∀ c w', is_hit c ∨ authoritative c → Q (Ok c) w') →
  (∀ e w', judgement_failed (PSequence key) ∨ storing_failed (PSequence key) → Q (Raise e) w') →
  wp (read policy serializer version_comparator clock identity loader required now) Q w.
Proof.
  intros Hkey Hloader Hnow HQ HR. pose proof (policy_key_json _ _ Hkey) as Hjson. unfold read. apply wp_bind, now_or_clock_ok; [done|].
  intros cur w1 Hcur. destruct (cp_enabled policy); cbn.
  2:{ apply wp_bind. eapply succeeds_wp; [done|]. intros l w2 Hl. apply wp_ret, HQ. right.
      split; [by right|by exists l]. }
  apply wp_bind, wp_lift_res. rewrite Hkey. apply wp_bind, cached_ok; [done| |by auto]. intros c err w2 Hc.
  destruct c as [c|]; [apply wp_ret, HQ; left; by apply Hc|].
  apply wp_bind, wp_lift_res. unfold digest_of. destruct (json_value (PSequence key)) as [j|] eqn:Hj; [|done]. cbn [res_map].
  apply wp_bind. eapply succeeds_wp; [apply (mf_enter _ Hfail)|]. intros leader w3 _. destruct leader; cbn.
  - apply wp_try_finally, load_ok; [done|by rewrite Hj|done|..].
    + intros c w4 Hauth. eapply succeeds_wp; [apply (mf_leave _ Hfail)|]. intros _ w5 _. apply HQ. by right.
    + intros e w4 Hs. eapply succeeds_wp; [apply (mf_leave _ Hfail)|]. intros _ w5 _. apply HR. by right.
  - apply wp_bind. eapply succeeds_wp; [apply (mf_wait _ Hfail)|]. intros _ w4 _.
    apply wp_bind, now_or_clock_ok; [done|]. intros cur2 w5 Hcur2.
    apply wp_bind, cached_ok; [done| |by auto]. intros c2 err2 w6 Hc2.
    destruct c2 as [c2|]; [apply wp_ret, HQ; left; by apply Hc2|].
    apply wp_bind, now_or_clock_ok; [done|]. intros cur3 w7 Hcur3.
    apply load_ok; [done|by rewrite Hj|done| |by auto]. intros c w8 Hauth. apply HQ. by right.
Qed.
End outages.

(** C21: a read served from the cache is sound: the backend returned an entry
    with the policy's serializer and Schema fingerprint, whose expiry has not
    come, which is no older than the maximum staleness, and whose source version
    serves the required one: any version under the strategy "none", the same
    version under "exact", and under "at-least" one the comparator accepts or,
    without a comparator, a number that is not smaller (or the same text).  The
    read carries that entry's version and the decoded payload under the tag
    [$meridian.cache.value], or is a negative hit on the negative marker. *)
Theorem cached_hit_sound `{DatetimeParser} `{CacheEntryApi} {W} `{!CacheBackend W} `{EvidenceSink W}
    policy serializer comparator key required now (w w' : W) r error :
  cached policy serializer comparator key required now w = (Ok (Some r, error), w') →
  ∃ found w1, cache_get (cp_cache_resource policy) key w = (Ok (Some found), w1) ∧
    reusable policy comparator (versioned_entry found) required now ∧
    taken_from serializer (versioned_entry found) r ∧ error = None.
Proof. apply cached_hit. Qed.

(** C23: an outage of the cache never fails a read.  However the operations of the
    backend and the decoder fail, and whatever the backend returns, when the
    policy falls back to the source a read returns a hit, or exactly the value
    and version the source just gave, reported as a miss or a bypass.  It can
    raise in two cases only: the backend returned an entry of the policy's format
    that cannot be judged ([unreadable]: a malformed timestamp, a creation time
    so late that the maximum staleness ends after the calendar, a comparator that
    raises), or the source's answer cannot be made an entry ([unstorable]). *)
Theorem read_survives_outages `{DatetimeParser} `{CacheEntryApi} {W} `{!CacheBackend W} `{EvidenceSink W} `{Flights W}
    policy serializer comparator clock required source times identity key loader now (w : W) :
  cache_may_fail policy serializer clock times →
  policy_key policy identity = Ok key → succeeds loader source →
  (∀ t, now = Some t → ∃ cur, ensure_utc t "now" = Ok cur ∧ times cur) →
  match (read policy serializer comparator clock identity loader required now w).1 with
  | Ok c => is_hit c ∨ authoritative source c
  | Raise _ =>
      (∃ w1 found w2, cache_get (cp_cache_resource policy) (PSequence key) w1 = (Ok (Some found), w2) ∧
         unreadable policy comparator required (versioned_entry found)) ∨
      (∃ l t, source l ∧ times t ∧ unstorable policy serializer (PSequence key) t l)
  end.
Proof.
  intros Hfail Hkey Hloader Hnow.
  cut (wp (read policy serializer comparator clock identity loader required now) (λ r _, match r with
    | Ok c => is_hit c ∨ authoritative source c
    | Raise _ => judgement_failed policy comparator required (PSequence key) ∨
                 storing_failed policy serializer source times (PSequence key)
    end) w).
  { intros Hwp. apply wp_run in Hwp as (r & w' & -> & Hr). exact Hr. }
  by eapply read_ok.
Qed.

Lemma timestamp_at_utc `{DatetimeParser} t field :
  in_range t = true → timestamp_instant (TDatetime (at_utc t)) field = Ok t.
Proof. apply ensure_utc_at_utc. Qed.

(** ** Collaborators *)

(** The backend beside the state of the other collaborators. *)
#[export] Instance cache_beside `{CacheEntryApi} {X} : CacheBackend (memory_cache * X) := {|
  cache_get resource key := lift_fst (memory_get resource key);
  cache_put resource e ttl := lift_fst (memory_put resource e ttl);
  cache_put_if_absent resource e ttl := lift_fst (memory_put_if_absent resource e ttl);
  cache_compare_and_set resource e expected ttl := lift_fst (memory_compare_and_set resource e expected ttl);
  cache_delete resource key := lift_fst (memory_delete resource key);
  cache_invalidate resource selector := lift_fst (memory_invalidate resource selector);
|}.

(** One reader at a time: the table of flights is empty when a read begins, so
    the reader leads, and empty again when it ends. *)
Definition lone_reader {W} : Flights W := {|
  enter_flight _ := ret true; wait_flight _ := ret (); leave_flight _ := ret () |}.

(** ** Versions of the in-memory backend *)
Section versions.
Context `{CacheEntryApi}.

Inductive memory_operation : Type :=
| MemGet (resource : string) (key : pyval)
| MemPut (resource : string) (e : CacheEntry) (ttl : Z)
| MemPutIfAbsent (resource : string) (e : CacheEntry) (ttl : Z)
| MemCompareAndSet (resource : string) (e : CacheEntry) (expected : version) (ttl : Z)
| MemDelete (resource : string) (key : pyval)
| MemInvalidate (resource : string) (selector : list (pyval * pyval))
| MemAvailable (b : bool).

Definition memory_after (o : memory_operation) (m : memory_cache) : memory_cache :=
  match o with
  | MemGet r k => (memory_get r k m).2
  | MemPut r e t => (memory_put r e t m).2
  | MemPutIfAbsent r e t => (memory_put_if_absent r e t m).2
  | MemCompareAndSet r e v t => (memory_compare_and_set r e v t m).2
  | MemDelete r k => (memory_delete r k m).2
  | MemInvalidate r s => (memory_invalidate r s m).2
  | MemAvailable b => (set_available b m).2
  end.

Definition memory_moves (m m' : memory_cache) : Prop := ∃ o, m' = memory_after o m.

(** Every stored version was issued, and those of [k] after [v]. *)
Record issued_after (k : string * string) (v : Z) (m : memory_cache) : Prop := {
  ia_issued : ∀ k' x, entries m !! k' = Some x → ∃ n, entry_version x = VInt n ∧ 1 ≤ n ≤ cache_revision m;
  ia_after : ∀ x, entries m !! k = Some x → ∃ n, entry_version x = VInt n ∧ v < n;
  ia_revision : v ≤ cache_revision m ∧ 0 ≤ cache_revision m;
}.

Lemma issued_store k v m k' e a :
  issued_after k v m →
  issued_after k v (MemoryCache (<[k' := Versioned _ e (VInt (cache_revision m + 1))]> (entries m))
                      (cache_revision m + 1) a).
Proof.
  intros [Hi Ha Hr]. split; cbn; [| |lia].
  - intros k0 x. rewrite lookup_insert_Some. intros [[_ <-]|[_ Hx]].
    + eexists. split; [done|]. lia.
    + destruct (Hi _ _ Hx) as (n & ? & ?). exists n. split; [done|lia].
  - intros x. rewrite lookup_insert_Some. intros [[_ <-]|[_ Hx]]; [|by apply Ha].
    eexists. split; [done|]. lia.
Qed.

Lemma issued_subset k v m rs a :
  issued_after k v m → (∀ k' x, rs !! k' = Some x → entries m !! k' = Some x) →
  issued_after k v (MemoryCache rs (cache_revision m) a).
Proof. intros [Hi Ha Hr] Hsub. split; cbn; [| |done]; eauto. Qed.

Lemma issued_memory_after k v m o : issued_after k v m → issued_after k v (memory_after o m).
Proof.
  intros Hm. assert (∀ b, issued_after k v (MemoryCache (entries m) (cache_revision m) b)) as Hsame
    by (intros b; by apply issued_subset).
  assert (issued_after k v m) as Hm' by done.
  destruct o as [r key|r e t|r e t|r e x t|r key|r s|b]; cbn [memory_after];
    unfold memory_get, memory_put, memory_put_if_absent, memory_compare_and_set, memory_delete, memory_invalidate,
      require_available, next_version, set_entries, set_available, bind, get, gets, modify, lift_res, ret; cbn;
    destruct (available m) eqn:Hav; cbn; try done.
  - by destruct (memory_key r key).
  - by apply issued_store.
  - destruct (is_some _); [done|]. by apply issued_store.
  - destruct (entries m !! stored_key r e) as [c|]; [|done]. destruct (negb _); [done|]. by apply issued_store.
  - destruct (memory_key r key) as [k'|]; [|done]. apply (issued_subset k v m); [done|].
    intros k0 y. rewrite lookup_delete_Some. by intros [_ ?].
  - destruct (match mapping_get "all" s with Some (PBool true) => false | _ => true end); [done|]. cbn.
    apply (issued_subset k v m); [done|]. intros k0 y. rewrite map_lookup_filter_Some. by intros [? _].
Qed.

Lemma issued_cas_fails m r e v t :
  issued_after (stored_key r e) v m → (memory_compare_and_set r e (VInt v) t m).1 ≠ Ok true.
Proof.
  intros [_ Ha _]. unfold memory_compare_and_set, require_available, bind, get, lift_res.
  destruct (available m); [|done]. cbn.
  destruct (entries m !! stored_key r e) as [c|] eqn:Hc; [|done].
  destruct (Ha _ eq_refl) as (n & -> & Hn). cbn. by rewrite (proj2 (Z.eqb_neq n v)) by lia.
Qed.
End versions.

(** Stores that operations built from the empty one. *)
Definition memory_reachable `{CacheEntryApi} (m : memory_cache) : Prop := rtc memory_moves empty_cache m.

Lemma memory_reachable_issued `{CacheEntryApi} m k : memory_reachable m → issued_after k 0 m.
Proof.
  unfold memory_reachable. assert (issued_after k 0 empty_cache) as H0 by (split; cbn; [done..|lia]).
  intros Hm. revert H0. induction Hm as [|m1 m2 m3 [o ->] _ IH]; intros H1; [done|].
  by apply IH, issued_memory_after.
Qed.

(** C27: no lost update and no ABA in the in-memory backend: after a successful
    compare-and-set that expected a version, no compare-and-set of the same
    entry expecting that version succeeds again, whatever operations (deletions
    and re-insertions included) come between. *)
Theorem compare_and_set_never_repeats `{CacheEntryApi} m m1 m2 r e e' v t t' :
  memory_reachable m → memory_compare_and_set r e (VInt v) t m = (Ok true, m1) →
  rtc memory_moves m1 m2 → stored_key r e' = stored_key r e →
  (memory_compare_and_set r e' (VInt v) t' m2).1 ≠ Ok true.
Proof.
  intros Hm Hcas Hmoves Hkey. apply issued_cas_fails. rewrite Hkey.
  assert (issued_after (stored_key r e) v m1) as H1.
  { pose proof (memory_reachable_issued m (stored_key r e) Hm) as [Hi _ Hrev]. revert Hcas.
    unfold memory_compare_and_set, require_available, next_version, set_entries, bind, get, gets, modify, lift_res, ret.
    destruct (available m) eqn:Hav; [|done]. cbn.
    destruct (entries m !! stored_key r e) as [c|] eqn:Hc; [|done]. destruct (Hi _ _ Hc) as (n & Hn & Hr). rewrite Hn. cbn.
    destruct (Z.eqb_spec n v) as [->|]; [|done]. cbn. intros [= <-]. split; cbn; [| |lia].
    - intros k' x. rewrite lookup_insert_Some. intros [[_ <-]|[_ Hx]]; [eexists; split; [done|lia]|].
      destruct (Hi _ _ Hx) as (n' & ? & ?). exists n'. split; [done|lia].
    - intros x. rewrite lookup_insert_eq. intros [= <-]. eexists. split; [done|]. lia. }
  clear Hcas. revert H1. induction Hmoves as [|a b c [o ->] _ IH]; intros Ha; [done|]. by apply IH, issued_memory_after.
Qed.

(** ** Concrete collaborators *)
Record example_entry : Type := ExampleEntry {
  ee_key : json; ee_value : json; ee_serializer : string; ee_fingerprint : string;
  ee_created : timestamp; ee_expires : option timestamp; ee_version : option version }.

Definition example_entries : CacheEntryApi := {|
  CacheEntry := example_entry;
  entry_key := ee_key; entry_value := ee_value; entry_serializer_id := ee_serializer;
  entry_schema_fingerprint := ee_fingerprint; entry_created_at := ee_created;
  entry_expires_at := ee_expires; entry_source_version := ee_version;
  new_entry k x s f c e v :=
    Ok (ExampleEntry k x s f (TDatetime (at_utc c)) ((λ t, TDatetime (at_utc t)) <$> e) v);
  entry_to_dict e := [(PStr "key", of_json (ee_key e)); (PStr "value", of_json (ee_value e))];
|}.

Lemma example_laws : @CacheEntryLaws example_entries.
Proof. split. intros k x s f c e v en Hen. injection Hen as <-. done. Qed.

Definition no_parser : DatetimeParser := λ _, Raise (ValueError "").

Definition example_policy (staleness : timedelta) : CachePolicy :=
  MkPolicy "orders" "orders.cache" ["id"%string] "canonical-json-v1" (sha256_digest JNull)
    (60 * us_per_second) (3600 * us_per_second) staleness None EXACT true true 4096.

Definition example_serializer : CacheSerializer := CanonicalJsonSerializer (H := literal_floats).
Definition example_identity : list (string * pyval) := [("id"%string, PInt 7); ("page"%string, PInt 2)].
Definition example_key : list pyval := [PStr "orders"; PInt 7].
Definition example_loaded : LoadedValue := Loaded (PMapping [(PStr "total", PInt 10)]) (Some (VInt 3)).
Definition example_now : instant := 63902822400 * us_per_second.

Definition example_stored_entry : example_entry :=
  ExampleEntry (JArr [JStr "orders"; JInt 7]) (JObj [(VALUE_FIELD, JObj [("total"%string, JInt 10)])])
    "canonical-json-v1" (sha256_digest JNull) (TDatetime (at_utc example_now))
    (Some (TDatetime (at_utc (example_now + 60 * us_per_second)))) (Some (VInt 3)).

Definition example_cache : @memory_cache example_entries :=
  MemoryCache (H := example_entries)
    {[("orders.cache"%string, sha256_digest (ee_key example_stored_entry)) := Versioned example_entries example_stored_entry (VInt 1)]}
    1 true.

Lemma cached_hit_sound_witness :
  let policy := example_policy (3600 * us_per_second) in
  let key := PSequence example_key in
  let hit := MkRead (Some (PMapping [(PStr "total", PInt 10)])) (Some (VInt 3)) HIT None in
  cached (H := no_parser) (H0 := example_entries) (H1 := NullEvidenceSink) policy example_serializer None key
      (Some (VInt 3)) (example_now + us_per_second) (example_cache, 0%nat) =
    (Ok (Some hit, None), (example_cache, 0%nat)) ∧
  ∃ found w1, cache_get (cp_cache_resource policy) key (example_cache, 0%nat) = (Ok (Some found), w1) ∧
    reusable (H := no_parser) policy None (versioned_entry found) (Some (VInt 3)) (example_now + us_per_second) ∧
    taken_from example_serializer (versioned_entry found) hit ∧ @None string = None.
Proof.
  intros policy key hit.
  assert (cached (H := no_parser) (H0 := example_entries) (H1 := NullEvidenceSink) policy example_serializer None key
      (Some (VInt 3)) (example_now + us_per_second) (example_cache, 0%nat) =
    (Ok (Some hit, None), (example_cache, 0%nat))) as Hhit by (vm_compute; reflexivity).
  split; [exact Hhit|].
  exact (cached_hit_sound (H := no_parser) (H0 := example_entries) (H1 := NullEvidenceSink)
    policy example_serializer None key (Some (VInt 3)) (example_now + us_per_second) (example_cache, 0%nat)
    (example_cache, 0%nat) hit None Hhit).
Defined.

(** A backend every operation of which fails, beside a decoder that rejects. *)
Definition broken_backend : CacheBackend (H := example_entries) nat := {|
  cache_get _ _ := raise (RuntimeError "down"); cache_put _ _ _ := raise (RuntimeError "down");
  cache_put_if_absent _ _ _ := raise (RuntimeError "down");
  cache_compare_and_set _ _ _ _ := raise (RuntimeError "down");
  cache_delete _ _ := raise (RuntimeError "down"); cache_invalidate _ _ := raise (RuntimeError "down") |}.
Definition rejecting_serializer : CacheSerializer :=
  Serializer "canonical-json-v1" true (encode example_serializer) (λ _, Raise (ValueError "corrupt")).

Lemma broken_may_fail :
  cache_may_fail (H0 := example_entries) (H1 := NullEvidenceSink) (H2 := lone_reader)
    (CacheBackend0 := broken_backend)
    (example_policy (3600 * us_per_second)) rejecting_serializer (ret (at_utc example_now)) (λ t, t = example_now).
Proof.
  split.
  - by intros t ->.
  - reflexivity.
  - discriminate.
  - by intros key w e w' [= <- _].
  - by intros e ttl w x w' [= <- _].
  - by intros key w e w' [= <- _].
  - by intros j e [= <-].
  - intros e w. by exists (), w.
  - intros w. exists (at_utc example_now), w. split; [reflexivity|].
    exists example_now. split; [by apply ensure_utc_at_utc|done].
  - intros k w. by exists true, w.
  - intros k w. by exists (), w.
  - intros k w. by exists (), w.
Qed.

Lemma read_survives_outages_witness :
  let policy := example_policy (3600 * us_per_second) in
  let result := (read (H := no_parser) (H0 := example_entries) (H1 := NullEvidenceSink) (H2 := lone_reader)
      (CacheBackend0 := broken_backend) policy rejecting_serializer None (ret (at_utc example_now)) example_identity
      (λ w, (Ok (Some example_loaded), S w)) None None 0%nat).1 in
  (∃ code, result = Ok (MkRead (Some (loaded_value example_loaded)) (Some (VInt 3)) BYPASS (Some code))) ∧
  match result with
  | Ok c => is_hit c ∨ authoritative (λ l, l = Some example_loaded) c
  | Raise _ =>
      (∃ w1 found w2, cache_get (CacheBackend := broken_backend) (cp_cache_resource policy) (PSequence example_key) w1 =
         (Ok (Some found), w2) ∧ unreadable (H := no_parser) policy None None (versioned_entry found)) ∨
      (∃ l t, l = Some example_loaded ∧ t = example_now ∧
         unstorable (H0 := example_entries) policy rejecting_serializer (PSequence example_key) t l)
  end.
Proof.
  intros policy result. split; [eexists; vm_compute; reflexivity|].
  apply (read_survives_outages (H := no_parser) (H0 := example_entries) (H1 := NullEvidenceSink) (H2 := lone_reader)
    (CacheBackend0 := broken_backend) policy rejecting_serializer None (ret (at_utc example_now)) None
    (λ l, l = Some example_loaded) (λ t, t = example_now) example_identity example_key);
    [exact broken_may_fail|vm_compute; reflexivity| |discriminate].
  intros w. exists (Some example_loaded), (S w). done.
Defined.

Lemma compare_and_set_never_repeats_witness :
  let cas := memory_compare_and_set (H := example_entries) "orders.cache" example_stored_entry (VInt 1) 1000 in
  let m1 := (cas example_cache).2 in
  let m2 := memory_after (MemPut (H := example_entries) "orders.cache" example_stored_entry 1000)
              (memory_after (MemDelete (H := example_entries) "orders.cache" (PSequence example_key)) m1) in
  (cas example_cache).1 = Ok true ∧ (cas m2).1 ≠ Ok true.
Proof.
  intros cas m1 m2. assert ((cas example_cache).1 = Ok true) as Hcas by (vm_compute; reflexivity).
  split; [exact Hcas|].
  refine (compare_and_set_never_repeats (H := example_entries) example_cache m1 m2 "orders.cache" example_stored_entry
    example_stored_entry 1 1000 1000 _ _ _ eq_refl).
  - apply rtc_once. exists (MemPut (H := example_entries) "orders.cache" example_stored_entry 1000). reflexivity.
  - rewrite <- Hcas. apply surjective_pairing.
  - apply rtc_l with (memory_after (MemDelete (H := example_entries) "orders.cache" (PSequence example_key)) m1).
    + exists (MemDelete (H := example_entries) "orders.cache" (PSequence example_key)). exact eq_refl.
    + apply rtc_once. exists (MemPut (H := example_entries) "orders.cache" example_stored_entry 1000). exact eq_refl.
Defined.
