(* ===== verification/CacheStore.v ===== *)
(** * What a cache backend promises, and read-through over any backend

    The contract of [CacheBackend] as a transition system on a versioned map
    ([spec_step]), an interface ([VersionedStore]) that says a backend refines
    it, and what the coordinator guarantees over every backend that does.
    [InMemoryCacheBackend] is one; [CacheCatalog.v] shows that
    [MeridianCacheBackend] over a conforming cache Catalog is another. *)
From S2P Require Import Prelude PyTime Sha256 Canonical Errors OutboxModel Runner JsonParse CacheModel Cache CacheProofs.

(** ** The contract *)
Section contract.
Context `{CacheEntryApi}.

(** The entries held under their resource and slot, and the versions issued. *)
Record spec : Type := Spec { held : gmap (string * string) VersionedCacheEntry; issued : version → Prop }.

Inductive cache_op : Type :=
| OpGet (resource : string) (key : pyval)
| OpPut (resource : string) (e : CacheEntry) (ttl : Z)
| OpPutIfAbsent (resource : string) (e : CacheEntry) (ttl : Z)
| OpCompareAndSet (resource : string) (e : CacheEntry) (expected : version) (ttl : Z)
| OpDelete (resource : string) (key : pyval)
| OpInvalidate (resource : string).

Inductive answer : Type :=
| Found (e : option VersionedCacheEntry)
| Stored (v : version)
| Flag (b : bool)
| Count (n : Z).

(** The selector the in-memory backend knows. *)
Definition select_all : list (pyval * pyval) := [(PStr "all", PBool true)].

Definition run_op {W} `{!CacheBackend W} (o : cache_op) : M W answer :=
  match o with
  | OpGet r k => let! e := cache_get r k in ret (Found e)
  | OpPut r e t => let! v := cache_put r e t in ret (Stored v)
  | OpPutIfAbsent r e t => let! b := cache_put_if_absent r e t in ret (Flag b)
  | OpCompareAndSet r e v t => let! b := cache_compare_and_set r e v t in ret (Flag b)
  | OpDelete r k => let! b := cache_delete r k in ret (Flag b)
  | OpInvalidate r => let! n := cache_invalidate r select_all in ret (Count n)
  end.

Definition same_version (u v : version) : bool := version_eqb (Some u) (Some v).

(** A step that stores [e] under [k] with a version never issued before, and a
    step that changes nothing. *)
Record writes (s s' : spec) (k : string * string) (e : CacheEntry) (v : version) : Prop := {
  wr_held : held s' = <[k := Versioned _ e v]> (held s);
  wr_fresh : ∀ u, issued s u → same_version u v = false;
  wr_issued : ∀ u, issued s' u ↔ issued s u ∨ u = v;
}.
Record keeps (s s' : spec) : Prop := {
  kp_held : held s' = held s;
  kp_issued : ∀ u, issued s' u ↔ issued s u;
}.

Section steps.
Context (slot : json → string).
Definition place (r : string) (e : CacheEntry) : string * string := (r, slot (entry_key e)).

Inductive spec_step (s s' : spec) : cache_op → answer → Prop :=
| step_get r key j : json_value key = Ok j → keeps s s' → spec_step s s' (OpGet r key) (Found (held s !! (r, slot j)))
| step_put r e t v : writes s s' (place r e) e v → spec_step s s' (OpPut r e t) (Stored v)
| step_absent r e t v :
    held s !! place r e = None → writes s s' (place r e) e v → spec_step s s' (OpPutIfAbsent r e t) (Flag true)
| step_present r e t : is_Some (held s !! place r e) → keeps s s' → spec_step s s' (OpPutIfAbsent r e t) (Flag false)
| step_swap r e x t c v :
    held s !! place r e = Some c → same_version (entry_version c) x = true → writes s s' (place r e) e v →
    spec_step s s' (OpCompareAndSet r e x t) (Flag true)
| step_no_swap r e x t :
    (∀ c, held s !! place r e = Some c → same_version (entry_version c) x = false) → keeps s s' →
    spec_step s s' (OpCompareAndSet r e x t) (Flag false)
| step_delete r key j :
    json_value key = Ok j → held s' = delete (r, slot j) (held s) → (∀ u, issued s' u ↔ issued s u) →
    spec_step s s' (OpDelete r key) (Flag (is_some (held s !! (r, slot j))))
| step_invalidate r :
    held s' = filter (λ kv, ¬ of_resource r kv) (held s) → (∀ u, issued s' u ↔ issued s u) →
    spec_step s s' (OpInvalidate r) (Count (Z.of_nat (size (filter (of_resource r) (held s))))).

(** The answers of a sequence of operations. *)
Inductive spec_run : spec → list cache_op → list answer → spec → Prop :=
| spec_done s : spec_run s [] [] s
| spec_more s s1 s2 o os a l : spec_step s s1 o a → spec_run s1 os l s2 → spec_run s (o :: os) (a :: l) s2.
End steps.
End contract.

(** ** The interface

    A backend whose operations, in the worlds that are [ready] and on the
    arguments it accepts, return what the contract says. *)
Class VersionedStore (W : Type) `{CacheEntryApi} `{!CacheBackend W} : Type := {
  slot : json → string;
  ready : W → Prop;
  abstract : W → spec;
  accepts : cache_op → Prop;
  refines o w : ready w → accepts o →
    ∃ a w', run_op o w = (Ok a, w') ∧ ready w' ∧ spec_step slot (abstract w) (abstract w') o a;
}.

Section interface.
Context {W : Type} `{CacheEntryApi} `{!CacheBackend W} `{!VersionedStore W}.

Fixpoint run_ops (os : list cache_op) : M W (list answer) :=
  match os with
  | [] => ret []
  | o :: os' => let! a := run_op o in let! l := run_ops os' in ret (a :: l)
  end.

Lemma run_refines os w :
  ready w → Forall accepts os →
  ∃ l w', run_ops os w = (Ok l, w') ∧ ready w' ∧ spec_run slot (abstract w) os l (abstract w').
Proof.
  intros Hr Hos. revert w Hr. induction Hos as [|o os Ho _ IH]; intros w Hr.
  - exists [], w. split_and!; [done|done|constructor].
  - destruct (refines o w Hr Ho) as (a & w1 & Hrun & Hr1 & Hstep). destruct (IH w1 Hr1) as (l & w2 & Hrun2 & Hr2 & Hl).
    exists (a :: l), w2. split_and!; [|done|by econstructor]. cbn [run_ops]. unfold bind. by rewrite Hrun, Hrun2.
Qed.

(** The two operations the coordinator's reads use. *)
Lemma store_get r key j w :
  ready w → accepts (OpGet r key) → json_value key = Ok j →
  ∃ w', cache_get r key w = (Ok (held (abstract w) !! (r, slot j)), w') ∧ ready w' ∧ keeps (abstract w) (abstract w').
Proof.
  intros Hr Ha Hj. destruct (refines _ w Hr Ha) as (a & w' & Hrun & Hr' & Hstep). exists w'.
  inversion Hstep as [? ? j' Hj' Hk| | | | | | |]; subst. rewrite Hj in Hj'. injection Hj' as <-.
  revert Hrun. cbn [run_op]. unfold bind. destruct (cache_get r key w) as [[o|] ?]; [|done]. intros [= <- <-].
  by destruct Hk.
Qed.

Lemma store_put r e t w :
  ready w → accepts (OpPut r e t) →
  ∃ v w', cache_put r e t w = (Ok v, w') ∧ ready w' ∧ writes (abstract w) (abstract w') (place slot r e) e v.
Proof.
  intros Hr Ha. destruct (refines _ w Hr Ha) as (a & w' & Hrun & Hr' & Hstep).
  inversion Hstep as [|? ? ? v Hw| | | | | |]; subst. exists v, w'.
  revert Hrun. cbn [run_op]. unfold bind. destruct (cache_put r e t w) as [[u|] ?]; [|done]. by intros [= <- <-].
Qed.
End interface.

(** ** The coordinator over a backend that meets the contract *)
Section read_through.
Context `{DatetimeParser} {W : Type} `{CacheEntryApi} `{!CacheEntryLaws} `{!CacheBackend W} `{!VersionedStore W}.
Context (sink : EvidenceSink W) (policy : CachePolicy) (serializer : CacheSerializer)
  (version_comparator : option (version → version → res bool)) (clock : M W datetime).
#[local] Existing Instance sink.
#[local] Existing Instance lone_reader.
Abbreviation resource := (cp_cache_resource policy).

(** [e] is what a load of [l] at [created] stores, its payload decoding to [v']. *)
Record entry_for (l : LoadedValue) (created : instant) (v' : pyval) (e : CacheEntry) : Prop := {
  ef_value : ∃ x, entry_value e = JObj [(VALUE_FIELD, x)] ∧ decode serializer x = Ok v';
  ef_serializer : entry_serializer_id e = cp_serializer_id policy;
  ef_schema : entry_schema_fingerprint e = cp_schema_fingerprint policy;
  ef_created : entry_created_at e = TDatetime (at_utc created);
  ef_expires : entry_expires_at e = Some (TDatetime (at_utc (created + cp_default_ttl policy)));
  ef_version : entry_source_version e = loaded_version l;
}.

(** A world whose backend holds such an entry under [key]. *)
Record holding (w : W) (key : list pyval) (l : LoadedValue) (created : instant) (v' : pyval) : Prop := {
  ho_ready : ready w;
  ho_accepts : accepts (OpGet resource (PSequence key));
  ho_entry : ∃ found j, json_value (PSequence key) = Ok j ∧
    held (abstract w) !! (resource, slot j) = Some found ∧ entry_for l created v' (versioned_entry found);
}.

Lemma holding_keeps w w' key l created v' :
  holding w key l created v' → ready w' → keeps (abstract w) (abstract w') → holding w' key l created v'.
Proof. intros [_ Ha Hf] Hr [Hk _]. split; [done|done|]. by rewrite Hk. Qed.

(** The instants at which the entry may be reused. *)
Record within_lifetime (created now : instant) : Prop := {
  wl_created : in_range created = true;
  wl_expiry : in_range (created + cp_default_ttl policy) = true;
  wl_staleness : in_range (created + cp_maximum_staleness policy) = true;
  wl_unexpired : now < created + cp_default_ttl policy;
  wl_fresh : now ≤ created + cp_maximum_staleness policy;
}.

Lemma entry_for_valid l created v' e required now :
  entry_for l created v' e → within_lifetime created now →
  version_valid policy version_comparator (loaded_version l) required = Ok true →
  valid_entry policy version_comparator e required now = Ok true.
Proof.
  intros [_ Hser Hfp Hcr Hexp Hver] [Hc1 Hc2 Hc3 Hlt Hle] Hvalid. unfold valid_entry.
  rewrite Hser, Hfp, !String.eqb_refl, Hcr, Hexp. cbn [negb]. rewrite !timestamp_at_utc by done. cbn [res_bind res_map].
  rewrite (proj2 (Z.leb_gt _ _)) by done. unfold dt_add. rewrite Hc3. cbn [res_bind].
  rewrite (proj2 (Z.ltb_ge _ _)) by done. by rewrite Hver.
Qed.

(** What [cached] does with the entry it finds. *)
Lemma holding_get w key l created v' :
  holding w key l created v' →
  ∃ found w', cache_get resource (PSequence key) w = (Ok (Some found), w') ∧ holding w' key l created v' ∧
    entry_for l created v' (versioned_entry found) ∧ keeps (abstract w) (abstract w').
Proof.
  intros Hh. pose proof Hh as [Hr Ha (found & j & Hj & Hfound & He)].
  destruct (store_get resource (PSequence key) j w Hr Ha Hj) as (w' & Hget & Hr' & Hk).
  exists found, w'. rewrite Hfound in Hget. split_and!; [done|by eapply holding_keeps|done|done].
Qed.

Lemma now_at_utc t w : in_range t = true → now_or_clock clock (Some (at_utc t)) w = (Ok t, w).
Proof. intros Ht. unfold now_or_clock, bind, ret, lift_res. by rewrite ensure_utc_at_utc. Qed.

Lemma holding_read w identity key l created v' required now loader :
  cp_enabled policy = true → policy_key policy identity = Ok key → in_range now = true →
  holding w key l created v' → within_lifetime created now →
  version_valid policy version_comparator (loaded_version l) required = Ok true →
  ∃ w', read policy serializer version_comparator clock identity loader required (Some (at_utc now)) w =
      (Ok (MkRead (Some v') (loaded_version l) HIT None), w') ∧ holding w' key l created v' ∧
    keeps (abstract w) (abstract w').
Proof.
  intros Hen Hkey Hnow Hh Hlife Hver.
  destruct (holding_get _ _ _ _ _ Hh) as (found & w' & Hget & Hh' & He & Hk). exists w'. split; [|done].
  unfold read. unfold bind at 1. rewrite now_at_utc by done.
  rewrite Hen. cbn [negb]. unfold bind at 1. unfold lift_res at 1. rewrite Hkey. unfold bind at 1.
  unfold cached, try_except at 1, bind at 1 2. rewrite Hget. cbn beta iota. unfold ret at 1.
  unfold bind at 1, lift_res at 1. rewrite (entry_for_valid l created v') by done. cbn [negb].
  destruct He as [(x & -> & Hdec) _ _ _ _ Hv]. cbn [equals_negative]. 
  assert (String.eqb VALUE_FIELD NEGATIVE_FIELD = false) as -> by done. cbn [andb].
  unfold try_except, bind, lift_res. cbn [tagged_payload]. rewrite String.eqb_refl, Hdec, Hv. done.
Qed.

(** What loading [l] stores. *)
Record storable (key : list pyval) (l : LoadedValue) (created : instant) (v' : pyval) (e : CacheEntry) : Prop := {
  so_range : in_range (created + cp_default_ttl policy) = true;
  so_ttl : is_ok (ttl_ms (cp_default_ttl policy)) = true;
  so_accepts : ∀ ms, accepts (OpPut resource e ms);
  so_entry : ∃ j y x, json_value (PSequence key) = Ok j ∧ encode serializer (loaded_value l) = Ok y ∧
    json_value y = Ok x ∧ decode serializer x = Ok v' ∧
    new_entry j (JObj [(VALUE_FIELD, x)]) (cp_serializer_id policy) (cp_schema_fingerprint policy) created
      (Some (created + cp_default_ttl policy)) (loaded_version l) = Ok e;
}.

Lemma json_value_tagged y x : json_value y = Ok x → json_value (tagged y) = Ok (JObj [(VALUE_FIELD, x)]).
Proof. intros Hy. unfold tagged. cbn. by rewrite Hy. Qed.

Lemma storable_entry key l created v' e j :
  storable key l created v' e → json_value (PSequence key) = Ok j →
  make_entry policy serializer (PSequence key) (Some l) created = Ok (Some (e, cp_default_ttl policy)) ∧
  entry_key e = j ∧ entry_for l created v' e.
Proof.
  intros [Hr _ _ (j' & y & z & Hj & Hy & Hz & Hdec & He)] Hj'. rewrite Hj in Hj'. injection Hj' as ->.
  destruct (new_entry_fields _ _ _ _ _ _ _ _ He) as (Hk & Hval & Hser & Hfp & Hcr & Hexp & Hver). split_and!.
  - unfold make_entry, build_entry. rewrite Hy. cbn [res_bind]. rewrite Hj. cbn [res_bind].
    rewrite (json_value_tagged _ _ Hz). cbn [res_bind]. unfold dt_add. rewrite Hr. cbn [res_bind]. by rewrite He.
  - done.
  - split; [by exists z|done..].
Qed.

Lemma load_holds w key l created v' e loader w1 :
  accepts (OpGet resource (PSequence key)) → storable key l created v' e →
  loader w = (Ok (Some l), w1) → ready w1 →
  ∃ w2, load policy serializer (PSequence key) loader None created w =
      (Ok (MkRead (Some (loaded_value l)) (loaded_version l) MISS None), w2) ∧ holding w2 key l created v'.
Proof.
  intros Hget Hst Hload Hr. pose proof Hst as [_ Httl Hacc (j & _ & _ & Hj & _)].
  destruct (storable_entry key l created v' e j Hst Hj) as (Hmade & Hk & He).
  destruct (ttl_ms (cp_default_ttl policy)) as [ms|] eqn:Hms; [|done].
  destruct (store_put resource e ms w1 Hr (Hacc ms)) as (v & w2 & Hput & Hr2 & [Hheld _ _]). exists w2. split.
  - unfold load. unfold bind at 1. rewrite Hload. unfold bind at 1, lift_res at 1. rewrite Hmade.
    unfold bind at 1, try_except, bind at 1, lift_res at 1. rewrite Hms. unfold bind at 1. by rewrite Hput.
  - split; [done|done|]. exists (Versioned _ e v), j. split; [done|]. split; [|done].
    rewrite Hheld. unfold place. by rewrite Hk, lookup_insert_eq.
Qed.

Lemma miss_read w identity key j l created v' e loader required :
  cp_enabled policy = true → policy_key policy identity = Ok key → in_range created = true →
  ready w → accepts (OpGet resource (PSequence key)) → json_value (PSequence key) = Ok j →
  held (abstract w) !! (resource, slot j) = None → storable key l created v' e →
  (∀ w1, ready w1 → ∃ w2, loader w1 = (Ok (Some l), w2) ∧ ready w2) →
  ∃ w', read policy serializer version_comparator clock identity loader required (Some (at_utc created)) w =
      (Ok (MkRead (Some (loaded_value l)) (loaded_version l) MISS None), w') ∧ holding w' key l created v'.
Proof.
  intros Hen Hkey Hnow Hr Ha Hj Hnone Hst Hload.
  destruct (store_get resource (PSequence key) j w Hr Ha Hj) as (w1 & Hget & Hr1 & _). rewrite Hnone in Hget.
  destruct (Hload w1 Hr1) as (w2 & Hl & Hr2).
  destruct (load_holds w1 key l created v' e loader w2 Ha Hst Hl Hr2) as (w3 & Hrun & Hh). exists w3. split; [|done].
  unfold read. unfold bind at 1. rewrite now_at_utc by done.
  rewrite Hen. cbn [negb]. unfold bind at 1. unfold lift_res at 1. rewrite Hkey. unfold bind at 1.
  assert (cached policy serializer version_comparator (PSequence key) required created w = (Ok (None, None), w1)) as ->.
  { unfold cached, try_except at 1, bind at 1 2. by rewrite Hget. }
  unfold bind at 1, lift_res at 1. unfold digest_of. rewrite Hj. cbn [res_map]. unfold bind at 1. cbn.
  unfold try_finally. by rewrite Hrun.
Qed.
End read_through.

(** C34: read-through, over any backend that meets the contract.  A read that
    finds no entry asks the source, returns its value as a miss and stores it;
    from then on, until the entry expires or grows stale, every read of the same
    identity whose version is acceptable is a hit with the decoded value and the
    loaded version, whatever its source would do, and leaves the backend as it is. *)
Theorem read_through `{DatetimeParser} {W} `{CacheEntryApi} `{!CacheEntryLaws} `{!CacheBackend W} `{!VersionedStore W}
    (sink : EvidenceSink W) policy serializer comparator clock (w : W) identity key j l created v' e loader required :
  cp_enabled policy = true → policy_key policy identity = Ok key → in_range created = true →
  ready w → accepts (OpGet (cp_cache_resource policy) (PSequence key)) → json_value (PSequence key) = Ok j →
  held (abstract w) !! (cp_cache_resource policy, slot j) = None → storable policy serializer key l created v' e →
  (∀ w1, ready w1 → ∃ w2, loader w1 = (Ok (Some l), w2) ∧ ready w2) →
  ∃ w1, read (H1 := sink) (H2 := lone_reader) policy serializer comparator clock identity loader required
          (Some (at_utc created)) w =
        (Ok (MkRead (Some (loaded_value l)) (loaded_version l) MISS None), w1) ∧
    ∀ reads, Forall (λ '(now, required', _), in_range now = true ∧ within_lifetime policy created now ∧
      version_valid policy comparator (loaded_version l) required' = Ok true) reads →
      ∃ w2, map_list (λ '(now, required', loader'),
          read (H1 := sink) (H2 := lone_reader) policy serializer comparator clock identity loader' required'
            (Some (at_utc now))) reads w1 =
        (Ok (map (λ _, MkRead (Some v') (loaded_version l) HIT None) reads), w2) ∧ keeps (abstract w1) (abstract w2).
Proof.
  intros Hen Hkey Hrange Hr Ha Hj Hnone Hst Hload.
  destruct (miss_read sink policy serializer comparator clock w identity key j l created v' e loader required)
    as (w1 & Hrun & Hh); [done..|]. exists w1. split; [done|].
  intros reads Hall. clear Hrun. revert w1 Hh. induction Hall as [|[[now required'] loader'] reads (Hn & Hlife & Hver) _ IH]; intros w1 Hh.
  - exists w1. by split.
  - destruct (holding_read sink policy serializer comparator clock w1 identity key l created v' required' now loader')
      as (w2 & Hhit & Hh2 & Hk); [done..|]. destruct (IH w2 Hh2) as (w3 & Hmap & Hk3). exists w3. split.
    + cbn [map_list map]. unfold bind at 1. rewrite Hhit. unfold bind. by rewrite Hmap.
    + destruct Hk as [Hheld Hiss], Hk3 as [Hheld3 Hiss3]. split; [by rewrite Hheld3|].
      intros u. by rewrite Hiss3.
Qed.

(** ** A staleness bound beyond the end of the calendar *)

(** The staleness limit is computed outside the handlers that protect a read
    from its cache: when creation time plus maximum staleness passes the year
    9999, every read that finds an unexpired entry raises [OverflowError],
    although the policy allows the fallback to the source, over any backend
    that meets the contract. *)
Theorem staleness_overflow_fails_read `{DatetimeParser} {W} `{CacheEntryApi} `{!CacheBackend W} `{!VersionedStore W}
    (sink : EvidenceSink W) policy serializer comparator clock (w : W) identity key l created v' required now loader :
  cp_enabled policy = true → policy_key policy identity = Ok key → in_range now = true →
  holding policy serializer w key l created v' → in_range created = true →
  in_range (created + cp_default_ttl policy) = true → now < created + cp_default_ttl policy →
  in_range (created + cp_maximum_staleness policy) = false →
  (read (H1 := sink) (H2 := lone_reader) policy serializer comparator clock identity loader required
    (Some (at_utc now)) w).1 = Raise date_overflow.
Proof.
  intros Hen Hkey Hnow Hh Hc1 Hc2 Hlt Hover.
  destruct (holding_get policy serializer w key l created v' Hh) as (found & w' & Hget & _ & [_ Hser Hfp Hcr Hexp _] & _).
  unfold read. unfold bind at 1. rewrite now_at_utc by done.
  rewrite Hen. cbn [negb]. unfold bind at 1. unfold lift_res at 1. rewrite Hkey. unfold bind at 1.
  unfold cached, try_except at 1, bind at 1 2. rewrite Hget. cbn beta iota. unfold ret at 1.
  unfold bind at 1, lift_res at 1. unfold valid_entry. rewrite Hser, Hfp, !String.eqb_refl, Hcr, Hexp.
  cbn [negb]. rewrite !timestamp_at_utc by done. cbn [res_bind res_map].
  rewrite (proj2 (Z.leb_gt _ _)) by done. unfold dt_add. by rewrite Hover.
Qed.

(** ** The in-memory backend meets the contract *)
Section memory.
Context `{CacheEntryApi} {X : Type}.
Implicit Types (w : memory_cache * X).

Definition memory_ready w : Prop := available w.1 = true ∧ 0 ≤ cache_revision w.1.
Definition memory_abstract w : spec :=
  Spec (entries w.1) (λ v, ∃ n, v = VInt n ∧ 1 ≤ n ≤ cache_revision w.1).
(** Keys that can be digested. *)
Definition serializable_keys (o : cache_op) : Prop :=
  match o with OpGet _ key | OpDelete _ key => ∃ j, json_value key = Ok j | _ => True end.

Lemma memory_keeps w : keeps (memory_abstract w) (memory_abstract w).
Proof. by split. Qed.

(** Storing [e] with the next version. *)
Definition memory_stored w r e : memory_cache * X :=
  (MemoryCache (<[stored_key r e := Versioned _ e (VInt (cache_revision w.1 + 1))]> (entries w.1)) (cache_revision w.1 + 1)
     (available w.1), w.2).

Lemma memory_writes w r e :
  memory_ready w →
  memory_ready (memory_stored w r e) ∧
  writes (memory_abstract w) (memory_abstract (memory_stored w r e)) (place sha256_digest r e) e
    (VInt (cache_revision w.1 + 1)).
Proof.
  intros [Hav Hrev]. split; [split; cbn; [done|lia]|]. split; cbn.
  - done.
  - intros u (n & -> & Hn). unfold same_version. cbn. apply Z.eqb_neq. lia.
  - intros u. split.
    + intros (n & -> & Hn). destruct (decide (n = cache_revision w.1 + 1)) as [->|]; [by right|].
      left. exists n. split; [done|lia].
    + intros [(n & -> & Hn)| ->]; eexists; (split; [done|lia]).
Qed.

#[local] Arguments version_eqb : simpl never.

(** What the operations compute in an available cache. *)
Lemma memory_steps w o :
  memory_ready w → serializable_keys o →
  ∃ a w', run_op o w = (Ok a, w') ∧ memory_ready w' ∧ spec_step sha256_digest (memory_abstract w) (memory_abstract w') o a.
Proof.
  destruct w as [m x]. intros [Hav Hrev] Hkeys. cbn in Hav, Hrev.
  assert (memory_ready (m, x)) as Hready by done.
  destruct o as [r k|r e t|r e t|r e v t|r k|r]; cbn [run_op cache_get cache_put cache_put_if_absent cache_compare_and_set
      cache_delete cache_invalidate cache_beside serializable_keys] in *;
    unfold memory_get, memory_put, memory_put_if_absent, memory_compare_and_set, memory_delete, memory_invalidate,
      require_available, next_version, set_entries, lift_fst, bind, get, gets, modify, lift_res, ret; cbn; rewrite Hav; cbn.
  - destruct Hkeys as [j Hj]. unfold memory_key, digest_of. rewrite Hj. cbn. eexists _, _. split; [reflexivity|].
    split; [done|]. by apply (step_get sha256_digest (memory_abstract (m, x)) _ r k j Hj).
  - eexists _, (memory_stored (m, x) r e). split; [unfold memory_stored; cbn; by rewrite Hav|].
    destruct (memory_writes (m, x) r e Hready) as [Hr Hw]. split; [done|]. by apply step_put.
  - destruct (entries m !! stored_key r e) as [c|] eqn:Hc; cbn.
    + eexists _, _. split; [reflexivity|]. split; [done|]. apply step_present; [by exists c|apply memory_keeps].
    + eexists _, (memory_stored (m, x) r e). split; [unfold memory_stored; cbn; by rewrite Hav|].
      destruct (memory_writes (m, x) r e Hready) as [Hr Hw]. split; [done|]. by eapply step_absent.
  - destruct (entries m !! stored_key r e) as [c|] eqn:Hc; cbn.
    + destruct (version_eqb (Some (entry_version c)) (Some v)) eqn:Hv; cbn.
      * eexists _, (memory_stored (m, x) r e). split; [unfold memory_stored; cbn; by rewrite Hav|].
        destruct (memory_writes (m, x) r e Hready) as [Hr Hw]. split; [done|]. eapply step_swap; [exact Hc|exact Hv|exact Hw].
      * eexists _, _. split; [reflexivity|]. split; [done|]. apply step_no_swap; [|apply memory_keeps].
        intros c'. cbn. unfold place, stored_key in *. rewrite Hc. by intros [= <-].
    + eexists _, _. split; [reflexivity|]. split; [done|]. apply step_no_swap; [|apply memory_keeps].
      intros c'. cbn. unfold place, stored_key in *. by rewrite Hc.
  - destruct Hkeys as [j Hj]. unfold memory_key, digest_of. rewrite Hj. cbn. eexists _, _. split; [reflexivity|].
    split; [done|]. by apply (step_delete sha256_digest (memory_abstract (m, x)) _ r k j Hj).
  - eexists _, _. split; [reflexivity|]. split; [done|]. by apply step_invalidate.
Qed.

#[export] Instance memory_store : VersionedStore (memory_cache * X) := {|
  slot := sha256_digest; ready := memory_ready; abstract := memory_abstract; accepts := serializable_keys;
  refines o w := memory_steps w o |}.
End memory.

(** ** Examples over the in-memory backend *)
Abbreviation example_world := (@memory_cache example_entries * nat)%type.

Lemma example_storable staleness :
  storable (H0 := example_entries) (W := example_world) (example_policy staleness) example_serializer example_key
    example_loaded example_now (PMapping [(PStr "total", PInt 10)]) example_stored_entry.
Proof.
  split; [vm_compute; reflexivity..|intros ms; exact I|].
  exists (JArr [JStr "orders"; JInt 7]), (PMapping [(PStr "total", PInt 10)]), (JObj [("total"%string, JInt 10)]).
  split_and!; vm_compute; reflexivity.
Qed.

Lemma example_accepts resource : accepts (W := example_world) (OpGet (H := example_entries) resource (PSequence example_key)).
Proof. exists (JArr [JStr "orders"; JInt 7]). reflexivity. Qed.

Lemma example_holding staleness :
  holding (H0 := example_entries) (example_policy staleness) example_serializer ((example_cache, 0%nat) : example_world)
    example_key example_loaded example_now (PMapping [(PStr "total", PInt 10)]).
Proof.
  split; [split; vm_compute; (reflexivity || discriminate)|apply example_accepts|].
  exists (Versioned example_entries example_stored_entry (VInt 1)), (JArr [JStr "orders"; JInt 7]).
  split; [reflexivity|]. split; [vm_compute; reflexivity|].
  split; [exists (JObj [("total"%string, JInt 10)]); split; vm_compute; reflexivity|vm_compute; reflexivity..].
Qed.

Lemma read_through_witness :
  let policy := example_policy (3600 * us_per_second) in
  let read_with := λ '(now, required, loader), read (H := no_parser) (H0 := example_entries) (H1 := NullEvidenceSink)
    (H2 := lone_reader) policy example_serializer None (ret (at_utc 0)) example_identity loader required (Some (at_utc now)) in
  let fetch := λ w : example_world, (Ok (Some example_loaded), (w.1, S w.2)) in
  let down := raise (RuntimeError "down") in
  let hit := MkRead (Some (PMapping [(PStr "total", PInt 10)])) (Some (VInt 3)) HIT None in
  ∃ w1, read_with (example_now, Some (VInt 3), fetch) (empty_cache (H := example_entries), 0%nat) =
          (Ok (MkRead (Some (loaded_value example_loaded)) (Some (VInt 3)) MISS None), w1) ∧
        ∃ w2, map_list read_with [(example_now + 1, Some (VInt 3), down); (example_now + 59 * us_per_second, None, down)] w1 =
          (Ok [hit; hit], w2).
Proof.
  intros policy read_with fetch down hit.
  destruct (read_through (H := no_parser) (H0 := example_entries) (H1 := example_laws) NullEvidenceSink policy example_serializer None
    (ret (at_utc 0)) ((empty_cache (H := example_entries), 0%nat) : example_world) example_identity example_key
    (JArr [JStr "orders"; JInt 7]) example_loaded example_now (PMapping [(PStr "total", PInt 10)])
    example_stored_entry fetch (Some (VInt 3)) eq_refl) as (w1 & Hmiss & Hhits);
    [vm_compute; reflexivity|vm_compute; reflexivity|split; vm_compute; (reflexivity || discriminate)|apply example_accepts|
     reflexivity|vm_compute; reflexivity|apply example_storable|intros w Hw; by exists (w.1, S w.2); split|].
  exists w1. split; [exact Hmiss|].
  destruct (Hhits [(example_now + 1, Some (VInt 3), down); (example_now + 59 * us_per_second, None, down)])
    as (w2 & Hrun & _); [|by exists w2].
  repeat (apply Forall_cons; split; [split_and!; [vm_compute; reflexivity|split; vm_compute; (reflexivity || discriminate)|reflexivity]|]).
  constructor.
Defined.

Lemma staleness_overflow_fails_read_witness :
  (read (H := no_parser) (H0 := example_entries) (H1 := NullEvidenceSink) (H2 := lone_reader)
    (example_policy (999999999 * us_per_day)) example_serializer None (ret (at_utc 0)) example_identity
    (ret (Some example_loaded)) None (Some (at_utc (example_now + us_per_second)))
    ((example_cache, 0%nat) : example_world)).1 = Raise date_overflow.
Proof.
  apply (staleness_overflow_fails_read (H := no_parser) (H0 := example_entries) NullEvidenceSink
    (example_policy (999999999 * us_per_day)) example_serializer None (ret (at_utc 0)) (example_cache, 0%nat)
    example_identity example_key example_loaded example_now (PMapping [(PStr "total", PInt 10)]));
    [reflexivity|vm_compute; reflexivity|vm_compute; reflexivity|apply example_holding|vm_compute; reflexivity..].
Defined.
