(* ===== verification/CacheCatalog.v ===== *)
(** * The adapter over a conforming cache Catalog

    [MeridianCacheBackend] sends entries to the cache Catalog as envelopes and
    reads them back.  The Catalog belongs to Core: [CatalogContract] says what a
    conforming one does with the requests of the surface, [EntryWire] what
    Core's [CacheEntry.to_dict] and the standard library's [fromisoformat] are
    relied on for.  Under these the adapter meets the contract of
    [CacheStore.v], envelopes, versions and absent results included. *)
From S2P Require Import Prelude PyTime Sha256 Canonical Errors OutboxModel Runner JsonParse CacheModel Cache CacheProofs CacheStore.

(** ** Envelopes read back *)

(** The text of an instant is not empty. *)
Lemma replace_nonempty old new s : new ≠ ""%string → s ≠ ""%string → str_replace old new s ≠ ""%string.
Proof.
  unfold str_replace. destruct s as [|c s]; [done|]. intros Hnew _. cbn [String.length replace_go].
  destruct (strip_prefix old (String c s)); [|done]. by destruct new.
Qed.
Lemma digits_nonempty w z : digits (S w) z ≠ ""%string.
Proof. cbn [digits]. by destruct (digits w (z / 10)). Qed.
Lemma rfc3339_nonempty t : nonempty (rfc3339 t) = true.
Proof.
  apply nonempty_spec. unfold rfc3339. apply replace_nonempty; [done|]. unfold isoformat_utc.
  destruct (ord2ymd _) as [[y m] d]. pose proof (digits_nonempty 3 y) as Hy. by destruct (digits 4 y).
Qed.

(** A version that is no [bool]. *)
Definition plain (v : version) : Prop := match v with VBool _ => False | _ => True end.

(** Core's [to_dict] writes the fields the constructor was given, timestamps in
    RFC 3339, and [fromisoformat] reads such timestamps back at [times]. *)
Class EntryWire `{DatetimeParser} `{CacheEntryApi} (times : instant → Prop) : Prop := {
  ew_parses t : times t → in_range t = true ∧ fromisoformat (str_replace "Z" "+00:00" (rfc3339 t)) = Ok (at_utc t);
  ew_dict key value serializer fingerprint created expires v e :
    new_entry key value serializer fingerprint created expires v = Ok e →
    mapping_get "formatVersion" (entry_to_dict e) = None ∧
    mapping_get "key" (entry_to_dict e) = Some (of_json key) ∧
    mapping_get "value" (entry_to_dict e) = Some (of_json value) ∧
    mapping_get "serializerId" (entry_to_dict e) = Some (PStr serializer) ∧
    mapping_get "schemaFingerprint" (entry_to_dict e) = Some (PStr fingerprint) ∧
    mapping_get "createdAt" (entry_to_dict e) = Some (PStr (rfc3339 created)) ∧
    mapping_get "expiresAt" (entry_to_dict e) = Some (match expires with Some t => PStr (rfc3339 t) | None => PNone end) ∧
    mapping_get "sourceVersion" (entry_to_dict e) = Some (of_json (version_json v));
}.

Section wire.
Context `{DatetimeParser} `{CacheEntryApi} `{!CacheEntryLaws} {times : instant → Prop} `{!EntryWire times}.

(** An entry that can be sent: one the constructor made of JSON values. *)
Definition wired (e : CacheEntry) : Prop := ∃ key value serializer fingerprint created expires v,
  new_entry key value serializer fingerprint created expires v = Ok e ∧ json_wf key ∧ json_wf value ∧
  times created ∧ (∀ t, expires = Some t → times t) ∧ (∀ u, v = Some u → plain u).

Lemma parse_rfc3339_text t field : times t → parse_rfc3339 (rfc3339 t) field = Ok t.
Proof.
  intros Ht. destruct (ew_parses t Ht) as [Hr Hp]. unfold parse_rfc3339. rewrite Hp. by apply ensure_utc_at_utc.
Qed.

Lemma wire_get name e :
  wired e → name ≠ "formatVersion"%string → mapping_get name (wire_entry e) = mapping_get name (entry_to_dict e).
Proof.
  intros (k & x & s & f & c & ex & v & He & _) Hname. destruct (ew_dict _ _ _ _ _ _ _ _ He) as (Hf & _).
  unfold wire_entry. rewrite Hf. cbn [mapping_get]. by destruct (String.eqb_spec name "formatVersion").
Qed.

Lemma wire_has_format e : wired e → has_format (wire_entry e) = true.
Proof.
  intros (k & x & s & f & c & ex & v & He & _). destruct (ew_dict _ _ _ _ _ _ _ _ He) as (Hf & _).
  unfold wire_entry, has_format. rewrite Hf. cbn [mapping_get]. by rewrite !String.eqb_refl.
Qed.

(** Reading an envelope gives the entry that was sent. *)
Lemma wire_parses e : wired e → parse_entry (wire_entry e) = Ok e.
Proof.
  intros Hwired. pose proof Hwired as (k & x & s & f & c & ex & v & He & Hk & Hx & Hc & Hex & Hv).
  destruct (ew_dict _ _ _ _ _ _ _ _ He) as (_ & Gk & Gx & Gs & Gf & Gc & Gex & Gv).
  unfold parse_entry, get_item. rewrite !wire_get, Gk, Gx, Gs, Gf, Gc, Gex, Gv by done.
  cbn [default from_option id res_bind].
  assert (∀ (K : option version → res CacheEntry),
    res_bind (match of_json (version_json v) with
      | PNone => Ok None | PStr s => Ok (Some (VStr s)) | PInt z => Ok (Some (VInt z))
      | _ => Raise (ValueError "cache sourceVersion must be a string, integer, or null") end) K = K v) as Hversion.
  { intros K. destruct v as [[z|t|b]|]; try done. by destruct (Hv (VBool b)). }
  destruct ex as [t|]; cbn [res_bind]; rewrite Hversion, !json_value_of_json by done; cbn [res_bind].
  - rewrite rfc3339_nonempty, !parse_rfc3339_text by eauto. done.
  - rewrite parse_rfc3339_text by done. done.
Qed.
End wire.

(** ** What a conforming Catalog does *)
Section catalog.
Context `{CoreApi} `{CacheEntryApi} {W : Type} (cache_execute : cache_request → M W OperationResult).

(** What the worlds say of the Catalog: the envelopes it holds with their
    versions, under their resource and the canonical bytes of their key, and the
    versions it has issued. *)
Record catalog_view : Type := CatalogView {
  cv_ready : W → Prop;
  cv_table : W → gmap (string * string) (list (pyval * pyval) * version);
  cv_issued : W → version → Prop;
}.

(** The shapes of its results. *)
Definition says (r : OperationResult) (name : string) (v : pyval) : Prop :=
  ∃ items, result_data r = PMapping items ∧ mapping_get name items = Some v.
Definition says_absent (r : OperationResult) : Prop := result_data r = PNone ∨ says r "found" (PBool false).
Definition says_entry (r : OperationResult) (value : list (pyval * pyval)) (v : version) : Prop :=
  ∃ items, result_data r = PMapping items ∧ mapping_get "found" items ≠ Some (PBool false) ∧
    mapping_get "entry" items = None ∧ has_format items = false ∧
    mapping_get "value" items = Some (PMapping value) ∧ mapping_get "entryVersion" items = Some (of_json (version_json (Some v))).

Section view.
Context (cv : catalog_view).

Record unchanged (w w' : W) : Prop := {
  un_ready : cv_ready cv w';
  un_table : cv_table cv w' = cv_table cv w;
  un_issued : ∀ u, cv_issued cv w' u ↔ cv_issued cv w u;
}.
Record inserted (w w' : W) (k : string * string) (value : list (pyval * pyval)) (v : version) : Prop := {
  in_ready : cv_ready cv w';
  in_table : cv_table cv w' = <[k := (value, v)]> (cv_table cv w);
  in_plain : plain v;
  in_fresh : ∀ u, cv_issued cv w u → same_version u v = false;
  in_issued : ∀ u, cv_issued cv w' u ↔ cv_issued cv w u ∨ u = v;
}.
Record removed (w w' : W) (rest : gmap (string * string) (list (pyval * pyval) * version)) : Prop := {
  rm_ready : cv_ready cv w';
  rm_table : cv_table cv w' = rest;
  rm_issued : ∀ u, cv_issued cv w' u ↔ cv_issued cv w u;
}.

Definition bytes_key (r : string) (key : json) : string * string := (r, canonical_json_bytes key).
Definition in_resource (r : string) (kv : (string * string) * (list (pyval * pyval) * version)) : Prop := kv.1.1 = r.
#[export] Instance in_resource_dec r kv : Decision (in_resource r kv).
Proof. unfold in_resource. apply _. Defined.

(** The requests of the surface, answered by a store of versioned values. *)
Record CatalogContract : Prop := {
  cc_get r key j w : cv_ready cv w → json_value key = Ok j →
    ∃ res w', cache_execute (GetRequest r key) w = (Ok res, w') ∧ unchanged w w' ∧
      match cv_table cv w !! bytes_key r j with
      | Some (value, v) => says_entry res value v
      | None => says_absent res
      end;
  cc_put r key value ttl sv w : cv_ready cv w →
    ∃ res w' v, cache_execute (PutRequest r key value ttl sv) w = (Ok res, w') ∧
      inserted w w' (bytes_key r key) value v ∧ says res "entryVersion" (of_json (version_json (Some v)));
  cc_put_if_absent r key value ttl sv w : cv_ready cv w →
    ∃ res w', cache_execute (PutIfAbsentRequest r key value ttl sv) w = (Ok res, w') ∧
      match cv_table cv w !! bytes_key r key with
      | Some _ => unchanged w w' ∧ says res "written" (PBool false)
      | None => (∃ v, inserted w w' (bytes_key r key) value v) ∧ says res "written" (PBool true)
      end;
  cc_compare_and_set r key x value ttl w : cv_ready cv w →
    ∃ res w', cache_execute (CompareAndSetRequest r key x value ttl) w = (Ok res, w') ∧
      if match cv_table cv w !! bytes_key r key with Some (_, v) => same_version v x | None => false end
      then (∃ v, inserted w w' (bytes_key r key) value v) ∧ says res "swapped" (PBool true)
      else unchanged w w' ∧ says res "swapped" (PBool false);
  cc_delete r key j w : cv_ready cv w → json_value key = Ok j →
    ∃ res w', cache_execute (DeleteRequest r key) w = (Ok res, w') ∧
      removed w w' (delete (bytes_key r j) (cv_table cv w)) ∧
      says res "deleted" (PBool (is_some (cv_table cv w !! bytes_key r j)));
  cc_invalidate r w : cv_ready cv w →
    ∃ res w', cache_execute (InvalidateRequest r select_all) w = (Ok res, w') ∧
      removed w w' (filter (λ kv, ¬ in_resource r kv) (cv_table cv w)) ∧
      says res "invalidated" (PInt (Z.of_nat (size (filter (in_resource r) (cv_table cv w)))));
}.
End view.
End catalog.

(** ** The adapter meets the contract of a backend *)
Section refinement.
Context `{CoreApi} `{DatetimeParser} `{CacheEntryApi} `{!CacheEntryLaws} {times : instant → Prop} `{!EntryWire times}.
Context {W : Type} (cache_execute : cache_request → M W OperationResult) (cv : catalog_view (W := W)).
Context (Hcontract : CatalogContract cache_execute cv).
#[local] Instance adapter : CacheBackend W := MeridianCacheBackend cache_execute.

(** The entry of an envelope. *)
Definition opened (kept : list (pyval * pyval) * version) : option VersionedCacheEntry :=
  match parse_entry kept.1 with Ok e => Some (Versioned _ e kept.2) | Raise _ => None end.
Definition catalog_abstract (w : W) : spec := Spec (omap opened (cv_table cv w)) (cv_issued cv w).

(** The Catalog holds envelopes this adapter sent. *)
Definition envelopes (m : gmap (string * string) (list (pyval * pyval) * version)) : Prop :=
  map_Forall (λ k kept, plain kept.2 ∧ ∃ e, wired (times := times) e ∧ kept.1 = wire_entry e ∧
    k.2 = canonical_json_bytes (entry_key e)) m.
Definition catalog_ready (w : W) : Prop := cv_ready cv w ∧ envelopes (cv_table cv w).

Definition sendable (o : cache_op) : Prop :=
  match o with
  | OpGet _ key | OpDelete _ key => ∃ j, json_value key = Ok j
  | OpPut _ e _ | OpPutIfAbsent _ e _ | OpCompareAndSet _ e _ _ => wired (times := times) e
  | OpInvalidate _ => True
  end.

Lemma opened_wire e v : wired (times := times) e → opened (wire_entry e, v) = Some (Versioned _ e v).
Proof. intros He. unfold opened. cbn. by rewrite wire_parses. Qed.

Lemma envelopes_lookup m k :
  envelopes m → (m !! k = None ∧ omap opened m !! k = None) ∨
    ∃ e v, m !! k = Some (wire_entry e, v) ∧ omap opened m !! k = Some (Versioned _ e v) ∧ plain v ∧
      wired (times := times) e ∧ k.2 = canonical_json_bytes (entry_key e).
Proof.
  intros Hm. rewrite lookup_omap. destruct (m !! k) as [[value v]|] eqn:Hk; [right|by left].
  destruct (Hm _ _ Hk) as (Hv & e & He & Hval & Hkey). cbn in Hv, Hval. subst value. exists e, v. cbn. split_and!; [done|by apply opened_wire|done..].
Qed.

Lemma envelopes_insert m r e v :
  envelopes m → wired (times := times) e → plain v → envelopes (<[bytes_key r (entry_key e) := (wire_entry e, v)]> m).
Proof. intros Hm He Hv. apply map_Forall_insert_2; [|done]. split; [done|]. by exists e. Qed.

Lemma writes_inserted w w' r e v :
  catalog_ready w → wired (times := times) e → inserted cv w w' (bytes_key r (entry_key e)) (wire_entry e) v →
  catalog_ready w' ∧ writes (catalog_abstract w) (catalog_abstract w') (place canonical_json_bytes r e) e v.
Proof.
  intros [_ Hm] He [Hr Ht Hp Hf Hi]. split.
  - split; [done|]. rewrite Ht. by apply envelopes_insert.
  - split; [|done|done]. cbn. rewrite Ht. by rewrite (omap_insert_Some _ _ _ _ (Versioned _ e v)) by by apply opened_wire.
Qed.

Lemma keeps_unchanged w w' :
  catalog_ready w → unchanged cv w w' → catalog_ready w' ∧ keeps (catalog_abstract w) (catalog_abstract w').
Proof. intros [_ Hm] [Hr Ht Hi]. unfold catalog_ready, catalog_abstract. rewrite Ht. split; [done|]. by split. Qed.

(** Emptying a resource. *)
Lemma opened_filter (P : string → Prop) (m : gmap (string * string) (list (pyval * pyval) * version))
    `{!∀ kv : (string * string) * (list (pyval * pyval) * version), Decision (P kv.1.1)}
    `{!∀ kv : (string * string) * VersionedCacheEntry, Decision (P kv.1.1)} :
  omap opened (filter (λ kv, P kv.1.1) m) = filter (λ kv, P kv.1.1) (omap opened m).
Proof.
  apply map_eq. intros k. rewrite lookup_omap, !map_lookup_filter, lookup_omap.
  destruct (m !! k) as [x|]; [cbn|done]. destruct (opened x) eqn:Hx; cbn; repeat case_guard; cbn; by rewrite ?Hx.
Qed.

Lemma opened_size (m : gmap (string * string) (list (pyval * pyval) * version)) : envelopes m → size (omap opened m) = size m.
Proof.
  intros Hm. rewrite <- !size_dom. f_equal. apply set_eq. intros k. rewrite !elem_of_dom.
  destruct (envelopes_lookup m k Hm) as [[-> ->]|(e & v & -> & -> & _)]; [done|]. split; by eexists.
Qed.
(** The operations of the adapter. *)
Lemma as_version_plain v : plain v → as_version (Some (of_json (version_json (Some v)))) = Some v.
Proof. by destruct v. Qed.

Lemma result_flag_says name r b : says r name (PBool b) → result_flag name r = b.
Proof. intros (items & Hd & Hg). unfold result_flag, get_or. by rewrite Hd, Hg. Qed.

Lemma result_version_says r v : plain v → says r "entryVersion" (of_json (version_json (Some v))) → result_version r = v.
Proof.
  intros Hv (items & Hd & Hg). unfold result_version, get_or. rewrite Hd, Hg. cbn [default from_option id].
  by rewrite as_version_plain.
Qed.

Lemma catalog_get_entry r key j w res w' e v :
  cache_execute (GetRequest r key) w = (Ok res, w') → json_value key = Ok j → says_entry res (wire_entry e) v →
  plain v → wired (times := times) e → canonical_json_bytes j = canonical_json_bytes (entry_key e) →
  catalog_get cache_execute r key w = (Ok (Some (Versioned _ e v)), w').
Proof.
  intros Hrun Hj (items & Hd & Hf & He & Hn & Hval & Hver) Hv Hw Hkey. unfold catalog_get, bind. rewrite Hrun.
  unfold lift_res, result_mapping. rewrite Hd.
  assert (match mapping_get "found" items with Some (PBool false) => true | _ => false end = false) as ->.
  { destruct (mapping_get "found" items) as [[]|]; try done. by destruct b. }
  unfold get_or at 1. rewrite Hver. cbn [default from_option id]. rewrite as_version_plain by done.
  unfold entry_mapping. rewrite He. cbn [default from_option id]. rewrite Hn, Hval, wire_has_format, wire_parses by done.
  unfold canonical_bytes_of. rewrite Hj. cbn [res_map]. unfold canonical_json_bytes in Hkey. unfold canonical_json_bytes.
  by rewrite Hkey, String.eqb_refl.
Qed.

Lemma catalog_get_absent r key w res w' :
  cache_execute (GetRequest r key) w = (Ok res, w') → says_absent res →
  catalog_get cache_execute r key w = (Ok None, w').
Proof.
  intros Hrun Hd. unfold catalog_get, bind. rewrite Hrun. unfold lift_res, result_mapping.
  destruct Hd as [-> |(items & -> & Hf)]; [done|]. by rewrite Hf.
Qed.

(** The operation meets the contract in the world [w]. *)
Definition meets (o : cache_op) (w : W) : Prop :=
  ∃ a w', run_op o w = (Ok a, w') ∧ catalog_ready w' ∧
    spec_step canonical_json_bytes (catalog_abstract w) (catalog_abstract w') o a.

Lemma envelopes_filter (P : _ → Prop) `{!∀ x, Decision (P x)} m : envelopes m → envelopes (filter P m).
Proof. intros Hm k x [Hx _]%map_lookup_filter_Some. by apply Hm. Qed.

(** What the place of an entry holds, in the Catalog and in the contract. *)
Lemma held_place w r e :
  catalog_ready w →
  (cv_table cv w !! bytes_key r (entry_key e) = None ∧ held (catalog_abstract w) !! place canonical_json_bytes r e = None) ∨
  ∃ e0 v0, cv_table cv w !! bytes_key r (entry_key e) = Some (wire_entry e0, v0) ∧
    held (catalog_abstract w) !! place canonical_json_bytes r e = Some (Versioned _ e0 v0).
Proof.
  intros [_ Hm]. destruct (envelopes_lookup _ (bytes_key r (entry_key e)) Hm) as [[Hno Hh]|(e0 & v0 & Hin & Hh & _)].
  - by left.
  - right. by exists e0, v0.
Qed.

Section steps.
Context (w : W) (Hready : catalog_ready w).

Lemma get_meets r key j : json_value key = Ok j → meets (OpGet r key) w.
Proof.
  intros Hj. destruct Hready as [Hr Hm]. destruct (cc_get _ _ Hcontract r key j w Hr Hj) as (res & w' & Hrun & Hun & Hres).
  destruct (keeps_unchanged _ _ Hready Hun) as [Hr' Hk].
  eexists _, w'. split; [|split; [exact Hr'|exact (step_get _ _ _ r key j Hj Hk)]].
  cbn [run_op cache_get adapter MeridianCacheBackend catalog_abstract held]. unfold bind.
  destruct (envelopes_lookup _ (bytes_key r j) Hm) as [[Hno Hheld]|(e & v & Hin & Hheld & Hv & He & Hkey)]; unfold bytes_key in Hheld.
  - rewrite Hno in Hres. by rewrite (catalog_get_absent _ _ _ res w'), Hheld.
  - rewrite Hin in Hres. by rewrite (catalog_get_entry r key j w res w' e v), Hheld.
Qed.

(** A step that stored [e], and one that changed nothing. *)
Lemma inserted_meets o a w' r e v :
  run_op o w = (Ok a, w') → wired (times := times) e → inserted cv w w' (bytes_key r (entry_key e)) (wire_entry e) v →
  (writes (catalog_abstract w) (catalog_abstract w') (place canonical_json_bytes r e) e v →
    spec_step canonical_json_bytes (catalog_abstract w) (catalog_abstract w') o a) →
  meets o w.
Proof.
  intros Hrun He Hins Hstep. destruct (writes_inserted _ _ _ _ _ Hready He Hins) as [Hr' Hw].
  exists a, w'. split_and!; [done|done|by apply Hstep].
Qed.
Lemma unchanged_meets o a w' :
  run_op o w = (Ok a, w') → unchanged cv w w' →
  (keeps (catalog_abstract w) (catalog_abstract w') →
    spec_step canonical_json_bytes (catalog_abstract w) (catalog_abstract w') o a) →
  meets o w.
Proof.
  intros Hrun Hun Hstep. destruct (keeps_unchanged _ _ Hready Hun) as [Hr' Hk].
  exists a, w'. split_and!; [done|done|by apply Hstep].
Qed.

Lemma put_meets r e t : wired (times := times) e → meets (OpPut r e t) w.
Proof.
  intros He. destruct (cc_put _ _ Hcontract r (entry_key e) (wire_entry e) t (entry_source_version e) w (proj1 Hready))
    as (res & w' & v & Hrun & Hins & Hver).
  eapply (inserted_meets _ (Stored v)); [|done|done|by apply step_put].
  cbn [run_op cache_put adapter MeridianCacheBackend]. unfold catalog_put, bind. rewrite Hrun. unfold ret.
  by rewrite (result_version_says res v) by (apply Hins || done).
Qed.

Lemma put_if_absent_meets r e t : wired (times := times) e → meets (OpPutIfAbsent r e t) w.
Proof.
  intros He. destruct (cc_put_if_absent _ _ Hcontract r (entry_key e) (wire_entry e) t (entry_source_version e) w (proj1 Hready))
    as (res & w' & Hrun & Hres).
  assert (∀ b, says res "written" (PBool b) → run_op (OpPutIfAbsent r e t) w = (Ok (Flag b), w')) as Hflag.
  { intros b Hf. cbn [run_op cache_put_if_absent adapter MeridianCacheBackend]. unfold catalog_put_if_absent, bind. rewrite Hrun.
    unfold ret. by rewrite (result_flag_says _ _ _ Hf). }
  destruct (held_place w r e Hready) as [[Hno Hheld]|(e0 & v0 & Hin & Hheld)].
  - rewrite Hno in Hres. destruct Hres as [(v & Hins) Hf]. eapply inserted_meets; [by apply Hflag|done|done|].
    by apply step_absent.
  - rewrite Hin in Hres. destruct Hres as [Hun Hf]. eapply unchanged_meets; [by apply Hflag|done|].
    apply step_present. by eexists.
Qed.

Lemma compare_and_set_meets r e x t : wired (times := times) e → meets (OpCompareAndSet r e x t) w.
Proof.
  intros He. destruct (cc_compare_and_set _ _ Hcontract r (entry_key e) x (wire_entry e) t w (proj1 Hready))
    as (res & w' & Hrun & Hres).
  assert (∀ b, says res "swapped" (PBool b) → run_op (OpCompareAndSet r e x t) w = (Ok (Flag b), w')) as Hflag.
  { intros b Hf. cbn [run_op cache_compare_and_set adapter MeridianCacheBackend]. unfold catalog_compare_and_set, bind.
    rewrite Hrun. unfold ret. by rewrite (result_flag_says _ _ _ Hf). }
  destruct (held_place w r e Hready) as [[Hno Hheld]|(e0 & v0 & Hin & Hheld)].
  - rewrite Hno in Hres. destruct Hres as [Hun Hf]. eapply unchanged_meets; [by apply Hflag|done|].
    apply step_no_swap. intros c Hc. by rewrite Hheld in Hc.
  - rewrite Hin in Hres. destruct (same_version v0 x) eqn:Hsame; destruct Hres as [Hres Hf].
    + destruct Hres as (v & Hins). eapply inserted_meets; [by apply Hflag|done|done|]. by eapply step_swap.
    + eapply unchanged_meets; [by apply Hflag|done|]. apply step_no_swap. intros c Hc. rewrite Hheld in Hc.
      by injection Hc as <-.
Qed.

Lemma delete_meets r key j : json_value key = Ok j → meets (OpDelete r key) w.
Proof.
  intros Hj. destruct Hready as [Hr Hm].
  destruct (cc_delete _ _ Hcontract r key j w Hr Hj) as (res & w' & Hrun & [Hr' Ht Hi] & Hf).
  eexists _, w'. cbn [run_op cache_delete adapter MeridianCacheBackend]. unfold catalog_delete, bind. rewrite Hrun. unfold ret.
  rewrite (result_flag_says _ _ _ Hf). split; [reflexivity|]. split; [split; [done|rewrite Ht; by apply map_Forall_delete]|].
  assert (is_some (cv_table cv w !! bytes_key r j) = is_some (held (catalog_abstract w) !! (r, canonical_json_bytes j))) as ->.
  { cbn [catalog_abstract held]. change (r, canonical_json_bytes j) with (bytes_key r j).
    by destruct (envelopes_lookup _ (bytes_key r j) Hm) as [[-> ->]|(e & v & -> & -> & _)]. }
  apply step_delete; [done| |done]. cbn. rewrite Ht. by rewrite omap_delete.
Qed.

Lemma invalidate_meets r : meets (OpInvalidate r) w.
Proof.
  destruct Hready as [Hr Hm].
  destruct (cc_invalidate _ _ Hcontract r w Hr) as (res & w' & Hrun & [Hr' Ht Hi] & (items & Hd & Hg)).
  eexists _, w'. cbn [run_op cache_invalidate adapter MeridianCacheBackend]. unfold catalog_invalidate, bind. rewrite Hrun, Hd.
  unfold get_or. rewrite Hg. cbn [default from_option id].
  rewrite (proj2 (Z.leb_le 0 _)) by lia. split; [reflexivity|].
  split; [split; [done|rewrite Ht; by apply envelopes_filter]|].
  assert (size (filter (in_resource r) (cv_table cv w)) = size (filter (of_resource r) (held (catalog_abstract w)))) as ->.
  { rewrite <- (opened_size (filter (in_resource r) (cv_table cv w))) by (by apply envelopes_filter).
    f_equal. exact (opened_filter (λ s, s = r) (cv_table cv w)). }
  apply step_invalidate; [|done]. cbn [catalog_abstract held]. rewrite Ht. exact (opened_filter (λ s, ¬ s = r) (cv_table cv w)).
Qed.
End steps.

Lemma catalog_steps o w : catalog_ready w → sendable o → meets o w.
Proof.
  intros Hready. destruct o as [r key|r e t|r e t|r e x t|r key|r]; cbn [sendable]; intros Hsend.
  - destruct Hsend as [j Hj]. by eapply get_meets.
  - by apply put_meets.
  - by apply put_if_absent_meets.
  - by apply compare_and_set_meets.
  - destruct Hsend as [j Hj]. by eapply delete_meets.
  - by apply invalidate_meets.
Qed.

Definition catalog_store : VersionedStore W := {|
  slot := canonical_json_bytes; ready := catalog_ready; abstract := catalog_abstract; accepts := sendable;
  refines o w := catalog_steps o w |}.
End refinement.

(** C22: the adapter over a conforming Catalog is a versioned cache: whatever
    operations are run on it, in whatever order, none fails, and their answers
    are those of a map in which every store gets a version never issued before,
    a compare-and-set succeeds exactly on the version held, and a lookup returns
    the very entry that was stored, envelope and wire timestamps undone. *)
Theorem catalog_backend_refines `{CoreApi} `{DatetimeParser} `{CacheEntryApi} `{!CacheEntryLaws} {times} `{!EntryWire times}
    {W} (cache_execute : cache_request → M W OperationResult) (cv : catalog_view (W := W)) os w :
  CatalogContract cache_execute cv → catalog_ready (times := times) cv w → Forall (sendable (times := times)) os →
  ∃ answers w', run_ops (CacheBackend0 := MeridianCacheBackend cache_execute) os w = (Ok answers, w') ∧
    catalog_ready (times := times) cv w' ∧
    spec_run canonical_json_bytes (catalog_abstract cv w) os answers (catalog_abstract cv w').
Proof.
  intros Hcontract Hready Hos.
  exact (run_refines (VersionedStore0 := catalog_store cache_execute cv Hcontract) os w Hready Hos).
Qed.

(** ** A concrete Catalog *)
Module catalog_example.
Definition api : CoreApi := {|
  core_errors := {| core_str _ _ message := message; core_default_retryable _ := false |};
  Expression := unit; expression_catalog _ := "cache"; expression_argument _ _ := None;
  OperationResult := pyval; result_data v := v; operation_fingerprint _ := None |}.

Record sent : Type := Sent {
  x_key : json; x_value : json; x_serializer : string; x_fingerprint : string;
  x_created : instant; x_expires : option instant; x_version : option version }.
Definition entries_api : CacheEntryApi := {|
  CacheEntry := sent;
  entry_key := x_key; entry_value := x_value; entry_serializer_id := x_serializer;
  entry_schema_fingerprint := x_fingerprint; entry_created_at e := TDatetime (at_utc (x_created e));
  entry_expires_at e := (λ t, TDatetime (at_utc t)) <$> x_expires e; entry_source_version := x_version;
  new_entry k x s f c e v := Ok (Sent k x s f c e v);
  entry_to_dict e :=
    [(PStr "key", of_json (x_key e)); (PStr "value", of_json (x_value e)); (PStr "serializerId", PStr (x_serializer e));
     (PStr "schemaFingerprint", PStr (x_fingerprint e)); (PStr "createdAt", PStr (rfc3339 (x_created e)));
     (PStr "expiresAt", match x_expires e with Some t => PStr (rfc3339 t) | None => PNone end);
     (PStr "sourceVersion", of_json (version_json (x_version e)))];
|}.
Lemma laws : @CacheEntryLaws entries_api.
Proof. split. intros k x s f c e v en Hen. by injection Hen as <-. Qed.

(** The parser of the two instants used. *)
Definition text (t : instant) : string := str_replace "Z" "+00:00" (rfc3339 t).
Definition later : instant := example_now + 60 * us_per_second.
Definition parser : DatetimeParser := λ s,
  if String.eqb s (text example_now) then Ok (at_utc example_now)
  else if String.eqb s (text later) then Ok (at_utc later) else Raise (ValueError "Invalid isoformat string").
Definition times (t : instant) : Prop := t = example_now ∨ t = later.
Lemma wire : @EntryWire parser entries_api times.
Proof.
  split.
  - intros t [->| ->]; split; vm_compute; reflexivity.
  - intros k x s f c e v en Hen. injection Hen as <-. done.
Qed.

(** A Catalog that numbers its writes. *)
Abbreviation table := (gmap (string * string) (list (pyval * pyval) * version)).
Abbreviation world := (table * Z)%type.
Definition reply (l : list (string * pyval)) : pyval := PMapping (map (λ e, (PStr e.1, e.2)) l).
Definition store (k : string * string) (value : list (pyval * pyval)) (flag : string) : M world pyval := λ '(m, n),
  (Ok (reply [(flag, PBool true); ("entryVersion"%string, PInt (n + 1))]), (<[k := (value, VInt (n + 1))]> m, n + 1)).
Definition execute (request : cache_request (H := entries_api)) : M world pyval := λ w,
  match request with
  | GetRequest r key =>
      match json_value key with
      | Raise e => (Raise e, w)
      | Ok j => (Ok (match w.1 !! bytes_key r j with
                     | Some (value, v) => reply [("found"%string, PBool true); ("value"%string, PMapping value);
                                                 ("entryVersion"%string, of_json (version_json (Some v)))]
                     | None => reply [("found"%string, PBool false)]
                     end), w)
      end
  | PutRequest r key value _ _ => store (bytes_key r key) value "written" w
  | PutIfAbsentRequest r key value _ _ =>
      if is_some (w.1 !! bytes_key r key) then (Ok (reply [("written"%string, PBool false)]), w)
      else store (bytes_key r key) value "written" w
  | CompareAndSetRequest r key x value _ =>
      if match w.1 !! bytes_key r key with Some (_, v) => same_version v x | None => false end
      then store (bytes_key r key) value "swapped" w else (Ok (reply [("swapped"%string, PBool false)]), w)
  | DeleteRequest r key =>
      match json_value key with
      | Raise e => (Raise e, w)
      | Ok j => (Ok (reply [("deleted"%string, PBool (is_some (w.1 !! bytes_key r j)))]), (delete (bytes_key r j) w.1, w.2))
      end
  | InvalidateRequest r _ =>
      (Ok (reply [("invalidated"%string, PInt (Z.of_nat (size (filter (in_resource r) w.1))))]),
       (filter (λ kv, ¬ in_resource r kv) w.1, w.2))
  end.

Definition view : catalog_view (W := world) :=
  CatalogView (λ w, 0 ≤ w.2) fst (λ w v, ∃ n, v = VInt n ∧ 1 ≤ n ≤ w.2).

Lemma store_inserted (m : table) (n : Z) k value :
  0 ≤ n → inserted view (m, n) (<[k := (value, VInt (n + 1))]> m, n + 1) k value (VInt (n + 1)).
Proof.
  intros Hn. split; cbn; [lia|done|done| |].
  - intros u (i & -> & Hi). unfold same_version. cbn. apply Z.eqb_neq. lia.
  - intros u. split.
    + intros (i & -> & Hi). destruct (decide (i = n + 1)) as [->|]; [by right|]. left. exists i. split; [done|lia].
    + intros [(i & -> & Hi)| ->]; eexists; (split; [done|lia]).
Qed.

Lemma conforms : CatalogContract (H := api) (H0 := entries_api) execute view.
Proof.
  assert (∀ w, 0 ≤ w.2 → unchanged view w w) as Hsame by by split.
  split; intros r.
  - intros key j w Hr Hj. eexists _, w. cbn [execute]. rewrite Hj. split; [done|]. split; [by apply Hsame|].
    cbn. destruct (w.1 !! bytes_key r j) as [[value v]|]; [|right; by eexists].
    eexists. split; [done|]. by split_and!.
  - intros key value ttl sv [m n] Hr. eexists _, _, _. split; [done|]. split; [by apply store_inserted|]. by eexists.
  - intros key value ttl sv [m n] Hr. cbn [execute fst]. cbn [cv_table view fst].
    destruct (m !! bytes_key r key); cbn [is_some]; eexists _, _; (split; [reflexivity|]).
    + split; [by apply Hsame|]. by eexists.
    + split; [eexists; by apply store_inserted|]. by eexists.
  - intros key x value ttl [m n] Hr. cbn [execute fst]. cbn [cv_table view fst].
    destruct (match m !! bytes_key r key with Some (_, v) => same_version v x | None => false end);
      eexists _, _; (split; [reflexivity|]).
    + split; [eexists; by apply store_inserted|]. by eexists.
    + split; [by apply Hsame|]. by eexists.
  - intros key j [m n] Hr Hj. cbn [execute fst snd]. rewrite Hj. eexists _, _. split; [reflexivity|].
    split; [by split|]. by eexists.
  - intros [m n] Hr. eexists _, _. split; [reflexivity|]. split; [by split|]. by eexists.
Qed.

Definition entry (total : Z) : sent :=
  Sent (JArr [JStr "orders"; JInt 7]) (JObj [("total"%string, JInt total)]) "canonical-json-v1" (sha256_digest JNull)
    example_now (Some later) (Some (VInt 3)).
Lemma entry_wired total : wired (H0 := entries_api) (times := times) (entry total).
Proof.
  eexists _, _, _, _, _, _, _. split; [reflexivity|]. split; [by apply json_wfb_sound|]. split; [by apply json_wfb_sound|].
  split; [by left|]. split; [intros t [= <-]; by right|by intros u [= <-]].
Qed.

Definition key : pyval := PSequence [PStr "orders"; PInt 7].
Definition operations : list (cache_op (H := entries_api)) :=
  [OpGet (H := entries_api) "c" key; OpPut (H := entries_api) "c" (entry 1) 1000; OpGet (H := entries_api) "c" key;
   OpPutIfAbsent (H := entries_api) "c" (entry 2) 1000; OpCompareAndSet (H := entries_api) "c" (entry 2) (VInt 1) 1000;
   OpCompareAndSet (H := entries_api) "c" (entry 3) (VInt 1) 1000; OpGet (H := entries_api) "c" key;
   OpInvalidate (H := entries_api) "c"; OpDelete (H := entries_api) "c" key].
(** An answer in numbers: of an entry, its total and its version. *)
Definition shown (a : answer (H := entries_api)) : list Z :=
  match a with
  | Found (Some (Versioned _ (Sent _ (JObj [(_, JInt total)]) _ _ _ _ _) (VInt v))) => [total; v]
  | Found _ => []
  | Stored v => [default 0 (version_num v)]
  | Flag b => [Z.b2z b]
  | Count n => [n]
  end.

Lemma key_sendable : ∃ j, json_value key = Ok j.
Proof. by eexists. Qed.
Lemma operations_sendable : Forall (sendable (H1 := entries_api) (times := times)) operations.
Proof.
  unfold operations. apply Forall_cons; split; [exact key_sendable|]. apply Forall_cons; split; [exact (entry_wired 1)|].
  apply Forall_cons; split; [exact key_sendable|]. apply Forall_cons; split; [exact (entry_wired 2)|].
  apply Forall_cons; split; [exact (entry_wired 2)|]. apply Forall_cons; split; [exact (entry_wired 3)|].
  apply Forall_cons; split; [exact key_sendable|]. apply Forall_cons; split; [exact I|].
  apply Forall_cons; split; [exact key_sendable|]. constructor.
Qed.
End catalog_example.

Lemma catalog_backend_refines_witness :
  let backend := MeridianCacheBackend (H := catalog_example.api) (H0 := catalog_example.entries_api)
    (H1 := catalog_example.parser) catalog_example.execute in
  res_map (map catalog_example.shown)
    (run_ops (H := catalog_example.entries_api) (CacheBackend0 := backend) catalog_example.operations (∅, 0)).1 =
    Ok [[]; [1]; [1; 1]; [0]; [1]; [0]; [2; 2]; [1]; [0]] ∧
  ∃ answers w', run_ops (H := catalog_example.entries_api) (CacheBackend0 := backend) catalog_example.operations (∅, 0) =
      (Ok answers, w') ∧
    catalog_ready (H1 := catalog_example.entries_api) (times := catalog_example.times) catalog_example.view w' ∧
    spec_run (H := catalog_example.entries_api) canonical_json_bytes
      (catalog_abstract (H0 := catalog_example.parser) (H1 := catalog_example.entries_api) catalog_example.view (∅, 0))
      catalog_example.operations answers
      (catalog_abstract (H0 := catalog_example.parser) (H1 := catalog_example.entries_api) catalog_example.view w').
Proof.
  intros backend. split; [vm_compute; reflexivity|].
  apply (catalog_backend_refines (H := catalog_example.api) (H0 := catalog_example.parser) (H1 := catalog_example.entries_api)
    (H2 := catalog_example.laws) (EntryWire0 := catalog_example.wire) catalog_example.execute catalog_example.view
    catalog_example.operations (∅, 0) catalog_example.conforms).
  - split; [done|]. apply map_Forall_empty.
  - exact catalog_example.operations_sendable.
Defined.
