(* ===== verification/CacheFlights.v ===== *)
(** * Single-flight loading under concurrency

    The table of flights of [CacheCoordinator.read] ([cache/coordinator.py])
    with any number of readers.  The two sections that hold [_flights_lock] are
    the atomic functions [enter] and [leave] on a heap of events; a reader moves
    through its phases, interleaved with the others in every possible order. *)
From stdpp Require Import relations.
From S2P Require Import Prelude.

(** The dictionary [_flights], whose values are references to events, the
    events that were set, and the next reference. *)
Record flights : Type := MkFlights {
  table : gmap string nat;
  set_events : gset nat;
  next_event : nat;
}.
Definition no_flights : flights := MkFlights ∅ ∅ 0.

Inductive role : Type := Lead | Follow (event : nat).

(** The first section: find the event of the key, or make one and lead. *)
Definition enter (key : string) (f : flights) : role * flights :=
  match table f !! key with
  | Some event => (Follow event, f)
  | None => (Lead, MkFlights (<[key := next_event f]> (table f)) (set_events f) (S (next_event f)))
  end.

(** The second one: [self._flights.pop(key).set()]. *)
Definition leave (key : string) : M flights unit := λ f,
  match table f !! key with
  | None => (Raise (KeyError key), f)
  | Some event => (Ok (), MkFlights (delete key (table f)) ({[event]} ∪ set_events f) (next_event f))
  end.

(** Where a reader is: before its read, loading as the leader of a key,
    waiting for an event, or past the table of flights. *)
Inductive phase : Type :=
| Leading (key : string)
| Waiting (key : string) (event : nat)
| Finished (r : res unit).

Definition system : Type := (flights * gmap nat phase)%type.

(** One step of one reader.  A wait ends when the event is set, or at its
    timeout, at any moment. *)
Inductive step : system → system → Prop :=
| StepEnter reader key f rs role f' :
    rs !! reader = None → enter key f = (role, f') →
    step (f, rs) (f', <[reader := match role with Lead => Leading key | Follow ev => Waiting key ev end]> rs)
| StepLeave reader key f rs r f' :
    rs !! reader = Some (Leading key) → leave key f = (r, f') →
    step (f, rs) (f', <[reader := Finished r]> rs)
| StepWake reader key event f rs :
    rs !! reader = Some (Waiting key event) →
    step (f, rs) (f, <[reader := Finished (Ok ())]> rs).

Definition reachable_system (s : system) : Prop := rtc step (no_flights, ∅) s.

(** ** The invariant *)
Record flights_ok (s : system) : Prop := {
  (* every flight in the table has exactly one leader *)
  fo_leader key event : table s.1 !! key = Some event → ∃ reader, s.2 !! reader = Some (Leading key);
  fo_unique key r1 r2 : s.2 !! r1 = Some (Leading key) → s.2 !! r2 = Some (Leading key) → r1 = r2;
  fo_in_table reader key : s.2 !! reader = Some (Leading key) → is_Some (table s.1 !! key);
  (* an event a reader waits for is set or belongs to a flight under way *)
  fo_waiting reader key event : s.2 !! reader = Some (Waiting key event) →
    event ∈ set_events s.1 ∨ table s.1 !! key = Some event;
  (* no [pop] failed *)
  fo_finished reader r : s.2 !! reader = Some (Finished r) → r = Ok ();
}.

Lemma flights_ok_initial : flights_ok (no_flights, ∅).
Proof. split; intros *; cbn [fst snd]; rewrite ?lookup_empty; done. Qed.

Ltac split_insert :=
  repeat match goal with
  | H : <[_ := _]> _ !! _ = Some _ |- _ => apply lookup_insert_Some in H as [[<- ?]|[? H]]
  end; simplify_eq.

Lemma enter_ok reader key f rs role f' :
  flights_ok (f, rs) → rs !! reader = None → enter key f = (role, f') →
  flights_ok (f', <[reader := match role with Lead => Leading key | Follow ev => Waiting key ev end]> rs).
Proof.
  intros [Hl Hu Ht Hw Hf] Hfresh Henter. cbn [fst snd] in *. unfold enter in Henter.
  destruct (table f !! key) as [event|] eqn:Hkey; simplify_eq; split; intros *; cbn [fst snd table set_events].
  - intros [r Hr]%Hl. exists r. rewrite lookup_insert_ne; [done|]. congruence.
  - intros H1 H2. split_insert. eauto.
  - intros H1. split_insert. eauto.
  - intros H1. split_insert; [by right|eauto].
  - intros H1. split_insert. eauto.
  - rewrite lookup_insert_Some. intros [[-> _]|[_ [r Hr]%Hl]].
    + exists reader. by rewrite lookup_insert_eq.
    + exists r. rewrite lookup_insert_ne; [done|]. congruence.
  - assert (∀ r, rs !! r ≠ Some (Leading key)) by (intros r [? ?]%Ht; congruence).
    intros H1 H2. split_insert; naive_solver.
  - intros H1. split_insert; [by rewrite lookup_insert_eq; eauto|].
    destruct (decide (key = key0)) as [->|]; [by rewrite lookup_insert_eq; eauto|].
    rewrite lookup_insert_ne by done. eauto.
  - intros H1. split_insert. destruct (Hw _ _ _ H1) as [?|Hev]; [by left|right].
    rewrite lookup_insert_ne; [done|]. congruence.
  - intros H1. split_insert. eauto.
Qed.

Lemma leave_ok reader key f rs r f' :
  flights_ok (f, rs) → rs !! reader = Some (Leading key) → leave key f = (r, f') →
  r = Ok () ∧ flights_ok (f', <[reader := Finished r]> rs).
Proof.
  intros [Hl Hu Ht Hw Hf] Hlead Hleave. cbn [fst snd] in *. unfold leave in Hleave.
  destruct (Ht _ _ Hlead) as [event Hkey]. rewrite Hkey in Hleave. simplify_eq.
  split; [done|]. split; intros *; cbn [fst snd table set_events].
  - rewrite lookup_delete_Some. intros [Hne [r Hr]%Hl]. exists r.
    rewrite lookup_insert_ne; [done|]. intros ->. congruence.
  - intros H1 H2. split_insert. eauto.
  - intros H1. split_insert. rewrite lookup_delete_ne; [eauto|]. intros ->.
    by pose proof (Hu _ _ _ Hlead H1).
  - intros H1. split_insert. destruct (Hw _ _ _ H1) as [?|Hev]; [left; set_solver|].
    destruct (decide (key = key0)) as [->|]; [left; set_solver|right]. by rewrite lookup_delete_ne.
  - intros H1. split_insert; [done|eauto].
Qed.

Lemma wake_ok reader key event f rs :
  flights_ok (f, rs) → rs !! reader = Some (Waiting key event) → flights_ok (f, <[reader := Finished (Ok ())]> rs).
Proof.
  intros [Hl Hu Ht Hw Hf] Hwait. split; intros *; cbn [fst snd] in *.
  - intros [r Hr]%Hl. exists r. rewrite lookup_insert_ne; [done|]. congruence.
  - intros H1 H2. split_insert. eauto.
  - intros H1. split_insert. eauto.
  - intros H1. split_insert. eauto.
  - intros H1. split_insert; [done|eauto].
Qed.

Lemma reachable_flights_ok s : reachable_system s → flights_ok s.
Proof.
  unfold reachable_system. pose proof flights_ok_initial as H0. intros Hs. revert H0.
  induction Hs as [|s1 s2 s3 Hstep _ IH]; intros Hok; [done|]. apply IH.
  destruct Hstep as [reader key f rs role f' Hr He|reader key f rs r f' Hr He|reader key event f rs Hr].
  - by eapply enter_ok.
  - by eapply leave_ok.
  - by eapply wake_ok.
Qed.

(** C24: single flight.  However the readers are interleaved: at most one of them
    loads a key as its leader at a time; a leader's [pop] finds its flight, so
    that leaving never raises; and whoever waits either waits for an event that
    is set, or for a leader that is still loading and whose leaving sets it. *)
Theorem single_flight s :
  reachable_system s →
  (∀ key r1 r2, s.2 !! r1 = Some (Leading key) → s.2 !! r2 = Some (Leading key) → r1 = r2) ∧
  (∀ key reader, s.2 !! reader = Some (Leading key) → (leave key s.1).1 = Ok ()) ∧
  (∀ key event reader, s.2 !! reader = Some (Waiting key event) →
    event ∈ set_events s.1 ∨
    ∃ leader, s.2 !! leader = Some (Leading key) ∧ event ∈ set_events (leave key s.1).2).
Proof.
  intros [Hl Hu Ht Hw Hf]%reachable_flights_ok. split_and!.
  - intros key r1 r2. apply Hu.
  - intros key reader [event Hev]%Ht. unfold leave. by rewrite Hev.
  - intros key event reader Hwait. destruct (Hw _ _ _ Hwait) as [?|Hev]; [by left|right].
    destruct (Hl _ _ Hev) as [leader Hleader]. exists leader. split; [done|].
    unfold leave. rewrite Hev. cbn [snd set_events]. set_solver.
Qed.

(** Two readers of one key: the second waits for the first. *)
Lemma single_flight_witness :
  let s1 := (enter "k" no_flights).2 in
  let rs := <[2%nat := Waiting "k" 0]> (<[1%nat := Leading "k"]> (∅ : gmap nat phase)) in
  reachable_system (s1, rs) ∧ (leave "k" s1).1 = Ok ().
Proof.
  intros s1 rs. assert (reachable_system (s1, rs)) as Hs.
  { apply rtc_l with (s1, <[1%nat := Leading "k"]> ∅).
    - by apply (StepEnter 1 "k" no_flights ∅ Lead s1).
    - apply rtc_once. apply (StepEnter 2 "k" s1 _ (Follow 0) s1); [|reflexivity].
      by rewrite lookup_insert_ne. }
  split; [exact Hs|]. destruct (single_flight (s1, rs) Hs) as (_ & Hleave & _).
  apply (Hleave "k" 1%nat). subst rs. cbn [snd]. by rewrite lookup_insert_ne, lookup_insert_eq.
Defined.
