(* ===== verification/MigrationModel.v ===== *)
(** * Migration bundles, checkpoints and evidence ([migration/model.py])

    The frozen dataclasses of a Schema migration.  A constructor function
    [make_*] is the dataclass call with its [__post_init__]: it validates in the
    order of the code and returns the stored fields.  Core's [Operation] is a
    parameter: parsing a mapping and writing the parsed operation back. *)
From S2P Require Import Prelude PyTime Sha256 Canonical Errors OutboxModel Runner.

Definition MIGRATION_FORMAT_VERSION : string := "meridian.migration-bundle.v1".

(** ** Enumerations *)
Inductive MigrationStepKind : Type :=
| ADD_FIELD | BACKFILL | ADD_OR_REPLACE_INDEX | TIGHTEN_CONSTRAINT
| TRANSFORM_RECORD | ACTIVATE_SCHEMA_VERSION | RETIRE_PHYSICAL_GENERATION.
Inductive LockClass : Type := LOCK_NONE | SHARED | EXCLUSIVE.
Inductive Reversibility : Type := REVERSIBLE | REACTIVATE_RETAINED_GENERATION | RESTORE_REQUIRED.
Inductive MigrationState : Type := PLANNED | APPLYING | VALIDATING | ACTIVATING | MIGRATED | FAILED.
#[export] Instance MigrationStepKind_eq_dec : EqDecision MigrationStepKind.
Proof. solve_decision. Defined.
#[export] Instance MigrationState_eq_dec : EqDecision MigrationState.
Proof. solve_decision. Defined.

Definition kind_value (k : MigrationStepKind) : string :=
  match k with
  | ADD_FIELD => "add-field" | BACKFILL => "backfill"
  | ADD_OR_REPLACE_INDEX => "add-or-replace-index" | TIGHTEN_CONSTRAINT => "tighten-constraint"
  | TRANSFORM_RECORD => "transform-record" | ACTIVATE_SCHEMA_VERSION => "activate-schema-version"
  | RETIRE_PHYSICAL_GENERATION => "retire-physical-generation"
  end.
Definition lock_value (l : LockClass) : string :=
  match l with LOCK_NONE => "none" | SHARED => "shared" | EXCLUSIVE => "exclusive" end.
Definition reversibility_value (r : Reversibility) : string :=
  match r with
  | REVERSIBLE => "reversible"
  | REACTIVATE_RETAINED_GENERATION => "reactivate-retained-generation"
  | RESTORE_REQUIRED => "restore-required"
  end.
(** [MIGRATED] is the member [COMPLETED], a name the outbox states have taken. *)
Definition migration_state_value (s : MigrationState) : string :=
  match s with
  | PLANNED => "PLANNED" | APPLYING => "APPLYING" | VALIDATING => "VALIDATING"
  | ACTIVATING => "ACTIVATING" | MIGRATED => "COMPLETED" | FAILED => "FAILED"
  end.

(** [for name in (...): require_sha256(getattr(self, name), field=name)] *)
Fixpoint require_digests (fields : list (string * string)) : res unit :=
  match fields with
  | [] => Ok ()
  | (name, value) :: fields' => do? require_sha256 value name in require_digests fields'
  end.

(** [if a == "" or b == "" ...: raise ValueError(message)] *)
Definition require_all (values : list string) (message : string) : res unit :=
  raise_if (negb (forallb nonempty values)) (ValueError message).

Definition strings (l : list string) : json := JArr (map JStr l).

(** [if <invalid> or not isinstance(value, bool): raise ValueError(message)] *)
Definition checked_bool (value : pyval) (invalid : bool) (message : string) : res bool :=
  match value with
  | PBool b => if invalid then Raise (ValueError message) else Ok b
  | _ => Raise (ValueError message)
  end.

(** ** Conditions and steps *)

(** [Operation.from_mapping(m).to_dict()] *)
Class OperationApi : Type := normalize_operation : list (pyval * pyval) → res (list (pyval * pyval)).

Record MigrationCondition : Type := MkCondition {
  mc_name : string; mc_operation : json; mc_expectation : json }.

Definition make_condition `{OperationApi} (name : string) (operation expectation : list (pyval * pyval))
    : res MigrationCondition :=
  do? raise_if (negb (nonempty name)) (ValueError "migration condition name must be non-empty") in
  let? operation := rethrow (normalize_operation operation) (λ e, is_type_error e || is_value_error e)
    (ValueError "migration condition operation must be a serialized Meridian Operation V1") in
  let? operation := immutable_mapping operation in
  let? expectation := immutable_mapping expectation in
  Ok (MkCondition name operation expectation).

Definition condition_to_mapping (c : MigrationCondition) : json :=
  JObj [("name", JStr (mc_name c)); ("operation", mc_operation c); ("expectation", mc_expectation c)].

Record MigrationStep : Type := MkStep {
  st_step_id : string;
  st_kind : MigrationStepKind;
  st_parameters : json;
  st_requirements : list string;
  st_reversibility : Reversibility;
}.

(** [not all(requirements) or len(set(requirements)) != len(requirements)] *)
Definition bad_requirements (l : list string) : bool := negb (forallb nonempty l) || negb (unique l).

Definition make_step (step_id : string) (kind : MigrationStepKind) (parameters : list (pyval * pyval))
    (requirements : list string) (reversibility : Reversibility) : res MigrationStep :=
  do? raise_if (negb (nonempty step_id)) (ValueError "migration step_id must be non-empty") in
  do? raise_if (bad_requirements requirements) (ValueError "step compiler requirements must be unique") in
  let? parameters := immutable_mapping parameters in
  Ok (MkStep step_id kind parameters requirements reversibility).

Definition step_to_mapping (s : MigrationStep) : json :=
  JObj [("stepId", JStr (st_step_id s)); ("kind", JStr (kind_value (st_kind s)));
        ("parameters", st_parameters s); ("compilerRequirements", strings (st_requirements s));
        ("reversibility", JStr (reversibility_value (st_reversibility s)))].
Definition step_digest (s : MigrationStep) : string := sha256_digest (step_to_mapping s).

(** ** The bundle *)
Record MigrationBundleV1 : Type := MkBundle {
  source_schema_fingerprint : string;
  target_schema_fingerprint : string;
  steps : list MigrationStep;
  preconditions : list MigrationCondition;
  validations : list MigrationCondition;
  postconditions : list MigrationCondition;
  compiler_requirements : list string;
  estimated_lock_class : LockClass;
  reversibility : Reversibility;
  bundle_id : string;
  bundle_digest : string;
  bundle_format : string;
}.

Definition bundle_material (b : MigrationBundleV1) : list (string * json) :=
  [("formatVersion", JStr (bundle_format b)); ("bundleId", JStr (bundle_id b));
   ("sourceSchemaFingerprint", JStr (source_schema_fingerprint b));
   ("targetSchemaFingerprint", JStr (target_schema_fingerprint b));
   ("steps", JArr (map step_to_mapping (steps b)));
   ("preconditions", JArr (map condition_to_mapping (preconditions b)));
   ("validations", JArr (map condition_to_mapping (validations b)));
   ("postconditions", JArr (map condition_to_mapping (postconditions b)));
   ("compilerRequirements", strings (compiler_requirements b));
   ("estimatedLockClass", JStr (lock_value (estimated_lock_class b)));
   ("reversibility", JStr (reversibility_value (reversibility b)))].

Definition all_conditions (b : MigrationBundleV1) : list MigrationCondition :=
  preconditions b ++ validations b ++ postconditions b.

Definition set_bundle_digest (b : MigrationBundleV1) (h : string) : MigrationBundleV1 :=
  MkBundle (source_schema_fingerprint b) (target_schema_fingerprint b) (steps b) (preconditions b)
    (validations b) (postconditions b) (compiler_requirements b) (estimated_lock_class b)
    (reversibility b) (bundle_id b) h (bundle_format b).

(** [MigrationBundleV1.__post_init__] on the given fields. *)
Definition make_bundle (b : MigrationBundleV1) : res MigrationBundleV1 :=
  do? raise_if (negb (String.eqb (bundle_format b) MIGRATION_FORMAT_VERSION))
        (ValueError ("format_version must be " +:+ py_repr MIGRATION_FORMAT_VERSION)) in
  do? require_digests
        [("source_schema_fingerprint", source_schema_fingerprint b);
         ("target_schema_fingerprint", target_schema_fingerprint b)] in
  do? raise_if (negb (nonempty (bundle_id b)) || bool_decide (length (steps b) = 0%nat))
        (ValueError "migration bundle_id and steps must be non-empty") in
  do? raise_if (negb (unique (map st_step_id (steps b)))) (ValueError "migration step ids must be unique") in
  do? raise_if (negb (unique (map mc_name (all_conditions b))))
        (ValueError "migration condition names must be unique") in
  do? raise_if (bad_requirements (compiler_requirements b))
        (ValueError "bundle compiler requirements must be unique") in
  let expected := sha256_digest (JObj (bundle_material b)) in
  do? raise_if (nonempty (bundle_digest b) && negb (String.eqb (bundle_digest b) expected))
        (ValueError "migration bundle digest does not match canonical content") in
  Ok (set_bundle_digest b expected).

Definition bundle_to_mapping (b : MigrationBundleV1) : json :=
  JObj (dict_set "digest" (JStr (bundle_digest b)) (bundle_material b)).

(** ** What the adapter reports *)
Record BindingStateEvidence : Type := MkBindingState {
  logical_fingerprint : string; physical_fingerprint : string;
  active_generation : string; binding_revision : version }.

Definition make_binding_state (b : BindingStateEvidence) : res BindingStateEvidence :=
  do? require_digests [("logical_fingerprint", logical_fingerprint b);
                       ("physical_fingerprint", physical_fingerprint b)] in
  do? raise_if (negb (nonempty (active_generation b)) ||
                match binding_revision b with VBool _ => true | _ => false end)
        (ValueError "binding state generation and revision are invalid") in
  Ok b.

Record MigrationLock : Type := MkLock {
  lock_token : string; lock_owner : string; lock_digest : string; lock_expires_at : instant }.

Definition make_lock (token owner digest : string) (expires_at : datetime) : res MigrationLock :=
  do? require_all [token; owner; digest] "migration lock fields must be non-empty" in
  do? require_sha256 digest "bundle_digest" in
  let? expires := ensure_utc expires_at "expires_at" in
  Ok (MkLock token owner digest expires).

(** [opaque_artifact] has the type [A]; it takes no part in comparisons. *)
Record CompiledMigrationStep {A : Type} : Type := MkCompiledStep {
  cs_step_id : string; cs_compiler_id : string; cs_artifact_digest : string; cs_artifact : A }.
Arguments CompiledMigrationStep A : clear implicits.

Definition make_compiled_step {A} (s : CompiledMigrationStep A) : res (CompiledMigrationStep A) :=
  do? require_all [cs_step_id s; cs_compiler_id s; cs_artifact_digest s]
        "compiled migration step metadata must be non-empty" in
  do? require_sha256 (cs_artifact_digest s) "artifact_digest" in
  Ok s.

Definition evidence_mapping {A} (s : CompiledMigrationStep A) : json :=
  JObj [("stepId", JStr (cs_step_id s)); ("compilerId", JStr (cs_compiler_id s));
        ("artifactDigest", JStr (cs_artifact_digest s))].

Record CompiledMigrationPlan {A : Type} : Type := MkPlan {
  plan_bundle_digest : string; plan_steps : list (CompiledMigrationStep A); plan_digest : string }.
Arguments CompiledMigrationPlan A : clear implicits.

(** The digest a plan must carry. *)
Definition expected_plan_digest {A} (bundle_digest : string) (steps : list (CompiledMigrationStep A)) : string :=
  sha256_digest (JObj [("bundleDigest", JStr bundle_digest); ("steps", JArr (map evidence_mapping steps))]).

Definition make_plan {A} (p : CompiledMigrationPlan A) : res (CompiledMigrationPlan A) :=
  do? raise_if (negb (nonempty (plan_bundle_digest p)))
        (ValueError "compiled plan bundle digest must be non-empty") in
  do? require_sha256 (plan_bundle_digest p) "bundle_digest" in
  let expected := expected_plan_digest (plan_bundle_digest p) (plan_steps p) in
  do? raise_if (nonempty (plan_digest p) && negb (String.eqb (plan_digest p) expected))
        (ValueError "compiled migration plan digest is not deterministic") in
  Ok (MkPlan _ (plan_bundle_digest p) (plan_steps p) expected).

Record AppliedMigrationStep : Type := MkApplied {
  ap_step_id : string; ap_fingerprint : string; ap_token : string }.

Definition make_applied (s : AppliedMigrationStep) : res AppliedMigrationStep :=
  do? require_all [ap_step_id s; ap_token s] "applied migration step metadata must be non-empty" in
  do? require_sha256 (ap_fingerprint s) "result_fingerprint" in
  Ok s.

Record ValidationOutcome : Type := MkOutcome {
  vo_name : string; vo_passed : bool; vo_result_digest : string; vo_summary : string }.

Definition make_outcome (name : string) (passed : pyval) (result_digest summary : string) : res ValidationOutcome :=
  let? passed := checked_bool passed (negb (nonempty name)) "validation outcome name and passed state are invalid" in
  do? require_sha256 result_digest "result_digest" in
  Ok (MkOutcome name passed result_digest summary).

(** ** Checkpoints, activation and cutover *)
Record MigrationCheckpoint : Type := MkMigrationCheckpoint {
  ck_execution_id : string;
  ck_bundle_digest : string;
  ck_state : MigrationState;
  ck_sequence : Z;
  ck_step_id : option string;
  ck_fingerprint : option string;
  ck_token : option string;
  ck_failure_code : option string;
  ck_recorded_at : instant;
}.

Definition make_migration_checkpoint (execution_id digest : string) (state : MigrationState) (sequence : Z)
    (step_id fingerprint token failure_code : option string) (recorded_at : datetime) : res MigrationCheckpoint :=
  do? raise_if (negb (nonempty execution_id) || negb (nonempty digest) || (sequence <? 0))
        (ValueError "invalid migration checkpoint identity or sequence") in
  do? require_sha256 digest "bundle_digest" in
  do? (match fingerprint with
       | Some f => do? require_sha256 f "result_fingerprint" in Ok ()
       | None => Ok ()
       end) in
  let? recorded := ensure_utc recorded_at "recorded_at" in
  Ok (MkMigrationCheckpoint execution_id digest state sequence step_id fingerprint token failure_code recorded).

Record ActivationResult : Type := MkActivation {
  ar_active_generation : string; ar_previous_generation : string;
  ar_target_fingerprint : string; ar_source_boundary : string }.

Definition make_activation (a : ActivationResult) : res ActivationResult :=
  do? require_all [ar_active_generation a; ar_previous_generation a; ar_source_boundary a]
        "activation result fields must be non-empty" in
  do? require_sha256 (ar_target_fingerprint a) "target_fingerprint" in
  Ok a.

Record CutoverEvidence : Type := MkCutover {
  ce_execution_id : string;
  ce_bundle_digest : string;
  ce_source_fingerprint : string;
  ce_target_fingerprint : string;
  ce_source_boundary : string;
  ce_previous_generation : string;
  ce_active_generation : string;
  ce_validation_digest : string;
  ce_activated_at : instant;
  ce_digest : string;
}.

Definition cutover_material (c : CutoverEvidence) : list (string * json) :=
  [("executionId", JStr (ce_execution_id c)); ("bundleDigest", JStr (ce_bundle_digest c));
   ("sourceFingerprint", JStr (ce_source_fingerprint c)); ("targetFingerprint", JStr (ce_target_fingerprint c));
   ("sourceBoundary", JStr (ce_source_boundary c)); ("previousGeneration", JStr (ce_previous_generation c));
   ("activeGeneration", JStr (ce_active_generation c));
   ("validationReportDigest", JStr (ce_validation_digest c));
   ("activatedAt", JStr (rfc3339 (ce_activated_at c)))].

(** [CutoverEvidence.__post_init__]: [activated_at] and [digest] as the caller
    gives them, the other fields in [c]. *)
Definition make_cutover (c : CutoverEvidence) (activated_at : datetime) : res CutoverEvidence :=
  do? require_nonempty
        [("execution_id", ce_execution_id c); ("source_boundary", ce_source_boundary c);
         ("previous_generation", ce_previous_generation c); ("active_generation", ce_active_generation c)] in
  do? require_digests
        [("bundle_digest", ce_bundle_digest c); ("source_fingerprint", ce_source_fingerprint c);
         ("target_fingerprint", ce_target_fingerprint c); ("validation_report_digest", ce_validation_digest c)] in
  let? activated := ensure_utc activated_at "activated_at" in
  let stamp h := MkCutover (ce_execution_id c) (ce_bundle_digest c) (ce_source_fingerprint c)
    (ce_target_fingerprint c) (ce_source_boundary c) (ce_previous_generation c) (ce_active_generation c)
    (ce_validation_digest c) activated h in
  let expected := sha256_digest (JObj (cutover_material (stamp ""%string))) in
  do? raise_if (nonempty (ce_digest c) && negb (String.eqb (ce_digest c) expected))
        (ValueError "cutover evidence digest does not match canonical content") in
  Ok (stamp expected).

(** [CutoverEvidence.to_mapping], as the Python dictionary it is. *)
Definition cutover_to_mapping (c : CutoverEvidence) : list (pyval * pyval) :=
  items_of (JObj (dict_set "digest" (JStr (ce_digest c)) (cutover_material c))).

Record MigrationReport : Type := MkReport {
  rp_execution_id : string;
  rp_state : MigrationState;
  rp_bundle_digest : string;
  rp_checkpoints : list MigrationCheckpoint;
  rp_validations : list ValidationOutcome;
  rp_cutover : option CutoverEvidence;
  rp_failure_code : option string;
}.
