(* ===== verification/Migration.v ===== *)
(** * Migration planning and execution ([migration/planner.py], [migration/executor.py])

    The planner checks a bundle against Core's compatibility report; the
    executor drives an adapter through lock, compilation, steps, validation and
    activation, recording a checkpoint at each stage.  The adapter, the
    validation runner, the recorder, the clock and the evidence sink are
    injected computations on a common world. *)
From S2P Require Import Prelude PyTime Sha256 Canonical Errors OutboxModel Runner MigrationModel.

(** ** [MigrationPlanner] *)

(** Core's Schema semantics. *)
Inductive compatibility : Type := COMPATIBLE | CONDITIONAL | BREAKING.
#[export] Instance compatibility_eq_dec : EqDecision compatibility.
Proof. solve_decision. Defined.
Class SchemaSemantics : Type := {
  SchemaDocument : Type;
  schema_fingerprint : SchemaDocument → string;
  CompatibilityReport : Type;
  classification : CompatibilityReport → compatibility;
  classify_compatibility : SchemaDocument → SchemaDocument → CompatibilityReport;
}.

Definition classify `{SchemaSemantics} (source target : SchemaDocument) : CompatibilityReport :=
  classify_compatibility source target.

Definition has_kind (k : MigrationStepKind) (l : list MigrationStep) : bool :=
  bool_decide (k ∈ map st_kind l).
Definition is_nil {A} (l : list A) : bool := match l with [] => true | _ => false end.

(** [create_bundle]; [b] holds the caller's arguments, the fingerprints, the
    digest and the format being the planner's. *)
Definition create_bundle `{SchemaSemantics} (source target : SchemaDocument) (b : MigrationBundleV1)
    : res MigrationBundleV1 :=
  let report := classify source target in
  do? (if bool_decide (classification report = BREAKING) then
         do? raise_if (negb (has_kind TRANSFORM_RECORD (steps b)))
               (IncompatibleMigration "breaking Schema changes require an explicit transform-record step") in
         raise_if (is_nil (preconditions b) || is_nil (validations b))
           (IncompatibleMigration "breaking Schema changes require preconditions and validation Operations")
       else Ok ()) in
  do? raise_if (bool_decide (classification report = CONDITIONAL) && is_nil (compiler_requirements b))
        (IncompatibleMigration "conditionally compatible changes require an Adapter compiler requirement") in
  do? raise_if (negb (has_kind ACTIVATE_SCHEMA_VERSION (steps b)))
        (IncompatibleMigration "every migration must explicitly activate the target Schema") in
  make_bundle (MkBundle (schema_fingerprint source) (schema_fingerprint target) (steps b) (preconditions b)
    (validations b) (postconditions b) (compiler_requirements b) (estimated_lock_class b) (reversibility b)
    (bundle_id b) "" MIGRATION_FORMAT_VERSION).

(** ** Recorders *)
Class MigrationRecorder (W : Type) : Type := {
  recorder_append : MigrationCheckpoint → M W unit;
  recorder_checkpoints : string → M W (list MigrationCheckpoint);
}.

(** [InMemoryMigrationRecorder]: [setdefault] creates the list before the test. *)
Abbreviation recorder_state := (gmap string (list MigrationCheckpoint)).

Definition memory_append (c : MigrationCheckpoint) : M recorder_state unit := λ s,
  let records := default [] (s !! ck_execution_id c) in
  match last records with
  | Some previous =>
      if ck_sequence c <=? ck_sequence previous then
        (Raise (MigrationConflict "migration checkpoint sequence must increase"), s)
      else (Ok (), <[ck_execution_id c := records ++ [c]]> s)
  | None => (Ok (), <[ck_execution_id c := records ++ [c]]> s)
  end.
Definition memory_checkpoints (execution_id : string) : M recorder_state (list MigrationCheckpoint) :=
  gets (λ s, default [] (s !! execution_id)).

#[export] Instance InMemoryMigrationRecorder : MigrationRecorder recorder_state := {|
  recorder_append := memory_append; recorder_checkpoints := memory_checkpoints |}.

(** ** [MigrationExecutor] *)

(** [MigrationAdapterHooks], [MigrationValidationRunner] and the clock; [A] is
    the type of the opaque artifacts. *)
Record migration_hooks (A W : Type) : Type := MigrationHooks {
  inspect_state : string → M W BindingStateEvidence;
  acquire_lock : string → string → string → timedelta → M W MigrationLock;
  compile : MigrationBundleV1 → M W (CompiledMigrationPlan A);
  apply_step : MigrationLock → CompiledMigrationStep A → option string → M W AppliedMigrationStep;
  activate : MigrationLock → MigrationBundleV1 → string → M W ActivationResult;
  release_lock : MigrationLock → M W unit;
  run_condition : MigrationCondition → M W ValidationOutcome;
  migration_clock : M W datetime;
}.
Arguments MigrationHooks {A W}.
Arguments inspect_state {A W} _ _.
Arguments acquire_lock {A W} _ _ _ _ _.
Arguments compile {A W} _ _.
Arguments apply_step {A W} _ _ _ _.
Arguments activate {A W} _ _ _ _.
Arguments release_lock {A W} _ _.
Arguments run_condition {A W} _ _.
Arguments migration_clock {A W} _.

(** [MigrationExecutor.__init__]: the lock duration. *)
Definition make_executor (lock_seconds : float) : res timedelta :=
  do? raise_if (f64_le lock_seconds f64_zero) (ValueError "lock_seconds must be positive") in
  timedelta_seconds lock_seconds.

(** [_verify_compiled] *)
Definition verify_compiled {A} (bundle : MigrationBundleV1) (plan : CompiledMigrationPlan A) : res unit :=
  do? raise_if (negb (String.eqb (plan_bundle_digest plan) (bundle_digest bundle)))
        (MigrationConflict "compiled plan references a different migration bundle") in
  do? raise_if (negb (bool_decide (map cs_step_id (plan_steps plan) = map st_step_id (steps bundle))))
        (MigrationConflict "compiled plan does not preserve logical step order") in
  raise_if (negb (String.eqb (plan_digest plan) (expected_plan_digest (plan_bundle_digest plan) (plan_steps plan))))
    (MigrationConflict "compiled migration plan is not deterministic").

Section executor.
Context {A W : Type} `{MigrationRecorder W} `{EvidenceSink W}.
Context (hooks : migration_hooks A W) (lock_duration : timedelta).

(** [_checkpoint] *)
Definition record_checkpoint (execution_id : string) (bundle : MigrationBundleV1) (state : MigrationState)
    (sequence : Z) (step : option AppliedMigrationStep) (failure_code : option string) : M W unit :=
  let! now := migration_clock hooks in
  let! c := lift_res (make_migration_checkpoint execution_id (bundle_digest bundle) state sequence
                        (ap_step_id <$> step) (ap_fingerprint <$> step) (ap_token <$> step) failure_code now) in
  recorder_append c.

(** [_run_conditions] *)
Definition run_conditions (conditions : list MigrationCondition) (token : cancelled_poll W)
    : M W (list ValidationOutcome) :=
  for_list conditions [] (λ outcomes condition,
    do! raise_if_cancelled token in
    let! outcome := run_condition hooks condition in
    if vo_passed outcome then ret (outcomes ++ [outcome])
    else raise (MigrationFailed ("migration condition " +:+ py_repr (mc_name condition) +:+ " failed") false)).

(** The variables of [execute] that its handlers read or that outlive a stage:
    [sequence], [lock] and [all_validations]. *)
Record locals : Type := Locals {
  sequence : Z; lock : option MigrationLock; all_validations : list ValidationOutcome }.
Definition bump (l : locals) : locals := Locals (sequence l + 1) (lock l) (all_validations l).
Definition set_lock (x : MigrationLock) (l : locals) : locals := Locals (sequence l) (Some x) (all_validations l).
Definition extend (outcomes : list ValidationOutcome) (l : locals) : locals :=
  Locals (sequence l) (lock l) (all_validations l ++ outcomes).

(** [if lock.expires_at <= ensure_utc(self._clock(), field="now"): raise] *)
Definition check_unexpired (x : MigrationLock) (message : string) : M W unit :=
  let! t := migration_clock hooks in
  let! now := lift_res (ensure_utc t "now") in
  lift_res (raise_if (lock_expires_at x <=? now) (MigrationConflict message)).

(** One checkpoint of a stage, and [sequence += 1]. *)
Definition stage (run_id : string) (bundle : MigrationBundleV1) (state : MigrationState)
    (step : option AppliedMigrationStep) : M (locals * W) unit :=
  let! l := get_locals in
  do! lift_snd (record_checkpoint run_id bundle state (sequence l) step None) in
  set_locals bump.

Definition migration_evidence (binding_ref : string) (state : MigrationState) (details : list (pyval * pyval))
    : M W unit :=
  let! now := migration_clock hooks in
  record_evidence "migration" binding_ref (migration_state_value state) details now.

(** Inspection, preconditions, lock, compilation and the PLANNED checkpoint. *)
Definition prepare (binding_ref owner run_id : string) (bundle : MigrationBundleV1) (token : cancelled_poll W)
    : M (locals * W) (string * MigrationLock * CompiledMigrationPlan A) :=
  do! lift_snd (raise_if_cancelled token) in
  let! state := lift_snd (inspect_state hooks binding_ref) in
  do! lift_res (raise_if (negb (String.eqb (logical_fingerprint state) (source_schema_fingerprint bundle)))
        (MigrationConflict "current logical fingerprint does not match bundle source")) in
  let! outcomes := lift_snd (run_conditions (preconditions bundle) token) in
  do! set_locals (extend outcomes) in
  let! x := lift_snd (acquire_lock hooks binding_ref owner (bundle_digest bundle) lock_duration) in
  do! set_locals (set_lock x) in
  do! lift_res (raise_if (negb (String.eqb (lock_owner x) owner) ||
                          negb (String.eqb (lock_digest x) (bundle_digest bundle)))
        (MigrationConflict "adapter returned a lock for a different owner or bundle")) in
  do! lift_snd (check_unexpired x "adapter returned an expired migration lock") in
  let! plan := lift_snd (compile hooks bundle) in
  do! lift_res (verify_compiled bundle plan) in
  do! stage run_id bundle PLANNED None in
  do! lift_snd (migration_evidence binding_ref PLANNED
        [(PStr "bundleDigest", PStr (bundle_digest bundle)); (PStr "planDigest", PStr (plan_digest plan))]) in
  ret (active_generation state, x, plan).

(** The loop over the compiled steps; [completed] has the ids of earlier runs. *)
Definition apply_steps (run_id : string) (bundle : MigrationBundleV1) (token : cancelled_poll W)
    (completed : list string) (x : MigrationLock) (plan : CompiledMigrationPlan A) : M (locals * W) unit :=
  for_list (plan_steps plan) () (λ _ compiled,
    do! lift_snd (raise_if_cancelled token) in
    do! lift_snd (check_unexpired x "migration lock expired while applying the plan") in
    if bool_decide (cs_step_id compiled ∈ completed) then ret ()
    else
      let! applied := lift_snd (apply_step hooks x compiled None) in
      do! lift_res (raise_if (negb (String.eqb (ap_step_id applied) (cs_step_id compiled)))
            (MigrationConflict "adapter acknowledged the wrong migration step")) in
      stage run_id bundle APPLYING (Some applied)).

(** Validation and activation. *)
Definition cut_over (run_id generation : string) (bundle : MigrationBundleV1) (token : cancelled_poll W)
    (x : MigrationLock) : M (locals * W) ActivationResult :=
  do! stage run_id bundle VALIDATING None in
  let! outcomes := lift_snd (run_conditions (validations bundle) token) in
  do! set_locals (extend outcomes) in
  do! stage run_id bundle ACTIVATING None in
  do! lift_snd (raise_if_cancelled token) in
  do! lift_snd (check_unexpired x "migration lock expired before activation") in
  let! activation := lift_snd (activate hooks x bundle generation) in
  do! lift_res (raise_if (negb (String.eqb (ar_target_fingerprint activation) (target_schema_fingerprint bundle)))
        (MigrationConflict "activation target fingerprint does not match bundle")) in
  let! outcomes := lift_snd (run_conditions (postconditions bundle) never_cancelled) in
  do! set_locals (extend outcomes) in
  ret activation.

(** The digest of the validation report. *)
Definition outcome_json (o : ValidationOutcome) : json :=
  JObj [("name", JStr (vo_name o)); ("passed", JBool (vo_passed o)); ("resultDigest", JStr (vo_result_digest o))].
Definition validation_digest (outcomes : list ValidationOutcome) : string :=
  sha256_digest (JArr (map outcome_json outcomes)).

(** Cutover evidence, the COMPLETED checkpoint and the report. *)
Definition finish (binding_ref run_id : string) (bundle : MigrationBundleV1) (activation : ActivationResult)
    : M (locals * W) MigrationReport :=
  let! l := get_locals in
  let! now := lift_snd (migration_clock hooks) in
  let! cutover := lift_res (make_cutover
      (MkCutover run_id (bundle_digest bundle) (source_schema_fingerprint bundle)
         (target_schema_fingerprint bundle) (ar_source_boundary activation) (ar_previous_generation activation)
         (ar_active_generation activation) (validation_digest (all_validations l)) 0 "") now) in
  do! lift_snd (record_checkpoint run_id bundle MIGRATED (sequence l) None None) in
  do! lift_snd (migration_evidence binding_ref MIGRATED (cutover_to_mapping cutover)) in
  let! checkpoints := lift_snd (recorder_checkpoints run_id) in
  ret (MkReport run_id MIGRATED (bundle_digest bundle) checkpoints (all_validations l) (Some cutover) None).

(** The body of the [try] statement. *)
Definition migrate (binding_ref owner run_id : string) (bundle : MigrationBundleV1) (token : cancelled_poll W)
    (completed : list string) : M (locals * W) MigrationReport :=
  let! '(generation, x, plan) := prepare binding_ref owner run_id bundle token in
  do! apply_steps run_id bundle token completed x plan in
  let! activation := cut_over run_id generation bundle token x in
  finish binding_ref run_id bundle activation.

(** [except Exception as error: ...; raise] *)
Definition record_failed (binding_ref run_id : string) (bundle : MigrationBundleV1) (error : exn)
    : M (locals * W) MigrationReport :=
  let! l := get_locals in
  do! lift_snd (record_checkpoint run_id bundle FAILED (sequence l) None (Some (error_code error))) in
  do! lift_snd (migration_evidence binding_ref FAILED
        [(PStr "bundleDigest", PStr (bundle_digest bundle)); (PStr "failureCode", PStr (error_code error))]) in
  raise error.

(** [finally: if lock is not None: release_lock(lock)] *)
Definition unlock : M (locals * W) unit :=
  let! l := get_locals in
  match lock l with Some x => lift_snd (release_lock hooks x) | None => ret () end.

Definition completed_step (c : MigrationCheckpoint) : option string :=
  if bool_decide (ck_state c = APPLYING) then ck_step_id c else None.

(** [execute]; [uuid] is the value of [uuid4()]. *)
Definition execute_migration (binding_ref : string) (bundle : MigrationBundleV1) (owner : string)
    (cancellation : option (cancelled_poll W)) (execution_id : option string) (uuid : string)
    : M W MigrationReport :=
  do! lift_res (raise_if (negb (nonempty binding_ref) || negb (nonempty owner))
        (ValueError "binding_ref and owner must be non-empty")) in
  let token := default never_cancelled cancellation in
  do! lift_res (raise_if (match execution_id with Some id => negb (nonempty id) | None => false end)
        (ValueError "execution_id must be non-empty when supplied")) in
  let run_id := default uuid execution_id in
  let! existing := recorder_checkpoints run_id in
  do! lift_res (raise_if (existsb (λ c, negb (String.eqb (ck_bundle_digest c) (bundle_digest bundle))) existing)
        (MigrationConflict "execution id is already bound to another bundle")) in
  do! lift_res (raise_if (existsb (λ c, bool_decide (ck_state c = MIGRATED)) existing)
        (MigrationConflict "migration execution is already completed")) in
  let start := match last existing with Some c => ck_sequence c + 1 | None => 0 end in
  let completed := omap completed_step existing in
  let! '(report, _) := with_locals (Locals start None [])
    (try_finally
      (try_except (migrate binding_ref owner run_id bundle token completed) is_exception
        (record_failed binding_ref run_id bundle))
      unlock) in
  ret report.
End executor.
