(* ===== verification/CallLog.v ===== *)
(** * Logs of calls

    The theorems about the order of a coordinator's calls are stated on a log to
    which wrapped collaborators append every call with its outcome
    ([Prelude.recorded]).  A component says what may follow a log ([permitted]),
    which calls end it ([closing]) and which calls are ordinary ([quiet]);
    [triple] is the program logic for pieces of code that make ordinary calls. *)
From S2P Require Import Prelude Errors.

Section call_log.
Context {C : Type} (permitted : list C → C → Prop) (closing quiet : C → bool).
Context (quiet_open : ∀ c, quiet c = true → closing c = false).
Abbreviation log := (list C).

(** Every call of the log was permitted when it was made. *)
Inductive ordered : log → Prop :=
| ordered_nil : ordered []
| ordered_snoc l c : ordered l → permitted l c → ordered (l ++ [c]).

(** An orderly log without a closing call. *)
Definition open_log (l : log) : Prop := ordered l ∧ Forall (λ c, closing c = false) l.

(** Logs that grow by ordinary calls, in order. *)
Definition grows (l l' : log) : Prop :=
  ∃ k, l' = l ++ k ∧ Forall (λ c, quiet c = true) k ∧ (open_log l → open_log l').

#[export] Instance grows_preorder : PreOrder grows.
Proof.
  split.
  - intros l. exists []. by rewrite app_nil_r.
  - intros l1 l2 l3 (k & -> & Hk & Ho) (k' & -> & Hk' & Ho'). exists (k ++ k').
    rewrite <- app_assoc. split; [done|]. split; [by apply Forall_app|]. rewrite app_assoc. auto.
Qed.

Lemma grows_prefix l l' : grows l l' → l `prefix_of` l'.
Proof. intros (k & -> & _). by exists k. Qed.
Lemma grows_open l l' : grows l l' → open_log l → open_log l'.
Proof. intros (k & -> & _ & Ho). exact Ho. Qed.
(** A call that is not ordinary was in the log before. *)
Lemma grows_in l l' c : grows l l' → quiet c = false → c ∈ l' → c ∈ l.
Proof.
  intros (k & -> & Hk & _) Hc. rewrite elem_of_app. intros [?|Hin]; [done|].
  rewrite Forall_forall in Hk. by rewrite (Hk c Hin) in Hc.
Qed.
Lemma open_not_in l c : open_log l → closing c = true → c ∉ l.
Proof. intros [_ Hl] Hc Hin. rewrite Forall_forall in Hl. by rewrite (Hl c Hin) in Hc. Qed.

Lemma open_snoc l c : open_log l → permitted l c → closing c = false → open_log (l ++ [c]).
Proof. intros [Ho Hl] Hp Hc. split; [by apply ordered_snoc|]. apply Forall_app. split; [done|by constructor]. Qed.
Lemma grows_snoc l c : (open_log l → permitted l c) → quiet c = true → grows l (l ++ [c]).
Proof. intros Hp Hq. exists [c]. split; [done|]. split; [by constructor|]. intros Ho. apply open_snoc; auto. Qed.

Lemma in_prefix (l l' : log) c : l `prefix_of` l' → c ∈ l → c ∈ l'.
Proof. intros [k ->]. rewrite elem_of_app. auto. Qed.
Lemma in_snoc (l : log) c : c ∈ l ++ [c].
Proof. rewrite elem_of_app, list_elem_of_singleton. auto. Qed.

(** ** Triples: the log grows whatever happens, and a result satisfies [Q]. *)
Context {W : Type}.
Definition triple {B} (l : log) (m : M (log * W) B) (Q : B → log → Prop) : Prop :=
  ∀ w, wp m (λ r lw, grows l lw.1 ∧ ∀ b, r = Ok b → Q b lw.1) (l, w).
(** A piece of code that made no call. *)
Definition unchanged {B} (l : log) (_ : B) (l' : log) : Prop := l' = l.

Lemma triple_bind {B D} l (m : M (log * W) B) (k : B → M (log * W) D) Q R :
  triple l m Q → (∀ b l', grows l l' → Q b l' → triple l' (k b) R) → triple l (bind m k) R.
Proof.
  intros Hm Hk w. apply wp_bind. eapply wp_mono; [apply Hm|]. intros [b|e] [l' w'] [Hg HQ]; cbn in *.
  - eapply wp_mono; [apply (Hk b l' Hg (HQ b eq_refl))|]. intros r [l2 w2] [Hg2 HR]; cbn in *.
    split; [by etrans|done].
  - split; [done|]. by intros b [=].
Qed.
Lemma triple_ret {B} l (b : B) (Q : B → log → Prop) : Q b l → triple l (ret b) Q.
Proof. intros HQ w. apply wp_ret. split; [done|]. by intros b' [= <-]. Qed.
Lemma triple_raise {B} l e (Q : B → log → Prop) : triple l (raise e) Q.
Proof. intros w. by apply wp_raise. Qed.
Lemma triple_lift {B} l (r : res B) (Q : B → log → Prop) : (∀ b, r = Ok b → Q b l) → triple l (lift_res r) Q.
Proof. intros HQ w. by apply wp_lift_res. Qed.
Lemma triple_silent {B} l (m : M W B) (Q : B → log → Prop) : (∀ b, Q b l) → triple l (lift_snd m) Q.
Proof. intros HQ w. apply wp_lift_snd. intros r w'. split; [done|]. intros b _. apply HQ. Qed.
Lemma triple_weaken {B} l (m : M (log * W) B) (Q Q' : B → log → Prop) :
  triple l m Q → (∀ b l', grows l l' → Q b l' → Q' b l') → triple l m Q'.
Proof.
  intros Hm HQ w. eapply wp_mono; [apply Hm|]. intros r lw [Hg Hr]. split; [done|].
  intros b Hb. apply HQ; auto.
Qed.

Lemma triple_recorded {B} l (ev : res B → C) (m : M W B) (Q : B → log → Prop) :
  (∀ r, open_log l → permitted l (ev r)) → (∀ r, quiet (ev r) = true) →
  (∀ b, Q b (l ++ [ev (Ok b)])) → triple l (recorded ev m) Q.
Proof.
  intros Hperm Hquiet HQ w. apply wp_recorded. intros r w'. cbn. split; [apply grows_snoc; auto|]. intros b ->. apply HQ.
Qed.

(** Sequencing of a pure check. *)
Lemma triple_check {B D} l (r : res B) (k : B → M (log * W) D) Q :
  (∀ b, r = Ok b → triple l (k b) Q) → triple l (bind (lift_res r) k) Q.
Proof.
  intros Hk. eapply triple_bind; [by apply triple_lift with (Q := λ b l', l' = l ∧ r = Ok b)|].
  intros b l' _ [-> Hr]. auto.
Qed.

Lemma triple_for {X S} (I : list X → S → log → Prop) (xs : list X) (s : S) (body : S → X → M (log * W) S) l :
  I xs s l →
  (∀ x xs s l, I (x :: xs) s l → triple l (body s x) (I xs)) →
  triple l (for_list xs s body) (I []).
Proof.
  intros HI Hbody. revert s l HI. induction xs as [|x xs IH]; intros s l HI; cbn.
  - by apply triple_ret.
  - eapply triple_bind; [by apply Hbody|]. intros s' l' _ HI'. by apply IH.
Qed.

(** ** Tokens *)
Definition silent (token : cancelled_poll (log * W)) : Prop := ∀ l, triple l token (unchanged l).
Lemma silent_lift (token : cancelled_poll W) : silent (lift_snd token).
Proof. intros l. by apply triple_silent. Qed.
Lemma silent_never : silent never_cancelled.
Proof. intros l. by apply triple_ret. Qed.
Lemma silent_default (cancellation : option (cancelled_poll W)) :
  silent (default never_cancelled (lift_snd <$> cancellation)).
Proof. destruct cancellation; [apply silent_lift|apply silent_never]. Qed.

Lemma raise_if_cancelled_triple l token : silent token → triple l (raise_if_cancelled token) (unchanged l).
Proof.
  intros Ht. unfold raise_if_cancelled. eapply triple_bind; [apply Ht|].
  intros [] l' _ ->; [apply triple_raise|by apply triple_ret].
Qed.
Lemma poll_wp (cancellation : option (cancelled_poll W)) (Q : res unit → log * W → Prop) l w :
  (∀ r w', Q r (l, w')) → wp (raise_if_cancelled (default never_cancelled (lift_snd <$> cancellation))) Q (l, w).
Proof.
  intros HQ. unfold raise_if_cancelled. apply wp_bind. destruct cancellation as [c|]; cbn.
  - apply wp_lift_snd. intros [[]|] w'; [by apply wp_raise|by apply wp_ret|done].
  - by apply wp_ret, wp_ret.
Qed.
End call_log.

(** ** Iterables whose elements are recorded *)
Fixpoint log_iter {C W A} (ev : A → C) (it : iter W A) : iter (list C * W) A :=
  match it with
  | MkIter next => MkIter (λ '(l, w),
      match next w with
      | (Ok None, w') => (Ok None, (l, w'))
      | (Ok (Some (x, it')), w') => (Ok (Some (x, log_iter ev it')), (l ++ [ev x], w'))
      | (Raise e, w') => (Raise e, (l, w'))
      end)
  end.

Lemma wp_for_log_iter {C W A S} (ev : A → C) (I : S → list C → Prop) (it : iter W A) (s : S)
    (body : S → A → M (list C * W) S) (Q : res S → list C * W → Prop) l w :
  (∀ s l w, I s l → Q (Ok s) (l, w)) →
  (∀ s l w e, I s l → Q (Raise e) (l, w)) →
  (∀ s x l w, I s l →
     wp (body s x) (λ r lw, match r with Ok s' => I s' lw.1 | Raise e => Q (Raise e) lw end) (l ++ [ev x], w)) →
  I s l → wp (for_iter (log_iter ev it) s body) Q (l, w).
Proof.
  intros Hdone Hraise Hbody. revert s l w. induction it as [next IH] using iter_induction.
  intros s l w HI. specialize (IH w). with_strategy transparent [wp] unfold wp; simpl.
  destruct (next w) as [[[[x it']|]|e] w']; simpl; [|by apply Hdone|by eapply Hraise].
  specialize (Hbody s x l w' HI). apply wp_run in Hbody as (r & [l' w''] & Hrun & Hr). rewrite Hrun.
  destruct r as [s'|e]; [|done]. specialize (IH _ _ _ eq_refl s' l' w'' Hr).
  apply wp_run in IH as (r & lw & -> & HQ). exact HQ.
Qed.

(** ** Iterables all of whose answers are recorded *)
Fixpoint recorded_iter {C W A} (ev : res (option A) → C) (it : iter W A) : iter (list C * W) A :=
  match it with
  | MkIter next => MkIter (λ '(l, w),
      match next w with
      | (Ok None, w') => (Ok None, (l ++ [ev (Ok None)], w'))
      | (Ok (Some (x, it')), w') => (Ok (Some (x, recorded_iter ev it')), (l ++ [ev (Ok (Some x))], w'))
      | (Raise e, w') => (Raise e, (l ++ [ev (Raise e)], w'))
      end)
  end.

Lemma wp_for_recorded_iter {C W A S} (ev : res (option A) → C) (I : S → list C → Prop) (it : iter W A) (s : S)
    (body : S → A → M (list C * W) S) (Q : res S → list C * W → Prop) l w :
  (∀ s l w, I s l → Q (Ok s) (l ++ [ev (Ok None)], w)) →
  (∀ s l w e, I s l → Q (Raise e) (l ++ [ev (Raise e)], w)) →
  (∀ s x l w, I s l →
     wp (body s x) (λ r lw, match r with Ok s' => I s' lw.1 | Raise e => Q (Raise e) lw end)
       (l ++ [ev (Ok (Some x))], w)) →
  I s l → wp (for_iter (recorded_iter ev it) s body) Q (l, w).
Proof.
  intros Hdone Hraise Hbody. revert s l w. induction it as [next IH] using iter_induction.
  intros s l w HI. specialize (IH w). with_strategy transparent [wp] unfold wp; simpl.
  destruct (next w) as [[[[x it']|]|e] w']; simpl; [|by apply Hdone|by eapply Hraise].
  specialize (Hbody s x l w' HI). apply wp_run in Hbody as (r & [l' w''] & Hrun & Hr). rewrite Hrun.
  destruct r as [s'|e]; [|done]. specialize (IH _ _ _ eq_refl s' l' w'' Hr).
  apply wp_run in IH as (r & lw & -> & HQ). exact HQ.
Qed.

(** A loop over such an iterable: [I] holds before every answer, [Q] after the
    one that ends the loop. *)
Lemma triple_for_recorded_iter {C W X S} (permitted : list C → C → Prop) (closing quiet : C → bool)
    (Hquiet : ∀ c, quiet c = true → closing c = false)
    (ev : res (option X) → C) (I Q : S → list C → Prop) (it : iter W X) (s : S)
    (body : S → X → M (list C * W) S) l :
  I s l →
  (∀ s l r, I s l → open_log permitted closing l → permitted l (ev r)) → (∀ r, quiet (ev r) = true) →
  (∀ s l, I s l → Q s (l ++ [ev (Ok None)])) →
  (∀ s x l, I s l → triple permitted closing quiet (l ++ [ev (Ok (Some x))]) (body s x) I) →
  triple permitted closing quiet l (for_iter (recorded_iter ev it) s body) Q.
Proof.
  intros HI Hperm Hq Hend Hbody w.
  assert (∀ s' l' r, grows permitted closing quiet l l' → I s' l' →
    grows permitted closing quiet l (l' ++ [ev r])) as Hgrow.
  { intros s' l' r Hg HI'. etrans; [exact Hg|]. apply grows_snoc; [done| |done]. intros Ho. by eapply Hperm. }
  apply (wp_for_recorded_iter ev (λ s l', grows permitted closing quiet l l' ∧ I s l')).
  - intros s' l' w' [Hg HI']. split; [by eapply Hgrow|]. intros b [= <-]. by apply Hend.
  - intros s' l' w' e [Hg HI']. split; [by eapply Hgrow|done].
  - intros s' x l' w' [Hg HI']. pose proof (Hgrow s' l' (Ok (Some x)) Hg HI') as Hg1.
    eapply wp_mono; [by apply Hbody|]. intros [s2|e] [l2 w2] [Hg2 HQ]; cbn in *; (split; [by etrans|]); [by apply HQ|done].
  - done.
Qed.

(** Skip a step that makes no call; continue under a check. *)
Ltac skip_call := match goal with |- triple _ _ _ ?l (bind _ _) _ =>
  eapply triple_bind; [by apply triple_silent with (Q := unchanged l)|]; intros ? ? _ -> end.
Ltac skip_poll := eapply triple_bind; [by apply raise_if_cancelled_triple|]; intros [] ? _ ->.

Create HintDb call_log.
#[export] Hint Resolve in_prefix in_snoc grows_prefix : call_log.
