(* ===== verification/MigrationOrder.v ===== *)
(** * The order of a migration's calls

    The collaborators of [execute] are wrapped so that every call is appended
    to a log with its outcome.  For arbitrary collaborators, whatever they raise
    and whatever they do to the world, the calls come in a permitted order, and
    a lock that was acquired is released by the last call. *)
From S2P Require Import Prelude PyTime Sha256 Canonical Errors OutboxModel Runner MigrationModel Migration CallLog.

Section order.
Context {A W : Type} `{MigrationRecorder W} `{EvidenceSink W}.
Context (hooks : migration_hooks A W) (lock_duration : timedelta).

Inductive migration_call : Type :=
| History (r : res (list MigrationCheckpoint))
| Inspected (r : res BindingStateEvidence)
| Validated (c : MigrationCondition) (r : res ValidationOutcome)
| Locked (r : res MigrationLock)
| Compiled (r : res (CompiledMigrationPlan A))
| Applied (x : MigrationLock) (s : CompiledMigrationStep A) (r : res AppliedMigrationStep)
| Activated (x : MigrationLock) (generation : string) (r : res ActivationResult)
| Unlocked (x : MigrationLock) (r : res unit)
| Checkpointed (c : MigrationCheckpoint) (r : res unit).
Abbreviation log := (list migration_call).

Definition recorded_migration : migration_hooks A (log * W) :=
  MigrationHooks
    (λ ref, recorded Inspected (inspect_state hooks ref))
    (λ ref owner digest duration, recorded Locked (acquire_lock hooks ref owner digest duration))
    (λ bundle, recorded Compiled (compile hooks bundle))
    (λ x s token, recorded (Applied x s) (apply_step hooks x s token))
    (λ x bundle generation, recorded (Activated x generation) (activate hooks x bundle generation))
    (λ x, recorded (Unlocked x) (release_lock hooks x))
    (λ c, recorded (Validated c) (run_condition hooks c))
    (lift_snd (migration_clock hooks)).

#[local] Instance recorded_recorder : MigrationRecorder (log * W) := {|
  recorder_append c := recorded (Checkpointed c) (recorder_append c);
  recorder_checkpoints id := recorded History (recorder_checkpoints id) |}.
#[local] Instance recorded_migration_sink : EvidenceSink (log * W) := λ e, lift_snd (evidence_record e).

Context (owner : string) (bundle : MigrationBundleV1).

(** ** What may follow a log *)
Definition passed (l : log) (c : MigrationCondition) : Prop :=
  ∃ o, Validated c (Ok o) ∈ l ∧ vo_passed o = true.
Definition all_passed (l : log) (cs : list MigrationCondition) : Prop := ∀ c, c ∈ cs → passed l c.

Definition own_lock (l : log) (x : MigrationLock) : Prop :=
  Locked (Ok x) ∈ l ∧ lock_owner x = owner ∧ lock_digest x = bundle_digest bundle.
Definition inspected (l : log) (generation : string) : Prop :=
  ∃ st, Inspected (Ok st) ∈ l ∧ logical_fingerprint st = source_schema_fingerprint bundle ∧
        active_generation st = generation.
Definition verified_plan (l : log) (plan : CompiledMigrationPlan A) : Prop :=
  Compiled (Ok plan) ∈ l ∧ verify_compiled bundle plan = Ok ().
(** The ids of the steps that the recorder reported as applied: it was asked first. *)
Definition resumed (l : log) (completed : list string) : Prop :=
  ∃ cks l', l = History (Ok cks) :: l' ∧ completed = omap completed_step cks.
Definition checkpointed (l : log) (state : MigrationState) (step : option string) : Prop :=
  ∃ ck, Checkpointed ck (Ok ()) ∈ l ∧ ck_state ck = state ∧ ck_step_id ck = step.
(** A step is done: recorded by an earlier run, or applied and recorded by this one. *)
Definition step_done (l : log) (completed : list string) (s : CompiledMigrationStep A) : Prop :=
  cs_step_id s ∈ completed ∨
  ∃ x a, Applied x s (Ok a) ∈ l ∧ ap_step_id a = cs_step_id s ∧ checkpointed l APPLYING (Some (cs_step_id s)).

Definition permitted_call (l : log) (c : migration_call) : Prop :=
  (∀ x r, Unlocked x r ∉ l) ∧
  match c with
  | Locked _ => (∀ x, Locked (Ok x) ∉ l) ∧ (∃ g, inspected l g) ∧ all_passed l (preconditions bundle)
  | Applied x s _ =>
      own_lock l x ∧ checkpointed l PLANNED None ∧
      ∃ completed plan before after, resumed l completed ∧ verified_plan l plan ∧
        plan_steps plan = before ++ s :: after ∧
        (∀ s', s' ∈ before → step_done l completed s') ∧ cs_step_id s ∉ completed
  | Activated x g _ =>
      own_lock l x ∧ inspected l g ∧ all_passed l (preconditions bundle ++ validations bundle) ∧
      checkpointed l ACTIVATING None ∧
      ∃ completed plan, resumed l completed ∧ verified_plan l plan ∧
        ∀ s, s ∈ plan_steps plan → step_done l completed s
  | Checkpointed ck _ =>
      ck_state ck = MIGRATED → all_passed l (all_conditions bundle) ∧
      ∃ x g a, Activated x g (Ok a) ∈ l ∧ ar_target_fingerprint a = target_schema_fingerprint bundle
  | Unlocked x _ => Locked (Ok x) ∈ l
  | _ => True
  end.

(** The release ends the log; locking is no ordinary call either. *)
Definition releases (c : migration_call) : bool := match c with Unlocked _ _ => true | _ => false end.
Definition quiet (c : migration_call) : bool :=
  match c with Locked _ | Unlocked _ _ => false | _ => true end.
Lemma quiet_releases c : quiet c = true → releases c = false.
Proof. by destruct c. Qed.

Abbreviation fine := (open_log permitted_call releases).
Abbreviation triple := (CallLog.triple permitted_call releases quiet).
Definition no_matter {B} (_ : B) (_ : log) : Prop := True.

Lemma fine_unlocked l x r : fine l → Unlocked x r ∉ l.
Proof. intros Hf. by apply (open_not_in permitted_call releases l). Qed.

Lemma call_triple {B} l (ev : res B → migration_call) (m : M W B) (Q : B → log → Prop) :
  (∀ r, (∀ x r', Unlocked x r' ∉ l) → permitted_call l (ev r)) → (∀ r, quiet (ev r) = true) →
  (∀ b, Q b (l ++ [ev (Ok b)])) → triple l (recorded ev m) Q.
Proof.
  intros Hp Hq HQ. apply triple_recorded; [exact quiet_releases| |done|done].
  intros r Hf. apply Hp. intros x r'. by apply fine_unlocked.
Qed.

(** ** Monotonicity *)
Lemma passed_prefix l l' c : l `prefix_of` l' → passed l c → passed l' c.
Proof. intros Hp (o & Ho & Hpass). exists o. split; [by eapply in_prefix|done]. Qed.
Lemma all_passed_prefix l l' cs : l `prefix_of` l' → all_passed l cs → all_passed l' cs.
Proof. intros Hp Hall c Hc. eapply passed_prefix; eauto. Qed.
Lemma all_passed_app l cs cs' : all_passed l cs → all_passed l cs' → all_passed l (cs ++ cs').
Proof. intros H1 H2 c [?|?]%elem_of_app; auto. Qed.
Lemma own_lock_prefix l l' x : l `prefix_of` l' → own_lock l x → own_lock l' x.
Proof. intros Hp (Hx & Ho & Hd). split_and!; try done. by eapply in_prefix. Qed.
Lemma inspected_prefix l l' g : l `prefix_of` l' → inspected l g → inspected l' g.
Proof. intros Hp (st & Hst & ?). exists st. split; [by eapply in_prefix|done]. Qed.
Lemma verified_prefix l l' p : l `prefix_of` l' → verified_plan l p → verified_plan l' p.
Proof. intros Hp (Hc & ?). split; [by eapply in_prefix|done]. Qed.
Lemma resumed_prefix l l' cs : l `prefix_of` l' → resumed l cs → resumed l' cs.
Proof. intros [k ->] (cks & l0 & -> & ->). by exists cks, (l0 ++ k). Qed.
Lemma checkpointed_prefix l l' st s : l `prefix_of` l' → checkpointed l st s → checkpointed l' st s.
Proof. intros Hp (ck & Hck & ?). exists ck. split; [by eapply in_prefix|done]. Qed.
Lemma step_done_prefix l l' cs s : l `prefix_of` l' → step_done l cs s → step_done l' cs s.
Proof.
  intros Hp [?|(x & a & Ha & Hid & Hck)]; [by left|right]. exists x, a.
  split_and!; [by eapply in_prefix|done|by eapply checkpointed_prefix].
Qed.
Create HintDb migration.
#[local] Hint Resolve in_snoc grows_prefix in_prefix passed_prefix all_passed_prefix own_lock_prefix inspected_prefix verified_prefix
  resumed_prefix checkpointed_prefix step_done_prefix all_passed_app : migration.

(** ** The pieces of [execute] *)
Abbreviation silent := (CallLog.silent permitted_call releases quiet).

Lemma check_unexpired_triple l x message : triple l (check_unexpired recorded_migration x message) no_matter.
Proof.
  unfold check_unexpired. eapply triple_bind; [by apply triple_silent with (Q := no_matter)|]. intros t l1 _ _.
  eapply triple_bind; [by apply triple_lift with (Q := no_matter)|]. intros now l2 _ _. by apply triple_lift.
Qed.

Lemma evidence_triple l ref state details :
  triple l (migration_evidence recorded_migration ref state details) no_matter.
Proof.
  unfold migration_evidence, record_evidence.
  eapply triple_bind; [by apply triple_silent with (Q := no_matter)|]. intros t l1 _ _.
  eapply triple_bind; [by apply triple_lift with (Q := no_matter)|]. intros ev l2 _ _. by apply triple_silent.
Qed.

Lemma run_conditions_triple l conditions token :
  silent token → triple l (run_conditions recorded_migration conditions token) (λ _ l', all_passed l' conditions).
Proof.
  intros Ht. unfold run_conditions.
  eapply triple_weaken; [apply (triple_for _ _ _ (λ todo (_ : list ValidationOutcome) l', ∃ ran, conditions = ran ++ todo ∧ all_passed l' ran))|].
  - exists []. split; [done|]. intros c Hc. by apply elem_of_nil in Hc.
  - intros c todo outcomes l1 (ran & -> & Hran).
    eapply triple_bind; [by apply raise_if_cancelled_triple|]. intros [] ? _ ->.
    eapply triple_bind; [apply call_triple with (Q := λ o l', Validated c (Ok o) ∈ l')|..].
    + by intros r ?.
    + done.
    + intros o. apply in_snoc.
    + intros o l3 Hg3%grows_prefix Hin. destruct (vo_passed o) eqn:Hpass.
      * apply triple_ret. exists (ran ++ [c]). rewrite <- app_assoc. split; [done|].
        apply all_passed_app; [by eauto with migration|]. intros c' ->%list_elem_of_singleton. by exists o.
      * intros w. by apply wp_raise.
  - intros _ l' _ (ran & Hran & Hall). rewrite app_nil_r in Hran. by subst.
Qed.

Lemma record_checkpoint_triple l run_id state seq step code :
  (state = MIGRATED → all_passed l (all_conditions bundle) ∧
     ∃ x g a, Activated x g (Ok a) ∈ l ∧ ar_target_fingerprint a = target_schema_fingerprint bundle) →
  triple l (record_checkpoint recorded_migration run_id bundle state seq step code)
    (λ _ l', checkpointed l' state (ap_step_id <$> step)).
Proof.
  intros Hst. unfold record_checkpoint.
  eapply triple_bind; [apply triple_silent with (Q := λ _ l', l' = l); done|]. intros t l1 _ ->.
  eapply triple_bind; [apply triple_lift with (Q := λ c l', l' = l ∧ ck_state c = state ∧ ck_step_id c = ap_step_id <$> step)|].
  - intros c Hc. split; [done|]. unfold make_migration_checkpoint in Hc. by simplify_res.
  - intros c l2 _ (-> & Hcs & Hci). apply call_triple; [|done|].
    + intros r Hno. split; [done|]. cbn. by rewrite Hcs.
    + intros []. exists c. split; [apply in_snoc|done].
Qed.

(** ** Triples with the variables of [execute] *)
Definition held (loc : locals) (l : log) : Prop := ∀ x, Locked (Ok x) ∈ l ↔ lock loc = Some x.
Definition grows_holding (loc : locals) (l : log) (loc' : locals) (l' : log) : Prop :=
  l `prefix_of` l' ∧ (fine l → held loc l → fine l' ∧ held loc' l').
Definition triple2 {B} (loc : locals) (l : log) (m : M (locals * (log * W)) B) (Q : B → locals → log → Prop) : Prop :=
  ∀ w, wp m (λ r s, grows_holding loc l s.1 s.2.1 ∧ ∀ b, r = Ok b → Q b s.1 s.2.1) (loc, (l, w)).

Lemma grows_holding_refl loc l : grows_holding loc l loc l.
Proof. by split. Qed.
Lemma grows_holding_trans loc1 l1 loc2 l2 loc3 l3 :
  grows_holding loc1 l1 loc2 l2 → grows_holding loc2 l2 loc3 l3 → grows_holding loc1 l1 loc3 l3.
Proof. intros [Hp Hf] [Hp' Hf']. split; [by etrans|]. intros Hfine Hheld. destruct (Hf Hfine Hheld). auto. Qed.
Lemma grows_holding_prefix loc l loc' l' : grows_holding loc l loc' l' → l `prefix_of` l'.
Proof. by intros [? _]. Qed.
#[local] Hint Resolve grows_holding_prefix : migration.

Lemma triple2_bind {B C} loc l (m : M (locals * (log * W)) B) (k : B → M (locals * (log * W)) C) Q R :
  triple2 loc l m Q → (∀ b loc' l', l `prefix_of` l' → Q b loc' l' → triple2 loc' l' (k b) R) →
  triple2 loc l (bind m k) R.
Proof.
  intros Hm Hk w. apply wp_bind. eapply wp_mono; [apply Hm|]. intros [b|e] [loc' [l' w']] [Hg HQ]; cbn in *.
  - eapply wp_mono; [apply (Hk b loc' l' (grows_holding_prefix _ _ _ _ Hg)), HQ; reflexivity|].
    intros r [loc2 [l2 w2]] [Hg2 HR]; cbn in *. split; [by eapply grows_holding_trans|done].
  - split; [done|]. by intros b [=].
Qed.

Lemma triple2_ret {B} loc l (b : B) (Q : B → locals → log → Prop) : Q b loc l → triple2 loc l (ret b) Q.
Proof. intros HQ w. apply wp_ret. split; [apply grows_holding_refl|]. by intros b' [= <-]. Qed.
Lemma triple2_pure {B} loc l (r : res B) (Q : B → locals → log → Prop) :
  (∀ b, r = Ok b → Q b loc l) → triple2 loc l (lift_res r) Q.
Proof. intros HQ w. apply wp_lift_res. split; [apply grows_holding_refl|done]. Qed.
Lemma triple2_get loc l (Q : locals → locals → log → Prop) : Q loc loc l → triple2 loc l get_locals Q.
Proof. intros HQ w. split; [apply grows_holding_refl|]. by intros b' [= <-]. Qed.
Lemma triple2_set loc l f (Q : unit → locals → log → Prop) :
  lock (f loc) = lock loc → Q () (f loc) l → triple2 loc l (set_locals f) Q.
Proof.
  intros Hlock HQ w. apply wp_set_locals. split; [|by intros [] _]. split; [done|]. intros Hfine Hheld.
  split; [done|]. intros x. cbn. by rewrite Hlock.
Qed.
Lemma triple2_lift {B} loc l (m : M (log * W) B) (Q : B → log → Prop) (R : B → locals → log → Prop) :
  triple l m Q → (∀ b l', l `prefix_of` l' → Q b l' → R b loc l') → triple2 loc l (lift_snd m) R.
Proof.
  intros Hm HR w. apply wp_lift_snd_run. eapply wp_mono; [apply Hm|]. intros r [l' w'] [Hg HQ]; cbn in *.
  pose proof (grows_prefix _ _ _ _ _ Hg) as Hp. split; [|by auto]. split; [done|]. intros Hfine Hheld.
  split; [by eapply grows_open|]. intros x. rewrite <- (Hheld x). split; [by eapply grows_in|by eapply in_prefix].
Qed.
Lemma triple2_for {X S} (I : list X → S → locals → log → Prop) (xs : list X) (s : S)
    (body : S → X → M (locals * (log * W)) S) loc l :
  I xs s loc l →
  (∀ x xs s loc l, I (x :: xs) s loc l → triple2 loc l (body s x) (I xs)) →
  triple2 loc l (for_list xs s body) (I []).
Proof.
  intros HI Hbody. revert s loc l HI. induction xs as [|x xs IH]; intros s loc l HI; cbn.
  - by apply triple2_ret.
  - eapply triple2_bind; [by apply Hbody|]. intros s' loc' l' _ HI'. by apply IH.
Qed.
Lemma triple2_weaken {B} loc l (m : M (locals * (log * W)) B) (Q Q' : B → locals → log → Prop) :
  triple2 loc l m Q → (∀ b loc' l', l `prefix_of` l' → Q b loc' l' → Q' b loc' l') → triple2 loc l m Q'.
Proof.
  intros Hm HQ w. eapply wp_mono; [apply Hm|]. intros r s [Hg Hr]. split; [done|].
  intros b Hb. eapply HQ; eauto with migration.
Qed.

Lemma triple2_call {B C} loc l (m : M (log * W) B) (P : B → log → Prop) (k : B → M (locals * (log * W)) C) Q :
  triple l m P → (∀ b l', l `prefix_of` l' → P b l' → triple2 loc l' (k b) Q) →
  triple2 loc l (bind (lift_snd m) k) Q.
Proof.
  intros Hm Hk. eapply triple2_bind.
  - apply (triple2_lift loc l m P (λ b loc' l', loc' = loc ∧ P b l')); [done|]. by intros.
  - intros b loc' l' Hp [-> HP]. by apply Hk.
Qed.
Lemma triple2_check {B C} loc l (r : res B) (k : B → M (locals * (log * W)) C) Q :
  (∀ b, r = Ok b → triple2 loc l (k b) Q) → triple2 loc l (bind (lift_res r) k) Q.
Proof.
  intros Hk. eapply triple2_bind.
  - apply (triple2_pure loc l r (λ b loc' l', loc' = loc ∧ l' = l ∧ r = Ok b)). by intros.
  - intros b loc' l' _ (-> & -> & Hr). by apply Hk.
Qed.
Lemma triple2_update {B} loc l f (k : unit → M (locals * (log * W)) B) Q :
  lock (f loc) = lock loc → triple2 (f loc) l (k ()) Q → triple2 loc l (bind (set_locals f) k) Q.
Proof.
  intros Hf Hk. eapply triple2_bind.
  - by apply (triple2_set loc l f (λ _ loc' l', loc' = f loc ∧ l' = l)).
  - by intros [] loc' l' _ [-> ->].
Qed.

Lemma stage_triple loc l run_id state step :
  state ≠ MIGRATED →
  triple2 loc l (stage recorded_migration run_id bundle state step)
    (λ _ _ l', checkpointed l' state (ap_step_id <$> step)).
Proof.
  intros Hst. unfold stage. eapply triple2_bind; [by apply triple2_get with (Q := λ b loc' l', b = loc ∧ loc' = loc ∧ l' = l)|].
  intros ? ? ? _ (-> & -> & ->).
  eapply triple2_bind; [eapply triple2_lift with (R := λ _ _ l', checkpointed l' state (ap_step_id <$> step));
    [by apply record_checkpoint_triple|done]|].
  intros [] loc' l' _ Hck. by apply triple2_set.
Qed.

(** What [prepare] establishes. *)
Record prepared (l : log) (g : string) (x : MigrationLock) (plan : CompiledMigrationPlan A) : Prop := {
  pr_lock : own_lock l x;
  pr_state : inspected l g;
  pr_pre : all_passed l (preconditions bundle);
  pr_plan : verified_plan l plan;
  pr_planned : checkpointed l PLANNED None;
}.
Lemma prepared_prefix l l' g x plan : l `prefix_of` l' → prepared l g x plan → prepared l' g x plan.
Proof. intros Hp []. split; eauto with migration. Qed.
#[local] Hint Resolve prepared_prefix : migration.

Lemma acquire_triple {B} loc l ref :
  lock loc = None → (∃ g, inspected l g) → all_passed l (preconditions bundle) →
  ∀ (k : MigrationLock → M (locals * (log * W)) B) Q, (∀ x l', l `prefix_of` l' → Locked (Ok x) ∈ l' → triple2 (set_lock x loc) l' (k x) Q) →
  triple2 loc l (bind (lift_snd (acquire_lock recorded_migration ref owner (bundle_digest bundle) lock_duration))
    (λ x, bind (set_locals (set_lock x)) (λ _, k x))) Q.
Proof.
  intros Hnone Hg Hpre k Q Hk w. apply wp_bind, wp_lift_snd_run, wp_recorded. intros r w1.
  assert (fine l → held loc l → fine (l ++ [Locked r])) as Hfine.
  { intros Hf Hheld. apply open_snoc; [done| |done]. split; [intros x r'; by apply fine_unlocked|].
    split; [|done]. intros x Hx%Hheld. congruence. }
  destruct r as [x|e].
  - apply wp_bind, wp_set_locals. eapply wp_mono; [apply Hk; auto with migration; by eexists|].
    intros r [loc' [l' w']] [[Hp Hf] HQ]. split; [|done]. split; [etrans; [by eexists|done]|].
    intros Hf0 Hheld. apply Hf; [by apply Hfine|]. intros y. cbn. rewrite elem_of_app, list_elem_of_singleton. split.
    + intros [Hy%Hheld|[= ->]]; [congruence|done].
    + intros [= ->]. by right.
  - split; [|by intros b [=]]. split; [by eexists|]. intros Hf0 Hheld. split; [by apply Hfine|].
    intros y. cbn. rewrite elem_of_app, list_elem_of_singleton, <- (Hheld y). split; [|by left].
    by intros [?|[=]].
Qed.

Lemma prepare_triple loc l ref run_id token :
  silent token → lock loc = None →
  triple2 loc l (prepare recorded_migration lock_duration ref owner run_id bundle token)
    (λ '(g, x, plan) _ l', prepared l' g x plan).
Proof.
  intros Ht Hnone. unfold prepare.
  eapply triple2_call; [by apply raise_if_cancelled_triple|]. intros [] l1 _ _.
  eapply triple2_call; [apply (call_triple _ _ _ (λ st l', Inspected (Ok st) ∈ l')); auto with migration;
    by intros r ?|]. intros st l2 _ Hst.
  apply triple2_check. intros [] Hfp%raise_if_ok. simplify_bool.
  assert (inspected l2 (active_generation st)) as Hins by (by exists st).
  eapply triple2_call; [by apply run_conditions_triple|]. intros outcomes l3 Hp3 Hpre. cbn in Hpre.
  apply triple2_update; [done|].
  apply acquire_triple; [done|eauto with migration|done|]. intros x l4 Hp4 Hx.
  apply triple2_check. intros [] Hown%raise_if_ok. apply orb_false_iff in Hown as [Ho Hd]. simplify_bool.
  eapply triple2_call; [apply check_unexpired_triple|]. intros [] l5 Hp5 _.
  eapply triple2_call; [apply (call_triple _ _ _ (λ plan l', Compiled (Ok plan) ∈ l')); auto with migration;
    by intros r ?|]. intros plan l6 Hp6 Hplan.
  apply triple2_check. intros [] Hver.
  eapply triple2_bind; [by apply stage_triple|]. intros [] loc7 l7 Hp7 Hck.
  eapply triple2_call; [apply evidence_triple|]. intros [] l8 Hp8 _.
  apply triple2_ret. assert (l4 `prefix_of` l8) by (by repeat (etrans; [eassumption|])).
  assert (l3 `prefix_of` l8) by (by etrans). assert (l6 `prefix_of` l8) by (by etrans).
  split.
  - split; [by eapply (in_prefix l4)|done].
  - eapply (inspected_prefix l2); [by etrans|done].
  - by eapply (all_passed_prefix l3).
  - split; [by eapply (in_prefix l6)|done].
  - by apply (checkpointed_prefix l7).
Qed.

Lemma apply_steps_triple loc l run_id token completed g x plan :
  silent token → resumed l completed → prepared l g x plan →
  triple2 loc l (apply_steps recorded_migration run_id bundle token completed x plan)
    (λ _ _ l', ∀ s, s ∈ plan_steps plan → step_done l' completed s).
Proof.
  intros Ht Hres Hprep. unfold apply_steps.
  eapply triple2_weaken; [eapply (triple2_for (λ todo (_ : unit) _ l', l `prefix_of` l' ∧
    ∃ before, plan_steps plan = before ++ todo ∧ ∀ s, s ∈ before → step_done l' completed s))|].
  - split; [done|]. exists []. split; [done|]. intros s Hs. by apply elem_of_nil in Hs.
  - intros s todo [] loc1 l1 [Hp1 (before & Hsteps & Hdone)].
    eapply triple2_call; [by apply raise_if_cancelled_triple|]. intros [] l2 Hp2 _.
    eapply triple2_call; [apply check_unexpired_triple|]. intros [] l3 Hp3 _.
    assert (l `prefix_of` l3) as Hp by (by repeat (etrans; [eassumption|])).
    assert (∀ s', s' ∈ before → step_done l3 completed s') as Hdone3.
    { intros s' Hs'. eapply (step_done_prefix l1); [by etrans|auto]. }
    destruct (bool_decide (cs_step_id s ∈ completed)) eqn:Hcs; simplify_bool.
    + apply triple2_ret. split; [done|]. exists (before ++ [s]). rewrite <- app_assoc. split; [done|].
      intros s'. rewrite elem_of_app, list_elem_of_singleton. intros [?| ->]; [by apply Hdone3|by left].
    + eapply triple2_call; [apply (call_triple _ _ _ (λ a l', Applied x s (Ok a) ∈ l')); auto with migration|].
      { intros r ?. split; [done|]. pose proof (prepared_prefix _ _ _ _ _ Hp Hprep) as [].
        split; [done|]. split; [done|]. exists completed, plan, before, todo.
        split_and!; try done. by apply (resumed_prefix l). }
      intros a l4 Hp4 Ha. apply triple2_check. intros [] Hid%raise_if_ok. simplify_bool.
      eapply triple2_weaken; [by apply stage_triple|]. intros [] loc5 l5 Hp5 Hck. cbn in Hck.
      split; [by repeat (etrans; [eassumption|])|]. exists (before ++ [s]). rewrite <- app_assoc. split; [done|].
      intros s'. rewrite elem_of_app, list_elem_of_singleton. intros [Hs'| ->].
      * eapply (step_done_prefix l3); [by etrans|auto].
      * right. exists x, a. split; [by apply (in_prefix l4)|]. split; [done|]. by rewrite Hid in Hck.
  - intros [] loc' l' _ [_ (before & Hsteps & Hdone)]. rewrite app_nil_r in Hsteps. by rewrite Hsteps.
Qed.

Lemma cut_over_triple loc l run_id token completed g x plan :
  silent token → resumed l completed → prepared l g x plan →
  (∀ s, s ∈ plan_steps plan → step_done l completed s) →
  triple2 loc l (cut_over recorded_migration run_id g bundle token x)
    (λ a _ l', all_passed l' (all_conditions bundle) ∧ Activated x g (Ok a) ∈ l' ∧
       ar_target_fingerprint a = target_schema_fingerprint bundle).
Proof.
  intros Ht Hres Hprep Hdone. unfold cut_over.
  eapply triple2_bind; [by apply stage_triple|]. intros [] loc1 l1 Hp1 _.
  eapply triple2_call; [by apply run_conditions_triple|]. intros outcomes l2 Hp2 Hval. cbn in Hval.
  apply triple2_update; [done|].
  eapply triple2_bind; [by apply stage_triple|]. intros [] loc3 l3 Hp3 Hck. cbn in Hck.
  eapply triple2_call; [by apply raise_if_cancelled_triple|]. intros [] l4 Hp4 _.
  eapply triple2_call; [apply check_unexpired_triple|]. intros [] l5 Hp5 _.
  assert (l2 `prefix_of` l5) as Hp25 by (by repeat (etrans; [eassumption|])).
  assert (l `prefix_of` l5) as Hp05 by (etrans; [eassumption|]; by etrans).
  pose proof (prepared_prefix _ _ _ _ _ Hp05 Hprep) as [Hlock Hins Hpre Hplan _].
  pose proof (all_passed_prefix _ _ _ Hp25 Hval) as Hval5.
  eapply triple2_call; [apply (call_triple _ _ _ (λ a l', Activated x g (Ok a) ∈ l')); auto with migration|].
  { intros r ?. split; [done|]. split_and!; [done|done|by apply all_passed_app|..].
    - apply (checkpointed_prefix l3); [by etrans|done].
    - exists completed, plan. split; [eauto with migration|]. split; [done|]. eauto with migration. }
  intros a l6 Hp6 Ha. apply triple2_check. intros [] Htarget%raise_if_ok. simplify_bool.
  eapply triple2_call; [apply run_conditions_triple, silent_never|]. intros outcomes' l7 Hp7 Hpost. cbn in Hpost.
  apply triple2_update; [done|]. apply triple2_ret. split; [|split; [by eapply in_prefix|done]].
  assert (l5 `prefix_of` l7) by (by etrans).
  unfold all_conditions. apply all_passed_app; [|apply all_passed_app]; [by apply (all_passed_prefix l5)..|done].
Qed.

Lemma finish_triple loc l ref run_id x g a :
  all_passed l (all_conditions bundle) → Activated x g (Ok a) ∈ l →
  ar_target_fingerprint a = target_schema_fingerprint bundle →
  triple2 loc l (finish recorded_migration ref run_id bundle a) (λ _ _ _, True).
Proof.
  intros Hall Ha Htarget. unfold finish.
  eapply triple2_bind; [by apply triple2_get with (Q := λ b loc' l', l' = l)|]. intros loc0 loc1 ? _ ->.
  eapply triple2_call; [by apply triple_silent with (Q := λ _ l', l' = l)|]. intros now ? _ ->.
  apply triple2_check. intros cutover _.
  eapply triple2_call; [apply record_checkpoint_triple|].
  { intros _. split; [done|]. by exists x, g, a. }
  intros [] l2 _ _. eapply triple2_call; [apply evidence_triple|]. intros [] l3 _ _.
  eapply triple2_call; [apply (call_triple _ _ _ (λ _ _, True)); [by intros r ?|done..]|].
  intros cks l4 _ _. by apply triple2_ret.
Qed.

Lemma migrate_triple loc l ref run_id token completed :
  silent token → lock loc = None → resumed l completed →
  triple2 loc l (migrate recorded_migration lock_duration ref owner run_id bundle token completed) (λ _ _ _, True).
Proof.
  intros Ht Hnone Hres. unfold migrate.
  eapply triple2_bind; [by apply prepare_triple|]. intros [[g x] plan] loc1 l1 Hp1 Hprep. cbn in Hprep.
  eapply triple2_bind; [apply (apply_steps_triple _ _ _ _ completed g); eauto with migration|].
  intros [] loc2 l2 Hp2 Hdone. cbn in Hdone.
  eapply triple2_bind; [apply (cut_over_triple _ _ _ _ completed g x plan); [done| |by eapply prepared_prefix|done]|].
  { eapply resumed_prefix; [|done]. by etrans. }
  intros a loc3 l3 _ (Hall & Ha & Htarget). by eapply finish_triple.
Qed.

Lemma record_failed_triple loc l ref run_id error :
  triple2 loc l (record_failed recorded_migration ref run_id bundle error) (λ _ _ _, True).
Proof.
  unfold record_failed.
  eapply triple2_bind; [by apply triple2_get with (Q := λ b loc' l', True)|]. intros loc0 loc1 l1 _ _.
  eapply triple2_call; [by apply record_checkpoint_triple|]. intros [] l2 _ _.
  eapply triple2_call; [apply evidence_triple|]. intros [] l3 _ _.
  intros w. apply wp_raise. split; [apply grows_holding_refl|done].
Qed.

(** What the log of a finished execution looks like. *)
Definition closed (l : log) : Prop :=
  (ordered permitted_call) l ∧ ∀ x, Locked (Ok x) ∈ l → ∃ l0 r, l = l0 ++ [Unlocked x r].

Lemma unlock_closes loc l w :
  fine l → held loc l → wp (unlock recorded_migration) (λ _ s, closed s.2.1) (loc, (l, w)).
Proof.
  intros Hf Hheld. unfold unlock. apply wp_bind, wp_get_locals. cbn.
  destruct (lock loc) as [x|] eqn:Hx.
  - apply wp_lift_snd_run, wp_recorded. intros r w'. cbn. split.
    + apply ordered_snoc; [apply Hf|]. split; [intros y r'; by apply fine_unlocked|]. by apply Hheld.
    + intros y. rewrite elem_of_app, list_elem_of_singleton. intros [Hy%Hheld|[=]].
      rewrite Hx in Hy. injection Hy as <-. by exists l, r.
  - apply wp_ret. split; [apply Hf|]. intros y Hy%Hheld. congruence.
Qed.

(** Whatever the outcome [r] of the body and its handler, the [finally] clause
    closes the log. *)
Lemma finally_closes {B} (r : res B) loc l w :
  fine l → held loc l →
  wp (unlock recorded_migration) (λ r' s, match r' with
    | Ok _ => match r with Ok a => closed s.2.1 | Raise e => closed s.2.1 end
    | Raise _ => closed s.2.1
    end) (loc, (l, w)).
Proof. intros Hf Hh. eapply wp_mono; [by apply unlock_closes|]. intros [[]|] s Hc; by destruct r. Qed.

Lemma guarded_closes ref run_id token completed n l w :
  silent token → resumed l completed → fine l → held (Locals n None []) l →
  wp (with_locals (Locals n None [])
       (try_finally
         (try_except (migrate recorded_migration lock_duration ref owner run_id bundle token completed) is_exception
            (record_failed recorded_migration ref run_id bundle))
         (unlock recorded_migration))) (λ _ lw, closed lw.1) (l, w).
Proof.
  intros Ht Hres Hfine Hheld. apply wp_with_locals, wp_try_finally, wp_try_except.
  eapply wp_mono; [by apply (migrate_triple _ _ _ _ _ completed)|].
  intros r [loc1 [l1 w1]] [[_ Hgrow] _]. destruct (Hgrow Hfine Hheld) as [Hfine1 Hheld1]. cbn in Hfine1, Hheld1.
  destruct r as [report|e].
  - eapply wp_mono; [by apply (finally_closes (Ok report))|]. by intros [[]|] [loc' [l' w']] Hc.
  - destruct (is_exception e).
    + eapply wp_mono; [apply record_failed_triple|]. intros r [loc2 [l2 w3]] [[_ Hgrow2] _].
      destruct (Hgrow2 Hfine1 Hheld1) as [Hf Hh]. cbn in Hf, Hh.
      eapply wp_mono; [by apply (finally_closes r)|]. intros [[]|] [loc' [l' w']] Hc; by destruct r.
    + eapply wp_mono; [by apply (finally_closes (B := MigrationReport) (Raise e))|]. by intros [[]|] [loc' [l' w']] Hc.
Qed.

(** C4: whatever the adapter, the validations, the recorder, the sink, the clock
    and the token do or raise, the calls of an execution come in order: the lock
    is acquired once, after the logical fingerprint matched and every
    precondition passed; steps are applied in the order of the verified plan,
    under that lock, after the PLANNED checkpoint, each after all steps before
    it are applied and recorded, and never when an earlier run recorded it;
    activation comes after every step is done, every validation passed and the
    ACTIVATING checkpoint; COMPLETED is recorded only after an activation of the
    target fingerprint and all postconditions; and when the lock was acquired,
    its release is the last call, and the only one, however the execution
    ends. *)
Theorem migration_ordered ref cancellation execution_id uuid w :
  closed (execute_migration recorded_migration lock_duration ref bundle owner (lift_snd <$> cancellation)
            execution_id uuid ([], w)).2.1.
Proof.
  assert (closed []) as Hnil by (split; [constructor|]; intros x Hx; by apply elem_of_nil in Hx).
  cut (wp (execute_migration recorded_migration lock_duration ref bundle owner (lift_snd <$> cancellation)
    execution_id uuid) (λ _ lw, closed lw.1) ([], w)).
  { intros Hwp. apply wp_run in Hwp as (r & [l w'] & -> & Hl). exact Hl. }
  unfold execute_migration. apply wp_bind, wp_lift_res. destruct (raise_if _ _) as [[]|]; [|done].
  apply wp_bind, wp_lift_res. destruct (raise_if _ _) as [[]|]; [|done].
  apply wp_bind, wp_recorded. intros r w1. cbn [app].
  assert (fine [History r]) as Hfine.
  { apply (open_snoc _ _ []); [by split; [constructor|]| |done]. split; [|done]. intros x r' Hx. by apply elem_of_nil in Hx. }
  assert (∀ n, held (Locals n None []) [History r]) as Hheld.
  { intros n x. rewrite list_elem_of_singleton. split; by intros [=]. }
  assert (closed [History r]) as Hclosed.
  { split; [apply Hfine|]. intros x. rewrite list_elem_of_singleton. by intros [=]. }
  destruct r as [cks|]; [|done].
  apply wp_bind, wp_lift_res. destruct (raise_if _ _) as [[]|]; [|done].
  apply wp_bind, wp_lift_res. destruct (raise_if _ _) as [[]|]; [|done].
  apply wp_bind. eapply wp_mono; [apply guarded_closes; [apply silent_default|by exists cks, []|done|done]|].
  intros [[report loc]|e] lw Hc; [by apply wp_ret|done].
Qed.
End order.
