(* ===== verification/MigrationRun.v ===== *)
(** * Migrations that run to their end

    Bundles and plans as constructed, the planner's rules, and the executor over
    the in-memory recorder: a run whose collaborators answer completes, from any
    recorded history, applying exactly the steps that are not recorded, once and
    in order, between one lock and its release. *)
From S2P Require Import Prelude PyTime Sha256 Canonical Errors OutboxModel Runner MigrationModel Migration MigrationOrder.

(** ** Bundles *)
Record bundle_ok (b : MigrationBundleV1) : Prop := {
  bo_format : bundle_format b = MIGRATION_FORMAT_VERSION;
  bo_fingerprints : is_sha256 (source_schema_fingerprint b) = true ∧ is_sha256 (target_schema_fingerprint b) = true;
  bo_id : bundle_id b ≠ ""%string;
  bo_steps : steps b ≠ [] ∧ NoDup (map st_step_id (steps b));
  bo_conditions : NoDup (map mc_name (all_conditions b));
  bo_requirements : bad_requirements (compiler_requirements b) = false;
  bo_digest : bundle_digest b = sha256_digest (JObj (bundle_material b));
}.

Lemma require_digests_ok l : require_digests l = Ok () → Forall (λ e, is_sha256 e.2 = true) l.
Proof.
  induction l as [|[name v] l IH]; cbn; [done|]. intros H. apply res_bind_ok in H as (x & Hx & Hl).
  apply require_sha256_ok in Hx as [Hx _]. constructor; auto.
Qed.

Lemma set_bundle_digest_material b h : bundle_material (set_bundle_digest b h) = bundle_material b.
Proof. done. Qed.

(** A bundle that was constructed has the format version, SHA-256 Schema
    fingerprints, an id, distinct steps (at least one), distinct condition
    names, distinct compiler requirements and the digest of its own canonical
    content; a caller's digest was empty or that digest; and constructing it
    again from what is stored gives the same bundle. *)
Theorem make_bundle_ok b b' :
  make_bundle b = Ok b' →
  bundle_ok b' ∧ bundle_material b' = bundle_material b ∧
  (bundle_digest b = "" ∨ bundle_digest b = bundle_digest b')%string ∧ make_bundle b' = Ok b'.
Proof.
  unfold make_bundle. intros Hb.
  apply res_bind_ok in Hb as ([] & Hformat & Hb). apply res_bind_ok in Hb as ([] & Hprints & Hb).
  apply res_bind_ok in Hb as ([] & Hid & Hb). apply res_bind_ok in Hb as ([] & Hsteps & Hb).
  apply res_bind_ok in Hb as ([] & Hconds & Hb). apply res_bind_ok in Hb as ([] & Hreqs & Hb).
  apply res_bind_ok in Hb as ([] & Hdigest & Hb). injection Hb as <-.
  split_and!; [|done| |].
  - apply require_digests_ok in Hprints. rewrite !Forall_cons in Hprints.
    apply raise_if_ok in Hformat, Hid, Hsteps, Hconds, Hreqs. unfold unique in *. simplify_bool.
    split; cbn; try done; try tauto; [by apply nonempty_spec|]. split; [|done]. by destruct (steps b).
  - apply raise_if_ok, supplied_matches in Hdigest. done.
  - do 6 (eapply res_bind_intro; [eassumption|]). eapply res_bind_intro; [|reflexivity].
    apply raise_if_intro, supplied_matches. by right.
Qed.

(** ** The planner *)

(** C36: the planner's verdict, on every branch: a breaking change without a
    transform-record step, or without preconditions or validations, a
    conditional one without compiler requirements, and a migration that does not
    activate the target Schema are rejected as incompatible; every other bundle
    is exactly what the constructor makes of the caller's parts and the two
    Schema fingerprints. *)
Theorem create_bundle_exactly `{SchemaSemantics} source target b :
  let verdict := classification (classify source target) in
  let has k := k ∈ map st_kind (steps b) in
  let ok := (verdict = BREAKING → has TRANSFORM_RECORD ∧ preconditions b ≠ [] ∧ validations b ≠ []) ∧
            (verdict = CONDITIONAL → compiler_requirements b ≠ []) ∧ has ACTIVATE_SCHEMA_VERSION in
  (ok → create_bundle source target b = make_bundle
     (MkBundle (schema_fingerprint source) (schema_fingerprint target) (steps b) (preconditions b)
        (validations b) (postconditions b) (compiler_requirements b) (estimated_lock_class b) (reversibility b)
        (bundle_id b) "" MIGRATION_FORMAT_VERSION)) ∧
  (¬ ok → ∃ message, create_bundle source target b = Raise (IncompatibleMigration message)).
Proof.
  intros verdict has ok. unfold create_bundle, has_kind. fold verdict.
  assert (∀ k, bool_decide (k ∈ map st_kind (steps b)) = true ↔ has k) as Hhas by (intros; apply bool_decide_eq_true).
  assert (∀ X (l : list X), is_nil l = true ↔ l = []) as Hnil by (by intros X []).
  pose proof (Hhas TRANSFORM_RECORD). pose proof (Hhas ACTIVATE_SCHEMA_VERSION).
  pose proof (Hnil _ (preconditions b)). pose proof (Hnil _ (validations b)). pose proof (Hnil _ (compiler_requirements b)).
  clear Hhas Hnil.
  destruct (bool_decide (TRANSFORM_RECORD ∈ _)), (bool_decide (ACTIVATE_SCHEMA_VERSION ∈ _)),
    (is_nil (preconditions b)), (is_nil (validations b)), (is_nil (compiler_requirements b)),
    verdict eqn:Hv; cbn; split; intros Hok; subst ok; try done; try (by eexists); exfalso; intuition discriminate.
Qed.

(** ** The executor over the in-memory recorder *)
Section run.
Context {A X : Type} (sink : EvidenceSink X) (inner : migration_hooks A X) (lock_duration : timedelta).
Abbreviation W := (recorder_state * X)%type.

(** The recorder beside collaborators that do not touch it. *)
#[export] Instance recorder_beside : MigrationRecorder W := {|
  recorder_append c := lift_fst (memory_append c);
  recorder_checkpoints id := lift_fst (memory_checkpoints id) |}.
#[export] Instance sink_beside : EvidenceSink W := λ e, lift_snd (sink e).
Definition migration_beside : migration_hooks A W :=
  MigrationHooks (λ ref, lift_snd (inspect_state inner ref))
    (λ ref owner digest duration, lift_snd (acquire_lock inner ref owner digest duration))
    (λ bundle, lift_snd (compile inner bundle))
    (λ x s token, lift_snd (apply_step inner x s token))
    (λ x bundle generation, lift_snd (activate inner x bundle generation))
    (λ x, lift_snd (release_lock inner x))
    (λ c, lift_snd (run_condition inner c))
    (lift_snd (migration_clock inner)).

Context (ref owner run_id : string) (bundle : MigrationBundleV1) (plan : CompiledMigrationPlan A).

(** Collaborators that answer, for the bundle and the plan at hand; [times] are
    the readings of the clock.  Of the evidence sink nothing is asked for the
    evidence of the completion. *)
Record cooperative (times : instant → Prop) : Prop := {
  co_times t : times t → in_range t = true;
  co_clock : succeeds (migration_clock inner) (λ d, ∃ t, d = at_utc t ∧ times t);
  co_names : ref ≠ ""%string ∧ owner ≠ ""%string ∧ run_id ≠ ""%string;
  co_bundle : bundle_ok bundle;
  co_plan : verify_compiled bundle plan = Ok ();
  co_inspect : succeeds (inspect_state inner ref)
    (λ st, logical_fingerprint st = source_schema_fingerprint bundle);
  co_lock : succeeds (acquire_lock inner ref owner (bundle_digest bundle) lock_duration)
    (λ x, lock_owner x = owner ∧ lock_digest x = bundle_digest bundle ∧ ∀ t, times t → t < lock_expires_at x);
  co_compile : succeeds (compile inner bundle) (λ p, p = plan);
  co_conditions c : succeeds (run_condition inner c) (λ o, vo_passed o = true);
  co_apply x s : succeeds (apply_step inner x s None)
    (λ a, ap_step_id a = cs_step_id s ∧ is_sha256 (ap_fingerprint a) = true);
  co_activate x g : succeeds (activate inner x bundle g)
    (λ a, ar_target_fingerprint a = target_schema_fingerprint bundle ∧ ar_source_boundary a ≠ ""%string ∧
          ar_previous_generation a ≠ ""%string ∧ ar_active_generation a ≠ ""%string);
  co_release x : succeeds (release_lock inner x) (λ _, True);
  co_sink e : ev_state e ≠ "COMPLETED"%string → succeeds (sink e) (λ _, True);
}.

Context (times : instant → Prop) (Hco : cooperative times).

(** ** The calls of the run

    [did k x]: in the world [x] the collaborators have been called as the log [k]
    says; every call adds its event, the clock and the sink add nothing. *)
Abbreviation calls := (list (migration_call (A := A))).
Definition makes {B} (did : calls → X → Prop) (m : M X B) (ev : res B → calls) : Prop :=
  ∀ k x r x', m x = (r, x') → did k x → did (k ++ ev r) x'.
Record tracked (did : calls → X → Prop) : Prop := {
  tr_clock : makes did (migration_clock inner) (λ _, []);
  tr_sink e : makes did (sink e) (λ _, []);
  tr_inspect : makes did (inspect_state inner ref) (λ r, [Inspected r]);
  tr_lock : makes did (acquire_lock inner ref owner (bundle_digest bundle) lock_duration) (λ r, [Locked r]);
  tr_compile : makes did (compile inner bundle) (λ r, [Compiled r]);
  tr_condition c : makes did (run_condition inner c) (λ r, [Validated c r]);
  tr_apply y c : makes did (apply_step inner y c None) (λ r, [Applied y c r]);
  tr_activate y g : makes did (activate inner y bundle g) (λ r, [Activated y g r]);
  tr_release y : makes did (release_lock inner y) (λ r, [Unlocked y r]);
}.

(** The calls that run conditions, all of which pass, and that apply steps. *)
Definition conditions_ran (conditions : list MigrationCondition) (k : calls) : Prop :=
  Forall2 (λ c e, ∃ o, vo_passed o = true ∧ e = Validated c (Ok o)) conditions k.
Definition steps_applied (y : MigrationLock) (todo : list (CompiledMigrationStep A)) (k : calls) : Prop :=
  Forall2 (λ c e, ∃ a, ap_step_id a = cs_step_id c ∧ e = Applied y c (Ok a)) todo k.

Context (did : calls → X → Prop) (Htr : tracked did).

(** The number of the next checkpoint after [past]. *)
Definition start_of (past : list MigrationCheckpoint) : Z :=
  match last past with Some c => ck_sequence c + 1 | None => 0 end.

(** ** The history of the run

    [advanced past stages l s]: the recorder has [past] and then one checkpoint
    per stage, numbered on from [past]; [l] is about to write the next one. *)
Context (s0 : recorder_state).
Abbreviation history s := (default [] (s !! run_id)).

Definition stage_of (c : MigrationCheckpoint) : MigrationState * option string := (ck_state c, ck_step_id c).
Record advanced (past : list MigrationCheckpoint) (stages : list (MigrationState * option string))
    (l : locals) (s : recorder_state) : Prop := {
  ad_new : ∃ new, history s = past ++ new ∧ map stage_of new = stages ∧
    map ck_sequence new = seqZ (start_of past) (Z.of_nat (length stages)) ∧
    Forall (λ c, ck_execution_id c = run_id ∧ ck_bundle_digest c = bundle_digest bundle ∧ ck_failure_code c = None) new;
  ad_last : ∀ c, last (history s) = Some c → ck_sequence c < sequence l;
  ad_sequence : 0 ≤ sequence l;
  ad_start : sequence l = start_of past + Z.of_nat (length stages);
  ad_others : ∀ id, id ≠ run_id → s !! id = s0 !! id;
}.

Lemma memory_append_ok c s :
  ck_execution_id c = run_id → (∀ c', last (history s) = Some c' → ck_sequence c' < ck_sequence c) →
  memory_append c s = (Ok (), <[run_id := history s ++ [c]]> s).
Proof.
  intros Hid Hlast. unfold memory_append. rewrite Hid. destruct (last (history s)) as [c'|]; [|done].
  by rewrite (proj2 (Z.leb_gt _ _)) by auto.
Qed.

Definition step_ok (step : option AppliedMigrationStep) : Prop :=
  match step with Some a => is_sha256 (ap_fingerprint a) = true | None => True end.

(** A call of a collaborator that answers. *)
Lemma inner_wp {B} (m : M X B) (P : B → Prop) ev (Q : res B → W → Prop) k s x :
  succeeds m P → makes did m ev → did k x →
  (∀ b x', P b → did (k ++ ev (Ok b)) x' → Q (Ok b) (s, x')) → wp (lift_snd m) Q (s, x).
Proof.
  intros Hm Hev Hk HQ. apply wp_lift_snd_run. destruct (Hm x) as (b & x' & Hrun & Hb).
  eapply wp_eq; [exact Hrun|]. apply HQ; [done|]. by eapply Hev.
Qed.

Lemma clock_wp (Q : res datetime → W → Prop) k s x :
  did k x → (∀ t x', times t → did k x' → Q (Ok (at_utc t)) (s, x')) →
  wp (migration_clock migration_beside) Q (s, x).
Proof.
  intros Hk HQ. cbn. eapply inner_wp; [apply (co_clock _ Hco)|apply (tr_clock _ Htr)|exact Hk|].
  cbn beta. intros d x' (t & -> & Ht). rewrite app_nil_r. by apply HQ.
Qed.

Lemma bundle_digest_sha : is_sha256 (bundle_digest bundle) = true.
Proof. rewrite (bo_digest _ (co_bundle _ Hco)). eapply (proj1 (require_sha256_ok _ "bundle_digest" _)), sha256_digest_valid. Qed.

Lemma record_checkpoint_wp past stages k l s x state step :
  advanced past stages l s → step_ok step → did k x →
  wp (record_checkpoint migration_beside run_id bundle state (sequence l) step None)
    (λ r sx, r = Ok () ∧ advanced past (stages ++ [(state, ap_step_id <$> step)]) (bump l) sx.1 ∧ did k sx.2) (s, x).
Proof.
  intros [(new & Hhist & Hst & Hseq & Hall) Hlast Hnn Hstart Hoth] Hstep Hk. unfold record_checkpoint.
  apply wp_bind. apply (clock_wp _ k); [done|]. intros t x1 Ht Hk1. apply wp_bind, wp_lift_res.
  unfold make_migration_checkpoint, require_sha256.
  rewrite (proj2 (nonempty_spec _) (proj2 (proj2 (co_names _ Hco)))).
  assert (nonempty (bundle_digest bundle) = true) as ->.
  { apply nonempty_spec. intros Hempty. pose proof bundle_digest_sha as Hd. by rewrite Hempty in Hd. }
  rewrite (proj2 (Z.ltb_ge _ _)) by lia. cbn [negb orb raise_if res_bind]. rewrite bundle_digest_sha. cbn [res_bind].
  assert ((match ap_fingerprint <$> step with Some f => do? require_sha256 f "result_fingerprint" in Ok () | None => Ok () end)
    = Ok ()) as Hs.
  { destruct step as [a|]; [|done]. cbn in Hstep |- *. unfold require_sha256. by rewrite Hstep. }
  unfold require_sha256 in Hs. rewrite Hs. cbn [res_bind]. rewrite ensure_utc_at_utc by (by apply (co_times _ Hco)).
  cbn [res_bind recorder_append recorder_beside]. apply wp_lift_fst.
  eapply wp_eq; [by apply memory_append_ok|]. split; [done|]. split; [|exact Hk1]. cbn [fst].
  split; cbn [sequence bump]; rewrite ?length_app; cbn [length].
  - rewrite lookup_insert_eq. cbn [from_option id]. eexists (new ++ [_]). rewrite Hhist, app_assoc. split; [done|].
    rewrite !map_app, Hst, Hseq. split; [done|]. split.
    + cbn [map ck_sequence]. rewrite Nat2Z.inj_add, seqZ_app by lia. f_equal.
      rewrite seqZ_cons, seqZ_nil by lia. f_equal. lia.
    + apply Forall_app. split; [done|]. by repeat constructor.
  - rewrite lookup_insert_eq. cbn [from_option id]. rewrite last_snoc. intros c [= <-]. cbn. lia.
  - lia.
  - lia.
  - intros id Hid. rewrite lookup_insert_ne by done. by apply Hoth.
Qed.

Lemma stage_wp past stages k l s x state step :
  advanced past stages l s → step_ok step → did k x →
  wp (stage migration_beside run_id bundle state step)
    (λ r lsx, r = Ok () ∧ lsx.1 = bump l ∧
       advanced past (stages ++ [(state, ap_step_id <$> step)]) lsx.1 lsx.2.1 ∧ did k lsx.2.2) (l, (s, x)).
Proof.
  intros Had Hstep Hk. unfold stage. apply wp_bind, wp_get_locals. cbn [fst].
  apply wp_bind, wp_lift_snd_run. eapply wp_mono; [by apply (record_checkpoint_wp past stages k)|].
  intros r [s1 x1] (-> & Had1 & Hk1). by apply wp_set_locals.
Qed.

(** ** The pieces of [execute] *)
Lemma advanced_locals past stages l l' s :
  sequence l' = sequence l → advanced past stages l s → advanced past stages l' s.
Proof. intros Hl [? ? ? ? ?]. split; by rewrite ?Hl. Qed.

Context (token : cancelled_poll W) (Htoken : ∀ w, token w = (Ok false, w)).
Definition patient (t : cancelled_poll W) : Prop := ∀ w, t w = (Ok false, w).

Lemma raise_if_cancelled_wp t (Q : res unit → W → Prop) w :
  patient t → Q (Ok ()) w → wp (raise_if_cancelled t) Q w.
Proof. intros Ht HQ. unfold raise_if_cancelled. apply wp_bind. eapply wp_eq; [apply Ht|]. by apply wp_ret. Qed.

Lemma check_unexpired_wp y message k (Q : res unit → W → Prop) s x :
  (∀ t, times t → t < lock_expires_at y) → did k x → (∀ x', did k x' → Q (Ok ()) (s, x')) →
  wp (check_unexpired migration_beside y message) Q (s, x).
Proof.
  intros Hy Hk HQ. unfold check_unexpired. apply wp_bind. apply (clock_wp _ k); [done|]. intros t x1 Ht Hk1.
  apply wp_bind, wp_lift_res. rewrite ensure_utc_at_utc by (by apply (co_times _ Hco)).
  apply wp_lift_res. rewrite (proj2 (Z.leb_gt _ _)) by auto. by apply HQ.
Qed.

Lemma evidence_wp state details j k (Q : res unit → W → Prop) s x :
  immutable_mapping details = Ok j → did k x →
  (∀ e x', ev_state e = migration_state_value state → did k x' → wp (sink e) (λ r x2, Q r (s, x2)) x') →
  wp (migration_evidence migration_beside ref state details) Q (s, x).
Proof.
  intros Hj Hk HQ. unfold migration_evidence. apply wp_bind. apply (clock_wp _ k); [done|]. intros t x1 Ht Hk1.
  unfold record_evidence, make_evidence. apply wp_bind, wp_lift_res.
  rewrite (proj2 (nonempty_spec ref) (proj1 (co_names _ Hco))).
  assert (nonempty (migration_state_value state) = true) as -> by (by destruct state).
  cbn [negb orb raise_if res_bind nonempty String.eqb]. rewrite Hj. cbn [res_bind].
  rewrite ensure_utc_at_utc by (by apply (co_times _ Hco)). cbn [res_bind andb raise_if].
  apply wp_lift_snd_run. by apply HQ.
Qed.

Lemma run_conditions_wp conditions t k (Q : res (list ValidationOutcome) → W → Prop) s x :
  patient t → did k x → (∀ outcomes k' x', conditions_ran conditions k' → did (k ++ k') x' → Q (Ok outcomes) (s, x')) →
  wp (run_conditions migration_beside conditions t) Q (s, x).
Proof.
  intros Ht Hk HQ. unfold run_conditions. apply (wp_for_list (λ todo _ w, w.1 = s ∧
    ∃ before k', conditions = before ++ todo ∧ conditions_ran before k' ∧ did (k ++ k') w.2)).
  - split; [done|]. exists [], []. rewrite app_nil_r. split_and!; [done|constructor|done].
  - intros outcomes [s' x'] (Hs & before & k' & -> & Hk'). cbn in Hs. subst s'. rewrite app_nil_r in HQ.
    by eapply HQ; apply Hk'.
  - intros c todo outcomes [s' x'] (Hs & before & k' & -> & Hran & Hk'). cbn in Hs. subst s'.
    apply wp_bind, raise_if_cancelled_wp; [done|]. apply wp_bind.
    eapply inner_wp; [apply (co_conditions _ Hco)|apply (tr_condition _ Htr)|exact Hk'|]. cbn beta. intros o x2 Ho Hk2.
    rewrite Ho. apply wp_ret. split; [done|]. exists (before ++ [c]), (k' ++ [Validated c (Ok o)]).
    rewrite <- !app_assoc in *. split; [done|]. split; [|done]. apply Forall2_app; [done|].
    constructor; [by exists o|constructor].
Qed.

Lemma set_locals_wp {B} f (k : unit → M (locals * W) B) (Q : res B → locals * W → Prop) l w :
  wp (k ()) Q (f l, w) → wp (bind (set_locals f) k) Q (l, w).
Proof. intros Hk. by apply wp_bind, wp_set_locals. Qed.

Lemma check_wp {B} b e (k : unit → M (locals * W) B) (Q : res B → locals * W → Prop) w :
  b = false → wp (k ()) Q w → wp (bind (lift_res (raise_if b e)) k) Q w.
Proof. intros -> Hk. by apply wp_bind, wp_lift_res. Qed.

(** The calls up to the compilation of the plan. *)
Definition preparation (g : string) (y : MigrationLock) (k : calls) : Prop :=
  ∃ st pre, active_generation st = g ∧ conditions_ran (preconditions bundle) pre ∧
    k = Inspected (Ok st) :: pre ++ [Locked (Ok y); Compiled (Ok plan)].

Lemma prepare_wp past l s x :
  advanced past [] l s → lock l = None → did [] x →
  wp (prepare migration_beside lock_duration ref owner run_id bundle token)
    (λ r lsx, ∃ g y k, r = Ok (g, y, plan) ∧ (∀ t, times t → t < lock_expires_at y) ∧
       lock lsx.1 = Some y ∧ advanced past [(PLANNED, None)] lsx.1 lsx.2.1 ∧
       preparation g y k ∧ did k lsx.2.2) (l, (s, x)).
Proof.
  intros Had Hl Hk. unfold prepare.
  apply wp_bind, wp_lift_snd_run, raise_if_cancelled_wp; [done|].
  apply wp_bind, wp_lift_snd_run. eapply inner_wp; [apply (co_inspect _ Hco)|apply (tr_inspect _ Htr)|exact Hk|].
  cbn beta. intros st x1 Hst Hk1.
  apply check_wp; [by rewrite Hst, String.eqb_refl|].
  apply wp_bind, wp_lift_snd_run. apply (run_conditions_wp _ _ ([] ++ [Inspected (Ok st)])); [done..|].
  intros outcomes pre x2 Hpre Hk2. apply set_locals_wp.
  apply wp_bind, wp_lift_snd_run. eapply inner_wp; [apply (co_lock _ Hco)|apply (tr_lock _ Htr)|exact Hk2|].
  cbn beta. intros y x3 (Ho & Hd & Hexp) Hk3.
  apply set_locals_wp. apply check_wp; [by rewrite Ho, Hd, !String.eqb_refl|].
  apply wp_bind, wp_lift_snd_run. eapply check_unexpired_wp; [done|exact Hk3|]. intros x4 Hk4.
  apply wp_bind, wp_lift_snd_run. eapply inner_wp; [apply (co_compile _ Hco)|apply (tr_compile _ Htr)|exact Hk4|].
  cbn beta. intros p x5 -> Hk5.
  apply wp_bind, wp_lift_res. rewrite (co_plan _ Hco).
  apply wp_bind. eapply wp_mono;
    [eapply (stage_wp past [] _ _ s x5 PLANNED None); [by apply (advanced_locals past [] l)|done|exact Hk5]|].
  intros r [l6 [s6 x6]] (-> & Hl6 & Had6 & Hk6). cbn in Hl6, Had6.
  apply wp_bind, wp_lift_snd_run. eapply evidence_wp; [reflexivity|exact Hk6|]. intros e x7 He Hk7.
  destruct (co_sink _ Hco e) with (w := x7) as (u & x8 & Hrun & _); [by rewrite He|].
  eapply wp_eq; [exact Hrun|]. apply wp_ret.
  pose proof (tr_sink _ Htr e _ _ _ _ Hrun Hk7) as Hk8. rewrite app_nil_r, <- !app_assoc in Hk8.
  eexists (active_generation st), y, _. split_and!; [done|done|by rewrite Hl6|done| |exact Hk8].
  exists st, pre. split_and!; done.
Qed.

(** The steps an earlier run did not record. *)
Definition remaining (completed : list string) : list (CompiledMigrationStep A) :=
  filter (λ s, cs_step_id s ∉ completed) (plan_steps plan).
Definition applying (s : CompiledMigrationStep A) : MigrationState * option string := (APPLYING, Some (cs_step_id s)).

Lemma apply_steps_wp past stages completed y k l s x :
  advanced past stages l s → (∀ t, times t → t < lock_expires_at y) → did k x →
  wp (apply_steps migration_beside run_id bundle token completed y plan)
    (λ r lsx, r = Ok () ∧ lock lsx.1 = lock l ∧
       advanced past (stages ++ map applying (remaining completed)) lsx.1 lsx.2.1 ∧
       ∃ k', steps_applied y (remaining completed) k' ∧ did (k ++ k') lsx.2.2) (l, (s, x)).
Proof.
  intros Had Hexp Hk. unfold apply_steps, remaining.
  apply (wp_for_list (λ todo (_ : unit) lsx, lock lsx.1 = lock l ∧ ∃ before, plan_steps plan = before ++ todo ∧
    advanced past (stages ++ map applying (filter (λ s, cs_step_id s ∉ completed) before)) lsx.1 lsx.2.1 ∧
    ∃ k', steps_applied y (filter (λ s, cs_step_id s ∉ completed) before) k' ∧ did (k ++ k') lsx.2.2)).
  - split; [done|]. exists []. cbn [map filter list_filter]. rewrite app_nil_r. split_and!; [done|done|].
    exists []. rewrite app_nil_r. by split; [constructor|].
  - intros [] lsx (Hl & before & -> & Hb). by rewrite app_nil_r.
  - intros c todo [] [l1 [s1 x1]] (Hl & before & Hbefore & Hb & k' & Happ & Hk'). cbn in Hl, Hb, Hk'.
    apply wp_bind, wp_lift_snd_run, raise_if_cancelled_wp; [done|].
    apply wp_bind, wp_lift_snd_run. eapply check_unexpired_wp; [done|exact Hk'|]. intros x2 Hk2.
    destruct (bool_decide (cs_step_id c ∈ completed)) eqn:Hc; simplify_bool.
    + apply wp_ret. split; [done|]. exists (before ++ [c]). rewrite <- app_assoc. split; [done|].
      rewrite filter_app, filter_cons_False by (by intros ?). rewrite filter_nil, app_nil_r. split; [done|]. by exists k'.
    + apply wp_bind, wp_lift_snd_run.
      eapply inner_wp; [apply (co_apply _ Hco)|apply (tr_apply _ Htr)|exact Hk2|]. cbn beta. intros a x3 [Ha Hfp] Hk3.
      apply check_wp; [by rewrite Ha, String.eqb_refl|].
      eapply wp_mono; [by eapply (stage_wp past _ _ _ s1 x3 APPLYING (Some a))|].
      intros r [l4 [s4 x4]] (-> & Hl4 & Had4 & Hk4). cbn in Hl4, Had4, Hk4. split; [by subst l4|].
      exists (before ++ [c]). rewrite <- app_assoc. split; [done|]. cbn [fst snd].
      rewrite filter_app, filter_cons_True, filter_nil, map_app, (app_assoc stages) by done.
      unfold applying at 2. cbn [map]. rewrite <- Ha. split; [done|].
      exists (k' ++ [Applied y c (Ok a)]). rewrite (app_assoc k). split; [|done].
      apply Forall2_app; [done|]. constructor; [by exists a|constructor].
Qed.

(** The calls of validation and activation. *)
Definition cutover_calls (g : string) (y : MigrationLock) (k : calls) : Prop :=
  ∃ val a post, conditions_ran (validations bundle) val ∧ conditions_ran (postconditions bundle) post ∧
    k = val ++ Activated y g (Ok a) :: post.

Lemma cut_over_wp past stages g y k l s x :
  advanced past stages l s → (∀ t, times t → t < lock_expires_at y) → did k x →
  wp (cut_over migration_beside run_id g bundle token y)
    (λ r lsx, ∃ a, r = Ok a ∧ ar_target_fingerprint a = target_schema_fingerprint bundle ∧
       ar_source_boundary a ≠ ""%string ∧ ar_previous_generation a ≠ ""%string ∧ ar_active_generation a ≠ ""%string ∧
       lock lsx.1 = lock l ∧ advanced past (stages ++ [(VALIDATING, None); (ACTIVATING, None)]) lsx.1 lsx.2.1 ∧
       ∃ k', cutover_calls g y k' ∧ did (k ++ k') lsx.2.2)
    (l, (s, x)).
Proof.
  intros Had Hexp Hk. unfold cut_over.
  apply wp_bind. eapply wp_mono; [by apply (stage_wp past stages k l s x VALIDATING None)|].
  intros r [l1 [s1 x1]] (-> & Hl1 & Had1 & Hk1). cbn in Hl1, Had1, Hk1.
  apply wp_bind, wp_lift_snd_run. apply (run_conditions_wp _ _ k); [done..|].
  intros outcomes val x2 Hval Hk2. apply set_locals_wp.
  apply wp_bind. eapply wp_mono;
    [eapply (stage_wp past _ _ _ s1 x2 ACTIVATING None); [by apply (advanced_locals _ _ l1)|done|exact Hk2]|].
  intros r [l3 [s3 x3]] (-> & Hl3 & Had3 & Hk3). cbn in Hl3, Had3, Hk3. rewrite <- app_assoc in Had3.
  apply wp_bind, wp_lift_snd_run, raise_if_cancelled_wp; [done|].
  apply wp_bind, wp_lift_snd_run. eapply check_unexpired_wp; [done|exact Hk3|]. intros x4 Hk4.
  apply wp_bind, wp_lift_snd_run. eapply inner_wp; [apply (co_activate _ Hco)|apply (tr_activate _ Htr)|exact Hk4|].
  cbn beta. intros a x5 (Ht & Hb & Hp & Hg) Hk5.
  apply check_wp; [by rewrite Ht, String.eqb_refl|].
  apply wp_bind, wp_lift_snd_run. eapply run_conditions_wp; [by intros ?|exact Hk5|].
  intros outcomes' post x6 Hpost Hk6.
  apply set_locals_wp, wp_ret. exists a. split_and!; try done; [by subst|by apply (advanced_locals _ _ l3)|].
  exists (val ++ Activated y g (Ok a) :: post). split; [by exists val, a, post|].
  rewrite <- !app_assoc in Hk6. exact Hk6.
Qed.

(** Cutover evidence of this run, with the digest of its own content. *)
Definition cutover_ok (c : CutoverEvidence) : Prop :=
  ce_execution_id c = run_id ∧ ce_bundle_digest c = bundle_digest bundle ∧
  ce_source_fingerprint c = source_schema_fingerprint bundle ∧
  ce_target_fingerprint c = target_schema_fingerprint bundle ∧
  ce_digest c = sha256_digest (JObj (cutover_material c)).

Lemma make_cutover_total a outcomes t :
  ar_source_boundary a ≠ ""%string → ar_previous_generation a ≠ ""%string → ar_active_generation a ≠ ""%string →
  times t → ∃ c, make_cutover
      (MkCutover run_id (bundle_digest bundle) (source_schema_fingerprint bundle)
         (target_schema_fingerprint bundle) (ar_source_boundary a) (ar_previous_generation a)
         (ar_active_generation a) (validation_digest outcomes) 0 "") (at_utc t) = Ok c ∧ cutover_ok c.
Proof.
  intros Hb Hp Hg Ht. destruct (co_names _ Hco) as (_ & _ & Hrun).
  destruct (bo_fingerprints _ (co_bundle _ Hco)) as [Hsrc Htgt].
  unfold make_cutover, validation_digest. cbn [ce_execution_id ce_bundle_digest ce_source_fingerprint
    ce_target_fingerprint ce_source_boundary ce_previous_generation ce_active_generation ce_validation_digest
    ce_digest require_nonempty require_digests].
  unfold require_sha256 at 1 2 3. rewrite sha256_digest_valid, bundle_digest_sha, Hsrc, Htgt.
  rewrite !(proj2 (nonempty_spec _)) by done. cbn [negb raise_if res_bind].
  rewrite ensure_utc_at_utc by (by apply (co_times _ Hco)). cbn [res_bind nonempty String.eqb negb andb raise_if].
  eexists. split; [reflexivity|]. done.
Qed.

Lemma cutover_to_mapping_ok c : ∃ j, immutable_mapping (cutover_to_mapping c) = Ok j.
Proof.
  exists (JObj (dict_set "digest" (JStr (ce_digest c)) (cutover_material c))). unfold immutable_mapping, cutover_to_mapping.
  apply (json_value_of_json (JObj _)), json_wfb_sound. unfold cutover_material.
  generalize (rfc3339 (ce_activated_at c)). intros activated. reflexivity.
Qed.

Lemma finish_wp past stages a k l s x (Q : res MigrationReport → locals * W → Prop) :
  advanced past stages l s → did k x →
  ar_source_boundary a ≠ ""%string → ar_previous_generation a ≠ ""%string → ar_active_generation a ≠ ""%string →
  (∀ s2 x2 e c, advanced past (stages ++ [(MIGRATED, None)]) (bump l) s2 → cutover_ok c →
     ev_state e = "COMPLETED"%string → did k x2 →
     wp (sink e) (λ r x3, match r with
       | Ok _ => Q (Ok (MkReport run_id MIGRATED (bundle_digest bundle) (default [] (s2 !! run_id))
                     (all_validations l) (Some c) None)) (l, (s2, x3))
       | Raise err => Q (Raise err) (l, (s2, x3))
       end) x2) →
  wp (finish migration_beside ref run_id bundle a) Q (l, (s, x)).
Proof.
  intros Had Hk Hb Hp Hg HQ. unfold finish. apply wp_bind, wp_get_locals. cbn [fst].
  apply wp_bind, wp_lift_snd_run. apply (clock_wp _ k); [done|]. intros t x1 Ht Hk1. apply wp_bind, wp_lift_res.
  destruct (make_cutover_total a (all_validations l) t Hb Hp Hg Ht) as (c & -> & Hc).
  apply wp_bind, wp_lift_snd_run. eapply wp_mono; [by apply (record_checkpoint_wp past stages k l s x1 MIGRATED None)|].
  intros r [s2 x2] (-> & Had2 & Hk2). cbn in Had2, Hk2. destruct (cutover_to_mapping_ok c) as [j Hj].
  apply wp_bind, wp_lift_snd_run. eapply evidence_wp; [done|exact Hk2|]. intros e x3 He Hk3.
  eapply wp_mono; [by apply (HQ s2 x3 e c)|]. intros [[]|err] x4 HQ4; [|done].
  apply wp_bind, wp_lift_snd_run. cbn [recorder_checkpoints recorder_beside]. apply wp_lift_fst.
  eapply wp_eq; [reflexivity|]. by apply wp_ret.
Qed.

(** All stages of a run. *)
Definition all_stages (completed : list string) : list (MigrationState * option string) :=
  (PLANNED, None) :: map applying (remaining completed) ++ [(VALIDATING, None); (ACTIVATING, None); (MIGRATED, None)].

(** The calls of a run that reached its end: the inspection, the preconditions,
    the lock, the compilation, every remaining step once and in order, the
    validations, one activation of the inspected generation, the postconditions. *)
Definition run_calls (completed : list string) (y : MigrationLock) (k : calls) : Prop :=
  ∃ st pre steps val a post,
    conditions_ran (preconditions bundle) pre ∧ steps_applied y (remaining completed) steps ∧
    conditions_ran (validations bundle) val ∧ conditions_ran (postconditions bundle) post ∧
    k = Inspected (Ok st) :: pre ++ [Locked (Ok y); Compiled (Ok plan)] ++ steps ++ val ++
        Activated y (active_generation st) (Ok a) :: post.

Lemma migrate_wp past l s x completed (Q : res MigrationReport → locals * W → Prop) :
  advanced past [] l s → lock l = None → did [] x →
  (∀ l1 s2 x2 e c y k, advanced past (all_stages completed) (bump l1) s2 → lock l1 = Some y → cutover_ok c →
     ev_state e = "COMPLETED"%string → run_calls completed y k → did k x2 →
     wp (sink e) (λ r x3, match r with
       | Ok _ => Q (Ok (MkReport run_id MIGRATED (bundle_digest bundle) (default [] (s2 !! run_id))
                     (all_validations l1) (Some c) None)) (l1, (s2, x3))
       | Raise err => Q (Raise err) (l1, (s2, x3))
       end) x2) →
  wp (migrate migration_beside lock_duration ref owner run_id bundle token completed) Q (l, (s, x)).
Proof.
  intros Had Hl Hk HQ. unfold migrate. apply wp_bind. eapply wp_mono; [by apply prepare_wp|].
  intros r [l1 [s1 x1]] (g & y & k1 & -> & Hexp & Hl1 & Had1 & Hprep & Hk1). cbn in Hl1, Had1, Hk1.
  apply wp_bind. eapply wp_mono; [by eapply (apply_steps_wp past _ completed y k1 l1 s1 x1)|].
  intros r [l2 [s2 x2]] (-> & Hl2 & Had2 & k2 & Happ & Hk2). cbn in Hl2, Had2, Hk2.
  apply wp_bind. eapply wp_mono; [by eapply (cut_over_wp past _ g y (k1 ++ k2) l2 s2 x2)|].
  intros r [l3 [s3 x3]] (a & -> & Ht & Hb & Hp & Hg & Hl3 & Had3 & k3 & Hcut & Hk3). cbn in Hl3, Had3, Hk3.
  eapply finish_wp; [done..|]. intros s4 x4 e c Had4 Hc He Hk4.
  apply (HQ l3 s4 x4 e c y ((k1 ++ k2) ++ k3)); try done; [|congruence|].
  - unfold all_stages. cbn in Had4. by rewrite <- app_assoc in Had4.
  - destruct Hprep as (st & pre & <- & Hpre & ->), Hcut as (val & b & post & Hval & Hpost & ->).
    exists st, pre, k2, val, b, post. split_and!; [done..|]. cbn [app]. by rewrite <- !app_assoc.
Qed.

(** Recorded checkpoints from which a run can be started or resumed. *)
Record resumable (past : list MigrationCheckpoint) : Prop := {
  re_bundle c : c ∈ past → ck_bundle_digest c = bundle_digest bundle;
  re_open c : c ∈ past → ck_state c ≠ MIGRATED;
  re_sequence c : last past = Some c → 0 ≤ ck_sequence c + 1;
}.

Lemma existsb_false {B} (f : B → bool) l : (∀ b, b ∈ l → f b = false) → existsb f l = false.
Proof.
  induction l as [|b l IH]; intros Hl; cbn; [done|]. rewrite Hl by by left. apply IH. intros b' Hb'. apply Hl. by right.
Qed.

Lemma run_not_empty : nonempty run_id = true ∧ nonempty ref = true ∧ nonempty owner = true.
Proof. rewrite !nonempty_spec. destruct (co_names _ Hco) as (? & ? & ?). auto. Qed.

Lemma start_advanced past :
  history s0 = past → resumable past → advanced past [] (Locals (start_of past) None []) s0.
Proof.
  intros Hpast [_ _ Hseq]. split; cbn [sequence length].
  - exists []. by rewrite app_nil_r.
  - unfold start_of. rewrite Hpast. intros c Hc. rewrite Hc. lia.
  - unfold start_of. destruct (last past) as [c|] eqn:Hc; [by apply Hseq|done].
  - lia.
  - done.
Qed.

Abbreviation migrate_again uuid := (execute_migration migration_beside lock_duration ref bundle owner
  (Some token) (Some run_id) uuid).

Lemma execute_wp past uuid x (Q : res MigrationReport → W → Prop) :
  history s0 = past → resumable past →
  wp (with_locals (Locals (start_of past) None [])
       (try_finally
         (try_except (migrate migration_beside lock_duration ref owner run_id bundle token (omap completed_step past))
            is_exception (record_failed migration_beside ref run_id bundle))
         (unlock migration_beside)))
     (λ r w, match r with Ok (report, _) => Q (Ok report) w | Raise e => Q (Raise e) w end) (s0, x) →
  wp (migrate_again uuid) Q (s0, x).
Proof.
  intros Hpast [Hb Ho Hseq] HQ. unfold execute_migration. destruct run_not_empty as (-> & -> & ->). cbn [negb orb raise_if].
  apply wp_bind, wp_lift_res, wp_bind, wp_lift_res, wp_bind. cbn [default from_option id recorder_checkpoints recorder_beside].
  apply wp_lift_fst. eapply wp_eq; [reflexivity|]. cbv beta iota.  rewrite Hpast.
  rewrite existsb_false; [|intros c Hc; by rewrite (Hb c Hc), String.eqb_refl].
  rewrite existsb_false; [|intros c Hc; apply bool_decide_eq_false; auto].
  apply wp_bind, wp_lift_res, wp_bind, wp_lift_res, wp_bind. eapply wp_mono; [exact HQ|].
  intros [[report l]|e] w HQ'; [by apply wp_ret|done].
Qed.

(** A run that was recorded as completed is not started again. *)
Lemma completed_refused s x uuid c :
  (∀ c, c ∈ history s → ck_bundle_digest c = bundle_digest bundle) → c ∈ history s → ck_state c = MIGRATED →
  migrate_again uuid (s, x) = (Raise (MigrationConflict "migration execution is already completed"), (s, x)).
Proof.
  intros Hb Hc Hst. unfold execute_migration. destruct run_not_empty as (-> & -> & ->). cbn [negb orb raise_if].
  unfold bind at 1, lift_res at 1. unfold bind at 1, lift_res at 1. unfold bind at 1.
  cbn [default from_option id recorder_checkpoints recorder_beside lift_fst memory_checkpoints gets].
  unfold bind at 1, lift_res at 1. rewrite existsb_false; [|intros c' Hc'; by rewrite (Hb c' Hc'), String.eqb_refl].
  unfold bind at 1, lift_res at 1. cbn [raise_if].
  assert (existsb (λ c, bool_decide (ck_state c = MIGRATED)) (history s) = true) as ->; [|done].
  apply existsb_exists. exists c. split; [by apply list_elem_of_In|by apply bool_decide_eq_true].
Qed.

(** The recorder after a run that reached its end. *)
Record recorded_run (past : list MigrationCheckpoint) (s' : recorder_state) (new : list MigrationCheckpoint) : Prop := {
  rr_history : default [] (s' !! run_id) = past ++ new;
  rr_others id : id ≠ run_id → s' !! id = s0 !! id;
  rr_stages : map stage_of new = all_stages (omap completed_step past);
  rr_sequence : map ck_sequence new = seqZ (start_of past) (Z.of_nat (length new));
  rr_refused uuid x : migrate_again uuid (s', x) =
    (Raise (MigrationConflict "migration execution is already completed"), (s', x));
}.

Lemma advanced_recorded past l s' :
  resumable past → advanced past (all_stages (omap completed_step past)) l s' →
  ∃ new, recorded_run past s' new.
Proof.
  intros [Hb Ho _] [(new & Hnew & Hst & Hseq & Hall) _ _ _ Hoth]. exists new.
  assert (length (all_stages (omap completed_step past)) = length new) as Hlen by (by rewrite <- Hst, length_map).
  split; try done; [by rewrite <- Hlen|]. intros uuid x. rewrite Forall_forall in Hall.
  assert (∃ c, c ∈ new ∧ ck_state c = MIGRATED) as (c & Hc & Hm).
  { assert ((MIGRATED, None) ∈ map stage_of new) as Hin.
    { rewrite Hst. unfold all_stages. rewrite elem_of_cons, elem_of_app, !elem_of_cons. tauto. }
    apply list_elem_of_fmap in Hin as (c & Hc & Hin). exists c. split; [done|]. by injection Hc. }
  apply (completed_refused s' x uuid c); [intros c' Hc'| |done].
  - assert (c' ∈ past ++ new) as Hin by (rewrite <- Hnew; exact Hc').
    apply elem_of_app in Hin as [?|?]; [by apply Hb|by apply Hall].
  - assert (c ∈ past ++ new) as Hin by (apply elem_of_app; by right). rewrite <- Hnew in Hin. exact Hin.
Qed.

Lemma unlock_wp l s x y k (Q : res unit → locals * W → Prop) :
  lock l = Some y → did k x → (∀ x', did (k ++ [Unlocked y (Ok ())]) x' → Q (Ok ()) (l, (s, x'))) →
  wp (unlock migration_beside) Q (l, (s, x)).
Proof.
  intros Hl Hk HQ. unfold unlock. apply wp_bind, wp_get_locals. cbn [fst]. rewrite Hl.
  apply wp_lift_snd_run. eapply inner_wp; [apply (co_release _ Hco)|apply (tr_release _ Htr)|exact Hk|].
  intros [] x' _. apply HQ.
Qed.

(** A second checkpoint with the number of the last one is refused. *)
Lemma duplicate_refused past stages k l s x error (Q : res MigrationReport → locals * W → Prop) :
  0 ≤ start_of past → advanced past (stages ++ [(MIGRATED, None)]) (bump l) s → did k x →
  (∀ x', did k x' → Q (Raise (MigrationConflict "migration checkpoint sequence must increase")) (l, (s, x'))) →
  wp (record_failed migration_beside ref run_id bundle error) Q (l, (s, x)).
Proof.
  intros H0 [(new & Hhist & Hst & Hseq & Hall) _ Hnn Hstart _] Hk HQ. unfold record_failed.
  apply wp_bind, wp_get_locals. cbn [fst]. apply wp_bind, wp_lift_snd_run. unfold record_checkpoint.
  apply wp_bind. apply (clock_wp _ k); [done|]. intros t x1 Ht Hk1. apply wp_bind, wp_lift_res. cbn [sequence bump] in *.
  rewrite length_app in Hstart. cbn [length] in Hstart.
  assert (∃ c0, last new = Some c0 ∧ ck_sequence c0 = sequence l) as (c0 & Hc0 & Hs0).
  { assert (last (map ck_sequence new) = Some (sequence l)) as Hlast.
    { rewrite Hseq, length_app. cbn [length]. rewrite Nat2Z.inj_add, seqZ_app by lia.
      rewrite (seqZ_cons _ (Z.of_nat 1)), (seqZ_nil _ (Z.pred _)), last_snoc by lia. f_equal. lia. }
    rewrite fmap_last in Hlast. apply fmap_Some in Hlast as (c0 & ? & ?). by exists c0. }
  unfold make_migration_checkpoint. destruct run_not_empty as (-> & _ & _).
  assert (nonempty (bundle_digest bundle) = true) as ->.
  { apply nonempty_spec. intros Hempty. pose proof bundle_digest_sha as Hd. by rewrite Hempty in Hd. }
  rewrite (proj2 (Z.ltb_ge _ _)) by lia. cbn [negb orb raise_if res_bind].
  unfold require_sha256. rewrite bundle_digest_sha. cbn [res_bind]. rewrite ensure_utc_at_utc by (by apply (co_times _ Hco)).
  cbn [res_bind recorder_append recorder_beside]. apply wp_lift_fst. unfold memory_append.
  eapply wp_eq; [cbn [ck_execution_id ck_sequence]; rewrite Hhist, last_app, Hc0, Hs0, Z.leb_refl; reflexivity|].
  by apply HQ.
Qed.

Lemma start_nonneg past : resumable past → 0 ≤ start_of past.
Proof. intros [_ _ Hs]. unfold start_of. destruct (last past); [by apply Hs|done]. Qed.
End run.

(** ** Collaborators whose calls are logged *)
Section logged.
Context {A X : Type} (sink : EvidenceSink X) (inner : migration_hooks A X) (lock_duration : timedelta)
  (ref owner run_id : string) (bundle : MigrationBundleV1) (plan : CompiledMigrationPlan A) (times : instant → Prop).

Definition sink_unlogged : EvidenceSink (list (migration_call (A := A)) * X) := λ e, lift_snd (sink e).

Lemma succeeds_recorded {E W B} (ev : res B → E) (m : M W B) P : succeeds m P → succeeds (recorded ev m) P.
Proof.
  intros Hm [l w]. destruct (Hm w) as (b & w' & Hrun & Hb). exists b, (l ++ [ev (Ok b)], w').
  unfold recorded. by rewrite Hrun.
Qed.
Lemma succeeds_lift_snd {L W B} (m : M W B) P : succeeds m P → succeeds (lift_snd (L := L) m) P.
Proof.
  intros Hm [l w]. destruct (Hm w) as (b & w' & Hrun & Hb). exists b, (l, w'). unfold lift_snd. by rewrite Hrun.
Qed.

Lemma cooperative_recorded :
  cooperative sink inner lock_duration ref owner run_id bundle plan times →
  cooperative sink_unlogged (recorded_migration inner) lock_duration ref owner run_id bundle plan times.
Proof.
  intros []. split; cbn; intros; try done; first [apply succeeds_recorded; auto; done|apply succeeds_lift_snd; auto; done|auto].
Qed.

(** The log is the list of the calls. *)
Definition log_is (k : list (migration_call (A := A))) (lx : list (migration_call (A := A)) * X) : Prop := lx.1 = k.

Lemma makes_recorded {B} (ev : res B → migration_call) (m : M X B) : makes log_is (recorded ev m) (λ r, [ev r]).
Proof. intros k [l x] r [l' x']. unfold recorded. destruct (m x). intros [= <- <- <-]. unfold log_is. cbn. by intros ->. Qed.
Lemma makes_lift_snd {B} (m : M X B) : makes log_is (lift_snd m) (λ _, []).
Proof.
  intros k [l x] r [l' x']. unfold lift_snd. destruct (m x). intros [= <- <- <-]. unfold log_is. cbn. rewrite app_nil_r. by intros ->.
Qed.

Lemma tracked_log :
  tracked sink_unlogged (recorded_migration inner) lock_duration ref owner bundle log_is.
Proof. split; intros; first [apply makes_recorded|apply makes_lift_snd]. Qed.

Context (token : cancelled_poll (recorder_state * (list (migration_call (A := A)) * X))).

(** C12: migrations complete and resume.  When the collaborators answer, an
    execution over the in-memory recorder returns a COMPLETED report from any
    unfinished history of its bundle.  The log of all calls of the adapter and
    the validation runner is exactly: the inspection, the preconditions, one
    lock, one compilation, [apply_step] once for each step of the plan that the
    history does not record, in order and under that lock, the validations, one
    activation of the inspected generation, the postconditions, and last the
    release of that lock.  The run adds one checkpoint per stage, numbered
    consecutively after the history, leaves other executions alone, and reports
    cutover evidence with the digest of its content.  Executing the same id
    again is refused and changes nothing. *)
Theorem migration_completes past s x uuid :
  cooperative sink inner lock_duration ref owner run_id bundle plan times →
  (∀ e, succeeds (sink e) (λ _, True)) → patient token →
  default [] (s !! run_id) = past → resumable bundle past →
  ∃ report new c y k s' x',
    execute_migration (H := recorder_beside) (H0 := sink_beside sink_unlogged)
      (migration_beside (recorded_migration inner)) lock_duration ref bundle owner (Some token) (Some run_id) uuid
      (s, ([], x)) = (Ok report, (s', (k ++ [Unlocked y (Ok ())], x'))) ∧
    run_calls bundle plan (omap completed_step past) y k ∧
    recorded_run sink_unlogged (recorded_migration inner) lock_duration ref owner run_id bundle plan s token
      past s' new ∧
    rp_state report = MIGRATED ∧ rp_checkpoints report = past ++ new ∧
    rp_cutover report = Some c ∧ cutover_ok run_id bundle c.
Proof.
  intros Hco%cooperative_recorded Hsink Htoken Hpast Hres. pose proof tracked_log as Htr.
  set (sink' := sink_unlogged) in *. set (inner' := recorded_migration inner) in *.
  assert (∀ e, succeeds (sink' e) (λ _, True)) as Hsink' by (intros e; apply succeeds_lift_snd, Hsink).
  cut (wp (execute_migration (H := recorder_beside) (H0 := sink_beside sink') (migration_beside inner')
      lock_duration ref bundle owner (Some token) (Some run_id) uuid) (λ r w, ∃ report new c y k, r = Ok report ∧
    log_is (k ++ [Unlocked y (Ok ())]) w.2 ∧ run_calls bundle plan (omap completed_step past) y k ∧
    recorded_run sink' inner' lock_duration ref owner run_id bundle plan s token past w.1 new ∧
    rp_state report = MIGRATED ∧ rp_checkpoints report = past ++ new ∧
    rp_cutover report = Some c ∧ cutover_ok run_id bundle c) (s, ([], x))).
  { intros Hwp. apply wp_run in Hwp as (r & [s' [l x']] & Hrun & report & new & c & y & k & -> & Hl & ?).
    unfold log_is in Hl. cbn in Hl. subst l. by exists report, new, c, y, k, s', x'. }
  eapply (execute_wp sink' inner' lock_duration ref owner run_id bundle plan times Hco s token); [done..|].
  apply wp_with_locals, wp_try_finally, wp_try_except.
  eapply (migrate_wp sink' inner' lock_duration ref owner run_id bundle plan times Hco log_is Htr s token Htoken past);
    [by apply start_advanced|done|done|].
  intros l1 s2 x2 e c y k Had Hl Hc He Hcalls Hk. destruct (Hsink' e x2) as ([] & x3 & Hrun & _).
  eapply wp_eq; [exact Hrun|]. pose proof (tr_sink _ _ _ _ _ _ _ Htr e _ _ _ _ Hrun Hk) as Hk3. rewrite app_nil_r in Hk3.
  eapply (unlock_wp sink' inner' lock_duration ref owner run_id bundle plan times Hco log_is Htr); [done|exact Hk3|].
  intros x4 Hk4. cbn [snd fst].
  destruct (advanced_recorded sink' inner' lock_duration ref owner run_id bundle plan times Hco s token past (bump l1) s2 Hres Had)
    as [new Hnew].
  eexists _, new, c, y, k. split; [reflexivity|]. split; [exact Hk4|]. split; [exact Hcalls|]. split; [exact Hnew|].
  cbn [rp_state rp_checkpoints rp_cutover]. by rewrite (rr_history _ _ _ _ _ _ _ _ _ _ _ _ _ Hnew).
Qed.
End logged.

Section claims.
Context {A X : Type} (sink : EvidenceSink X) (inner : migration_hooks A X) (lock_duration : timedelta)
  (ref owner run_id : string) (bundle : MigrationBundleV1) (plan : CompiledMigrationPlan A) (times : instant → Prop)
  (token : cancelled_poll (recorder_state * X)).
Abbreviation executed uuid := (execute_migration (H := recorder_beside) (H0 := sink_beside sink)
  (migration_beside inner) lock_duration ref bundle owner (Some token) (Some run_id) uuid).

(** Collaborators whose calls are not looked at. *)
Definition untracked (k : list (migration_call (A := A))) (x : X) : Prop := True.
Lemma tracked_untracked : tracked sink inner lock_duration ref owner bundle untracked.
Proof. done. Qed.

(** C37: a failure after the completion is misreported.  When everything
    succeeds but the evidence sink rejects the evidence of the completion, the
    migration is recorded as COMPLETED, yet the caller gets a conflict about the
    checkpoint sequence instead of the sink's error: the handler of failures
    numbers its FAILED checkpoint like the COMPLETED one. *)
Theorem completion_evidence_failure past s x uuid :
  cooperative sink inner lock_duration ref owner run_id bundle plan times →
  (∀ e y, ev_state e = "COMPLETED"%string → ∃ err y', sink e y = (Raise err, y') ∧ is_exception err = true) →
  patient token → default [] (s !! run_id) = past → resumable bundle past →
  ∃ new s' x', executed uuid (s, x) =
      (Raise (MigrationConflict "migration checkpoint sequence must increase"), (s', x')) ∧
    recorded_run sink inner lock_duration ref owner run_id bundle plan s token past s' new.
Proof.
  intros Hco Hsink Htoken Hpast Hres.
  cut (wp (executed uuid) (λ r w, r = Raise (MigrationConflict "migration checkpoint sequence must increase") ∧
    ∃ new, recorded_run sink inner lock_duration ref owner run_id bundle plan s token past w.1 new) (s, x)).
  { intros Hwp. apply wp_run in Hwp as (r & [s' x'] & Hrun & -> & new & ?). by exists new, s', x'. }
  eapply (execute_wp sink inner lock_duration ref owner run_id bundle plan times Hco s token); [done..|].
  apply wp_with_locals, wp_try_finally, wp_try_except.
  eapply (migrate_wp sink inner lock_duration ref owner run_id bundle plan times Hco untracked tracked_untracked
    s token Htoken past); [by apply start_advanced|done|done|].
  intros l1 s2 x2 e c y k Had Hl Hc He _ Hk. destruct (Hsink e x2 He) as (err & x3 & Hrun & Herr).
  eapply wp_eq; [exact Hrun|]. cbn. rewrite Herr.
  eapply (duplicate_refused sink inner lock_duration ref owner run_id bundle plan times Hco untracked tracked_untracked s past
    ((PLANNED, None) :: map applying (remaining plan (omap completed_step past)) ++ [(VALIDATING, None); (ACTIVATING, None)]) k);
    [by apply (start_nonneg bundle)| |exact Hk|].
  { unfold all_stages in Had. cbn. rewrite <- app_assoc. exact Had. }
  intros x4 Hk4. eapply (unlock_wp sink inner lock_duration ref owner run_id bundle plan times Hco untracked tracked_untracked);
    [done|exact Hk4|]. intros x5 _. split; [done|].
  by eapply advanced_recorded.
Qed.
End claims.

(** ** A concrete migration *)
Definition sample_fingerprint : string := Eval vm_compute in sha256_digest JNull.
Definition sample_parts : MigrationBundleV1 :=
  MkBundle sample_fingerprint sample_fingerprint
    [MkStep "add" ADD_FIELD (JObj []) [] REVERSIBLE; MkStep "activate" ACTIVATE_SCHEMA_VERSION (JObj []) [] REVERSIBLE]
    [MkCondition "before" (JObj []) (JObj [])] [] [MkCondition "after" (JObj []) (JObj [])] [] EXCLUSIVE RESTORE_REQUIRED
    "b-1" "" MIGRATION_FORMAT_VERSION.
Definition sample_bundle : MigrationBundleV1 :=
  Eval vm_compute in match make_bundle sample_parts with Ok b => b | Raise _ => sample_parts end.
Definition sample_steps : list (CompiledMigrationStep unit) :=
  [MkCompiledStep _ "add" "adapter" sample_fingerprint (); MkCompiledStep _ "activate" "adapter" sample_fingerprint ()].
Definition sample_plan : CompiledMigrationPlan unit :=
  Eval vm_compute in MkPlan _ (bundle_digest sample_bundle) sample_steps
    (expected_plan_digest (bundle_digest sample_bundle) sample_steps).

(** An adapter that answers; its world counts the steps it applied. *)
Definition sample_adapter : migration_hooks unit nat :=
  MigrationHooks
    (λ _, ret (MkBindingState sample_fingerprint sample_fingerprint "g1" (VInt 1)))
    (λ _ owner digest _, ret (MkLock "t" owner digest 1))
    (λ _, ret sample_plan)
    (λ _ s _ n, (Ok (MkApplied (cs_step_id s) sample_fingerprint "tok"), S n))
    (λ _ b _, ret (MkActivation "g2" "g1" (target_schema_fingerprint b) "boundary"))
    (λ _, ret ()) (λ c, ret (MkOutcome (mc_name c) true sample_fingerprint "")) (ret (at_utc 0)).

(** A run that applied the first step and failed. *)
Definition sample_past : list MigrationCheckpoint :=
  [MkMigrationCheckpoint "run" (bundle_digest sample_bundle) PLANNED 0 None None None None 0;
   MkMigrationCheckpoint "run" (bundle_digest sample_bundle) APPLYING 1 (Some "add"%string) None None None 0;
   MkMigrationCheckpoint "run" (bundle_digest sample_bundle) FAILED 2 None None None (Some "TimeoutError"%string) 0].

Lemma sample_bundle_ok : bundle_ok sample_bundle.
Proof.
  split; [reflexivity|split; vm_compute; reflexivity|discriminate|split; [discriminate|]| |reflexivity|].
  - by apply (bool_decide_unpack _).
  - by apply (bool_decide_unpack _).
  - vm_compute. reflexivity.
Qed.

Lemma sample_cooperative (sink : EvidenceSink nat) :
  (∀ e, ev_state e ≠ "COMPLETED"%string → succeeds (sink e) (λ _, True)) →
  cooperative sink sample_adapter 1000 "orders" "worker" "run" sample_bundle sample_plan (λ t, t = 0).
Proof.
  intros Hsink. split.
  - by intros t ->.
  - intros w. eexists _, _. split; [reflexivity|]. by exists 0.
  - done.
  - exact sample_bundle_ok.
  - vm_compute. reflexivity.
  - intros w. eexists _, _. split; reflexivity.
  - intros w. eexists _, _. split; [reflexivity|]. split_and!; [reflexivity..|]. by intros t ->.
  - intros w. eexists _, _. split; reflexivity.
  - intros c w. eexists _, _. split; reflexivity.
  - intros x s w. eexists _, _. split; [reflexivity|]. split; [done|]. vm_compute. reflexivity.
  - intros x g w. eexists _, _. split; [reflexivity|]. done.
  - intros x w. eexists _, _. split; [reflexivity|]. done.
  - exact Hsink.
Qed.

Lemma sample_resumable : resumable sample_bundle sample_past.
Proof.
  split.
  - intros c. unfold sample_past. rewrite !elem_of_cons, elem_of_nil. by intros [->|[->|[->|[]]]].
  - intros c. unfold sample_past. rewrite !elem_of_cons, elem_of_nil. by intros [->|[->|[->|[]]]].
  - intros c [= <-]. cbn. lia.
Qed.

Lemma migration_completes_witness :
  ∃ report new c y k s' n, execute_migration (H := recorder_beside) (H0 := sink_beside (sink_unlogged NullEvidenceSink))
      (migration_beside (recorded_migration sample_adapter)) 1000 "orders" sample_bundle "worker" (Some never_cancelled)
      (Some "run"%string) "" ({["run"%string := sample_past]}, ([], 0%nat)) =
      (Ok report, (s', (k ++ [Unlocked y (Ok ())], n))) ∧
    run_calls sample_bundle sample_plan ["add"%string] y k ∧
    recorded_run (sink_unlogged NullEvidenceSink) (recorded_migration sample_adapter) 1000 "orders" "worker" "run"
      sample_bundle sample_plan {["run"%string := sample_past]} never_cancelled sample_past s' new ∧
    rp_state report = MIGRATED ∧ rp_checkpoints report = sample_past ++ new ∧
    rp_cutover report = Some c ∧ cutover_ok "run" sample_bundle c.
Proof.
  eapply (migration_completes NullEvidenceSink sample_adapter 1000 "orders" "worker" "run" sample_bundle sample_plan
    (λ t, t = 0) never_cancelled sample_past);
    [apply sample_cooperative|..|exact sample_resumable].
  - intros e _ w. by exists (), w.
  - intros e w. by exists (), w.
  - intros w. reflexivity.
  - reflexivity.
Defined.

Definition rejecting_sink : EvidenceSink nat := λ e,
  if String.eqb (ev_state e) "COMPLETED" then raise (RuntimeError "evidence store down") else ret ().

Lemma completion_evidence_failure_witness :
  ∃ new s' n, execute_migration (H := recorder_beside) (H0 := sink_beside rejecting_sink)
      (migration_beside sample_adapter) 1000 "orders" sample_bundle "worker" (Some never_cancelled) (Some "run"%string) ""
      (∅, 0%nat) =
      (Raise (MigrationConflict "migration checkpoint sequence must increase"), (s', n)) ∧
    recorded_run rejecting_sink sample_adapter 1000 "orders" "worker" "run" sample_bundle sample_plan
      ∅ never_cancelled [] s' new.
Proof.
  eapply (completion_evidence_failure rejecting_sink sample_adapter 1000 "orders" "worker" "run" sample_bundle sample_plan
    (λ t, t = 0) never_cancelled []).
  - apply sample_cooperative. intros e He w. exists (), w. unfold rejecting_sink.
    by rewrite (proj2 (String.eqb_neq _ _) He).
  - intros e n He. unfold rejecting_sink. rewrite He. eexists _, _. split; [reflexivity|done].
  - intros w. reflexivity.
  - reflexivity.
  - split; [intros c Hc; by apply elem_of_nil in Hc|intros c Hc; by apply elem_of_nil in Hc|done].
Defined.

Lemma make_bundle_ok_witness :
  bundle_ok sample_bundle ∧ bundle_material sample_bundle = bundle_material sample_parts ∧
  (bundle_digest sample_parts = "" ∨ bundle_digest sample_parts = bundle_digest sample_bundle)%string ∧
  make_bundle sample_bundle = Ok sample_bundle.
Proof. apply make_bundle_ok. vm_compute. reflexivity. Defined.
