(* ===== verification/MigrationCrash.v ===== *)
(** * Migrations that are interrupted

    Whatever the collaborators of an execution do or raise, and wherever it is
    killed, the history of its id in the in-memory recorder stays one from which
    a later execution resumes: checkpoints are only appended, numbered upwards,
    a step is recorded once, and nothing follows a completion. *)
From S2P Require Import Prelude PyTime Sha256 Canonical Errors OutboxModel Runner MigrationModel Migration MigrationRun.

(** ** Histories *)
Record recorded (bundle : MigrationBundleV1) (h : list MigrationCheckpoint) : Prop := {
  hi_bundle c : c ∈ h → ck_bundle_digest c = bundle_digest bundle;
  hi_sequence : StronglySorted Z.lt (map ck_sequence h);
  hi_positive c : c ∈ h → 0 ≤ ck_sequence c;
  hi_steps : NoDup (omap completed_step h);
  hi_completed l1 c l2 : h = l1 ++ c :: l2 → ck_state c = MIGRATED → l2 = [];
}.

Definition unfinished (h : list MigrationCheckpoint) : Prop := ∀ c, c ∈ h → ck_state c ≠ MIGRATED.

Lemma recorded_nil bundle : recorded bundle [].
Proof.
  split; try by intros c ?%elem_of_nil.
  - constructor.
  - constructor.
  - intros [|? l1] c l2; discriminate.
Qed.

Lemma recorded_snoc bundle h c :
  recorded bundle h → unfinished h → ck_bundle_digest c = bundle_digest bundle → 0 ≤ ck_sequence c →
  (∀ c', c' ∈ h → ck_sequence c' < ck_sequence c) → (∀ id, completed_step c = Some id → id ∉ omap completed_step h) →
  recorded bundle (h ++ [c]).
Proof.
  intros [Hb Hs Hp Hn _] Hopen Hd H0 Hlt Hid. split.
  - intros c' [?| ->%list_elem_of_singleton]%elem_of_app; auto.
  - rewrite map_app. apply StronglySorted_app_2; [|done|repeat constructor].
    intros x y (c' & -> & Hc')%list_elem_of_fmap ->%list_elem_of_singleton. auto.
  - intros c' [?| ->%list_elem_of_singleton]%elem_of_app; auto.
  - rewrite omap_app. apply NoDup_app. split; [done|]. cbn. destruct (completed_step c) as [id|] eqn:E.
    + split; [|apply NoDup_singleton]. intros x Hx ->%list_elem_of_singleton. by apply (Hid id).
    + split; [|constructor]. intros x _ ?%elem_of_nil. done.
  - intros l1 c' l2 Heq Hst. destruct l2 as [|c2 l2 _] using rev_ind; [done|].
    rewrite app_comm_cons, app_assoc in Heq. apply app_inj_tail in Heq as [Heq _].
    exfalso. apply (Hopen c'); [|done]. rewrite Heq. apply elem_of_app. right. left.
Qed.

(** An unfinished history can be resumed. *)
Lemma recorded_resumable bundle h : recorded bundle h → unfinished h → resumable bundle h.
Proof.
  intros [Hb _ Hp _ _] Hopen. split; [done..|]. intros c Hc. apply last_Some_elem_of in Hc. specialize (Hp c Hc). lia.
Qed.

Section crash.
Context {A X : Type} (sink : EvidenceSink X) (inner : migration_hooks A X) (lock_duration : timedelta).
Context (ref owner run_id : string) (bundle : MigrationBundleV1) (poll : cancelled_poll X).
Context (Hdistinct : NoDup (map st_step_id (steps bundle))).
Abbreviation W := (recorder_state * X)%type.
Abbreviation hooks := (migration_beside inner).
Abbreviation token := (lift_snd poll : cancelled_poll W).
#[local] Instance beside : EvidenceSink W := sink_beside sink.
Abbreviation history s := (default [] (s !! run_id)).

(** ** Computations that leave the recorder alone *)
Definition still {B} (m : M W B) : Prop := ∀ s x, wp m (λ _ w, w.1 = s) (s, x).
Definition quiet {B} (m : M (locals * W) B) : Prop :=
  ∀ l s x, wp m (λ _ lw, sequence lw.1 = sequence l ∧ lw.2.1 = s) (l, (s, x)).

Lemma still_inner {B} (m : M X B) : still (lift_snd m).
Proof. intros s x. apply wp_lift_snd_run. destruct (m x) as [r x'] eqn:E. by eapply wp_eq. Qed.
Lemma still_res {B} (r : res B) : still (lift_res r).
Proof. intros s x. by apply wp_lift_res. Qed.
Lemma still_bind {B C} (m : M W B) (k : B → M W C) : still m → (∀ b, still (k b)) → still (bind m k).
Proof.
  intros Hm Hk s x. apply wp_bind. eapply wp_mono; [apply Hm|]. intros [b|e] [s' x'] Hs; cbn in Hs; subst s'; [apply Hk|done].
Qed.
Lemma still_for {B C} (l : list B) (c : C) (body : C → B → M W C) : (∀ c b, still (body c b)) → still (for_list l c body).
Proof.
  intros Hb. revert c. induction l as [|b l IH]; intros c; [intros s x; by apply wp_ret|].
  cbn [for_list]. by apply still_bind.
Qed.
Lemma quiet_lift {B} (m : M W B) : still m → quiet (lift_snd m).
Proof. intros Hm l s x. apply wp_lift_snd_run. eapply wp_mono; [apply Hm|]. by intros r [s' x'] Hs. Qed.
Lemma quiet_res {B} (r : res B) : quiet (lift_res r).
Proof. intros l s x. by apply wp_lift_res. Qed.
Lemma quiet_locals f : (∀ l, sequence (f l) = sequence l) → quiet (set_locals f).
Proof. intros Hf l s x. apply wp_set_locals. cbn. auto. Qed.

Lemma still_cancelled : still (raise_if_cancelled token).
Proof. apply still_bind; [apply still_inner|]. intros []; apply still_res. Qed.
Lemma still_never : still (raise_if_cancelled (W := W) never_cancelled).
Proof. apply still_bind; [apply (still_res (Ok _))|]. intros []; apply still_res. Qed.
Lemma still_unexpired y message : still (check_unexpired hooks y message).
Proof. apply still_bind; [apply still_inner|]. intros d. apply still_bind; [apply still_res|]. intros t. apply still_res. Qed.
Lemma still_conditions conditions t : still (raise_if_cancelled t) → still (run_conditions hooks conditions t).
Proof.
  intros Ht. apply still_for. intros c b. apply still_bind; [exact Ht|]. intros _. apply still_bind; [apply still_inner|].
  intros o. destruct (vo_passed o); [apply (still_res (Ok _))|apply (still_res (Raise _))].
Qed.
Lemma still_evidence state details : still (migration_evidence hooks ref state details).
Proof.
  apply still_bind; [apply still_inner|]. intros now. apply still_bind; [apply still_res|]. intros e. apply still_inner.
Qed.

(** A quiet computation is run, and either the next one or the end follows. *)
Lemma wp_quiet {B C} (m : M (locals * W) B) (k : B → M (locals * W) C) (Q : res C → locals * W → Prop) l s x :
  quiet m → (∀ e l' x', sequence l' = sequence l → Q (Raise e) (l', (s, x'))) →
  (∀ b l' x', sequence l' = sequence l → wp (k b) Q (l', (s, x'))) → wp (bind m k) Q (l, (s, x)).
Proof.
  intros Hm HQ Hk. apply wp_bind. eapply wp_mono; [apply Hm|].
  intros [b|e] [l' [s' x']] [Hl Hs]; cbn in Hl, Hs; subst s'; auto.
Qed.

(** ** The history during the execution

    [past] was recorded before; [ids] are the steps recorded so far, [n] is the
    number of the next checkpoint.  The history is open, or closed by a
    completion whose number the handler of failures would use again. *)
Context (s0 : recorder_state) (past : list MigrationCheckpoint).

Definition kept (h : list MigrationCheckpoint) (s : recorder_state) : Prop :=
  history s = h ∧ recorded bundle h ∧ (∃ new, h = past ++ new) ∧ ∀ id, id ≠ run_id → s !! id = s0 !! id.
Definition open_at (ids : list string) (n : Z) (s : recorder_state) : Prop :=
  ∃ h, kept h s ∧ unfinished h ∧ (∀ c, c ∈ h → ck_sequence c < n) ∧ omap completed_step h = ids.
Definition closed_at (n : Z) (s : recorder_state) : Prop :=
  ∃ h c, kept h s ∧ last h = Some c ∧ ck_state c = MIGRATED ∧ ck_sequence c = n.

Definition step_ids (state : MigrationState) (step : option AppliedMigrationStep) : list string :=
  match state, step with APPLYING, Some a => [ap_step_id a] | _, _ => [] end.

Lemma record_wp state n step failure s x (Q : res unit → W → Prop) :
  (∀ e x', Q (Raise e) (s, x')) →
  (∀ c x', ck_bundle_digest c = bundle_digest bundle → ck_state c = state → ck_sequence c = n →
     ck_step_id c = ap_step_id <$> step → 0 ≤ n → (∀ c', last (history s) = Some c' → ck_sequence c' < n) →
     Q (Ok ()) (<[run_id := history s ++ [c]]> s, x')) →
  wp (record_checkpoint hooks run_id bundle state n step failure) Q (s, x).
Proof.
  intros HQ Hok. unfold record_checkpoint. apply wp_bind. eapply wp_mono; [apply still_inner|].
  intros [now|e] [s' x'] Hs; cbn in Hs; subst s'; [|apply HQ]. apply wp_bind, wp_lift_res.
  destruct (make_migration_checkpoint _ _ _ _ _ _ _ _ _) as [c|e] eqn:Hc; [|apply HQ].
  unfold make_migration_checkpoint in Hc. apply res_bind_ok in Hc as ([] & H0 & Hc). apply raise_if_ok in H0. simplify_bool.
  do 2 apply res_bind_ok in Hc as (? & _ & Hc). apply res_bind_ok in Hc as (t & _ & Hc). injection Hc as <-.
  cbn [recorder_append recorder_beside]. apply wp_lift_fst.
  match goal with |- wp (memory_append ?c) _ _ => destruct (memory_append c s) as [r s'] eqn:Hm; specialize (Hok c x') end.
  eapply wp_eq; [exact Hm|]. unfold memory_append in Hm. cbn [ck_execution_id ck_sequence] in Hm.
  destruct (last (history s)) as [c'|] eqn:Hlast.
  - destruct (Z.leb_spec n (ck_sequence c')); injection Hm as <- <-; [apply HQ|].
    apply Hok; try done. by intros ? [= <-].
  - injection Hm as <- <-. by apply Hok.
Qed.

(** The history after a checkpoint. *)
Lemma kept_snoc h s c :
  kept h s → unfinished h → ck_bundle_digest c = bundle_digest bundle → 0 ≤ ck_sequence c →
  (∀ c', c' ∈ h → ck_sequence c' < ck_sequence c) → (∀ id, completed_step c = Some id → id ∉ omap completed_step h) →
  kept (h ++ [c]) (<[run_id := history s ++ [c]]> s).
Proof.
  intros (Hh & Hrec & [new Hnew] & Hoth) Hopen Hb H0 Hlt Hid. split; [|split; [|split]].
  - by rewrite lookup_insert_eq, Hh.
  - by apply recorded_snoc.
  - exists (new ++ [c]). by rewrite Hnew, app_assoc.
  - intros id Hne. rewrite lookup_insert_ne by done. by apply Hoth.
Qed.

Lemma stage_safe ids state step l s x (Q : res unit → locals * W → Prop) :
  open_at ids (sequence l) s → state ≠ MIGRATED → (∀ id, id ∈ step_ids state step → id ∉ ids) →
  (∀ e l' s' x', open_at ids (sequence l') s' → Q (Raise e) (l', (s', x'))) →
  (∀ l' s' x', open_at (ids ++ step_ids state step) (sequence l') s' → Q (Ok ()) (l', (s', x'))) →
  wp (stage hooks run_id bundle state step) Q (l, (s, x)).
Proof.
  intros Hopen Hst Hids HQ Hok. unfold stage. apply wp_bind, wp_get_locals. cbn [fst].
  apply wp_bind, wp_lift_snd_run. apply record_wp; [by intros; apply HQ|].
  intros c x' Hb Hcst Hseq Hstep H0 _. apply wp_set_locals, Hok. destruct Hopen as (h & Hk & Hun & Hlt & Hds).
  assert (omap completed_step [c] = step_ids state step) as Hnew.
  { cbn. unfold completed_step, step_ids. rewrite Hcst, Hstep. by destruct state, step. }
  exists (h ++ [c]). split; [|split; [|split]].
  - apply kept_snoc; try done; [by rewrite Hseq|intros c' Hc'; rewrite Hseq; by apply Hlt|]. intros id Hid. rewrite Hds. apply Hids.
    rewrite <- Hnew. cbn. rewrite Hid. by left.
  - intros c' [Hc'| ->%list_elem_of_singleton]%elem_of_app; [by apply Hun|by rewrite Hcst].
  - cbn [sequence bump]. intros c' [Hc'| ->%list_elem_of_singleton]%elem_of_app; [specialize (Hlt c' Hc'); lia|lia].
  - by rewrite omap_app, Hds, Hnew.
Qed.

(** ** The stages of an execution *)
Definition safe (lw : locals * W) : Prop :=
  (∃ ids, open_at ids (sequence lw.1) lw.2.1) ∨ closed_at (sequence lw.1) lw.2.1.

Ltac quiet :=
  first [apply quiet_res|apply quiet_locals; done
        |apply quiet_lift; first [apply still_cancelled|apply still_never|apply still_unexpired|apply still_evidence
                                 |apply still_conditions; first [apply still_cancelled|apply still_never]|apply still_inner]].
(** The next statement leaves the recorder alone; its result is [b]. *)
Ltac quietly b :=
  lazymatch goal with
  | Hopen : open_at _ (sequence ?l) ?s, HQ : ∀ e lw, safe lw → _ |- wp (bind _ _) _ (?l, (?s, _)) =>
      apply wp_quiet; [quiet|intros ? ? ? E; rewrite <- E in Hopen; apply HQ; left; by eexists
                      |intros b ? ? E; rewrite <- E in Hopen; clear E]
  end.
(** The next statement is a stage. *)
Ltac staged :=
  lazymatch goal with
  | Hopen : open_at _ (sequence ?l) ?s, HQ : ∀ e lw, safe lw → _ |- wp (bind (stage _ _ _ _ _) _) _ (?l, (?s, _)) =>
      apply wp_bind; eapply stage_safe; [exact Hopen|done| |intros; apply HQ; left; by eexists|clear Hopen; intros ? ? ? Hopen]
  end.

Lemma prepare_safe ids l s x (Q : res _ → locals * W → Prop) :
  open_at ids (sequence l) s → (∀ e lw, safe lw → Q (Raise e) lw) →
  (∀ g y plan l' s' x', open_at ids (sequence l') s' → verify_compiled bundle plan = Ok () → Q (Ok (g, y, plan)) (l', (s', x'))) →
  wp (prepare hooks lock_duration ref owner run_id bundle token) Q (l, (s, x)).
Proof.
  intros Hopen HQ Hok. unfold prepare. quietly u. quietly st. quietly v. quietly outcomes. quietly u1. quietly y. quietly u2.
  quietly u3. quietly u4. quietly plan. apply wp_bind, wp_lift_res.
  destruct (verify_compiled bundle plan) as [[]|e] eqn:Hplan; [|apply HQ; left; by eexists].
  staged; [intros id ?%elem_of_nil; done|]. cbn [step_ids] in Hopen. rewrite app_nil_r in Hopen.
  quietly u5. apply wp_ret. by apply Hok.
Qed.

(** The step is in the past, or recorded now. *)
Lemma apply_one_wp y compiled ids l s x (Q : res unit → locals * W → Prop) :
  open_at ids (sequence l) s → (cs_step_id compiled ∈ ids → cs_step_id compiled ∈ omap completed_step past) →
  (∀ e lw, safe lw → Q (Raise e) lw) →
  (∀ ids' l' s' x', open_at ids' (sequence l') s' → ids' = ids ∨ ids' = ids ++ [cs_step_id compiled] → Q (Ok ()) (l', (s', x'))) →
  wp (do! lift_snd (raise_if_cancelled token) in
      do! lift_snd (check_unexpired hooks y "migration lock expired while applying the plan") in
      if bool_decide (cs_step_id compiled ∈ omap completed_step past) then ret ()
      else
        let! applied := lift_snd (apply_step hooks y compiled None) in
        do! lift_res (raise_if (negb (String.eqb (ap_step_id applied) (cs_step_id compiled)))
              (MigrationConflict "adapter acknowledged the wrong migration step")) in
        stage hooks run_id bundle APPLYING (Some applied)) Q (l, (s, x)).
Proof.
  intros Hopen Hids HQ Hok. quietly u. quietly u1. case_bool_decide as Hdone; [apply wp_ret; eapply Hok; [exact Hopen|by left]|].
  quietly applied. apply wp_bind, wp_lift_res.
  destruct (String.eqb_spec (ap_step_id applied) (cs_step_id compiled)) as [Heq|Hne]; cbn [negb raise_if];
    [|apply HQ; left; by eexists].
  eapply stage_safe; [exact Hopen|done| |intros; apply HQ; left; by eexists|]; cbn [step_ids]; rewrite Heq.
  - intros id ->%list_elem_of_singleton Hin. by apply Hdone, Hids.
  - intros l2 s2 x2 Hopen'. eapply Hok; [exact Hopen'|by right].
Qed.

Lemma apply_steps_safe y (plan : CompiledMigrationPlan A) l s x (Q : res unit → locals * W → Prop) :
  open_at (omap completed_step past) (sequence l) s → verify_compiled bundle plan = Ok () →
  (∀ e lw, safe lw → Q (Raise e) lw) → (∀ ids l' s' x', open_at ids (sequence l') s' → Q (Ok ()) (l', (s', x'))) →
  wp (apply_steps hooks run_id bundle token (omap completed_step past) y plan) Q (l, (s, x)).
Proof.
  intros Hstart Hplan HQ Hok. unfold apply_steps.
  assert (NoDup (map cs_step_id (plan_steps plan))) as Hnd.
  { unfold verify_compiled in Hplan. apply res_bind_ok in Hplan as (? & _ & Hplan).
    apply res_bind_ok in Hplan as ([] & Hids & _). apply raise_if_ok in Hids. simplify_bool. congruence. }
  apply (wp_for_list (λ rest _ lw, ∃ ids, open_at ids (sequence lw.1) lw.2.1 ∧ NoDup (map cs_step_id rest) ∧
    ∀ id, id ∈ ids → id ∈ map cs_step_id rest → id ∈ omap completed_step past)).
  - by exists (omap completed_step past).
  - intros [] [l' [s' x']] (ids & Hopen & _). by apply (Hok ids).
  - intros compiled rest [] [l1 [s1 x1]] (ids & Hopen & Hrest & Hids). cbn [fst snd] in Hopen.
    cbn [map] in Hrest, Hids. apply NoDup_cons in Hrest as [Hnot Hrest].
    apply (apply_one_wp y compiled ids); [exact Hopen|intros Hin; apply Hids; [done|by left]|exact HQ|].
    intros ids' l' s' x' Hopen' Hids'. exists ids'. split; [exact Hopen'|]. split; [done|]. intros id Hin Hin'.
    destruct Hids' as [-> | ->]; [apply Hids; [done|by right]|].
    apply elem_of_app in Hin as [Hin| ->%list_elem_of_singleton]; [apply Hids; [done|by right]|done].
Qed.

Lemma cut_over_safe ids g y l s x (Q : res ActivationResult → locals * W → Prop) :
  open_at ids (sequence l) s → (∀ e lw, safe lw → Q (Raise e) lw) →
  (∀ a ids' l' s' x', open_at ids' (sequence l') s' → Q (Ok a) (l', (s', x'))) →
  wp (cut_over hooks run_id g bundle token y) Q (l, (s, x)).
Proof.
  intros Hopen HQ Hok. unfold cut_over. staged; [intros id ?%elem_of_nil; done|]. quietly o. quietly u.
  staged; [intros id ?%elem_of_nil; done|]. quietly u1. quietly u2. quietly a. quietly u3. quietly o2. quietly u4.
  apply wp_ret. by eapply Hok.
Qed.

Lemma finish_safe ids a l s x (Q : res MigrationReport → locals * W → Prop) :
  open_at ids (sequence l) s → (∀ e lw, safe lw → Q (Raise e) lw) →
  (∀ r lw, closed_at (sequence lw.1) lw.2.1 → Q (Ok r) lw) →
  wp (finish hooks ref run_id bundle a) Q (l, (s, x)).
Proof.
  intros Hopen HQ Hok. unfold finish. apply wp_bind, wp_get_locals. cbn [fst].
  apply wp_quiet; [quiet|intros e l1 x1 E; apply HQ; left; exists ids; cbn; by rewrite E|]. intros now l1 x1 E1.
  apply wp_quiet; [quiet|intros e l2 x2 E; apply HQ; left; exists ids; cbn; by rewrite E, E1|]. intros cutover l2 x2 E2.
  rewrite E1 in E2. clear E1. apply wp_bind, wp_lift_snd_run.
  apply record_wp; [intros e x3; apply HQ; left; exists ids; cbn; by rewrite E2|]. intros c x3 Hb Hst Hseq Hstep H0 _.
  destruct Hopen as (h & Hk & Hun & Hlt & _).
  assert (closed_at (sequence l2) (<[run_id := history s ++ [c]]> s)) as Hclosed.
  { exists (h ++ [c]), c. split; [|rewrite last_snoc, E2; done]. apply kept_snoc; try done; [by rewrite Hseq|by rewrite Hseq|].
    intros id. unfold completed_step. by rewrite Hst. }
  apply wp_quiet; [quiet|intros e l4 x4 E; apply HQ; right; cbn; by rewrite E|]. intros u l4 x4 E4. rewrite <- E4 in Hclosed.
  apply wp_bind, wp_lift_snd_run. cbn [recorder_checkpoints recorder_beside]. apply wp_lift_fst.
  eapply wp_eq; [reflexivity|]. apply wp_ret, Hok. exact Hclosed.
Qed.

(** ** The whole execution *)
Definition final (lw : locals * W) : Prop := ∃ h, kept h lw.2.1 ∧ (unfinished h ∨ ∃ c, last h = Some c ∧ ck_state c = MIGRATED).

Lemma safe_final lw : safe lw → final lw.
Proof.
  intros [(ids & h & Hk & Hun & _)|(h & c & Hk & Hl & Hst & _)]; exists h; [auto|]. split; [done|]. right. by exists c.
Qed.

(** The handler of failures adds its checkpoint to an open history; to a closed
    one it cannot. *)
Lemma record_failed_wp error l s x (Q : res MigrationReport → locals * W → Prop) :
  safe (l, (s, x)) → (∀ e lw, final lw → Q (Raise e) lw) →
  wp (record_failed hooks ref run_id bundle error) Q (l, (s, x)).
Proof.
  intros Hsafe HQ. unfold record_failed. apply wp_bind, wp_get_locals. cbn [fst]. apply wp_bind, wp_lift_snd_run.
  apply record_wp; [intros e x1; by apply HQ, safe_final|]. intros c x1 Hb Hst Hseq Hstep H0 Hlast.
  destruct Hsafe as [(ids & h & Hk & Hun & Hlt & _)|(h & c0 & Hk & Hl & _ & Hc0)]; cbn [fst snd] in *.
  2:{ destruct Hk as (Hh & _). rewrite Hh in Hlast. specialize (Hlast c0 Hl). lia. }
  assert (final (l, (<[run_id := history s ++ [c]]> s, x1))) as Hfinal.
  { exists (h ++ [c]). split; [|left; intros c' [Hc'| ->%list_elem_of_singleton]%elem_of_app; [by apply Hun|by rewrite Hst]].
    apply kept_snoc; try done; [by rewrite Hseq|by rewrite Hseq|]. intros id. unfold completed_step. by rewrite Hst. }
  apply wp_quiet; [quiet|intros e l2 x2 _; apply HQ; exact Hfinal|]. intros u l2 x2 _. apply wp_raise, HQ. exact Hfinal.
Qed.

Lemma unlock_quiet : quiet (unlock hooks).
Proof.
  intros l s x. unfold unlock. apply wp_bind, wp_get_locals. cbn [fst]. destruct (lock l); [|by apply wp_ret].
  apply (quiet_lift _ (still_inner _)).
Qed.

Lemma migrate_safe l s x (Q : res MigrationReport → locals * W → Prop) :
  open_at (omap completed_step past) (sequence l) s → (∀ e lw, safe lw → Q (Raise e) lw) →
  (∀ r lw, closed_at (sequence lw.1) lw.2.1 → Q (Ok r) lw) →
  wp (migrate hooks lock_duration ref owner run_id bundle token (omap completed_step past)) Q (l, (s, x)).
Proof.
  intros Hopen HQ Hok. unfold migrate. apply wp_bind. eapply prepare_safe; [exact Hopen|exact HQ|].
  intros g y plan l1 s1 x1 H1 Hplan. apply wp_bind. eapply apply_steps_safe; [exact H1|exact Hplan|exact HQ|].
  intros ids l2 s2 x2 H2. apply wp_bind. eapply cut_over_safe; [exact H2|exact HQ|].
  intros a ids' l3 s3 x3 H3. by eapply finish_safe.
Qed.

Lemma start_open : recorded bundle past → unfinished past → history s0 = past →
  open_at (omap completed_step past) (start_of past) s0.
Proof.
  intros Hrec Hun Hh. exists past. split; [|split; [done|split; [|done]]].
  - split; [done|]. split; [done|]. split; [exists []; by rewrite app_nil_r|done].
  - intros c Hc. unfold start_of. destruct past as [|c' l _] using rev_ind; [by apply elem_of_nil in Hc|].
    rewrite last_snoc. pose proof (hi_sequence _ _ Hrec) as Hs. rewrite map_app in Hs.
    apply elem_of_app in Hc as [Hc| ->%list_elem_of_singleton]; [|lia].
    enough (ck_sequence c < ck_sequence c') by lia.
    apply StronglySorted_app in Hs as [Hs _]. apply Hs; [by apply (list_elem_of_fmap_2 ck_sequence)|by left].
Qed.

Definition ended (r : res MigrationReport) (w : W) : Prop :=
  ∃ h, kept h w.1 ∧ ((unfinished h ∧ ∀ report, r ≠ Ok report) ∨ ∃ c, last h = Some c ∧ ck_state c = MIGRATED).

Lemma final_ended e lw x : final lw → ended (Raise e) (lw.2.1, x).
Proof. intros (h & Hk & [Hun|Hc]); exists h; (split; [exact Hk|]); [by left|by right]. Qed.

Lemma unlock_safe (P : res unit → W → Prop) lw :
  (∀ r x, P r (lw.2.1, x)) → wp (unlock hooks) (λ r lw', P r lw'.2) lw.
Proof.
  destruct lw as [l [s x]]. intros HP. eapply wp_mono; [apply unlock_quiet|].
  intros r [l' [s' x']] [_ Hs]. cbn in Hs |- *. subst s'. apply HP.
Qed.

Lemma attempt_wp x :
  recorded bundle past → unfinished past → history s0 = past →
  wp (let! '(report, _) := with_locals (Locals (start_of past) None [])
        (try_finally
          (try_except (migrate hooks lock_duration ref owner run_id bundle token (omap completed_step past)) is_exception
            (record_failed hooks ref run_id bundle))
          (unlock hooks)) in
      ret report) ended (s0, x).
Proof.
  intros Hrec Hun Hpast. apply wp_bind, wp_with_locals, wp_try_finally, wp_try_except.
  assert (∀ e (P : res unit → W → Prop) lw, final lw → (∀ e w, ended (Raise e) w → P (Raise e) w) →
    (∀ w, ended (Raise e) w → P (Ok ()) w) → wp (unlock hooks) (λ r lw', P r lw'.2) lw) as Hraise.
  { intros e P lw Hfinal HP HP'. apply unlock_safe. intros [[]|e'] x'; [apply HP'|apply HP]; by apply final_ended. }
  eapply migrate_safe; [by apply start_open|..].
  - intros e lw Hsafe. destruct (is_exception e).
    + destruct lw as [l [s1 x1]]. eapply record_failed_wp; [exact Hsafe|]. intros e' lw' Hfinal.
      by apply (Hraise e' (λ r' w, match r' with Ok _ => ended (Raise e') w | Raise e0 => ended (Raise e0) w end)).
    + apply (Hraise e (λ r' w, match r' with Ok _ => ended (Raise e) w | Raise e0 => ended (Raise e0) w end)); try done.
      by apply safe_final.
  - intros r lw (h & c & Hk & Hl & Hst & _).
    apply (unlock_safe (λ r' w, match r' with Ok _ => wp (ret r) ended w | Raise e => ended (Raise e) w end)).
    intros [[]|e'] x'; [apply wp_ret|]; (exists h; split; [exact Hk|]; right; by exists c).
Qed.
End crash.

(** C13: a migration can be interrupted anywhere.  Take any collaborators that
    leave the recorder to the executor, whatever they do or raise, also when an
    exception kills the process.  If the history of an execution id is one this
    bundle leaves (in particular an empty one), then so is its history after
    another execution: checkpoints were only appended, numbered upwards and never
    reused, every step is recorded at most once over all executions, nothing
    follows a completion, and other executions are untouched.  Either the
    history is completed, or it can be resumed; a report means it is completed. *)
Theorem interrupted_migration_resumable {A X} (sink : EvidenceSink X) (inner : migration_hooks A X) lock_duration
    ref owner run_id bundle (poll : cancelled_poll X) uuid s x past :
  NoDup (map st_step_id (steps bundle)) → default [] (s !! run_id) = past →
  recorded bundle past → (unfinished past ∨ ∃ c, last past = Some c ∧ ck_state c = MIGRATED) →
  ∃ r s' x' new, execute_migration (H := recorder_beside) (H0 := sink_beside sink) (migration_beside inner) lock_duration
      ref bundle owner (Some (lift_snd poll)) (Some run_id) uuid (s, x) = (r, (s', x')) ∧
    default [] (s' !! run_id) = past ++ new ∧ recorded bundle (past ++ new) ∧ (∀ id, id ≠ run_id → s' !! id = s !! id) ∧
    ((resumable bundle (past ++ new) ∧ (∀ report, r ≠ Ok report)) ∨
     ∃ c, last (past ++ new) = Some c ∧ ck_state c = MIGRATED).
Proof.
  intros Hnd Hpast Hrec Hstate.
  assert (kept run_id bundle s past past s) as Hkept by (split; [done|split; [done|split; [exists []; by rewrite app_nil_r|done]]]).
  set (ends := ended (X := X) run_id bundle s past).
  cut (wp (execute_migration (H := recorder_beside) (H0 := sink_beside sink) (migration_beside inner) lock_duration
      ref bundle owner (Some (lift_snd poll)) (Some run_id) uuid) ends (s, x)).
  { intros (r & [s' x'] & Hrun & h & (Hh & Hrec' & [new ->] & Hoth) & Hend)%wp_run. exists r, s', x', new.
    split_and!; [done..|]. destruct Hend as [[Hun Hr]|Hend]; [left; split; [by apply recorded_resumable|done]|by right]. }
  assert (∀ e x', ends (Raise e) (s, x')) as Hearly.
  { intros e x'. exists past. split; [exact Hkept|]. destruct Hstate as [Hun|Hc]; [by left|by right]. }
  unfold execute_migration. apply wp_bind, wp_lift_res. destruct (raise_if _ _); [|apply Hearly].
  apply wp_bind, wp_lift_res. destruct (raise_if _ _); [|apply Hearly].
  apply wp_bind. cbn [default from_option id recorder_checkpoints recorder_beside]. apply wp_lift_fst. eapply wp_eq; [reflexivity|].
  cbv beta iota. rewrite Hpast. apply wp_bind, wp_lift_res. destruct (raise_if _ _); [|apply Hearly].
  apply wp_bind, wp_lift_res. destruct (existsb (λ c, bool_decide (ck_state c = MIGRATED)) past) eqn:Hm; [apply Hearly|].
  cbn [raise_if]. assert (unfinished past) as Hun.
  { intros c Hc Hst. apply not_true_iff_false in Hm. apply Hm, existsb_exists. exists c. split; [by apply list_elem_of_In|].
    by apply bool_decide_eq_true. }
  by apply attempt_wp.
Qed.

(** ** An example

    The first execution is killed while it applies the second step, the second
    one fails there, the third one completes; every step was recorded once. *)
Definition killed : migration_hooks unit nat :=
  MigrationHooks (inspect_state sample_adapter) (acquire_lock sample_adapter) (compile sample_adapter)
    (λ x st token n, if Nat.eqb n 1 then (Raise (EBase "builtins" "SystemExit" "killed"), 2%nat)
                     else if Nat.eqb n 2 then (Raise (RuntimeError "down"), 3%nat) else apply_step sample_adapter x st token n)
    (activate sample_adapter) (release_lock sample_adapter) (run_condition sample_adapter) (migration_clock sample_adapter).
Definition attempt : M (recorder_state * nat) MigrationReport :=
  execute_migration (H := recorder_beside) (H0 := sink_beside NullEvidenceSink) (migration_beside killed) 1000 "orders"
    sample_bundle "worker" (Some (lift_snd never_cancelled)) (Some "run"%string) "".
Definition attempts (n : nat) : recorder_state * nat := Nat.iter n (λ w, (attempt w).2) (∅, 0%nat).
Definition left_by (n : nat) : list (MigrationState * option string * Z) :=
  map (λ c, (ck_state c, ck_step_id c, ck_sequence c)) (default [] ((attempts n).1 !! "run"%string)).

Lemma sample_recorded : recorded sample_bundle sample_past.
Proof.
  split.
  - apply sample_resumable.
  - cbn. repeat constructor.
  - intros c. unfold sample_past. rewrite !elem_of_cons, elem_of_nil. by intros [->|[->|[->|[]]]].
  - cbn. apply NoDup_singleton.
  - intros l1 c l2 Heq Hst. exfalso. apply (re_open _ _ sample_resumable c); [|done]. rewrite Heq. apply elem_of_app. right. left.
Qed.

Lemma interrupted_migration_resumable_witness :
  (∃ r s' x' new, execute_migration (H := recorder_beside) (H0 := sink_beside NullEvidenceSink) (migration_beside killed) 1000 "orders"
      sample_bundle "worker" (Some (lift_snd never_cancelled)) (Some "run"%string) "" ({["run"%string := sample_past]}, 1%nat)
      = (r, (s', x')) ∧
    default [] (s' !! "run"%string) = sample_past ++ new ∧ recorded sample_bundle (sample_past ++ new) ∧
    (∀ id, id ≠ "run"%string → s' !! id = ({["run"%string := sample_past]} : recorder_state) !! id) ∧
    ((resumable sample_bundle (sample_past ++ new) ∧ (∀ report, r ≠ Ok report)) ∨
     ∃ c, last (sample_past ++ new) = Some c ∧ ck_state c = MIGRATED)) ∧
  left_by 1 = [(PLANNED, None, 0); (APPLYING, Some "add"%string, 1)] ∧
  left_by 2 = left_by 1 ++ [(PLANNED, None, 2); (FAILED, None, 3)] ∧
  left_by 3 = left_by 2 ++ [(PLANNED, None, 4); (APPLYING, Some "activate"%string, 5); (VALIDATING, None, 6);
                            (ACTIVATING, None, 7); (MIGRATED, None, 8)].
Proof.
  split; [|split_and!; vm_compute; reflexivity].
  apply (interrupted_migration_resumable NullEvidenceSink killed 1000 "orders" "worker" "run" sample_bundle never_cancelled "").
  - apply sample_bundle_ok.
  - reflexivity.
  - exact sample_recorded.
  - left. exact (re_open _ _ sample_resumable).
Defined.
