(* ===== verification/Rebuild.v ===== *)
(** * Projection rebuilds ([rebuild/coordinator.py])

    A rebuild scans the source into a fresh generation, catches up, validates,
    activates atomically and retains the previous generation.  The adapter's
    hooks are injected computations on a common world. *)
From S2P Require Import Prelude PyTime Sha256 Canonical Errors OutboxModel MigrationModel.

(** ** The dataclasses *)
Record RebuildPlan : Type := MkRebuildPlan {
  rb_projection : string; rb_source : string; rb_target : string;
  rb_batch_size : Z; rb_rollback_interval : timedelta }.

Definition make_rebuild_plan (p : RebuildPlan) : res RebuildPlan :=
  do? require_all [rb_projection p; rb_source p; rb_target p]
        "rebuild projection and Resources must be non-empty" in
  do? raise_if ((rb_batch_size p <? 1) || (10000 <? rb_batch_size p))
        (ValueError "rebuild batch_size must be between 1 and 10000") in
  do? raise_if (rb_rollback_interval p <=? 0) (ValueError "rollback_interval must be positive") in
  Ok p.

Record RebuildBoundary : Type := MkBoundary { boundary_id : string; boundary_fingerprint : string }.
Definition make_boundary (b : RebuildBoundary) : res RebuildBoundary :=
  do? raise_if (negb (nonempty (boundary_id b))) (ValueError "rebuild boundary_id must be non-empty") in
  do? require_sha256 (boundary_fingerprint b) "source_fingerprint" in
  Ok b.

Record RebuildGeneration : Type := MkGeneration { generation_ref : string; previous_ref : string }.
Definition make_generation (g : RebuildGeneration) : res RebuildGeneration :=
  do? require_all [generation_ref g; previous_ref g] "rebuild generation references must be non-empty" in
  do? raise_if (String.eqb (generation_ref g) (previous_ref g))
        (ValueError "rebuild generation must differ from the previous generation") in
  Ok g.

Record RebuildTailResult : Type := MkTail { applied_events : Z; final_boundary : string }.
Definition make_tail (t : RebuildTailResult) : res RebuildTailResult :=
  do? raise_if ((applied_events t <? 0) || negb (nonempty (final_boundary t)))
        (ValueError "rebuild tail result is invalid") in
  Ok t.

Record RebuildValidation : Type := MkValidation {
  rv_passed : bool; source_count : Z; target_count : Z; sampled_digest : string; report_digest : string }.
Definition make_validation (passed : pyval) (source target : Z) (sampled report : string) : res RebuildValidation :=
  let? passed := checked_bool passed ((source <? 0) || (target <? 0)) "rebuild validation counts or state are invalid" in
  do? require_digests [("sampled_digest", sampled); ("report_digest", report)] in
  Ok (MkValidation passed source target sampled report).

Record RebuildActivation : Type := MkRebuildActivation {
  ra_previous : string; ra_active : string; ra_fingerprint : string }.
Definition make_rebuild_activation (a : RebuildActivation) : res RebuildActivation :=
  do? require_all [ra_previous a; ra_active a] "rebuild activation generation references must be non-empty" in
  do? require_sha256 (ra_fingerprint a) "target_fingerprint" in
  Ok a.

Record RebuildEvidence : Type := MkRebuildEvidence {
  re_projection : string;
  re_source_boundary : string;
  re_source_fingerprint : string;
  re_target_fingerprint : string;
  re_previous_generation : string;
  re_active_generation : string;
  re_validation_digest : string;
  re_tail_events : Z;
  re_rollback_until : instant;
  re_activated_at : instant;
  re_digest : string;
}.

Definition rebuild_material (e : RebuildEvidence) : list (string * json) :=
  [("projection", JStr (re_projection e)); ("sourceBoundary", JStr (re_source_boundary e));
   ("sourceFingerprint", JStr (re_source_fingerprint e)); ("targetFingerprint", JStr (re_target_fingerprint e));
   ("previousGeneration", JStr (re_previous_generation e)); ("activeGeneration", JStr (re_active_generation e));
   ("validationReportDigest", JStr (re_validation_digest e)); ("appliedTailEvents", JInt (re_tail_events e));
   ("rollbackUntil", JStr (rfc3339 (re_rollback_until e))); ("activatedAt", JStr (rfc3339 (re_activated_at e)))].

(** [RebuildEvidence.__post_init__]: the two times and the digest as the caller
    gives them, the other fields in [e]. *)
Definition make_rebuild_evidence (e : RebuildEvidence) (rollback_until activated_at : datetime) (digest : string)
    : res RebuildEvidence :=
  do? require_nonempty
        [("projection", re_projection e); ("source_boundary", re_source_boundary e);
         ("previous_generation", re_previous_generation e); ("active_generation", re_active_generation e)] in
  do? require_digests
        [("source_fingerprint", re_source_fingerprint e); ("target_fingerprint", re_target_fingerprint e);
         ("validation_report_digest", re_validation_digest e)] in
  do? raise_if (re_tail_events e <? 0) (ValueError "applied_tail_events cannot be negative") in
  let? rollback := ensure_utc rollback_until "rollback_until" in
  let? activated := ensure_utc activated_at "activated_at" in
  let stamp h := MkRebuildEvidence (re_projection e) (re_source_boundary e) (re_source_fingerprint e)
    (re_target_fingerprint e) (re_previous_generation e) (re_active_generation e) (re_validation_digest e)
    (re_tail_events e) rollback activated h in
  let expected := sha256_digest (JObj (rebuild_material (stamp ""%string))) in
  do? raise_if (nonempty digest && negb (String.eqb digest expected))
        (ValueError "rebuild evidence digest does not match canonical content") in
  Ok (stamp expected).

Definition rebuild_to_mapping (e : RebuildEvidence) : list (pyval * pyval) :=
  items_of (JObj (dict_set "digest" (JStr (re_digest e)) (rebuild_material e))).

(** ** [RebuildHooks] and [RebuildCoordinator] *)
Abbreviation batch := (list (list (pyval * pyval))).

Record rebuild_hooks (W : Type) : Type := RebuildHooks {
  capture_boundary : RebuildPlan → M W RebuildBoundary;
  create_generation : RebuildPlan → RebuildBoundary → M W RebuildGeneration;
  scan : RebuildPlan → RebuildBoundary → M W (iter W batch);
  write : RebuildPlan → RebuildGeneration → batch → M W unit;
  tail : RebuildPlan → RebuildGeneration → RebuildBoundary → M W RebuildTailResult;
  validate : RebuildPlan → RebuildGeneration → RebuildBoundary → M W RebuildValidation;
  activate_generation : RebuildPlan → RebuildGeneration → string → M W RebuildActivation;
  retain : string → instant → M W unit;
  discard : string → M W unit;
  rebuild_clock : M W datetime;
}.
Arguments RebuildHooks {W}.
Arguments capture_boundary {W} _ _.
Arguments create_generation {W} _ _ _.
Arguments scan {W} _ _ _.
Arguments write {W} _ _ _ _.
Arguments tail {W} _ _ _ _.
Arguments validate {W} _ _ _ _.
Arguments activate_generation {W} _ _ _ _.
Arguments retain {W} _ _ _.
Arguments discard {W} _ _.
Arguments rebuild_clock {W} _.

Section coordinator.
Context {W : Type} `{EvidenceSink W} (hooks : rebuild_hooks W).

(** The loop over the scan; an iteration checks the token before the batch. *)
Definition copy_batches (plan : RebuildPlan) (token : cancelled_poll W) (generation : RebuildGeneration)
    (batches : iter W batch) : M W unit :=
  for_iter batches () (λ _ b,
    do! raise_if_cancelled token in
    do! lift_res (raise_if (rb_batch_size plan <? Z.of_nat (length b))
          (MigrationFailed "rebuild scan exceeded the configured batch size" false)) in
    write hooks plan generation b).

(** The body of the [try] up to [activation_attempted = True]. *)
Definition fill_generation (plan : RebuildPlan) (token : cancelled_poll W) (boundary : RebuildBoundary)
    (generation : RebuildGeneration) : M W (RebuildTailResult * RebuildValidation) :=
  let! batches := scan hooks plan boundary in
  do! copy_batches plan token generation batches in
  do! raise_if_cancelled token in
  let! tail := tail hooks plan generation boundary in
  do! raise_if_cancelled token in
  let! validation := validate hooks plan generation boundary in
  do! lift_res (raise_if (negb (rv_passed validation) || negb (source_count validation =? target_count validation))
        (MigrationFailed "rebuild validation failed" false)) in
  ret (tail, validation).

(** The activation, up to the time it is given. *)
Definition switch_generation (plan : RebuildPlan) (generation : RebuildGeneration) : M W (RebuildActivation * instant) :=
  let! activation := activate_generation hooks plan generation (previous_ref generation) in
  do! lift_res (raise_if (negb (String.eqb (ra_previous activation) (previous_ref generation)))
        (MigrationConflict "rebuild activation replaced an unexpected generation")) in
  do! lift_res (raise_if (negb (String.eqb (ra_active activation) (generation_ref generation)))
        (MigrationConflict "rebuild activation acknowledged the wrong generation")) in
  let! now := rebuild_clock hooks in
  let! activated_at := lift_res (ensure_utc now "activated_at") in
  ret (activation, activated_at).

(** Retention of the previous generation, and the evidence. *)
Definition retain_previous (plan : RebuildPlan) (boundary : RebuildBoundary) (tail : RebuildTailResult)
    (validation : RebuildValidation) (activation : RebuildActivation) (activated_at : instant) : M W RebuildEvidence :=
  let! rollback_until := lift_res (dt_add activated_at (rb_rollback_interval plan)) in
  do! retain hooks (ra_previous activation) rollback_until in
  let! cutover := lift_res (make_rebuild_evidence
      (MkRebuildEvidence (rb_projection plan) (final_boundary tail) (boundary_fingerprint boundary)
         (ra_fingerprint activation) (ra_previous activation) (ra_active activation) (report_digest validation)
         (applied_events tail) 0 0 "") (at_utc rollback_until) (at_utc activated_at) "") in
  do! record_evidence "projection-rebuild" (rb_projection plan) "COMPLETED" (rebuild_to_mapping cutover)
        (at_utc activated_at) in
  ret cutover.

(** The rest of the [try]. *)
Definition activate_and_retain (plan : RebuildPlan) (boundary : RebuildBoundary) (generation : RebuildGeneration)
    (tail : RebuildTailResult) (validation : RebuildValidation) : M W RebuildEvidence :=
  let! '(activation, activated_at) := switch_generation plan generation in
  retain_previous plan boundary tail validation activation activated_at.

(** The [try] with its [finally]; the local variable is [activation_attempted]. *)
Definition guarded_rebuild (plan : RebuildPlan) (token : cancelled_poll W) (boundary : RebuildBoundary)
    (generation : RebuildGeneration) : M W (RebuildEvidence * bool) :=
  with_locals false
    (try_finally
      (let! '(tail, validation) := lift_snd (fill_generation plan token boundary generation) in
       do! set_locals (λ _, true) in
       lift_snd (activate_and_retain plan boundary generation tail validation))
      (let! attempted := (get_locals : M (bool * W) bool) in
       if attempted then ret () else lift_snd (discard hooks (generation_ref generation)))).

(** [rebuild] *)
Definition rebuild (plan : RebuildPlan) (cancellation : option (cancelled_poll W)) : M W RebuildEvidence :=
  let token := default never_cancelled cancellation in
  do! raise_if_cancelled token in
  let! boundary := capture_boundary hooks plan in
  let! generation := create_generation hooks plan boundary in
  let! '(cutover, _) := guarded_rebuild plan token boundary generation in
  ret cutover.
End coordinator.
