(* ===== verification/RebuildOrder.v ===== *)
(** * What a rebuild guarantees

    The order of a rebuild's calls, for arbitrary hooks.  The log holds every
    call of the hooks, what the scan yields, and every record of the evidence
    sink. *)
From S2P Require Import Prelude PyTime Sha256 Canonical Errors OutboxModel MigrationModel CallLog Rebuild.

(** ** The order of the calls *)
Section order.
Context {W : Type} `{EvidenceSink W} (hooks : rebuild_hooks W).

Inductive rebuild_call : Type :=
| Captured (r : res RebuildBoundary)
| Created (r : res RebuildGeneration)
| Scanned (r : res (option batch))
| Wrote (g : RebuildGeneration) (b : batch) (r : res unit)
| Tailed (g : RebuildGeneration) (r : res RebuildTailResult)
| Judged (g : RebuildGeneration) (r : res RebuildValidation)
| Switched (g : RebuildGeneration) (expected : string) (r : res RebuildActivation)
| Retained (ref : string) (until : instant) (r : res unit)
| Evidenced (e : LifecycleEvidence) (r : res unit)
| Discarded (ref : string) (r : res unit).
Abbreviation log := (list rebuild_call).

Definition recorded_rebuild : rebuild_hooks (log * W) :=
  RebuildHooks
    (λ plan, recorded Captured (capture_boundary hooks plan))
    (λ plan b, recorded Created (create_generation hooks plan b))
    (λ plan b, let! it := lift_snd (scan hooks plan b) in ret (recorded_iter Scanned it))
    (λ plan g b, recorded (Wrote g b) (write hooks plan g b))
    (λ plan g b, recorded (Tailed g) (tail hooks plan g b))
    (λ plan g b, recorded (Judged g) (validate hooks plan g b))
    (λ plan g expected, recorded (Switched g expected) (activate_generation hooks plan g expected))
    (λ ref until, recorded (Retained ref until) (retain hooks ref until))
    (λ ref, recorded (Discarded ref) (discard hooks ref))
    (lift_snd (rebuild_clock hooks)).
#[local] Instance recorded_rebuild_sink : EvidenceSink (log * W) := λ e, recorded (Evidenced e) (evidence_record e).

Context (plan : RebuildPlan).

(** ** What may follow a log *)
Definition fits (b : batch) : Prop := Z.of_nat (length b) ≤ rb_batch_size plan.
Definition approved (g : RebuildGeneration) (l : log) : Prop :=
  ∃ l0 v, l = l0 ++ [Judged g (Ok v)] ∧ rv_passed v = true ∧ source_count v = target_count v.
(** The batches the scan yielded, and those that were written. *)
Definition scanned (l : log) : list batch :=
  omap (λ c, match c with Scanned (Ok (Some b)) => Some b | _ => None end) l.
Definition written (l : log) : list batch :=
  omap (λ c, match c with Wrote _ b (Ok _) => Some b | _ => None end) l.
(** The scan is exhausted and everything it yielded was written, in order. *)
Definition filled (l : log) : Prop := scanned l = written l ∧ ∃ l0, l = l0 ++ [Scanned (Ok None)].
Definition untailed (l : log) : Prop := ∀ g r, Tailed g r ∉ l.
Definition never_switched (l : log) : Prop := ∀ g e r, Switched g e r ∉ l.
Definition never_discarded (l : log) : Prop := ∀ ref r, Discarded ref r ∉ l.

Definition permitted_rebuild (l : log) (c : rebuild_call) : Prop :=
  never_discarded l ∧
  match c with
  | Captured _ => l = []
  | Created _ => ∃ b, l = [Captured (Ok b)]
  | Scanned _ => (∃ g, Created (Ok g) ∈ l) ∧ scanned l = written l ∧ untailed l
  | Wrote g b _ => Created (Ok g) ∈ l ∧ fits b ∧ scanned l = written l ++ [b] ∧ untailed l
  | Tailed g _ => Created (Ok g) ∈ l ∧ filled l
  | Judged g _ => ∃ l0 t, l = l0 ++ [Tailed g (Ok t)]
  | Switched g expected _ =>
      Created (Ok g) ∈ l ∧ expected = previous_ref g ∧ approved g l ∧ never_switched l
  | Retained ref _ _ =>
      ∃ l0 g a, l = l0 ++ [Switched g (previous_ref g) (Ok a)] ∧ ref = previous_ref g ∧
        ra_previous a = previous_ref g ∧ ra_active a = generation_ref g
  | Evidenced e _ => ev_state e = "COMPLETED"%string ∧ ∃ l0 ref until, l = l0 ++ [Retained ref until (Ok ())]
  | Discarded ref _ => never_switched l ∧ ∃ g, Created (Ok g) ∈ l ∧ ref = generation_ref g
  end.

(** Before the activation; the discard closes the log. *)
Definition discards (c : rebuild_call) : bool := match c with Discarded _ _ => true | _ => false end.
Definition filling (c : rebuild_call) : bool :=
  match c with Scanned _ | Wrote _ _ _ | Tailed _ _ | Judged _ _ => true | _ => false end.
Definition copying (c : rebuild_call) : bool := match c with Scanned _ | Wrote _ _ _ => true | _ => false end.

Abbreviation opened := (open_log permitted_rebuild discards).
Lemma opened_never l : opened l → never_discarded l.
Proof. intros Ho ref r. by apply (open_not_in permitted_rebuild discards l). Qed.
Lemma filling_open c : filling c = true → discards c = false.
Proof. by destruct c. Qed.
Lemma copying_open c : copying c = true → discards c = false.
Proof. by destruct c. Qed.
Lemma copying_filling l l' :
  grows permitted_rebuild discards copying l l' → grows permitted_rebuild discards filling l l'.
Proof.
  intros (k & -> & Hk & Ho). exists k. split; [done|]. split; [|done].
  eapply Forall_impl; [done|]. by intros [].
Qed.

Lemma scanned_snoc l c : scanned (l ++ [c]) = scanned l ++ match c with Scanned (Ok (Some b)) => [b] | _ => [] end.
Proof. unfold scanned. rewrite omap_app. by destruct c as [| |[[]|]| | | | | | |]. Qed.
Lemma batch_written_snoc l c : written (l ++ [c]) = written l ++ match c with Wrote _ b (Ok _) => [b] | _ => [] end.
Proof. unfold written. rewrite omap_app. by destruct c as [| | |? ? []| | | | | |]. Qed.
Lemma untailed_snoc l c : untailed l → (∀ g r, c ≠ Tailed g r) → untailed (l ++ [c]).
Proof. intros Hl Hc g r. rewrite elem_of_app, list_elem_of_singleton. intros [?|?]; [by eapply Hl|by eapply Hc]. Qed.

(** What holds between two batches. *)
Definition between (g : RebuildGeneration) (l : log) : Prop :=
  Created (Ok g) ∈ l ∧ scanned l = written l ∧ untailed l.

Lemma copy_triple l token g it :
  silent permitted_rebuild discards copying token → between g l →
  triple permitted_rebuild discards copying l (copy_batches recorded_rebuild plan token g (recorded_iter Scanned it))
    (λ _ l', Created (Ok g) ∈ l' ∧ filled l').
Proof.
  intros Ht Hb. unfold copy_batches.
  apply (triple_for_recorded_iter _ _ _ copying_open Scanned (λ _ l', between g l')); [done|..].
  - intros [] l1 r (Hg & Hsame & Hno) Ho. split; [by apply opened_never|]. split; [by exists g|done].
  - done.
  - intros [] l1 (Hg & Hsame & Hno). split; [by apply elem_of_app; left|]. split; [|by exists l1].
    by rewrite scanned_snoc, batch_written_snoc, !app_nil_r.
  - intros [] b l1 (Hg & Hsame & Hno). assert (Created (Ok g) ∈ l1 ++ [Scanned (Ok (Some b))]) as Hg1 by (apply elem_of_app; by left).
    skip_poll. apply triple_check. intros [] Hfits%raise_if_ok. simplify_bool.
    assert (untailed (l1 ++ [Scanned (Ok (Some b))])) as Hno1 by (by apply untailed_snoc).
    apply triple_recorded; [exact copying_open| |done|].
    + intros r Ho. split; [by apply opened_never|]. split_and!; [done|done| |done].
      by rewrite scanned_snoc, batch_written_snoc, app_nil_r, Hsame.
    + intros []. split; [apply elem_of_app; by left|]. split; [|by apply untailed_snoc].
      by rewrite !scanned_snoc, !batch_written_snoc, !app_nil_r, Hsame.
Qed.

Context (cancellation : option (cancelled_poll W)).
Abbreviation token := (default never_cancelled (lift_snd <$> cancellation)).

Lemma fill_triple l g boundary :
  between g l →
  triple permitted_rebuild discards filling l (fill_generation recorded_rebuild plan token boundary g)
    (λ _ l', approved g l').
Proof.
  intros Hb. unfold fill_generation.
  eapply triple_bind with (Q := λ b l', l' = l ∧ ∃ it, b = recorded_iter Scanned it).
  { cbn [scan recorded_rebuild]. skip_call. apply triple_ret. eauto. }
  intros ? ? _ (-> & it & ->).
  eapply triple_bind with (Q := λ _ l', Created (Ok g) ∈ l' ∧ filled l').
  { intros w. eapply wp_mono; [by apply copy_triple; [apply silent_default|]|].
    intros r lw [Hgrow HQ]. split; [by apply copying_filling|exact HQ]. }
  intros [] l1 _ [Hg1 Hfilled]. eapply triple_bind; [apply raise_if_cancelled_triple, silent_default|]. intros [] ? _ ->.
  eapply triple_bind; [apply triple_recorded with (Q := λ t l', ∃ l0, l' = l0 ++ [Tailed g (Ok t)]);
    [exact filling_open|intros r Ho; by split; [apply opened_never|]|done|intros; by eexists]|].
  intros t ? _ (l2 & ->). eapply triple_bind; [apply raise_if_cancelled_triple, silent_default|]. intros [] ? _ ->.
  eapply triple_bind; [apply triple_recorded with (Q := λ v l', ∃ l0, l' = l0 ++ [Judged g (Ok v)]);
    [exact filling_open|intros r Ho; split; [by apply opened_never|by exists l2, t]|done|intros; by eexists]|].
  intros v l3 _ (l0 & ->). apply triple_check. intros [] Hv%raise_if_ok. apply orb_false_iff in Hv as [Hp Hc].
  simplify_bool. apply triple_ret. exists l0, v. split; [done|]. split; [done|]. by apply Z.eqb_eq.
Qed.

(** What the log of a finished rebuild looks like: the generation was discarded
    last or an activation was attempted; and when evidence was returned, the log
    ends with the activation it names, the retention it names, and the record of
    completion. *)
Definition completed_rebuild (c : RebuildEvidence) (l : log) : Prop :=
  ∃ l0 g a e, l = l0 ++ [Switched g (previous_ref g) (Ok a);
                         Retained (previous_ref g) (re_rollback_until c) (Ok ()); Evidenced e (Ok ())] ∧
    re_previous_generation c = previous_ref g ∧ re_active_generation c = generation_ref g.
Definition settled (l : log) : Prop :=
  ∀ g, Created (Ok g) ∈ l →
    (∃ l0 r, l = l0 ++ [Discarded (generation_ref g) r]) ∨ (∃ r, Switched g (previous_ref g) r ∈ l).
Definition concluded (r : res RebuildEvidence) (l : log) : Prop :=
  ordered permitted_rebuild l ∧ settled l ∧ ∀ c, r = Ok c → completed_rebuild c l.

(** ** The activation and what follows it *)
Definition switched (g : RebuildGeneration) (l l' : log) : Prop :=
  opened l' ∧ (∃ r, Switched g (previous_ref g) r ∈ l') ∧ ∀ g', Created (Ok g') ∈ l' → Created (Ok g') ∈ l.

Lemma switched_snoc g l l' c :
  switched g l l' → (never_discarded l' → permitted_rebuild l' c) → discards c = false →
  (∀ g', c ≠ Created (Ok g')) → switched g l (l' ++ [c]).
Proof.
  intros (Ho & [r Hr] & Hc) Hp Hd Hn. split; [apply open_snoc; [done|by apply Hp, opened_never|done]|].
  split; [exists r; apply elem_of_app; by left|]. intros g'. rewrite elem_of_app, list_elem_of_singleton.
  intros [?|He]; [by apply Hc|]. by destruct (Hn g').
Qed.

Lemma make_rebuild_evidence_names e until at_ digest c :
  make_rebuild_evidence e (at_utc until) at_ digest = Ok c → in_range until = true →
  re_previous_generation c = re_previous_generation e ∧ re_active_generation c = re_active_generation e ∧
  re_rollback_until c = until.
Proof.
  unfold make_rebuild_evidence. intros Hc Hr. rewrite ensure_utc_at_utc in Hc by done. simplify_res. done.
Qed.

Lemma retain_ordered l0 g boundary t v a at_ l w :
  switched g l0 (l ++ [Switched g (previous_ref g) (Ok a)]) →
  ra_previous a = previous_ref g → ra_active a = generation_ref g →
  wp (retain_previous recorded_rebuild plan boundary t v a at_)
    (λ r lw, switched g l0 lw.1 ∧ ∀ c, r = Ok c → completed_rebuild c lw.1)
    (l ++ [Switched g (previous_ref g) (Ok a)], w).
Proof.
  intros Hsw Hp Ha. unfold retain_previous.
  apply wp_bind, wp_lift_res. destruct (dt_add at_ _) as [until|] eqn:Huntil; [|by split; [apply Hsw|]].
  assert (in_range until = true) as Hrange.
  { unfold dt_add in Huntil. destruct (in_range _) eqn:E; [|done]. by injection Huntil as <-. }
  rewrite Hp, Ha. apply wp_bind, wp_recorded. intros r w3.
  assert (∀ r, switched g l0 ((l ++ [Switched g (previous_ref g) (Ok a)]) ++ [Retained (previous_ref g) until r])) as Hsw2.
  { intros r'. apply switched_snoc; [done| |done|done]. intros Hno. split; [done|]. by exists l, g, a. }
  destruct r as [[]|]; [|by split; [apply Hsw2|]].
  apply wp_bind, wp_lift_res. destruct (make_rebuild_evidence _ _ _ _) as [c|] eqn:Hc; [|by split; [apply Hsw2|]].
  apply make_rebuild_evidence_names in Hc as (Hprev & Hact & Hc); [|done].
  apply wp_bind. unfold record_evidence. apply wp_bind, wp_lift_res.
  destruct (make_evidence _ _ _ _ _ _) as [e|] eqn:He; [|by split; [apply Hsw2|]].
  assert (ev_state e = "COMPLETED"%string) as Hst by (unfold make_evidence in He; by simplify_res).
  apply wp_recorded. intros r w4. cbn [fst].
  assert (∀ r, switched g l0 (((l ++ [Switched g (previous_ref g) (Ok a)]) ++ [Retained (previous_ref g) until (Ok ())]) ++
    [Evidenced e r])) as Hsw3.
  { intros r'. apply switched_snoc; [done| |done|done]. intros Hno. split; [done|]. split; [done|]. by eexists _, _, _. }
  destruct r as [[]|]; [|by split; [apply Hsw3|]]. apply wp_ret. split; [apply Hsw3|]. intros c' [= <-]. exists l, g, a, e.
  rewrite Hc. split; [by rewrite <- !app_assoc|done].
Qed.

Lemma activate_ordered g boundary t v l w :
  opened l → Created (Ok g) ∈ l → approved g l → never_switched l →
  wp (activate_and_retain recorded_rebuild plan boundary g t v)
    (λ r lw, switched g l lw.1 ∧ ∀ c, r = Ok c → completed_rebuild c lw.1) (l, w).
Proof.
  intros Ho Hg Happ Hnever. unfold activate_and_retain, switch_generation. apply wp_bind, wp_bind, wp_recorded. intros r w1.
  assert (switched g l (l ++ [Switched g (previous_ref g) r])) as Hsw.
  { split; [|split].
    - apply open_snoc; [done| |done]. split; [by apply opened_never|]. done.
    - exists r. apply in_snoc.
    - intros g'. rewrite elem_of_app, list_elem_of_singleton. by intros [?|[=]]. }
  destruct r as [a|]; [|done].
  wp_check Hp; [|done]. apply raise_if_ok in Hp. simplify_bool. wp_check Ha; [|done]. apply raise_if_ok in Ha. simplify_bool.
  apply wp_bind, wp_lift_snd. intros [now|] w2; [|done].
  apply wp_bind, wp_lift_res. destruct (ensure_utc now _) as [at_|]; [|done].
  by apply wp_ret, retain_ordered.
Qed.

(** From the creation of the generation to the end. *)
Lemma guarded_ordered boundary g w :
  opened [Captured (Ok boundary); Created (Ok g)] →
  wp (guarded_rebuild recorded_rebuild plan token boundary g)
    (λ r lw, concluded (match r with Ok (c, _) => Ok c | Raise e => Raise e end) lw.1)
    ([Captured (Ok boundary); Created (Ok g)], w).
Proof.
  set (l2 := [Captured (Ok boundary); Created (Ok g)]). intros Ho2.
  assert (∀ c, c ∈ l2 → (∃ r, c = Captured r) ∨ c = Created (Ok g)) as Hin2.
  { intros c. unfold l2. rewrite !elem_of_cons, elem_of_nil. naive_solver. }
  assert (Created (Ok g) ∈ l2) as Hg2 by (unfold l2; rewrite !elem_of_cons; auto).
  assert (between g l2) as Hb2.
  { split_and!; [done|done|]. intros g' r Hin. by destruct (Hin2 _ Hin) as [[? ?]|?]. }
  apply wp_with_locals, wp_try_finally, wp_bind, wp_lift_snd_run.
  eapply wp_mono; [by apply fill_triple|].
  intros r [l3 w4] [Hgrow HQ]. cbn in Hgrow, HQ.
  assert (opened l3) as Ho3 by (by eapply grows_open).
  assert (Created (Ok g) ∈ l3) as Hg3 by (eapply in_prefix; [by eapply grows_prefix|done]).
  assert (never_switched l3) as Hnever.
  { intros g' e' r' Hin. eapply grows_in in Hin; [|done|done]. by destruct (Hin2 _ Hin) as [[? ?]|?]. }
  assert (∀ g', Created (Ok g') ∈ l3 → g' = g) as Huniq.
  { intros g' Hin. eapply grows_in in Hin; [|done|done]. destruct (Hin2 _ Hin) as [[? ?]|[= ->]]; done. }
  destruct r as [[t v]|e].
  - apply wp_bind, wp_set_locals, wp_lift_snd_run. eapply wp_mono; [apply activate_ordered; eauto|].
    intros r [l4 w5] [(Ho4 & [r' Hsw] & Hcr) Hdone]. cbn in Ho4, Hsw, Hcr, Hdone.
    assert (concluded r l4) as Hconc.
    { split; [apply Ho4|]. split; [|done]. intros g' Hg'%Hcr%Huniq. subst g'. right. by exists r'. }
    apply wp_bind, wp_get_locals. cbn [fst]. apply wp_ret. by destruct r.
  - apply wp_bind, wp_get_locals. cbn [fst]. apply wp_lift_snd_run, wp_recorded. intros rd w5.
    assert (∀ e', concluded (Raise e') (l3 ++ [Discarded (generation_ref g) rd])).
    { intros e'. split; [apply ordered_snoc; [apply Ho3|]|split; [|done]].
      - split; [by apply opened_never|]. split; [done|]. by exists g.
      - intros g'. rewrite elem_of_app, list_elem_of_singleton. intros [Hg'|[=]]. left.
        rewrite (Huniq g' Hg'). by exists l3, rd. }
    by destruct rd.
Qed.

(** C19: whatever the hooks, the token, the clock and the sink do or raise: the
    batches of the scan are written to the generation just created, in order,
    each before the next one is asked for and only within the configured size;
    the tail is applied only when the scan is exhausted and every batch it
    yielded was written, and the validation comes directly after the tail; the
    generation is activated at most once, only directly after its validation
    passed with equal counts, and against its own previous generation; the
    previous generation is retained only directly after an activation that
    replaced it, and completion is recorded only directly after that; a rebuild
    that created a generation ends by discarding it, unless an activation was
    attempted, in which case it is never discarded; and a rebuild that returns
    evidence ended with the activation, the retention of the previous generation
    until the time in the evidence, and the record of completion. *)
Theorem rebuild_ordered w :
  let run := rebuild recorded_rebuild plan (lift_snd <$> cancellation) ([], w) in concluded run.1 run.2.1.
Proof.
  assert (∀ e l, ordered permitted_rebuild l → (∀ g, Created (Ok g) ∉ l) → concluded (Raise e) l) as Hearly.
  { intros e l Ho Hno. split; [done|]. split; [|done]. intros g Hg. by destruct (Hno g). }
  cut (wp (rebuild recorded_rebuild plan (lift_snd <$> cancellation)) (λ r lw, concluded r lw.1) ([], w)).
  { intros Hwp. apply wp_run in Hwp as (r & [l w'] & -> & Hl). exact Hl. }
  unfold rebuild. apply wp_bind, poll_wp. intros [[]|] w1; [|by apply Hearly; [constructor|intros g Hg; apply elem_of_nil in Hg]].
  apply wp_bind, wp_recorded. intros rb w2. cbn [app].
  assert (opened [Captured rb]) as Ho1.
  { apply (open_snoc _ _ []); [by split; [constructor|]| |done]. split; [|done]. intros ref r Hin. by apply elem_of_nil in Hin. }
  destruct rb as [boundary|].
  2:{ cbn [fst]. apply Hearly; [apply Ho1|]. intros g. rewrite list_elem_of_singleton. by intros [=]. }
  apply wp_bind, wp_recorded. intros rg w3. cbn [app].
  assert (opened [Captured (Ok boundary); Created rg]) as Ho2.
  { apply (open_snoc _ _ [Captured (Ok boundary)]); [done| |done]. split; [by apply opened_never|]. by exists boundary. }
  destruct rg as [g|e].
  2:{ cbn [fst]. apply Hearly; [apply Ho2|]. intros g. rewrite !elem_of_cons, elem_of_nil. by intros [[=]|[[=]|[]]]. }
  apply wp_bind. eapply wp_mono; [by apply guarded_ordered|]. intros [[c b]|e] lw Hc; [by apply wp_ret|done].
Qed.
End order.
