(* ===== verification/RebuildRun.v ===== *)
(** * Rebuilds that run to their end

    When the hooks answer, a rebuild makes exactly the calls its plan asks for
    and returns evidence with the digest of its content. *)
From S2P Require Import Prelude PyTime Sha256 Canonical Errors OutboxModel MigrationModel CallLog Rebuild RebuildOrder.

Section run.
Context {W : Type} (sink : EvidenceSink W) (hooks : rebuild_hooks W) (plan : RebuildPlan).
#[local] Existing Instance recorded_rebuild_sink.

(** The answers of the hooks, in the order they are asked. *)
Record answers : Type := Answers {
  aw_boundary : RebuildBoundary;
  aw_generation : RebuildGeneration;
  aw_batches : list batch;
  aw_tail : RebuildTailResult;
  aw_validation : RebuildValidation;
  aw_activation : RebuildActivation;
  aw_now : instant;
}.
Definition retained_until (a : answers) : instant := aw_now a + rb_rollback_interval plan.

(** A validation its constructor accepts. *)
Definition valid_verdict (v : RebuildValidation) : Prop :=
  make_validation (PBool (rv_passed v)) (source_count v) (target_count v) (sampled_digest v) (report_digest v) = Ok v.

(** The hooks give these answers, whatever the world, as the constructors of
    their values allow them and as the plan asks. *)
Record answering (a : answers) : Prop := {
  an_plan : make_rebuild_plan plan = Ok plan;
  an_valid : make_boundary (aw_boundary a) = Ok (aw_boundary a) ∧ make_generation (aw_generation a) = Ok (aw_generation a) ∧
    make_tail (aw_tail a) = Ok (aw_tail a) ∧ valid_verdict (aw_validation a) ∧
    make_rebuild_activation (aw_activation a) = Ok (aw_activation a);
  an_capture : succeeds (capture_boundary hooks plan) (λ b, b = aw_boundary a);
  an_create : succeeds (create_generation hooks plan (aw_boundary a)) (λ g, g = aw_generation a);
  an_scan : succeeds (scan hooks plan (aw_boundary a)) (λ it, it = iter_of_list (aw_batches a));
  an_fits : Forall (λ b, Z.of_nat (length b) ≤ rb_batch_size plan) (aw_batches a);
  an_write : ∀ b, succeeds (write hooks plan (aw_generation a) b) (λ _, True);
  an_tail : succeeds (tail hooks plan (aw_generation a) (aw_boundary a)) (λ t, t = aw_tail a);
  an_validate : succeeds (validate hooks plan (aw_generation a) (aw_boundary a)) (λ v, v = aw_validation a);
  an_passed : rv_passed (aw_validation a) = true ∧ source_count (aw_validation a) = target_count (aw_validation a);
  an_activate : succeeds (activate_generation hooks plan (aw_generation a) (previous_ref (aw_generation a)))
    (λ x, x = aw_activation a);
  an_switch : ra_previous (aw_activation a) = previous_ref (aw_generation a) ∧
    ra_active (aw_activation a) = generation_ref (aw_generation a);
  an_clock : succeeds (rebuild_clock hooks) (λ t, t = at_utc (aw_now a));
  an_now : in_range (aw_now a) = true;
  an_retain : succeeds (retain hooks (previous_ref (aw_generation a)) (retained_until a)) (λ _, True);
  an_sink : ∀ e, succeeds (sink e) (λ _, True);
}.

Lemma recorded_answers {B} (ev : res B → rebuild_call) (m : M W B) x (Q : res B → list rebuild_call * W → Prop) l w :
  succeeds m (λ b, b = x) → (∀ w', Q (Ok x) (l ++ [ev (Ok x)], w')) → wp (recorded ev m) Q (l, w).
Proof.
  intros Hm HQ. destruct (Hm w) as (b & w' & Hrun & ->). eapply wp_eq; [|apply (HQ w')]. unfold recorded. by rewrite Hrun.
Qed.
Lemma recorded_silent (ev : res unit → rebuild_call) (m : M W unit) (Q : res unit → list rebuild_call * W → Prop) l w :
  succeeds m (λ _, True) → (∀ w', Q (Ok ()) (l ++ [ev (Ok ())], w')) → wp (recorded ev m) Q (l, w).
Proof. intros Hm. apply recorded_answers. intros w'. destruct (Hm w') as ([] & w2 & Hrun & _). eauto. Qed.

(** The calls of a rebuild up to the activation, and all of them: each batch is
    scanned and written, and the scan is exhausted. *)
Definition copy_calls (g : RebuildGeneration) (batches : list batch) : list rebuild_call :=
  flat_map (λ b, [Scanned (Ok (Some b)); Wrote g b (Ok ())]) batches ++ [Scanned (Ok None)].
Definition calls_to_activation (a : answers) : list rebuild_call :=
  [Captured (Ok (aw_boundary a)); Created (Ok (aw_generation a))] ++
  copy_calls (aw_generation a) (aw_batches a) ++
  [Tailed (aw_generation a) (Ok (aw_tail a)); Judged (aw_generation a) (Ok (aw_validation a));
   Switched (aw_generation a) (previous_ref (aw_generation a)) (Ok (aw_activation a))].
Definition evidence_of (a : answers) (digest : string) : RebuildEvidence :=
  MkRebuildEvidence (rb_projection plan) (final_boundary (aw_tail a)) (boundary_fingerprint (aw_boundary a))
    (ra_fingerprint (aw_activation a)) (previous_ref (aw_generation a)) (generation_ref (aw_generation a))
    (report_digest (aw_validation a)) (applied_events (aw_tail a)) (retained_until a) (aw_now a) digest.
Definition full_evidence (a : answers) : RebuildEvidence :=
  evidence_of a (sha256_digest (JObj (rebuild_material (evidence_of a "")))).

(** The record of completion that the sink is given. *)
Definition evidence_details (e : RebuildEvidence) : json :=
  JObj (dict_set "digest" (JStr (re_digest e)) (rebuild_material e)).
Definition completion (a : answers) : LifecycleEvidence :=
  let details := evidence_details (full_evidence a) in
  MkEvidence "projection-rebuild" (rb_projection plan) "COMPLETED" details (aw_now a)
    (evidence_fingerprint "projection-rebuild" (rb_projection plan) "COMPLETED" details).

Definition rebuild_calls (a : answers) : list rebuild_call :=
  calls_to_activation a ++
  [Retained (previous_ref (aw_generation a)) (retained_until a) (Ok ()); Evidenced (completion a) (Ok ())].

Context (a : answers) (Ha : answering a).

Lemma plan_named : rb_projection plan ≠ ""%string.
Proof.
  pose proof (an_plan _ Ha) as Hp. unfold make_rebuild_plan, require_all in Hp.
  apply res_bind_ok in Hp as ([] & Hp%raise_if_ok & _). cbn [forallb] in Hp. simplify_bool. by apply nonempty_spec.
Qed.

Lemma evidence_made :
  in_range (retained_until a) = true →
  make_rebuild_evidence
    (MkRebuildEvidence (rb_projection plan) (final_boundary (aw_tail a)) (boundary_fingerprint (aw_boundary a))
       (ra_fingerprint (aw_activation a)) (ra_previous (aw_activation a)) (ra_active (aw_activation a))
       (report_digest (aw_validation a)) (applied_events (aw_tail a)) 0 0 "") (at_utc (retained_until a)) (at_utc (aw_now a)) "" =
  Ok (full_evidence a).
Proof.
  intros Huntil. destruct (an_valid _ Ha) as (Hb & Hg & Ht & Hv & Hx). pose proof (an_now _ Ha) as Hnow.
  destruct (an_switch _ Ha) as [-> ->].
  unfold make_boundary in Hb. apply res_bind_ok in Hb as (_ & _ & Hb). apply res_bind_ok in Hb as (? & [Hb _]%require_sha256_ok & _).
  unfold make_generation, require_all in Hg. apply res_bind_ok in Hg as (_ & Hg%raise_if_ok & _). cbn [forallb] in Hg.
  unfold make_tail in Ht. apply res_bind_ok in Ht as (_ & Ht%raise_if_ok & _).
  unfold valid_verdict, make_validation in Hv. apply res_bind_ok in Hv as (? & _ & Hv). apply res_bind_ok in Hv as ([] & Hv & _).
  cbn [require_digests] in Hv. apply res_bind_ok in Hv as (_ & _ & Hv). apply res_bind_ok in Hv as (? & [Hv _]%require_sha256_ok & _).
  unfold make_rebuild_activation in Hx. apply res_bind_ok in Hx as (_ & _ & Hx). apply res_bind_ok in Hx as (? & [Hx _]%require_sha256_ok & _).
  simplify_bool. unfold make_rebuild_evidence.
  cbn [require_nonempty require_digests re_projection re_source_boundary re_previous_generation re_active_generation
    re_source_fingerprint re_target_fingerprint re_validation_digest re_tail_events].
  unfold require_sha256. rewrite Hb, Hx, Hv. rewrite (proj2 (nonempty_spec _) plan_named).
  repeat match goal with H : nonempty _ = true |- _ => rewrite H; clear H end.
  cbn [negb raise_if res_bind]. rewrite (raise_if_intro (applied_events _ <? 0)) by (by apply Z.ltb_ge). cbn [res_bind].
  rewrite !ensure_utc_at_utc by done. reflexivity.
Qed.

Lemma rebuild_mapping_ok e : immutable_mapping (rebuild_to_mapping e) = Ok (evidence_details e).
Proof.
  unfold immutable_mapping, rebuild_to_mapping, evidence_details.
  apply (json_value_of_json (JObj _)), json_wfb_sound. unfold rebuild_material.
  generalize (rfc3339 (re_activated_at e)) (rfc3339 (re_rollback_until e)). intros activated until. reflexivity.
Qed.

(** A token that is never set. *)
Context (token : option (cancelled_poll W)) (Htoken : ∀ t w, token = Some t → t w = (Ok false, w)).
Abbreviation poll := (default never_cancelled (lift_snd <$> token)).
Abbreviation world := (list rebuild_call * W)%type.

Lemma patient_poll (Q : res unit → world → Prop) l w : Q (Ok ()) (l, w) → wp (raise_if_cancelled poll) Q (l, w).
Proof.
  intros HQ. unfold raise_if_cancelled. apply wp_bind. destruct token as [t|]; cbn [default fmap option_fmap option_map].
  - apply (wp_eq _ _ _ (Ok false) (l, w)); [cbn; by rewrite (Htoken t w eq_refl)|]. by apply wp_ret.
  - by apply wp_ret, wp_ret.
Qed.

Lemma copy_wp batches (Q : res unit → world → Prop) l w :
  Forall (λ b, Z.of_nat (length b) ≤ rb_batch_size plan) batches →
  (∀ w', Q (Ok ()) (l ++ copy_calls (aw_generation a) batches, w')) →
  wp (copy_batches (recorded_rebuild hooks) plan poll (aw_generation a) (recorded_iter Scanned (iter_of_list batches))) Q (l, w).
Proof.
  unfold copy_batches. intros Hfit. revert l w. induction Hfit as [|b batches Hb _ IH]; intros l w HQ.
  - eapply wp_eq; [reflexivity|apply HQ].
  - set (body := λ (_ : unit) (b : batch), _). set (l1 := l ++ [Scanned (Ok (Some b))]).
    assert (∀ w, wp (bind (body () b) (λ s, for_iter (recorded_iter Scanned (iter_of_list batches)) s body)) Q (l1, w)) as Hstep.
    { intros w1. apply wp_bind. unfold body at 1. apply wp_bind, patient_poll. apply wp_bind, wp_lift_res.
      rewrite raise_if_intro by (by apply Z.ltb_ge). cbn [write recorded_rebuild].
      apply recorded_silent; [apply (an_write _ Ha)|]. intros w2. apply IH. intros w3. unfold l1. rewrite <- !app_assoc. apply HQ. }
    specialize (Hstep w). apply wp_run in Hstep as (r & lw & Hrun & HQ'). eapply wp_eq; [|exact HQ'].
    rewrite <- Hrun. cbn. unfold bind. fold l1. by destruct (body () b (l1, w)) as [[[]|e] [l' w']].
Qed.

Lemma fill_wp (Q : res (RebuildTailResult * RebuildValidation) → world → Prop) l w :
  (∀ w', Q (Ok (aw_tail a, aw_validation a))
     (l ++ copy_calls (aw_generation a) (aw_batches a) ++
        [Tailed (aw_generation a) (Ok (aw_tail a)); Judged (aw_generation a) (Ok (aw_validation a))], w')) →
  wp (fill_generation (recorded_rebuild hooks) plan poll (aw_boundary a) (aw_generation a)) Q (l, w).
Proof.
  intros HQ. unfold fill_generation. apply wp_bind. cbn [scan recorded_rebuild]. apply wp_bind, wp_lift_snd_run.
  eapply succeeds_wp; [apply (an_scan _ Ha)|]. intros it w1 ->. apply wp_ret. apply wp_bind, copy_wp; [apply (an_fits _ Ha)|].
  intros w2. apply wp_bind, patient_poll. apply wp_bind. cbn [tail recorded_rebuild].
  eapply recorded_answers; [apply (an_tail _ Ha)|]. intros w3. apply wp_bind, patient_poll. apply wp_bind.
  cbn [validate recorded_rebuild]. eapply recorded_answers; [apply (an_validate _ Ha)|]. intros w4.
  destruct (an_passed _ Ha) as [Hp Hc]. apply wp_bind, wp_lift_res. rewrite Hp, Hc, Z.eqb_refl. cbn [negb orb raise_if].
  apply wp_ret. rewrite <- !app_assoc. apply HQ.
Qed.

Lemma switch_wp (Q : res (RebuildActivation * instant) → world → Prop) l w :
  (∀ w', Q (Ok (aw_activation a, aw_now a))
     (l ++ [Switched (aw_generation a) (previous_ref (aw_generation a)) (Ok (aw_activation a))], w')) →
  wp (switch_generation (recorded_rebuild hooks) plan (aw_generation a)) Q (l, w).
Proof.
  intros HQ. destruct (an_switch _ Ha) as [Hprev Hact].
  unfold switch_generation. apply wp_bind. cbn [activate_generation recorded_rebuild].
  eapply recorded_answers; [apply (an_activate _ Ha)|]. intros w1.
  apply wp_bind, wp_lift_res. rewrite Hprev, String.eqb_refl. cbn [negb raise_if].
  apply wp_bind, wp_lift_res. rewrite Hact, String.eqb_refl. cbn [negb raise_if].
  apply wp_bind. cbn [rebuild_clock recorded_rebuild]. apply wp_lift_snd_run. eapply succeeds_wp; [apply (an_clock _ Ha)|].
  intros t w2 ->. apply wp_bind, wp_lift_res. rewrite ensure_utc_at_utc by apply (an_now _ Ha). by apply wp_ret.
Qed.

Lemma retain_wp (Q : res RebuildEvidence → world → Prop) l w :
  in_range (retained_until a) = true →
  (∀ w', Q (Ok (full_evidence a)) (l ++ [Retained (previous_ref (aw_generation a)) (retained_until a) (Ok ());
     Evidenced (completion a) (Ok ())], w')) →
  wp (retain_previous (recorded_rebuild hooks) plan (aw_boundary a) (aw_tail a) (aw_validation a) (aw_activation a) (aw_now a))
    Q (l, w).
Proof.
  intros Huntil HQ. destruct (an_switch _ Ha) as [Hprev _].
  unfold retain_previous. apply wp_bind, wp_lift_res. unfold dt_add. fold (retained_until a). rewrite Huntil.
  apply wp_bind. cbn [retain recorded_rebuild]. rewrite Hprev. apply recorded_silent; [apply (an_retain _ Ha)|]. intros w3.
  apply wp_bind, wp_lift_res. pose proof (evidence_made Huntil) as Hmade. rewrite Hprev in Hmade. rewrite Hmade.
  apply wp_bind. unfold record_evidence, make_evidence. apply wp_bind, wp_lift_res.
  rewrite (proj2 (nonempty_spec _) plan_named). cbn [nonempty String.eqb negb orb raise_if res_bind].
  rewrite rebuild_mapping_ok. cbn [res_bind]. rewrite ensure_utc_at_utc by apply (an_now _ Ha).
  cbn [res_bind andb raise_if]. apply recorded_silent; [apply (an_sink _ Ha)|]. intros w4.
  apply wp_ret. rewrite <- app_assoc. apply HQ.
Qed.

(** A rebuild makes its calls up to the activation; what follows decides the
    outcome, and nothing is discarded. *)
Lemma rebuild_wp (Q : res RebuildEvidence → world → Prop) w :
  (∀ w', wp (retain_previous (recorded_rebuild hooks) plan (aw_boundary a) (aw_tail a) (aw_validation a) (aw_activation a)
       (aw_now a)) Q (calls_to_activation a, w')) →
  wp (rebuild (recorded_rebuild hooks) plan (lift_snd <$> token)) Q ([], w).
Proof.
  intros HQ. unfold rebuild. apply wp_bind, patient_poll. apply wp_bind. cbn [capture_boundary recorded_rebuild].
  eapply recorded_answers; [apply (an_capture _ Ha)|]. intros w1. apply wp_bind. cbn [create_generation recorded_rebuild].
  eapply recorded_answers; [apply (an_create _ Ha)|]. intros w2.
  apply wp_bind. unfold guarded_rebuild. apply wp_with_locals, wp_try_finally, wp_bind, wp_lift_snd_run, fill_wp. intros w3.
  apply wp_bind, wp_set_locals, wp_lift_snd_run. unfold activate_and_retain. apply wp_bind, switch_wp. intros w4.
  eapply wp_mono; [unfold calls_to_activation in HQ; rewrite <- !app_assoc; apply HQ|].
  intros r [l5 w5] Hr. apply wp_bind, wp_get_locals. cbn [fst snd]. apply wp_ret.
  destruct r as [e|e]; [by apply wp_ret|done].
Qed.

(** C20: a rebuild completes.  When the hooks answer as their values' constructors
    and the plan ask (batches within the size, a validation that passed with
    equal counts, an activation that replaced the previous generation) and the
    token is never set, a rebuild makes exactly its calls, each once and in
    order: it captures, creates, scans and writes every batch until the scan is
    exhausted, tails, validates, activates, retains the previous generation until
    the rollback interval after the activation, and records the completion;
    nothing is discarded, and the evidence returned, which is the evidence
    recorded, names these answers and carries the digest of its content. *)
Theorem rebuild_completes w :
  in_range (retained_until a) = true →
  ∃ w', rebuild (recorded_rebuild hooks) plan (lift_snd <$> token) ([], w) = (Ok (full_evidence a), (rebuild_calls a, w')).
Proof.
  intros Huntil. cut (wp (rebuild (recorded_rebuild hooks) plan (lift_snd <$> token))
    (λ r lw, r = Ok (full_evidence a) ∧ lw.1 = rebuild_calls a) ([], w)).
  { intros Hwp. apply wp_run in Hwp as (r & [l w'] & -> & -> & Hl). cbn in Hl. subst l. by exists w'. }
  apply rebuild_wp. intros w1. by apply retain_wp.
Qed.

(** C38: a rollback interval that reaches past the year 9999 is accepted by the
    plan, and the rebuild computes its limit only after the activation: it raises
    [OverflowError] when the new generation is already active.  Its calls end
    with that activation: the previous generation is not retained, the new one is
    not discarded, and the evidence sink is never called. *)
Theorem rebuild_overflow_unretained w :
  in_range (retained_until a) = false →
  ∃ w', rebuild (recorded_rebuild hooks) plan (lift_snd <$> token) ([], w) =
    (Raise date_overflow, (calls_to_activation a, w')).
Proof.
  intros Huntil. cut (wp (rebuild (recorded_rebuild hooks) plan (lift_snd <$> token))
    (λ r lw, r = Raise date_overflow ∧ lw.1 = calls_to_activation a) ([], w)).
  { intros Hwp. apply wp_run in Hwp as (r & [l w'] & -> & -> & Hl). cbn in Hl. subst l. by exists w'. }
  apply rebuild_wp. intros w1. unfold retain_previous. apply wp_bind, wp_lift_res.
  unfold dt_add. fold (retained_until a). by rewrite Huntil.
Qed.
End run.

(** ** An example *)
Module rebuild_example.
Definition plan : RebuildPlan := MkRebuildPlan "orders" "a.orders" "a.search" 2 us_per_day.
Definition print : string := sha256_digest JNull.
Definition given : answers :=
  Answers (MkBoundary "b" print) (MkGeneration "g2" "g1") [[[(PStr "id", PInt 1)]; [(PStr "id", PInt 2)]]; [[(PStr "id", PInt 3)]]]
    (MkTail 4 "c") (MkValidation true 3 3 print print) (MkRebuildActivation "g1" "g2" print) 0.
Definition hooks : rebuild_hooks unit :=
  RebuildHooks (λ _, ret (aw_boundary given)) (λ _ _, ret (aw_generation given)) (λ _ _, ret (iter_of_list (aw_batches given)))
    (λ _ _ _, ret ()) (λ _ _ _, ret (aw_tail given)) (λ _ _ _, ret (aw_validation given)) (λ _ _ _, ret (aw_activation given))
    (λ _ _, ret ()) (λ _, ret ()) (ret (at_utc 0)).

Lemma answering_plan p :
  make_rebuild_plan p = Ok p → 2 ≤ rb_batch_size p → answering NullEvidenceSink hooks p given.
Proof.
  intros Hp Hsize.
  assert (∀ B (x : B), succeeds (W := unit) (ret x) (λ y, y = x)) as Hret by (intros B x w; by exists x, w).
  assert (succeeds (W := unit) (ret ()) (λ _, True)) as Hunit by (intros w; by exists (), w).
  constructor; try exact (Hret _ _); try (intros; exact Hunit); try done.
  all: first [by split_and!; vm_compute|repeat (apply Forall_cons; split; [cbn; lia|]); constructor].
Qed.
Lemma given_answers : answering NullEvidenceSink hooks plan given.
Proof. by apply answering_plan. Qed.

(** Ten thousand years. *)
Definition forever : RebuildPlan := MkRebuildPlan "orders" "a.orders" "a.search" 2 (3652500 * us_per_day).
Lemma forever_answers : answering NullEvidenceSink hooks forever given.
Proof. by apply answering_plan. Qed.
End rebuild_example.

Lemma rebuild_completes_witness :
  ∃ w', rebuild (H := recorded_rebuild_sink (H := NullEvidenceSink)) (recorded_rebuild rebuild_example.hooks) rebuild_example.plan
      None ([], ()) =
    (Ok (full_evidence rebuild_example.plan rebuild_example.given), (rebuild_calls rebuild_example.plan rebuild_example.given, w')).
Proof.
  apply (rebuild_completes NullEvidenceSink rebuild_example.hooks rebuild_example.plan rebuild_example.given
    rebuild_example.given_answers None); [by intros t w [=]|by vm_compute].
Defined.

Lemma rebuild_overflow_unretained_witness :
  ∃ w', rebuild (H := recorded_rebuild_sink (H := NullEvidenceSink)) (recorded_rebuild rebuild_example.hooks)
      rebuild_example.forever None ([], ()) =
    (Raise date_overflow, (calls_to_activation rebuild_example.given, w')).
Proof.
  apply (rebuild_overflow_unretained NullEvidenceSink rebuild_example.hooks rebuild_example.forever rebuild_example.given
    rebuild_example.forever_answers None); [by intros t w [=]|by vm_compute].
Defined.
