(* ===== verification/PortModel.v ===== *)
(** * Logical exports ([portability/model.py])

    The frozen dataclasses of logical portability.  A constructor function
    [make_*] is the dataclass call with its [__post_init__]; [from_mapping] reads
    a record from a mapping that [json.loads] returned, whose arrays are lists. *)
From S2P Require Import Prelude PyTime Sha256 Canonical Errors OutboxModel Runner JsonParse MigrationModel.

Definition LOGICAL_EXPORT_FORMAT_VERSION : string := "meridian.logical-export.v1".
Definition export_catalogs : list string := filter (λ c, c ≠ "cache"%string) catalog_names.

Inductive ExportConsistency : Type := CONSISTENT_BOUNDARY | LIVE_READ.
Inductive MergePolicy : Type := REQUIRE_EMPTY | PRESERVE_NEWER | REPLACE.
#[export] Instance ExportConsistency_eq_dec : EqDecision ExportConsistency.
Proof. solve_decision. Defined.
Definition consistency_value (c : ExportConsistency) : string :=
  match c with CONSISTENT_BOUNDARY => "consistent-boundary" | LIVE_READ => "live-read" end.

(** [tuple(immutable_mapping(value) for value in values)] *)
Definition immutable_mappings (values : list (list (pyval * pyval))) : res (list json) :=
  res_all immutable_mapping values.

(** ** [LogicalRecord] *)
Record record_args : Type := RecordArgs {
  ra_catalog : string; ra_namespace : string; ra_resource : string; ra_schema_ref : string; ra_logical_id : string;
  ra_version : version; ra_values : list (pyval * pyval); ra_references : list (list (pyval * pyval)) }.

Record LogicalRecord : Type := MkLogicalRecord {
  lr_catalog : string;
  lr_namespace : string;
  lr_resource : string;
  lr_schema_ref : string;
  lr_logical_id : string;
  lr_version : version;
  lr_values : json;
  lr_references : list json;
}.

Definition make_logical_record (a : record_args) : res LogicalRecord :=
  do? require_nonempty
        [("catalog", ra_catalog a); ("namespace", ra_namespace a); ("resource", ra_resource a);
         ("schema_ref", ra_schema_ref a); ("logical_id", ra_logical_id a)] in
  do? raise_if (String.eqb (ra_catalog a) "cache") (ValueError "cache state is excluded from logical export") in
  do? raise_if (negb (bool_decide (ra_catalog a ∈ export_catalogs)))
        (ValueError ("unknown export Catalog " +:+ py_repr (ra_catalog a))) in
  do? raise_if (match ra_version a with VBool _ => true | _ => false end)
        (ValueError "logical version must be a string or integer") in
  let? values := immutable_mapping (ra_values a) in
  let? references := immutable_mappings (ra_references a) in
  Ok (MkLogicalRecord (ra_catalog a) (ra_namespace a) (ra_resource a) (ra_schema_ref a) (ra_logical_id a)
        (ra_version a) values references).

Definition logical_to_mapping (r : LogicalRecord) : json :=
  JObj [("catalog", JStr (lr_catalog r)); ("namespace", JStr (lr_namespace r)); ("resource", JStr (lr_resource r));
        ("schemaRef", JStr (lr_schema_ref r)); ("logicalId", JStr (lr_logical_id r));
        ("version", version_json (Some (lr_version r))); ("values", lr_values r);
        ("objectReferences", JArr (lr_references r))].

(** The items of every element, if all are mappings. *)
Fixpoint as_mappings (l : list pyval) : option (list (list (pyval * pyval))) :=
  match l with
  | [] => Some []
  | PMapping items :: l' => cons items <$> as_mappings l'
  | _ => None
  end.

Definition get_str (name : string) (value : list (pyval * pyval)) : option string :=
  match mapping_get name value with Some (PStr s) => Some s | _ => None end.

(** [LogicalRecord.from_mapping] *)
Definition logical_from_mapping (value : list (pyval * pyval)) : res LogicalRecord :=
  let? references := match mapping_get "objectReferences" value with
                     | Some (PSequence l) =>
                         match as_mappings l with
                         | Some references => Ok references
                         | None => Raise (ValueError "objectReferences must be an array of mappings")
                         end
                     | _ => Raise (ValueError "objectReferences must be an array of mappings")
                     end in
  let? values := match mapping_get "values" value with
                 | Some (PMapping items) => Ok items
                 | _ => Raise (ValueError "logical Record values must be a mapping")
                 end in
  let? version := match as_version (mapping_get "version" value) with
                  | Some v => Ok v
                  | None => Raise (ValueError "logical Record version must be a string or integer")
                  end in
  match get_str "catalog" value, get_str "namespace" value, get_str "resource" value, get_str "schemaRef" value,
        get_str "logicalId" value with
  | Some catalog, Some namespace, Some resource, Some schema_ref, Some logical_id =>
      make_logical_record (RecordArgs catalog namespace resource schema_ref logical_id version values references)
  | _, _, _, _, _ => Raise (ValueError "logical Record identity fields must be strings")
  end.

(** ** Boundaries, metadata, partitions *)
Record ExportBoundary : Type := MkExportBoundary {
  xb_id : string; xb_consistency : ExportConsistency; xb_start : string; xb_end : string }.

Definition make_export_boundary (b : ExportBoundary) : res ExportBoundary :=
  do? require_all [xb_id b; xb_start b; xb_end b] "export boundary fields must be non-empty" in
  do? raise_if (bool_decide (xb_consistency b = CONSISTENT_BOUNDARY) && negb (String.eqb (xb_start b) (xb_end b)))
        (ValueError "a consistent export must use one start/end watermark") in
  Ok b.

Definition boundary_to_mapping (b : ExportBoundary) : json :=
  JObj [("boundaryId", JStr (xb_id b)); ("consistency", JStr (consistency_value (xb_consistency b)));
        ("startWatermark", JStr (xb_start b)); ("endWatermark", JStr (xb_end b))].

Record ExportMetadata : Type := MkMetadata {
  md_namespaces : list json; md_schemas : list json; md_resources : list json; md_extensions : json }.

(** The check of one resource; a sequence given for its Catalog is a list.
    [repr] of a value that is no string is a parameter of the message only. *)
Definition check_resource (repr : pyval → string) (resource : list (pyval * pyval)) : res unit :=
  match mapping_get "catalog" resource with
  | None | Some PNone => Ok ()
  | Some (PStr catalog) =>
      do? raise_if (String.eqb catalog "cache") (ValueError "cache resources are excluded from logical export") in
      raise_if (negb (bool_decide (catalog ∈ export_catalogs)))
        (ValueError ("unknown export Resource Catalog " +:+ py_repr catalog))
  | Some (PMapping _) => Raise (TypeError "unhashable type: 'dict'")
  | Some (PSequence _) => Raise (TypeError "unhashable type: 'list'")
  | Some v => Raise (ValueError ("unknown export Resource Catalog " +:+ repr v))
  end.

Fixpoint check_resources (repr : pyval → string) (resources : list (list (pyval * pyval))) : res unit :=
  match resources with
  | [] => Ok ()
  | r :: resources' => do? check_resource repr r in check_resources repr resources'
  end.

Definition make_metadata (repr : pyval → string) (namespaces schemas resources : list (list (pyval * pyval)))
    (extensions : list (pyval * pyval)) : res ExportMetadata :=
  do? check_resources repr resources in
  let? namespaces := immutable_mappings namespaces in
  let? schemas := immutable_mappings schemas in
  let? resources := immutable_mappings resources in
  let? extensions := immutable_mapping extensions in
  Ok (MkMetadata namespaces schemas resources extensions).

Definition metadata_to_mapping (m : ExportMetadata) : json :=
  JObj [("namespaces", JArr (md_namespaces m)); ("schemas", JArr (md_schemas m));
        ("resources", JArr (md_resources m)); ("extensions", md_extensions m)].

Record PartitionManifest : Type := MkPartition {
  pm_id : string;
  pm_ref : string;
  pm_count : Z;
  pm_bytes : Z;
  pm_minimum : option string;
  pm_maximum : option string;
  pm_sha256 : string;
}.

Definition make_partition (p : PartitionManifest) : res PartitionManifest :=
  do? require_all [pm_id p; pm_ref p] "partition identity and artifact reference must be non-empty" in
  do? raise_if ((pm_count p <? 0) || (pm_bytes p <? 0))
        (ValueError "partition count and bytes cannot be negative") in
  do? raise_if ((pm_count p =? 0) && (is_some (pm_minimum p) || is_some (pm_maximum p)))
        (ValueError "empty partitions cannot have logical id bounds") in
  do? raise_if ((0 <? pm_count p) && (negb (is_some (pm_minimum p)) || negb (is_some (pm_maximum p))))
        (ValueError "non-empty partitions require logical id bounds") in
  do? raise_if ((0 <? pm_count p) && (pm_bytes p =? 0))
        (ValueError "non-empty partitions require non-zero bytes") in
  do? raise_if (match pm_minimum p, pm_maximum p with
                | Some low, Some high => negb (bool_decide (low ≤ high)%string)
                | _, _ => false
                end) (ValueError "partition logical id bounds are reversed") in
  do? require_sha256 (pm_sha256 p) "partition sha256" in
  Ok p.

Definition opt_str (s : option string) : json := match s with Some s => JStr s | None => JNull end.
Definition partition_to_mapping (p : PartitionManifest) : json :=
  JObj [("partitionId", JStr (pm_id p)); ("artifactRef", JStr (pm_ref p)); ("count", JInt (pm_count p));
        ("bytes", JInt (pm_bytes p)); ("minimumLogicalId", opt_str (pm_minimum p));
        ("maximumLogicalId", opt_str (pm_maximum p)); ("sha256", JStr (pm_sha256 p))].

(** ** The manifest *)
Record LogicalExportV1 : Type := MkExport {
  lx_metadata : ExportMetadata;
  lx_boundary : ExportBoundary;
  lx_partitions : list PartitionManifest;
  lx_export_id : string;
  lx_created_at : instant;
  lx_digest : string;
  lx_format : string;
}.

Definition export_material (x : LogicalExportV1) : list (string * json) :=
  [("formatVersion", JStr (lx_format x)); ("exportId", JStr (lx_export_id x));
   ("createdAt", JStr (rfc3339 (lx_created_at x))); ("metadata", metadata_to_mapping (lx_metadata x));
   ("boundary", boundary_to_mapping (lx_boundary x));
   ("partitions", JArr (map partition_to_mapping (lx_partitions x)))].

(** [LogicalExportV1.__post_init__] *)
Definition make_export (metadata : ExportMetadata) (boundary : ExportBoundary) (partitions : list PartitionManifest)
    (export_id : string) (created_at : datetime) (digest format : string) : res LogicalExportV1 :=
  do? raise_if (negb (String.eqb format LOGICAL_EXPORT_FORMAT_VERSION))
        (ValueError ("format_version must be " +:+ py_repr LOGICAL_EXPORT_FORMAT_VERSION)) in
  do? raise_if (negb (nonempty export_id)) (ValueError "export_id must be non-empty") in
  do? raise_if (negb (unique (map pm_id partitions))) (ValueError "partition ids must be unique") in
  let? created := ensure_utc created_at "created_at" in
  let stamp h := MkExport metadata boundary partitions export_id created h format in
  let expected := sha256_digest (JObj (export_material (stamp ""%string))) in
  do? raise_if (nonempty digest && negb (String.eqb digest expected))
        (ValueError "logical export digest does not match canonical content") in
  Ok (stamp expected).

Definition export_to_mapping (x : LogicalExportV1) : json :=
  JObj (dict_set "digest" (JStr (lx_digest x)) (export_material x)).

(** ** Requests, results and reports *)
Record ExportRequest : Type := MkRequest { rq_resources : list string; rq_batch_size : Z }.
Definition make_request (r : ExportRequest) : res ExportRequest :=
  do? raise_if (bool_decide (length (rq_resources r) = 0%nat) || negb (forallb nonempty (rq_resources r)) ||
                negb (unique (rq_resources r)))
        (ValueError "export resources must be non-empty and unique") in
  do? raise_if ((rq_batch_size r <? 1) || (10000 <? rq_batch_size r))
        (ValueError "export batch_size must be between 1 and 10000") in
  Ok r.

Record PartitionImportResult : Type := MkPartitionResult {
  pr_id : string; pr_count : Z; pr_bytes : Z; pr_sha256 : string }.
#[export] Instance PartitionImportResult_eq_dec : EqDecision PartitionImportResult.
Proof. solve_decision. Defined.
Definition make_partition_result (r : PartitionImportResult) : res PartitionImportResult :=
  do? raise_if (negb (nonempty (pr_id r)) || (pr_count r <? 0) || (pr_bytes r <? 0))
        (ValueError "partition import result fields are invalid") in
  do? require_sha256 (pr_sha256 r) "partition import sha256" in
  Ok r.

Record ImportReport : Type := MkImportReport {
  ir_export_digest : string; ir_fingerprint : string;
  ir_partitions : list PartitionImportResult; ir_comparison : string }.
Definition make_import_report (r : ImportReport) : res ImportReport :=
  do? require_digests [("export_digest", ir_export_digest r); ("target_fingerprint", ir_fingerprint r);
                       ("comparison_digest", ir_comparison r)] in
  do? raise_if (negb (unique (map pr_id (ir_partitions r))))
        (ValueError "import report partition ids must be unique") in
  Ok r.

Record RestoreValidationEvidence : Type := MkRestore {
  rs_backup : string; rs_export_digest : string; rs_fingerprint : string;
  rs_validation : string; rs_validated_at : instant }.
Definition make_restore (backup export_digest fingerprint validation : string) (validated_at : datetime)
    : res RestoreValidationEvidence :=
  do? raise_if (negb (nonempty backup)) (ValueError "backup_reference must be non-empty") in
  do? require_digests [("export_digest", export_digest); ("target_fingerprint", fingerprint);
                       ("validation_digest", validation)] in
  let? validated := ensure_utc validated_at "validated_at" in
  Ok (MkRestore backup export_digest fingerprint validation validated).

Definition restore_to_mapping (r : RestoreValidationEvidence) : list (pyval * pyval) :=
  [(PStr "backupReference", PStr (rs_backup r)); (PStr "exportDigest", PStr (rs_export_digest r));
   (PStr "targetFingerprint", PStr (rs_fingerprint r)); (PStr "validationDigest", PStr (rs_validation r));
   (PStr "validatedAt", PStr (rfc3339 (rs_validated_at r)))].
