(* ===== verification/Port.v ===== *)
(** * Exporting, importing and restoring ([portability/coordinator.py])

    The three coordinators over injected sources, sinks and targets, and the
    in-memory artifacts.  An incremental [hashlib.sha256] is the text it was fed
    with, digested when it is read. *)
From S2P Require Import Prelude PyTime Sha256 Canonical Errors OutboxModel Runner JsonParse MigrationModel PortModel.

Definition newline : string := String (ascii_of_N 10) "".

(** ** [InMemoryLogicalArtifacts] *)
Record artifacts : Type := Artifacts {
  pending : gmap Z string;
  stored_artifacts : gmap string string;
  next_handle : Z;
}.
Definition no_artifacts : artifacts := Artifacts ∅ ∅ 0.

Definition memory_begin (partition_id : string) : M artifacts pyval := λ a,
  let h := next_handle a + 1 in (Ok (PInt h), Artifacts (<[h := ""%string]> (pending a)) (stored_artifacts a) h).

(** [if not isinstance(handle, int): raise]: [True] and [False] are integers. *)
Definition int_handle (handle : pyval) : res Z :=
  match handle with
  | PInt z => Ok z
  | PBool b => Ok (Z.b2z b)
  | _ => Raise (TypeError "in-memory artifact handle must be an integer")
  end.
(** The text of the [KeyError] of a handle. *)
Definition handle_text (handle : pyval) : string :=
  match handle with PInt z => pretty z | PBool true => "True" | PBool false => "False" | _ => "" end.

Definition memory_write (handle : pyval) (chunk : string) : M artifacts unit :=
  let! h := lift_res (int_handle handle) in λ a,
  match pending a !! h with
  | None => (Raise (KeyError (handle_text handle)), a)
  | Some content => (Ok (), Artifacts (<[h := content +:+ chunk]> (pending a)) (stored_artifacts a) (next_handle a))
  end.
Definition artifact_name (partition_id content : string) : string :=
  "logical://" +:+ partition_id +:+ "/" +:+ sha256_hex content.
Definition memory_finish (handle : pyval) (partition_id : string) : M artifacts string :=
  let! h := lift_res (int_handle handle) in λ a,
  match pending a !! h with
  | None => (Raise (KeyError (handle_text handle)), a)
  | Some content =>
      let reference := artifact_name partition_id content in
      (Ok reference, Artifacts (delete h (pending a)) (<[reference := content]> (stored_artifacts a)) (next_handle a))
  end.
(** [chunks] is a generator: the lookup happens at the first [next]. *)
Definition memory_chunks (reference : string) : iter artifacts string :=
  MkIter (λ a, match stored_artifacts a !! reference with
    | None => (Raise (KeyError (py_repr reference)), a)
    | Some content =>
        if nonempty content then (Ok (Some (content, MkIter (λ a, (Ok None, a)))), a) else (Ok None, a)
    end).

(** ** [LogicalExportCoordinator] *)
Record export_hooks (Handle W : Type) : Type := ExportHooks {
  xs_begin : ExportRequest → M W ExportBoundary;
  xs_metadata : ExportRequest → ExportBoundary → M W ExportMetadata;
  xs_partition_ids : ExportRequest → ExportBoundary → M W (list string);
  xs_records : ExportRequest → ExportBoundary → string → M W (iter W (list LogicalRecord));
  xs_finish : ExportRequest → ExportBoundary → M W ExportBoundary;
  sink_begin : string → M W Handle;
  sink_write : Handle → string → M W unit;
  sink_finish : Handle → string → M W string;
  export_clock : M W datetime;
}.
Arguments ExportHooks {Handle W}.
Arguments xs_begin {Handle W} _ _.
Arguments xs_metadata {Handle W} _ _ _.
Arguments xs_partition_ids {Handle W} _ _ _.
Arguments xs_records {Handle W} _ _ _ _.
Arguments xs_finish {Handle W} _ _ _.
Arguments sink_begin {Handle W} _ _.
Arguments sink_write {Handle W} _ _ _.
Arguments sink_finish {Handle W} _ _ _.
Arguments export_clock {Handle W} _.

(** The variables of a partition's loop: the digest's input, the two counters
    and the three ids. *)
Record tally : Type := Tally {
  hashed : string; count : Z; byte_count : Z;
  minimum : option string; maximum : option string; previous : option string }.
Definition no_tally : tally := Tally "" 0 0 None None None.

(** [minimum or id] *)
Definition or_id (minimum : option string) (id : string) : option string :=
  match minimum with Some m => if nonempty m then Some m else Some id | None => Some id end.
(** [previous is not None and id <= previous] *)
Definition not_after (id : string) (previous : option string) : bool :=
  match previous with Some p => bool_decide (id ≤ p)%string | None => false end.

(** The line of a record. *)
Definition record_line (r : LogicalRecord) : string := canonical_json_bytes (logical_to_mapping r).

Definition tally_record (t : tally) (r : LogicalRecord) : tally :=
  let chunk := (record_line r +:+ newline)%string in
  Tally (hashed t +:+ chunk) (count t + 1) (byte_count t + Z.of_nat (String.length chunk))
    (or_id (minimum t) (lr_logical_id r)) (Some (lr_logical_id r)) (Some (lr_logical_id r)).

Definition hex_digest (content : string) : string := "sha256:" +:+ sha256_hex content.

Section export.
Context {Handle W : Type} `{EvidenceSink W} (hooks : export_hooks Handle W).

Definition export_record (handle : Handle) (t : tally) (r : LogicalRecord) : M W tally :=
  do! lift_res (raise_if (not_after (lr_logical_id r) (previous t))
        (ValueError "logical export records must be strictly ordered by id")) in
  do! sink_write hooks handle (record_line r +:+ newline) in
  ret (tally_record t r).

Definition export_batch (request : ExportRequest) (token : cancelled_poll W) (handle : Handle) (t : tally)
    (batch : list LogicalRecord) : M W tally :=
  do! lift_res (raise_if (rq_batch_size request <? Z.of_nat (length batch))
        (ValueError "export source exceeded the requested batch size")) in
  do! raise_if_cancelled token in
  for_list batch t (export_record handle).

Definition export_partition (request : ExportRequest) (boundary : ExportBoundary) (token : cancelled_poll W)
    (partition_id : string) : M W PartitionManifest :=
  do! raise_if_cancelled token in
  let! handle := sink_begin hooks partition_id in
  let! batches := xs_records hooks request boundary partition_id in
  let! t := for_iter batches no_tally (export_batch request token handle) in
  let! reference := sink_finish hooks handle partition_id in
  lift_res (make_partition (MkPartition partition_id reference (count t) (byte_count t) (minimum t) (maximum t)
    (hex_digest (hashed t)))).

Definition export_logical (request : ExportRequest) (cancellation : option (cancelled_poll W)) (export_id : string)
    : M W LogicalExportV1 :=
  let token := default never_cancelled cancellation in
  let! boundary := xs_begin hooks request in
  let! metadata := xs_metadata hooks request boundary in
  let! ids := xs_partition_ids hooks request boundary in
  do! lift_res (raise_if (negb (unique ids)) (ValueError "export source returned duplicate partition ids")) in
  let! manifests := map_list (export_partition request boundary token) ids in
  let! final := xs_finish hooks request boundary in
  do! lift_res (raise_if (negb (String.eqb (xb_id final) (xb_id boundary)))
        (ValueError "export source changed the boundary identity during export")) in
  do! lift_res (raise_if (negb (String.eqb (xb_start final) (xb_start boundary)))
        (ValueError "export source changed the start watermark during export")) in
  let! created := export_clock hooks in
  let! manifest := lift_res (make_export metadata final manifests export_id created "" LOGICAL_EXPORT_FORMAT_VERSION) in
  let! now := export_clock hooks in
  do! record_evidence "logical-export" (lx_export_id manifest) "COMPLETED"
        [(PStr "exportDigest", PStr (lx_digest manifest));
         (PStr "partitionCount", PInt (Z.of_nat (length (lx_partitions manifest))));
         (PStr "consistency", PStr (consistency_value (xb_consistency (lx_boundary manifest))))] now in
  ret manifest.
End export.

(** ** [LogicalImportCoordinator] *)

(** [json.loads] of bytes: text that [detect_encoding] takes for UTF-8 and that
    is UTF-8 goes to the decoder; the result on other bytes (UTF-16, UTF-32, a
    byte order mark, malformed UTF-8) is a parameter. *)
Definition byte_at (n : nat) (s : string) : Z :=
  match String.get n s with Some c => code c | None => 1 end.
Definition has_bom (s : string) : bool :=
  match byte_at 0 s, byte_at 1 s, byte_at 2 s with
  | 239, 187, 191 => true
  | 254, 255, _ | 255, 254, _ => true
  | _, _, _ => false
  end.
(** No byte order mark and no zero among the first two bytes ([detect_encoding]
    looks at them unless the length is 1 or 3). *)
Definition detects_utf8 (s : string) : bool :=
  negb (has_bom s) &&
  (bool_decide (String.length s ∈ [1; 3]%nat) || (negb (byte_at 0 s =? 0) && negb (byte_at 1 s =? 0))).

Definition continuation (z : Z) : bool := (128 <=? z) && (z <=? 191).
Fixpoint valid_utf8 (s : string) : bool :=
  match s with
  | EmptyString => true
  | String a s1 =>
      let x := code a in
      if x <? 128 then valid_utf8 s1
      else match s1 with
      | EmptyString => false
      | String b s2 =>
          let y := code b in
          if (194 <=? x) && (x <=? 223) then continuation y && valid_utf8 s2
          else match s2 with
          | EmptyString => false
          | String c s3 =>
              if (224 <=? x) && (x <=? 239) then
                continuation y && continuation (code c) &&
                (if x =? 224 then 160 <=? y else if x =? 237 then y <=? 159 else true) && valid_utf8 s3
              else match s3 with
              | EmptyString => false
              | String d s4 =>
                  (240 <=? x) && (x <=? 244) && continuation y && continuation (code c) && continuation (code d) &&
                  (if x =? 240 then 144 <=? y else if x =? 244 then y <=? 143 else true) && valid_utf8 s4
              end
          end
      end
  end.

Definition is_utf8_text (s : string) : bool := detects_utf8 s && valid_utf8 s.
Class ByteDecoder : Type := decode_other : string → res pyval.
Definition loads_bytes `{FloatParser} `{ByteDecoder} (line : string) : res pyval :=
  if is_utf8_text line then json_loads line else decode_other line.

Definition is_decode_error (e : exn) : bool :=
  match e with EPython _ q _ => bool_decide (q ∈ ["UnicodeDecodeError"; "JSONDecodeError"]%string) | _ => false end.

Record import_hooks (W : Type) : Type := ImportHooks {
  chunks : string → M W (iter W string);
  preflight : ExportMetadata → MergePolicy → M W unit;
  target_write : list LogicalRecord → MergePolicy → M W unit;
  finalize : LogicalExportV1 → M W string;
  transfer : option (json → M W string);
  import_clock : M W datetime;
}.
Arguments ImportHooks {W}.
Arguments chunks {W} _ _.
Arguments preflight {W} _ _ _.
Arguments target_write {W} _ _ _.
Arguments finalize {W} _ _.
Arguments transfer {W} _.
Arguments import_clock {W} _.

(** [LogicalImportCoordinator.__init__] *)
Definition make_importer (maximum_record_bytes : Z) : res Z :=
  do? raise_if (maximum_record_bytes <? 1024) (ValueError "maximum_record_bytes must be at least 1024") in
  Ok maximum_record_bytes.

(** [while newline in buffer: line, _, buffer = buffer.partition(newline)]: the
    complete lines of the buffer and what remains. *)
Fixpoint split_lines (s : string) : list string * string :=
  match s with
  | "" => ([], "")
  | String c s' =>
      let '(lines, rest) := split_lines s' in
      if bool_decide (c = ascii_of_N 10) then ("" :: lines, rest)
      else match lines with
           | [] => ([], String c rest)
           | l :: lines' => (String c l :: lines', rest)
           end
  end%string.

(** The variables of [_records]: those of the tally, the pending batch and the buffer. *)
Record reading : Type := Reading { rd_tally : tally; rd_batch : list LogicalRecord; rd_buffer : string }.
Definition no_reading : reading := Reading no_tally [] "".

Section import.
Context `{FloatParser} `{ByteDecoder} {W : Type} `{EvidenceSink W} (hooks : import_hooks W).
Context (maximum_record_bytes : Z).

(** The pure part of [consume]: the record of a line. *)
Definition parse_line (line : string) (previous : option string) : res LogicalRecord :=
  do? raise_if (maximum_record_bytes <? Z.of_nat (String.length line))
        (IntegrityError "logical Record exceeds maximum_record_bytes") in
  let? raw := rethrow (loads_bytes line) is_decode_error
    (IntegrityError "logical partition contains invalid NDJSON") in
  let? items := match raw with
                | PMapping items => Ok items
                | _ => Raise (IntegrityError "logical partition line must be a JSON object")
                end in
  let? record := logical_from_mapping items in
  do? raise_if (negb (String.eqb (record_line record) line))
        (IntegrityError "logical partition Record is not canonical JSON") in
  do? raise_if (not_after (lr_logical_id record) previous)
        (IntegrityError "logical partition records are not strictly ordered") in
  Ok record.

Definition transfer_reference (reference : json) : M W unit :=
  match transfer hooks with
  | None => ret ()
  | Some f =>
      let! transferred := f reference in
      lift_res (rethrow (res_map (λ _, ()) (require_sha256 transferred "object transfer digest")) is_value_error
        (IntegrityError "object transfer hook returned an invalid digest"))
  end.

(** [consume]: the digest and the bytes were counted with the chunk. *)
Definition count_record (t : tally) (r : LogicalRecord) : tally :=
  Tally (hashed t) (count t + 1) (byte_count t) (or_id (minimum t) (lr_logical_id r)) (Some (lr_logical_id r))
    (Some (lr_logical_id r)).

Definition consume (batch_size : Z) (policy : MergePolicy) (write : bool) (s : reading) (line : string) : M W reading :=
  let! record := lift_res (parse_line line (previous (rd_tally s))) in
  do! (if write then for_list (lr_references record) () (λ _, transfer_reference) else ret ()) in
  let batch := if write then rd_batch s ++ [record] else rd_batch s in
  let s' := Reading (count_record (rd_tally s) record) batch (rd_buffer s) in
  if write && (Z.of_nat (length batch) =? batch_size) then
    do! target_write hooks batch policy in
    ret (Reading (rd_tally s') [] (rd_buffer s'))
  else ret s'.

Definition consume_line (batch_size : Z) (policy : MergePolicy) (write : bool) (s : reading) (line : string) : M W reading :=
  if nonempty line then consume batch_size policy write s line else ret s.

(** The body of the loop over the chunks. *)
Definition feed (token : cancelled_poll W) (batch_size : Z) (policy : MergePolicy) (write : bool) (s : reading)
    (chunk : string) : M W reading :=
  do! raise_if_cancelled token in
  let t := rd_tally s in
  let '(lines, rest) := split_lines (rd_buffer s +:+ chunk) in
  let t := Tally (hashed t +:+ chunk) (count t) (byte_count t + Z.of_nat (String.length chunk)) (minimum t) (maximum t)
             (previous t) in
  let! s := for_list lines (Reading t (rd_batch s) rest) (consume_line batch_size policy write) in
  do! lift_res (raise_if (maximum_record_bytes <? Z.of_nat (String.length (rd_buffer s)))
        (IntegrityError "logical partition contains an oversized unterminated Record")) in
  ret s.

(** Whether what was observed is what the manifest says. *)
Definition matches_manifest (t : tally) (m : PartitionManifest) : bool :=
  (count t =? pm_count m) && (byte_count t =? pm_bytes m) && bool_decide (minimum t = pm_minimum m) &&
  bool_decide (maximum t = pm_maximum m) && String.eqb (hex_digest (hashed t)) (pm_sha256 m).

(** What follows the loop over the chunks. *)
Definition conclude_partition (policy : MergePolicy) (write : bool) (manifest : PartitionManifest) (s : reading)
    : M W PartitionImportResult :=
  do! lift_res (raise_if (nonempty (rd_buffer s))
        (IntegrityError "logical partition must end each Record with a newline")) in
  do! (if write && negb (bool_decide (length (rd_batch s) = 0%nat)) then target_write hooks (rd_batch s) policy else ret ()) in
  let t := rd_tally s in
  do! lift_res (raise_if (negb (matches_manifest t manifest))
        (IntegrityError ("partition " +:+ py_repr (pm_id manifest) +:+ " failed manifest validation"))) in
  lift_res (make_partition_result (MkPartitionResult (pm_id manifest) (count t) (byte_count t) (hex_digest (hashed t)))).

(** [_records] *)
Definition read_partition (batch_size : Z) (policy : MergePolicy) (token : cancelled_poll W) (write : bool)
    (manifest : PartitionManifest) : M W PartitionImportResult :=
  do! raise_if_cancelled token in
  let! it := chunks hooks (pm_ref manifest) in
  let! s := for_iter it no_reading (feed token batch_size policy write) in
  conclude_partition policy write manifest s.

Definition result_json (r : PartitionImportResult) : json :=
  JObj [("partitionId", JStr (pr_id r)); ("count", JInt (pr_count r)); ("bytes", JInt (pr_bytes r));
        ("sha256", JStr (pr_sha256 r))].
Definition comparison_digest (digest fingerprint : string) (results : list PartitionImportResult) : string :=
  sha256_digest (JObj [("exportDigest", JStr digest); ("targetFingerprint", JStr fingerprint);
                       ("partitions", JArr (map result_json results))]).

Definition import_export (manifest : LogicalExportV1) (policy : MergePolicy) (batch_size : Z)
    (cancellation : option (cancelled_poll W)) : M W ImportReport :=
  do! lift_res (raise_if ((batch_size <? 1) || (10000 <? batch_size))
        (ValueError "import batch_size must be between 1 and 10000")) in
  let token := default never_cancelled cancellation in
  do! raise_if_cancelled token in
  let! verified := map_list (read_partition batch_size policy token false) (lx_partitions manifest) in
  do! preflight hooks (lx_metadata manifest) policy in
  let! results := map_list (read_partition batch_size policy token true) (lx_partitions manifest) in
  do! lift_res (raise_if (negb (bool_decide (results = verified)))
        (IntegrityError "logical artifacts changed after preflight verification")) in
  let! fingerprint := finalize hooks manifest in
  do! lift_res (rethrow (res_map (λ _, ()) (require_sha256 fingerprint "target fingerprint")) is_value_error
        (IntegrityError "import target returned an invalid fingerprint")) in
  let comparison := comparison_digest (lx_digest manifest) fingerprint results in
  let! report := lift_res (make_import_report (MkImportReport (lx_digest manifest) fingerprint results comparison)) in
  let! now := import_clock hooks in
  do! record_evidence "logical-import" (lx_export_id manifest) "COMPLETED"
        [(PStr "exportDigest", PStr (lx_digest manifest)); (PStr "targetFingerprint", PStr fingerprint);
         (PStr "comparisonDigest", PStr comparison)] now in
  ret report.
End import.

(** ** [PortableRecoveryCoordinator] *)
Definition validate_restore {W} `{EvidenceSink W}
    (validate : string → LogicalExportV1 → ImportReport → M W string) (clock : M W datetime)
    (backup : string) (manifest : LogicalExportV1) (report : ImportReport) : M W RestoreValidationEvidence :=
  do! lift_res (raise_if (negb (nonempty backup)) (ValueError "backup_reference must be non-empty")) in
  do! lift_res (raise_if (negb (String.eqb (ir_export_digest report) (lx_digest manifest)))
        (IntegrityError "import report does not reference the supplied logical export")) in
  let! validation := validate backup manifest report in
  do! lift_res (rethrow (res_map (λ _, ()) (require_sha256 validation "restore validation digest")) is_value_error
        (IntegrityError "restore validation hook must return a SHA-256 digest")) in
  let! now := clock in
  let! result := lift_res (make_restore backup (lx_digest manifest) (ir_fingerprint report) validation now) in
  do! record_evidence "restore-validation" backup "VALIDATED" (restore_to_mapping result) (at_utc (rs_validated_at result)) in
  ret result.
