(* ===== verification/PortReading.v ===== *)
(** * Reading a partition ([LogicalImportCoordinator._records])

    The reader splits whatever chunks the artifact source delivers into lines.
    What it does depends on the content only, and what it holds between two
    chunks is bounded. *)
From S2P Require Import Prelude PyTime Sha256 Canonical Errors OutboxModel Runner JsonParse MigrationModel PortModel Port.

(** ** Lines *)
Definition is_newline (c : ascii) : bool := bool_decide (c = ascii_of_N 10).
Fixpoint one_line (s : string) : bool :=
  match s with EmptyString => true | String c s' => negb (is_newline c) && one_line s' end.
Definition concat_all (l : list string) : string := foldr (λ a b, a +:+ b) ""%string l.
(** Every line with its newline. *)
Definition terminated (l : list string) : string := concat_all (map (λ s, s +:+ newline) l).

Lemma append_empty (s : string) : ("" +:+ s = s)%string.
Proof. done. Qed.
Lemma concat_all_app l l' : concat_all (l ++ l') = concat_all l +:+ concat_all l'.
Proof. induction l as [|s l IH]; cbn [concat_all foldr app]; [done|]. fold (concat_all (l ++ l')). by rewrite IH, append_assoc. Qed.

Lemma one_line_app a b : one_line (a +:+ b) = one_line a && one_line b.
Proof. induction a as [|c a IH]; [done|]. rewrite append_cons. cbn [one_line]. by rewrite IH, andb_assoc. Qed.

Lemma one_line_cons c s : one_line (String c s) = true → bool_decide (c = ascii_of_N 10) = false ∧ one_line s = true.
Proof. cbn [one_line]. unfold is_newline. intros [?%negb_true_iff ?]%andb_true_iff. done. Qed.

Lemma split_one_line s : one_line s = true → split_lines s = ([], s).
Proof.
  induction s as [|c s IH]; [done|]. intros [Hc Hs]%one_line_cons. cbn [split_lines]. by rewrite (IH Hs), Hc.
Qed.

(** Splitting can be suspended anywhere. *)
Lemma split_lines_app a b :
  split_lines (a +:+ b) =
    ((split_lines a).1 ++ (split_lines ((split_lines a).2 +:+ b)).1, (split_lines ((split_lines a).2 +:+ b)).2).
Proof.
  induction a as [|c a IH]; [cbn [split_lines fst snd]; rewrite append_empty; by destruct (split_lines b)|]. rewrite append_cons. cbn [split_lines].
  rewrite IH. destruct (split_lines a) as [l1 r1]. cbn [fst snd].
  destruct (bool_decide (c = _)) eqn:Hc; [done|].
  destruct l1 as [|l l1]; cbn [app fst snd]; [|done]. rewrite append_cons. cbn [split_lines].
  destruct (split_lines (r1 +:+ b)) as [l2 r2]. cbn [fst snd]. rewrite Hc. by destruct l2.
Qed.

Lemma split_rest_one_line s : one_line (split_lines s).2 = true.
Proof.
  induction s as [|c s IH]; [done|]. cbn [split_lines]. destruct (split_lines s) as [[|l ls] r]; cbn [snd] in *;
    destruct (bool_decide (c = _)) eqn:Hc; cbn [one_line snd]; try done. unfold is_newline. by rewrite Hc.
Qed.

Lemma split_line_first l s :
  one_line l = true → split_lines (l +:+ newline +:+ s) = (l :: (split_lines s).1, (split_lines s).2).
Proof.
  induction l as [|c l IH]; intros Hl.
  - change ("" +:+ newline +:+ s) with (String (ascii_of_N 10) s). cbn [split_lines].
    by destruct (split_lines s).
  - apply one_line_cons in Hl as [Hc Hl]. rewrite append_cons. cbn [split_lines]. by rewrite (IH Hl), Hc.
Qed.

Lemma split_terminated ls s :
  Forall (λ l, one_line l = true) ls →
  split_lines (terminated ls +:+ s) = (ls ++ (split_lines s).1, (split_lines s).2).
Proof.
  induction 1 as [|l ls Hl _ IH]; [rewrite append_empty; by destruct (split_lines s)|].
  unfold terminated in *. cbn [map concat_all foldr]. fold (concat_all (map (λ s, s +:+ newline) ls)).
  rewrite !append_assoc, split_line_first by done. by rewrite IH.
Qed.

(** A line that was open when the splitting was suspended is a prefix of the
    next line, or of the rest. *)
Lemma split_open_prefix r s :
  one_line r = true →
  match (split_lines (r +:+ s)).1 with
  | l :: _ => (String.length r ≤ String.length l)%nat
  | [] => (String.length r ≤ String.length (split_lines (r +:+ s)).2)%nat
  end.
Proof.
  induction r as [|c r IH]; [rewrite append_empty; destruct (split_lines s) as [[] ?]; cbn; lia|].
  intros [Hc Hr]%one_line_cons. specialize (IH Hr). rewrite append_cons. cbn [split_lines].
  destruct (split_lines (r +:+ s)) as [[|l ls] r2]; rewrite Hc; cbn [fst snd String.length] in *; lia.
Qed.

(** ** Iterating over a list *)
Lemma for_iter_list {W A S} (l : list A) (s : S) (body : S → A → M W S) w :
  for_iter (iter_of_list l) s body w = for_list l s body w.
Proof.
  revert s w. induction l as [|x l IH]; intros s w; [done|]. cbn. unfold bind.
  destruct (body s x w) as [[s'|e] w']; [apply IH|done].
Qed.
Lemma for_list_app {W A S} (l l' : list A) (s : S) (body : S → A → M W S) w :
  for_list (l ++ l') s body w = bind (for_list l s body) (λ s', for_list l' s' body) w.
Proof.
  revert s w. induction l as [|x l IH]; intros s w; [done|]. cbn. unfold bind.
  destruct (body s x w) as [[s'|e] w']; [|done]. rewrite IH. done.
Qed.

(** ** The reader over a fixed target *)
Section reading.
Context `{FloatParser} `{ByteDecoder} {W : Type} (hooks : import_hooks W).
Context (maximum_record_bytes batch_size : Z) (policy : MergePolicy) (write : bool).
Abbreviation consume_line := (consume_line hooks maximum_record_bytes batch_size policy write).
Abbreviation feed := (feed hooks maximum_record_bytes never_cancelled batch_size policy write).
Abbreviation run_lines lines s := (for_list lines s consume_line).

(** The digest's input, the bytes and the buffer, which the lines do not touch. *)
Definition reframe (h : string) (n : Z) (b : string) (s : reading) : reading :=
  let t := rd_tally s in Reading (Tally h (count t) n (minimum t) (maximum t) (previous t)) (rd_batch s) b.
Definition own_frame (s : reading) : reading := reframe (hashed (rd_tally s)) (byte_count (rd_tally s)) (rd_buffer s) s.

Lemma own_frame_eq s : own_frame s = s.
Proof. by destruct s as [[] ? ?]. Qed.
Lemma reframe_twice h n b h' n' b' s : reframe h n b (reframe h' n' b' s) = reframe h n b s.
Proof. done. Qed.

Lemma consume_line_frame h n b s line w :
  consume_line (reframe h n b s) line w = (res_map (reframe h n b) (consume_line s line w).1, (consume_line s line w).2).
Proof.
  unfold Port.consume_line. destruct (nonempty line); [|done]. unfold consume, bind, lift_res. cbn [rd_tally reframe previous].
  destruct (parse_line maximum_record_bytes line (previous (rd_tally s))) as [r|e]; [|done].
  match goal with |- context [(if write then ?a else ?b) w] => destruct ((if write then a else b) w) as [[[]|e] w'] end;
    [|done]. cbn [rd_batch rd_buffer reframe].
  destruct (write && _); [|done]. unfold ret. by destruct (target_write hooks _ policy w') as [[[]|e] w2].
Qed.

Lemma run_lines_frame lines h n b s w :
  run_lines lines (reframe h n b s) w = (res_map (reframe h n b) (run_lines lines s w).1, (run_lines lines s w).2).
Proof.
  revert s w. induction lines as [|l lines IH]; intros s w; [done|]. cbn [for_list]. unfold bind.
  rewrite consume_line_frame. destruct (consume_line s l w) as [[s'|e] w']; [|done]. cbn [fst snd res_map]. apply IH.
Qed.

Lemma run_lines_keeps lines s w s' w' :
  run_lines lines s w = (Ok s', w') →
  hashed (rd_tally s') = hashed (rd_tally s) ∧ byte_count (rd_tally s') = byte_count (rd_tally s) ∧
  rd_buffer s' = rd_buffer s.
Proof.
  intros Hrun. pose proof (run_lines_frame lines (hashed (rd_tally s)) (byte_count (rd_tally s)) (rd_buffer s) s w) as Hf.
  change (reframe _ _ _ s) with (own_frame s) in Hf. rewrite own_frame_eq, Hrun in Hf. cbn [fst snd res_map] in Hf.
  injection Hf as Hf. by rewrite Hf.
Qed.

(** A line that was consumed is not oversized. *)
Lemma parse_line_bound line p r : parse_line maximum_record_bytes line p = Ok r → Z.of_nat (String.length line) ≤ maximum_record_bytes.
Proof. unfold parse_line. intros Hr. apply res_bind_ok in Hr as (? & Hr%raise_if_ok & _). by simplify_bool. Qed.
Lemma consumed_bound line s w s' w' :
  consume_line s line w = (Ok s', w') → 0 ≤ maximum_record_bytes → Z.of_nat (String.length line) ≤ maximum_record_bytes.
Proof.
  unfold Port.consume_line. destruct (nonempty line) eqn:Hl; [|by apply nonempty_false in Hl as ->].
  unfold consume, bind, lift_res. destruct (parse_line _ _ _) eqn:Hp; [|done]. intros _ _. by eapply parse_line_bound.
Qed.

(** Reading a chunk, in terms of its lines. *)
Definition fed (s : reading) (content buffer : string) : reading :=
  reframe (hashed (rd_tally s) +:+ content) (byte_count (rd_tally s) + Z.of_nat (String.length content)) buffer s.

Lemma feed_eq s c w :
  feed s c w =
    let '(lines, rest) := split_lines (rd_buffer s +:+ c) in
    match run_lines lines (fed s c rest) w with
    | (Ok s', w') =>
        if maximum_record_bytes <? Z.of_nat (String.length (rd_buffer s'))
        then (Raise (IntegrityError "logical partition contains an oversized unterminated Record"), w') else (Ok s', w')
    | (Raise e, w') => (Raise e, w')
    end.
Proof.
  unfold Port.feed, raise_if_cancelled, bind. cbn. destruct (split_lines _) as [lines rest].
  change (Reading (Tally (_ +:+ c) _ _ _ _ _) _ _) with (fed s c rest).
  destruct (run_lines lines (fed s c rest) w) as [[s'|e] w']; [|done]. unfold lift_res, raise_if. by destruct (_ <? _).
Qed.

(** Reading a list of chunks that all fit is consuming the lines of their
    content, and the other way round when the content ends with a newline. *)
Abbreviation feed_all cs s := (for_list cs s feed).

Lemma fed_fed s c1 c2 b1 b2 : fed (fed s c1 b1) c2 b2 = fed s (c1 +:+ c2) b2.
Proof.
  unfold fed. rewrite reframe_twice. cbn [reframe rd_tally hashed byte_count].
  rewrite append_assoc, length_app_str. f_equal. lia.
Qed.

Lemma run_lines_fed lines s s' c b w w' :
  run_lines lines s w = (Ok s', w') → run_lines lines (fed s c b) w = (Ok (fed s' c b), w').
Proof.
  intros Hrun. unfold fed at 1. rewrite run_lines_frame, Hrun. cbn [fst snd res_map].
  apply run_lines_keeps in Hrun as (Hh & Hn & _). unfold fed. by rewrite Hh, Hn.
Qed.

Lemma feed_all_runs cs s w s' w' :
  one_line (rd_buffer s) = true → feed_all cs s w = (Ok s', w') →
  let '(lines, rest) := split_lines (rd_buffer s +:+ concat_all cs) in
  run_lines lines (fed s (concat_all cs) rest) w = (Ok s', w').
Proof.
  revert s w. induction cs as [|c cs IH]; intros s w Hb Hrun.
  - cbn [concat_all foldr]. rewrite append_nil, split_one_line by done. injection Hrun as -> ->.
    destruct s' as [[] ? ?]. unfold fed, reframe. cbn. unfold ret. rewrite append_nil, Z.add_0_r. done.
  - cbn [for_list] in Hrun. unfold bind in Hrun. rewrite feed_eq in Hrun. cbn [concat_all foldr].
    fold (concat_all cs). rewrite <- append_assoc, split_lines_app.
    pose proof (split_rest_one_line (rd_buffer s +:+ c)) as Hr.
    destruct (split_lines (rd_buffer s +:+ c)) as [lines1 rest1]. cbn [fst snd] in Hr |- *.
    destruct (run_lines lines1 _ w) as [[s1|e] w1] eqn:H1; [|done].
    pose proof (run_lines_keeps _ _ _ _ _ H1) as (_ & _ & Hb1). cbn in Hb1.
    destruct (_ <? _); [done|]. apply IH in Hrun; [|by rewrite Hb1]. rewrite Hb1 in Hrun.
    destruct (split_lines (rest1 +:+ concat_all cs)) as [lines2 rest2]. cbn [fst snd].
    rewrite for_list_app. unfold bind. apply (run_lines_fed _ _ _ (concat_all cs) rest2) in H1.
    rewrite fed_fed in H1. by rewrite H1.
Qed.

Lemma runs_feed_all cs s w s' w' lines :
  0 ≤ maximum_record_bytes → one_line (rd_buffer s) = true →
  split_lines (rd_buffer s +:+ concat_all cs) = (lines, ""%string) →
  run_lines lines (fed s (concat_all cs) "") w = (Ok s', w') → feed_all cs s w = (Ok s', w').
Proof.
  intros Hmax. revert s w lines. induction cs as [|c cs IH]; intros s w lines Hb Hsplit Hrun.
  - cbn [concat_all foldr] in *. rewrite append_nil, split_one_line in Hsplit by done. injection Hsplit as <- Hs.
    injection Hrun as Hrun <-. rewrite <- Hrun. destruct s as [[] ? ?]. unfold fed, reframe. cbn in *. subst.
    unfold ret. by rewrite append_nil, Z.add_0_r.
  - cbn [for_list]. unfold bind. rewrite feed_eq. cbn [concat_all foldr] in Hsplit. fold (concat_all cs) in Hsplit.
    rewrite <- append_assoc, split_lines_app in Hsplit.
    pose proof (split_rest_one_line (rd_buffer s +:+ c)) as Hr.
    destruct (split_lines (rd_buffer s +:+ c)) as [lines1 rest1]. cbn [fst snd] in Hr, Hsplit.
    pose proof (split_open_prefix rest1 (concat_all cs) Hr) as Hopen.
    destruct (split_lines (rest1 +:+ concat_all cs)) as [lines2 rest2] eqn:H2. cbn [fst snd] in Hsplit, Hopen.
    injection Hsplit as <- ->. rewrite for_list_app in Hrun. unfold bind in Hrun.
    cbn [concat_all foldr] in Hrun. fold (concat_all cs) in Hrun. rewrite <- (fed_fed s c _ rest1 "") in Hrun.
    unfold fed at 1 in Hrun. rewrite run_lines_frame in Hrun.
    destruct (run_lines lines1 (fed s c rest1) w) as [[s1|e] w1] eqn:H1; [|done]. cbn [fst snd res_map] in Hrun.
    pose proof (run_lines_keeps _ _ _ _ _ H1) as (Hh1 & Hn1 & Hb1). cbn in Hb1.
    rewrite <- Hh1, <- Hn1 in Hrun. fold (fed s1 (concat_all cs) "") in Hrun.
    rewrite Hb1. assert (maximum_record_bytes <? Z.of_nat (String.length rest1) = false) as ->.
    { apply Z.ltb_ge. destruct lines2 as [|l lines2]; [cbn in Hopen; lia|].
      cbn [for_list] in Hrun. unfold bind in Hrun.
      destruct (consume_line _ l w1) as [[s2|e] w2] eqn:Hl; [|done]. apply consumed_bound in Hl; lia. }
    eapply IH; [by rewrite Hb1|by rewrite Hb1|done].
Qed.
End reading.

(** ** The chunks do not matter *)

(** The hooks of an import whose artifacts come in the chunks [cs]. *)
Definition delivering {W} (hooks : import_hooks W) (cs : string → list string) : import_hooks W :=
  ImportHooks (λ ref, ret (iter_of_list (cs ref))) (preflight hooks) (target_write hooks) (finalize hooks)
    (transfer hooks) (import_clock hooks).

(** [m'] returns what [m] returns. *)
Definition returns_like {W A} (m m' : M W A) : Prop := ∀ w a w', m w = (Ok a, w') → m' w = (Ok a, w').
#[export] Instance returns_like_refl {W A} : Reflexive (@returns_like W A).
Proof. by intros m w a w'. Qed.
Lemma returns_like_bind {W A B} (m m' : M W A) (k k' : A → M W B) :
  returns_like m m' → (∀ a, returns_like (k a) (k' a)) → returns_like (bind m k) (bind m' k').
Proof.
  intros Hm Hk w b w'. unfold bind. destruct (m w) as [[a|e] w1] eqn:H; [|done]. rewrite (Hm _ _ _ H). apply Hk.
Qed.
Lemma returns_like_map {W A B} (f g : A → M W B) l :
  (∀ x, returns_like (f x) (g x)) → returns_like (map_list f l) (map_list g l).
Proof.
  intros Hfg. induction l as [|x l IH]; [done|]. apply returns_like_bind; [done|]. intros y.
  by apply returns_like_bind.
Qed.

Section chunking.
Context `{FloatParser} `{ByteDecoder} {W : Type} `{EvidenceSink W} (hooks : import_hooks W).
Context (maximum_record_bytes batch_size : Z) (policy : MergePolicy).

Abbreviation feed_all cs write :=
  (for_list cs no_reading (feed hooks maximum_record_bytes never_cancelled batch_size policy write)).

(** An artifact without an open line at its end. *)
Lemma feed_all_chunking cs cs' write w s w' :
  0 ≤ maximum_record_bytes → concat_all cs = concat_all cs' → rd_buffer s = ""%string →
  feed_all cs write w = (Ok s, w') → feed_all cs' write w = (Ok s, w').
Proof.
  intros Hmax Hsame Hb Hrun.
  apply feed_all_runs in Hrun; [|done]. cbn [rd_buffer no_reading] in Hrun. rewrite append_empty in Hrun.
  destruct (split_lines (concat_all cs)) as [lines rest] eqn:Hsplit.
  pose proof (run_lines_keeps _ _ _ _ _ _ _ _ _ _ Hrun) as (_ & _ & Hrest). cbn in Hrest.
  rewrite Hb in Hrest. subst rest. rewrite Hsame in Hsplit, Hrun.
  by eapply (runs_feed_all hooks) in Hrun; [|done|done|by rewrite append_empty].
Qed.

Lemma read_delivering cs write manifest w :
  read_partition (delivering hooks cs) maximum_record_bytes batch_size policy never_cancelled write manifest w =
  bind (feed_all (cs (pm_ref manifest)) write) (conclude_partition hooks policy write manifest) w.
Proof.
  transitivity (bind (for_iter (iter_of_list (cs (pm_ref manifest))) no_reading
    (feed hooks maximum_record_bytes never_cancelled batch_size policy write)) (conclude_partition hooks policy write manifest) w);
    [reflexivity|]. unfold bind. by rewrite for_iter_list.
Qed.

Lemma read_chunking cs cs' write manifest :
  0 ≤ maximum_record_bytes → (∀ ref, concat_all (cs ref) = concat_all (cs' ref)) →
  returns_like (read_partition (delivering hooks cs) maximum_record_bytes batch_size policy never_cancelled write manifest)
    (read_partition (delivering hooks cs') maximum_record_bytes batch_size policy never_cancelled write manifest).
Proof.
  intros Hmax Hsame w r w'. rewrite !read_delivering. unfold bind.
  destruct (feed_all (cs _) write w) as [[s|e] w1] eqn:Hrun; [|done].
  destruct (nonempty (rd_buffer s)) eqn:Hb; [unfold conclude_partition, bind; by rewrite Hb|].
  eapply feed_all_chunking in Hrun; [|done|apply Hsame|by apply nonempty_false]. by rewrite Hrun.
Qed.

(** C25: the way artifacts are cut into chunks is irrelevant.  An import of
    artifacts that come in some chunks returns a report in a final state if and
    only if the import of the same contents in any other chunks returns that
    report in that state: the same records reach the target in the same batches,
    and an artifact that is accepted in one cut is accepted in every cut. *)
Theorem chunking_irrelevant cs cs' manifest report w w' :
  0 ≤ maximum_record_bytes → (∀ ref, concat_all (cs ref) = concat_all (cs' ref)) →
  import_export (delivering hooks cs) maximum_record_bytes manifest policy batch_size None w = (Ok report, w') ↔
  import_export (delivering hooks cs') maximum_record_bytes manifest policy batch_size None w = (Ok report, w').
Proof.
  intros Hmax Hsame.
  assert (∀ c1 c2, (∀ ref, concat_all (c1 ref) = concat_all (c2 ref)) →
    returns_like (import_export (delivering hooks c1) maximum_record_bytes manifest policy batch_size None)
      (import_export (delivering hooks c2) maximum_record_bytes manifest policy batch_size None)) as Hone.
  2:{ split; apply Hone; [done|]. intros ref. by rewrite Hsame. }
  intros c1 c2 Hc. unfold import_export. cbn [preflight delivering finalize import_clock default].
  repeat (apply returns_like_bind; [done || by apply returns_like_map; intros; apply read_chunking|intros]). done.
Qed.
End chunking.

(** ** What is held between two chunks *)
Section bounds.
Context `{FloatParser} `{ByteDecoder} {W : Type} (hooks : import_hooks W).
Context (maximum_record_bytes batch_size : Z) (policy : MergePolicy) (write : bool).

(** The pending batch is smaller than a full one (and empty in the verification
    pass), its records and the open line fit the maximum, and the counters are
    those of the content seen. *)
Definition batch_held (s : reading) : Prop :=
  (if write then Z.of_nat (length (rd_batch s)) < batch_size else rd_batch s = []) ∧
  Forall (λ r, Z.of_nat (String.length (record_line r)) ≤ maximum_record_bytes) (rd_batch s) ∧
  0 ≤ count (rd_tally s).
Definition held (s : reading) : Prop :=
  batch_held s ∧
  one_line (rd_buffer s) = true ∧ Z.of_nat (String.length (rd_buffer s)) ≤ maximum_record_bytes ∧
  byte_count (rd_tally s) = Z.of_nat (String.length (hashed (rd_tally s))).

Lemma parse_line_canonical line p r : parse_line maximum_record_bytes line p = Ok r → record_line r = line.
Proof.
  unfold parse_line. intros Hr. apply res_bind_ok in Hr as (? & _ & Hr). apply res_bind_ok in Hr as (? & _ & Hr).
  apply res_bind_ok in Hr as (? & _ & Hr). apply res_bind_ok in Hr as (? & _ & Hr).
  apply res_bind_ok in Hr as (? & Hc%raise_if_ok & Hr). apply res_bind_ok in Hr as (? & _ & Hr).
  injection Hr as <-. by simplify_bool.
Qed.

Lemma consume_held s line w s' w' :
  1 ≤ batch_size → batch_held s →
  consume_line hooks maximum_record_bytes batch_size policy write s line w = (Ok s', w') → batch_held s'.
Proof.
  intros Hsize (Hb & Hf & Hc). unfold consume_line. destruct (nonempty line); [|by intros [= <- _]].
  unfold consume, bind, lift_res. destruct (parse_line _ _ _) as [r|e] eqn:Hp; [|done].
  match goal with |- context [(if write then ?a else ?b) w] => destruct ((if write then a else b) w) as [[[]|e] w1] end;
    [|done].
  pose proof (parse_line_bound _ _ _ _ Hp) as Hl. rewrite <- (parse_line_canonical _ _ _ Hp) in Hl.
  unfold batch_held. destruct write; cbn [andb].
  - rewrite length_app. cbn [length]. destruct (_ =? _) eqn:He.
    + destruct (target_write hooks _ policy w1) as [[[]|e] w2]; [|done]. intros [= <- _]. cbn. split; [lia|]. split; [done|lia].
    + intros [= <- _]. cbn. rewrite length_app. apply Z.eqb_neq in He. cbn [length]. split; [lia|]. split; [|lia].
      apply Forall_app. by split; [|constructor].
  - intros [= <- _]. cbn. split; [done|]. split; [done|lia].
Qed.

Lemma run_lines_held lines s w s' w' :
  1 ≤ batch_size → batch_held s →
  for_list lines s (consume_line hooks maximum_record_bytes batch_size policy write) w = (Ok s', w') → batch_held s'.
Proof.
  intros Hsize. revert s w. induction lines as [|l lines IH]; intros s w Hs; cbn [for_list].
  - by intros [= <- _].
  - unfold bind. destruct (consume_line _ _ _ _ _ s l w) as [[s1|e] w1] eqn:Hc; [|done]. apply IH. by eapply consume_held.
Qed.

(** C26: the memory of an import is bounded.  Whatever the artifact source, the
    token and the target do, between two chunks the reader holds fewer pending
    records than a batch, each within the maximum record size (none in the pass
    that only verifies), and one open line within that maximum, however large
    the chunks and the artifact are; and its byte counter is the length of what
    its digest covers. *)
Theorem import_memory_bounded token :
  0 ≤ maximum_record_bytes → 1 ≤ batch_size →
  held no_reading ∧
  ∀ s chunk w s' w', held s →
    feed hooks maximum_record_bytes token batch_size policy write s chunk w = (Ok s', w') → held s'.
Proof.
  intros Hmax Hsize. split.
  { split; [|by repeat split]. split; [by destruct write; cbn; [lia|]|]. by split; [constructor|]. }
  intros s chunk w s' w' (Hb & Hone & Hlen & Hbytes). unfold feed, bind.
  destruct (raise_if_cancelled token w) as [[[]|e] w1]; [|done].
  pose proof (split_rest_one_line (rd_buffer s +:+ chunk)) as Hrest.
  destruct (split_lines _) as [lines rest]. cbn [snd] in Hrest.
  destruct (for_list lines _ _ w1) as [[s2|e] w2] eqn:Hrun; [|done].
  pose proof (run_lines_keeps _ _ _ _ _ _ _ _ _ _ Hrun) as (Hh & Hn & Hbuf). cbn in Hh, Hn, Hbuf.
  unfold lift_res, raise_if. destruct (_ <? _) eqn:Hover; [done|]. intros [= <- _]. apply Z.ltb_ge in Hover.
  split; [by eapply run_lines_held; [done| |exact Hrun]|]. rewrite Hbuf, Hn, Hh in *.
  split; [done|]. split; [done|]. rewrite length_app_str. lia.
Qed.
End bounds.

(** ** Examples *)
Module example.
#[local] Instance floats : FloatParser := literal_floats.
#[local] Instance decoder : ByteDecoder := λ _, Raise (EPython "builtins" "UnicodeDecodeError" "").
#[local] Instance sink : EvidenceSink (list (list LogicalRecord)) := NullEvidenceSink.

Definition rec (id : string) : LogicalRecord :=
  MkLogicalRecord "structured" "n" "r" "schema" id (VInt 1) (JObj [("a", JStr "x")]) [].
Definition content : string := terminated [record_line (rec "a"); record_line (rec "b"); record_line (rec "c")].
(** The content in pieces of seven bytes. *)
Fixpoint pieces (fuel : nat) (s : string) : list string :=
  match fuel with
  | O => [s]
  | S fuel' => String.substring 0 7 s :: pieces fuel' (String.substring 7 (String.length s) s)
  end.
Definition partition : PartitionManifest :=
  MkPartition "p" "logical://p/x" 3 (Z.of_nat (String.length content)) (Some "a"%string) (Some "c"%string) (hex_digest content).
Definition manifest : LogicalExportV1 :=
  MkExport (MkMetadata [] [] [] (JObj [])) (MkExportBoundary "b" LIVE_READ "0" "1") [partition] "e" 0
    (hex_digest "") LOGICAL_EXPORT_FORMAT_VERSION.
Definition hooks : import_hooks (list (list LogicalRecord)) :=
  ImportHooks (λ _, ret (iter_of_list [])) (λ _ _, ret ()) (λ batch _, modify (λ l, l ++ [batch]))
    (λ _, ret (hex_digest "target")) None (ret (at_utc 0)).
Definition run (cs : string → list string) : res ImportReport * list (list LogicalRecord) :=
  import_export (delivering hooks cs) 1024 manifest REQUIRE_EMPTY 2 None [].

Lemma whole_imports : is_ok (run (λ _, [content])).1 = true.
Proof. vm_compute. reflexivity. Qed.
Lemma pieces_concat : concat_all [content] = concat_all (pieces 60 content).
Proof. vm_compute. reflexivity. Qed.
End example.

(** The artifact of three records, in one piece and in pieces of seven bytes. *)
Lemma chunking_irrelevant_witness :
  ∃ report written, example.run (λ _, [example.content]) = (Ok report, written) ∧
    example.run (λ _, example.pieces 60 example.content) = (Ok report, written).
Proof.
  pose proof example.whole_imports as Hok. destruct (example.run (λ _, [example.content])) as [[report|e] written] eqn:Hrun; [|done].
  exists report, written. split; [reflexivity|]. unfold example.run in *.
  assert (0 ≤ 1024) as Hmax by lia.
  exact (proj1 (chunking_irrelevant (H := example.floats) (H0 := example.decoder) (H1 := example.sink) example.hooks 1024 2
    REQUIRE_EMPTY (λ _, [example.content]) (λ _, example.pieces 60 example.content) example.manifest report [] written
    Hmax (λ _, example.pieces_concat)) Hrun).
Defined.

Lemma import_memory_bounded_witness :
  0 ≤ 1024 ∧ 1 ≤ 2 ∧ held 1024 2 true no_reading ∧
  ∀ s', (feed (H := example.floats) (H0 := example.decoder) example.hooks 1024 never_cancelled 2 REQUIRE_EMPTY true no_reading
           example.content []).1 = Ok s' → held 1024 2 true s'.
Proof.
  destruct (import_memory_bounded (H := example.floats) (H0 := example.decoder) example.hooks 1024 2 REQUIRE_EMPTY true
    never_cancelled) as [Hstart Hstep]; [lia|lia|].
  split; [lia|]. split; [lia|]. split; [exact Hstart|]. intros s' Hs.
  eapply Hstep; [exact Hstart|]. rewrite <- Hs. apply surjective_pairing.
Defined.
