(* ===== verification/PortOrder.v ===== *)
(** * What an import writes, and when

    The calls of [LogicalImportCoordinator.import_export], for arbitrary
    artifacts, targets, transfer hooks, sinks, clocks and tokens. *)
From S2P Require Import Prelude PyTime Sha256 Canonical Errors OutboxModel Runner JsonParse MigrationModel CallLog PortModel Port PortReading.

Section order.
Context `{FloatParser} `{ByteDecoder} {W : Type} `{EvidenceSink W} (hooks : import_hooks W).
Context (maximum_record_bytes batch_size : Z) (policy : MergePolicy) (manifest : LogicalExportV1).

Inductive import_call : Type :=
| Opened (ref : string) (ok : bool)
| Chunk (c : string)
| Preflighted (md : ExportMetadata) (p : MergePolicy) (r : res unit)
| Transferred (reference : json) (r : res string)
| Written (batch : list LogicalRecord) (p : MergePolicy) (r : res unit)
| Finalized (m : LogicalExportV1) (r : res string).
Abbreviation log := (list import_call).

Definition recorded_import : import_hooks (log * W) :=
  ImportHooks
    (λ ref, let! it := recorded (λ r, Opened ref (is_ok r)) (chunks hooks ref) in ret (log_iter Chunk it))
    (λ md p, recorded (Preflighted md p) (preflight hooks md p))
    (λ batch p, recorded (Written batch p) (target_write hooks batch p))
    (λ m, recorded (Finalized m) (finalize hooks m))
    ((λ f reference, recorded (Transferred reference) (f reference)) <$> transfer hooks)
    (lift_snd (import_clock hooks)).
#[local] Instance recorded_import_sink : EvidenceSink (log * W) := λ e, lift_snd (evidence_record e).

(** ** What was read and written *)
Definition content (k : log) : string :=
  concat_all (omap (λ c, match c with Chunk s => Some s | _ => None end) k).
Definition written (k : log) : list LogicalRecord :=
  concat (omap (λ c, match c with Written batch _ (Ok _) => Some batch | _ => None end) k).
(** The lines that are consumed. *)
Definition full_lines (s : string) : list string := List.filter nonempty (split_lines s).1.

(** The calls of one reading: only the pass that imports transfers and writes. *)
Definition reading_call (write : bool) (c : import_call) : bool :=
  match c with Chunk _ => true | Transferred _ _ | Written _ _ _ => write | _ => false end.

(** A complete reading of a partition: the content has the size and the digest
    of the manifest, and in the pass that imports exactly its lines were
    written, in order. *)
Definition read_through (write : bool) (m : PartitionManifest) (l : log) : Prop :=
  ∃ k, l = Opened (pm_ref m) true :: k ∧ Forall (λ c, reading_call write c = true) k ∧
    Z.of_nat (String.length (content k)) = pm_bytes m ∧ hex_digest (content k) = pm_sha256 m ∧
    (split_lines (content k)).2 = ""%string ∧
    Z.of_nat (length (full_lines (content k))) = pm_count m ∧
    (write = true → map record_line (written k) = full_lines (content k)).
Definition passed (write : bool) (ms : list PartitionManifest) (l : log) : Prop :=
  ∃ ls, l = concat ls ∧ Forall2 (read_through write) ms ls.

Definition unfinished (l : log) : Prop := ∀ m r, Finalized m r ∉ l.
(** Everything was verified and the target agreed. *)
Definition cleared (l l2 : log) : Prop :=
  ∃ l1 , l = l1 ++ Preflighted (lx_metadata manifest) policy (Ok ()) :: l2 ∧ passed false (lx_partitions manifest) l1.

Definition permitted_import (l : log) (c : import_call) : Prop :=
  unfinished l ∧
  match c with
  | Opened _ _ | Chunk _ => True
  | Preflighted md p _ => md = lx_metadata manifest ∧ p = policy ∧ passed false (lx_partitions manifest) l
  | Transferred _ _ => ∃ l2, cleared l l2
  | Written batch p _ =>
      p = policy ∧ 1 ≤ Z.of_nat (length batch) ≤ batch_size ∧
      Forall (λ r, Z.of_nat (String.length (record_line r)) ≤ maximum_record_bytes) batch ∧
      ∃ l2 l3 ref k, cleared l l2 ∧ l2 = l3 ++ Opened ref true :: k ∧ Forall (λ c, reading_call true c = true) k ∧
        map record_line (written k ++ batch) `prefix_of` full_lines (content k)
  | Finalized m _ => m = manifest ∧ ∃ l2, cleared l l2 ∧ passed true (lx_partitions manifest) l2
  end.

Abbreviation in_order := (ordered permitted_import).

(** ** One reading *)
Context (cancellation : option (cancelled_poll W)).
Abbreviation token := (default never_cancelled (lift_snd <$> cancellation)).

Lemma content_snoc k c : content (k ++ [c]) = content k +:+ content [c].
Proof. unfold content. by rewrite omap_app, concat_all_app. Qed.
Lemma written_snoc k c : written (k ++ [c]) = written k ++ written [c].
Proof. unfold written. by rewrite omap_app, concat_app. Qed.

Section one_reading.
Context (write : bool) (l0 : log) (ref : string).
(** Where a reading may start. *)
Definition may_read : Prop := unfinished l0 ∧ (write = true → ∃ l2, cleared l0 l2).
Context (Hmay : may_read).
Abbreviation base k := (l0 ++ Opened ref true :: k).

Lemma unfinished_base k : Forall (λ c, reading_call write c = true) k → unfinished (base k).
Proof.
  intros Hk m r. rewrite elem_of_app, elem_of_cons. intros [Hin|[[=]|Hin]]; [by apply (proj1 Hmay) in Hin|].
  rewrite Forall_forall in Hk. by apply Hk in Hin.
Qed.

(** The log and the variables while lines are consumed: [todo] are left, and at
    most [limit] records are pending. *)
Record so_far (limit : Z) (todo : list string) (s : reading) (k : log) : Prop := {
  sf_calls : Forall (λ c, reading_call write c = true) k;
  sf_order : in_order (base k);
  sf_size : Z.of_nat (length (rd_batch s)) ≤ limit;
  sf_idle : write = false → rd_batch s = [];
  sf_fits : Forall (λ r, Z.of_nat (String.length (record_line r)) ≤ maximum_record_bytes) (rd_batch s);
  sf_rest : rd_buffer s = (split_lines (content k)).2;
  sf_hash : hashed (rd_tally s) = content k;
  sf_bytes : byte_count (rd_tally s) = Z.of_nat (String.length (content k));
  sf_count : count (rd_tally s) + Z.of_nat (length (List.filter nonempty todo)) = Z.of_nat (length (full_lines (content k)));
  sf_lines : write = true →
    map record_line (written k ++ rd_batch s) ++ List.filter nonempty todo = full_lines (content k);
}.

Lemma read_first n todo s k c :
  so_far n todo s k → reading_call write c = true → permitted_import (base k) c → in_order (base (k ++ [c])).
Proof. intros Hs _ Hp. rewrite app_comm_cons, app_assoc. by apply ordered_snoc; [apply (sf_order _ _ _ _ Hs)|]. Qed.

Lemma cleared_base k : write = true → ∃ l2, cleared (base k) (l2 ++ Opened ref true :: k).
Proof.
  intros Hw. destruct (proj2 Hmay Hw) as (l2 & l1 & -> & Hp). exists l2, l1. split; [|done].
  by rewrite <- !app_assoc, app_comm_cons.
Qed.

(** A chunk: its lines are to be consumed. *)
Lemma so_far_chunk n s k c :
  so_far n [] s k →
  so_far n (split_lines (rd_buffer s +:+ c)).1 (fed s c (split_lines (rd_buffer s +:+ c)).2) (k ++ [Chunk c]).
Proof.
  intros Hs. assert (content (k ++ [Chunk c]) = content k +:+ c) as Hc.
  { rewrite content_snoc. unfold content at 2. cbn. by rewrite append_nil. }
  assert (split_lines (content (k ++ [Chunk c])) =
    ((split_lines (content k)).1 ++ (split_lines (rd_buffer s +:+ c)).1, (split_lines (rd_buffer s +:+ c)).2)) as Hsplit.
  { by rewrite Hc, split_lines_app, (sf_rest _ _ _ _ Hs). }
  assert (full_lines (content (k ++ [Chunk c])) =
    full_lines (content k) ++ List.filter nonempty (split_lines (rd_buffer s +:+ c)).1) as Hfull.
  { unfold full_lines. rewrite Hsplit. cbn [fst]. by rewrite List.filter_app. }
  assert (reading_call write (Chunk c) = true) as Hq by done.
  split; cbn [fed reframe rd_tally rd_batch rd_buffer hashed byte_count count].
  - apply Forall_app. split; [apply Hs|by constructor].
  - eapply read_first; [done..|]. split; [apply unfinished_base, Hs|done].
  - apply Hs.
  - apply Hs.
  - apply Hs.
  - by rewrite Hsplit.
  - by rewrite Hc, (sf_hash _ _ _ _ Hs).
  - rewrite Hc, length_app_str, (sf_bytes _ _ _ _ Hs). lia.
  - pose proof (sf_count _ _ _ _ Hs) as Hn. cbn in Hn. rewrite Hfull, length_app. lia.
  - intros Hw. pose proof (sf_lines _ _ _ _ Hs Hw) as Hl. cbn in Hl. rewrite app_nil_r in Hl.
    rewrite written_snoc, Hfull, <- Hl. unfold written at 2. cbn. by rewrite app_nil_r.
Qed.

(** A call that delivers and writes nothing. *)
Lemma so_far_silent n todo s k c :
  so_far n todo s k → reading_call write c = true → content [c] = ""%string → written [c] = [] →
  permitted_import (base k) c → so_far n todo s (k ++ [c]).
Proof.
  intros Hs Hq Hc Hw Hp.
  assert (content (k ++ [c]) = content k) as Hck by (by rewrite content_snoc, Hc, append_nil).
  assert (written (k ++ [c]) = written k) as Hwk by (by rewrite written_snoc, Hw, app_nil_r).
  split; rewrite ?Hck, ?Hwk; try apply Hs.
  - apply Forall_app. split; [apply Hs|by constructor].
  - by eapply read_first.
Qed.

(** What holds when a piece of the reading ends. *)
Definition so_far_after (n : Z) (todo : list string) (r : res reading) (lw : log * W) : Prop :=
  match r with Ok s => ∃ k, lw.1 = base k ∧ so_far n todo s k | Raise _ => in_order lw.1 end.

Lemma transfers_wp n todo s k refs w :
  write = true → so_far n todo s k →
  wp (for_list refs () (λ _, transfer_reference recorded_import))
    (λ r lw, so_far_after n todo (res_map (λ _, s) r) lw) (base k, w).
Proof.
  intros Hw Hs. apply (wp_for_list (λ _ _ lw, ∃ k, lw.1 = base k ∧ so_far n todo s k)); [eauto|done|].
  intros reference refs' [] [l w1] (k1 & Hl & Hs1). cbn [fst] in Hl. subst l. unfold transfer_reference. cbn [transfer recorded_import].
  destruct (transfer hooks) as [f|]; cbn [fmap option_fmap option_map]; [|apply wp_ret; eauto].
  apply wp_bind, wp_recorded. intros r w2.
  assert (so_far n todo s (k1 ++ [Transferred reference r])) as Hs2.
  { apply so_far_silent; try done. split; [apply unfinished_base, Hs1|]. destruct (cleared_base k1 Hw) as [l2 ?]. by eexists. }
  rewrite <- app_assoc. cbn [app].
  destruct r as [digest|e]; [|by apply (sf_order _ _ _ _ Hs2)].
  apply wp_lift_res. destruct (rethrow _ _ _) as [[]|]; [by eexists|by apply (sf_order _ _ _ _ Hs2)].
Qed.

Lemma write_wp n todo s k w :
  write = true → so_far n todo s k → n ≤ batch_size → rd_batch s ≠ [] →
  wp (target_write recorded_import (rd_batch s) policy)
    (λ r lw, so_far_after 0 todo (res_map (λ _, Reading (rd_tally s) [] (rd_buffer s)) r) lw) (base k, w).
Proof.
  intros Hw Hs Hn Hb. apply wp_recorded. intros r w2. rewrite <- app_assoc. cbn [app].
  pose proof (sf_lines _ _ _ _ Hs Hw) as Hlines.
  assert (permitted_import (base k) (Written (rd_batch s) policy r)) as Hp.
  { split; [apply unfinished_base, Hs|]. split; [done|]. split.
    - pose proof (sf_size _ _ _ _ Hs). destruct (rd_batch s); [done|]. cbn [length] in *. lia.
    - split; [apply Hs|]. destruct (cleared_base k Hw) as [l2 ?]. exists (l2 ++ Opened ref true :: k), l2, ref, k.
      split; [done|]. split; [done|]. split; [pose proof (sf_calls _ _ _ _ Hs) as Hk; by rewrite Hw in Hk|]. rewrite <- Hlines. by eexists. }
  assert (in_order (base (k ++ [Written (rd_batch s) policy r]))) as Ho by (eapply read_first; [done|exact Hw|done]).
  destruct r as [[]|e]; [|done]. eexists. split; [done|].
  assert (content (k ++ [Written (rd_batch s) policy (Ok ())]) = content k) as Hck.
  { rewrite content_snoc. unfold content at 2. cbn. apply append_nil. }
  assert (written (k ++ [Written (rd_batch s) policy (Ok ())]) = written k ++ rd_batch s) as Hwk.
  { rewrite written_snoc. unfold written at 2. cbn. by rewrite app_nil_r. }
  split; cbn [rd_tally rd_batch rd_buffer]; rewrite ?Hck; try apply Hs; try done.
  - apply Forall_app. split; [apply Hs|by constructor].
  - intros _. by rewrite Hwk, app_nil_r.
Qed.

Abbreviation rec_consume := (consume recorded_import maximum_record_bytes batch_size policy write).
Abbreviation rec_line := (consume_line recorded_import maximum_record_bytes batch_size policy write).

(** A record was read from the next line. *)
Lemma so_far_counted n line todo s k r p :
  so_far n (line :: todo) s k → nonempty line = true → parse_line maximum_record_bytes line p = Ok r →
  so_far (n + 1) todo (Reading (count_record (rd_tally s) r) (if write then rd_batch s ++ [r] else rd_batch s) (rd_buffer s)) k.
Proof.
  intros Hs Hline Hp. pose proof (parse_line_bound _ _ _ _ Hp) as Hbound. apply parse_line_canonical in Hp. subst line.
  pose proof (sf_size _ _ _ _ Hs) as Hn. pose proof (sf_count _ _ _ _ Hs) as Hc. cbn [List.filter] in Hc. rewrite Hline in Hc.
  split; cbn [rd_tally rd_batch rd_buffer count_record count byte_count hashed]; try apply Hs.
  - destruct write; rewrite ?length_app; cbn [length]; lia.
  - intros Hw. rewrite Hw. by apply Hs.
  - destruct write; [|apply Hs]. apply Forall_app. split; [apply Hs|by constructor].
  - cbn [length] in Hc. lia.
  - intros Hw. rewrite <- (sf_lines _ _ _ _ Hs Hw). cbn [List.filter]. rewrite Hline, Hw.
    rewrite app_assoc, !map_app, <- !app_assoc. done.
Qed.

Lemma so_far_weaken n n' todo s k : n ≤ n' → so_far n todo s k → so_far n' todo s k.
Proof. intros Hn Hs. split; try apply Hs. pose proof (sf_size _ _ _ _ Hs). lia. Qed.

Lemma consume_wp line todo s k w :
  1 ≤ batch_size → so_far (batch_size - 1) (line :: todo) s k →
  wp (rec_line s line) (so_far_after (batch_size - 1) todo) (base k, w).
Proof.
  intros Hsize Hs. unfold consume_line. destruct (nonempty line) eqn:Hline.
  2:{ apply wp_ret. exists k. split; [done|]. split; try apply Hs; [|intros Hw; rewrite <- (sf_lines _ _ _ _ Hs Hw)];
      [pose proof (sf_count _ _ _ _ Hs) as Hc; cbn [List.filter] in Hc|cbn [List.filter]]; by rewrite Hline in *. }
  unfold consume. apply wp_bind, wp_lift_res. destruct (parse_line _ _ _) as [r|e] eqn:Hp; [|apply Hs].
  apply wp_bind. eapply wp_mono with (Q := λ q lw, so_far_after (batch_size - 1) (line :: todo) (res_map (λ _, s) q) lw).
  { destruct write eqn:Hw; [by apply transfers_wp|apply wp_ret; by exists k]. }
  intros [[]|e] [l w1] Hafter; [|done]. destruct Hafter as (k1 & Hl & Hs1). cbn [fst] in Hl. subst l.
  eapply so_far_counted in Hs1; [|done|done]. replace (batch_size - 1 + 1) with batch_size in Hs1 by lia.
  destruct write eqn:Hw; cbn [andb].
  - destruct (_ =? _) eqn:Hfull.
    + apply wp_bind. assert (rd_batch s ++ [r] ≠ []) as Hne by (by destruct (rd_batch s)).
      eapply wp_mono; [exact (write_wp _ _ _ k1 w1 Hw Hs1 (Z.le_refl _) Hne)|].
      intros [[]|e] [l w2]; [|done]. intros (k2 & Hl & Hs2). cbn [fst] in Hl. subst l. apply wp_ret. exists k2. split; [done|].
      eapply so_far_weaken; [|done]. lia.
    + apply wp_ret. exists k1. split; [done|]. apply Z.eqb_neq in Hfull. split; try apply Hs1.
      pose proof (sf_size _ _ _ _ Hs1). cbn [rd_batch] in *. lia.
  - apply wp_ret. exists k1. split; [done|]. split; try apply Hs1. cbn [rd_batch]. rewrite (sf_idle _ _ _ _ Hs Hw). cbn. lia.
Qed.

Lemma feed_wp chunk s k w :
  1 ≤ batch_size → so_far (batch_size - 1) [] s k →
  wp (feed recorded_import maximum_record_bytes token batch_size policy write s chunk)
    (λ r lw, so_far_after (batch_size - 1) [] r lw) (base (k ++ [Chunk chunk]), w).
Proof.
  intros Hsize Hs. apply (so_far_chunk _ s k chunk) in Hs. unfold feed. apply wp_bind, poll_wp.
  intros [[]|e] w1; [|apply Hs]. unfold fed in Hs.
  destruct (split_lines (rd_buffer s +:+ chunk)) as [lines rest]. cbn [fst snd] in Hs.
  apply wp_bind. apply (wp_for_list (λ todo s lw, ∃ k, lw.1 = base k ∧ so_far (batch_size - 1) todo s k)).
  - by eexists.
  - intros s' [l w2] (k' & Hl & Hs'). cbn [fst] in Hl. subst l.
    apply wp_bind, wp_lift_res. destruct (raise_if _ _) as [[]|]; [apply wp_ret; by exists k'|apply Hs'].
  - intros line todo s' [l w2] (k' & Hl & Hs'). cbn [fst] in Hl. subst l.
    eapply wp_mono; [by apply consume_wp|]. by intros [s2|e] lw Hafter.
Qed.

Lemma conclude_wp m s k w :
  1 ≤ batch_size → ref = pm_ref m → so_far (batch_size - 1) [] s k →
  wp (conclude_partition recorded_import policy write m s)
    (λ r lw, in_order lw.1 ∧ ∀ x, r = Ok x → ∃ l, lw.1 = l0 ++ l ∧ read_through write m l) (base k, w).
Proof.
  intros Hsize Href Hs. unfold conclude_partition. apply wp_bind, wp_lift_res.
  destruct (raise_if (nonempty (rd_buffer s)) _) as [[]|e] eqn:Hb; [|by split; [apply Hs|]].
  apply raise_if_ok, nonempty_false in Hb.
  apply wp_bind. eapply wp_mono with (Q := λ q lw, so_far_after 0 [] (res_map (λ _, Reading (rd_tally s) [] (rd_buffer s)) q) lw).
  { destruct (write && _) eqn:Hw; simplify_bool.
    - eapply write_wp; [done|done|lia|]. intros Hnil. by rewrite Hnil in *.
    - apply wp_ret. exists k. split; [done|].
      assert (rd_batch s = []) as Hnil.
      { apply andb_false_iff in Hw as [Hw|Hw]; [by apply (sf_idle _ _ _ _ Hs)|]. simplify_bool. by destruct (rd_batch s). }
      pose proof Hs as Hs'. destruct Hs'. split; cbn [rd_tally rd_batch rd_buffer]; try done. by rewrite <- Hnil. }
  intros [[]|e] [l w1]; [|done]. intros (k1 & Hl & Hs1). cbn [fst] in Hl. subst l.
  apply wp_bind, wp_lift_res. destruct (raise_if _ _) as [[]|e] eqn:Hm; [|by split; [apply Hs1|]].
  apply raise_if_ok in Hm. apply negb_false_iff in Hm. unfold matches_manifest in Hm. simplify_bool.
  apply wp_lift_res. split; [apply Hs1|]. intros x _. exists (Opened ref true :: k1). split; [done|]. exists k1. rewrite Href.
  pose proof (sf_rest _ _ _ _ Hs1) as Hrest. pose proof (sf_hash _ _ _ _ Hs1) as Hhash.
  pose proof (sf_bytes _ _ _ _ Hs1) as Hbytes. pose proof (sf_count _ _ _ _ Hs1) as Hcount.
  cbn [rd_tally rd_buffer List.filter length] in *. 
  rewrite !Z.eqb_eq in *. split; [done|]. split; [apply Hs1|]. split; [lia|]. split; [by rewrite <- Hhash|].
  split; [by rewrite <- Hrest|]. split; [lia|].
  intros Hw. pose proof (sf_lines _ _ _ _ Hs1 Hw) as Hl. cbn [List.filter rd_batch] in Hl. by rewrite !app_nil_r in Hl.
Qed.
End one_reading.

Lemma read_partition_wp write l0 m w :
  1 ≤ batch_size → in_order l0 → may_read write l0 →
  wp (read_partition recorded_import maximum_record_bytes batch_size policy token write m)
    (λ r lw, in_order lw.1 ∧ ∀ x, r = Ok x → ∃ l, lw.1 = l0 ++ l ∧ read_through write m l) (l0, w).
Proof.
  intros Hsize Ho Hmay. unfold read_partition. apply wp_bind, poll_wp. intros [[]|e] w1; [|done].
  apply wp_bind. cbn [chunks recorded_import]. apply wp_bind, wp_recorded. intros r w2.
  assert (in_order (l0 ++ [Opened (pm_ref m) (is_ok r)])) as Ho1 by (apply ordered_snoc; [done|by split; [apply Hmay|]]).
  destruct r as [it|e]; [|done]. cbn [is_ok] in Ho1 |- *. apply wp_ret. cbn beta iota.
  apply wp_bind. apply (wp_for_log_iter Chunk (λ s l, ∃ k, l = l0 ++ Opened (pm_ref m) true :: k ∧
    so_far write l0 (pm_ref m) (batch_size - 1) [] s k)).
  - intros s l w3 (k & -> & Hs). by eapply conclude_wp.
  - intros s l w3 e (k & -> & Hs). by split; [apply Hs|].
  - intros s c l w3 (k & -> & Hs). rewrite <- app_assoc, <- app_comm_cons. eapply wp_mono; [by apply feed_wp|].
    intros [s'|e] lw Hafter; [done|by split].
  - exists []. split; [done|]. split; cbn; try done; try lia.
Qed.

Lemma read_through_unfinished write m l : read_through write m l → unfinished l.
Proof.
  intros (k & -> & Hk & _) m' r. rewrite elem_of_cons. intros [[=]|Hin]. rewrite Forall_forall in Hk. by apply Hk in Hin.
Qed.
Lemma unfinished_app l l' : unfinished l → unfinished l' → unfinished (l ++ l').
Proof. intros Hl Hl' m r. rewrite elem_of_app. intros [?|?]; [by eapply Hl|by eapply Hl']. Qed.
Lemma may_read_app write m l0 l : may_read write l0 → read_through write m l → may_read write (l0 ++ l).
Proof.
  intros [Hu Hc] Hl. split; [by apply unfinished_app; [|by eapply read_through_unfinished]|].
  intros Hw. destruct (Hc Hw) as (l2 & l1 & -> & Hp). exists (l2 ++ l), l1. by rewrite <- app_assoc, <- app_comm_cons.
Qed.
Lemma passed_unfinished write ms l : passed write ms l → unfinished l.
Proof.
  intros (ls & -> & Hls). induction Hls as [|m l ms ls Hl _ IH]; [by intros m r ?%elem_of_nil|].
  apply unfinished_app; [by eapply read_through_unfinished|done].
Qed.

(** One pass over the partitions. *)
Lemma pass_wp write ms l0 w :
  1 ≤ batch_size → in_order l0 → may_read write l0 →
  wp (map_list (read_partition recorded_import maximum_record_bytes batch_size policy token write) ms)
    (λ r lw, in_order lw.1 ∧ ∀ xs, r = Ok xs → ∃ l, lw.1 = l0 ++ l ∧ passed write ms l) (l0, w).
Proof.
  intros Hsize. revert l0 w. induction ms as [|m ms IH]; intros l0 w Ho Hmay; cbn [map_list].
  - apply wp_ret. split; [done|]. intros _ _. exists []. rewrite app_nil_r. split; [done|]. by exists [].
  - apply wp_bind. eapply wp_mono; [by apply read_partition_wp|]. intros [x|e] [l w1] [Ho1 Hx]; [|by split].
    destruct (Hx x eq_refl) as (l1 & Hl & Hr). cbn [fst] in Hl, Ho1. subst l.
    apply wp_bind. eapply wp_mono; [apply IH; [done|by eapply may_read_app]|]. intros [xs|e] [l w2] [Ho2 Hxs]; [|by split].
    destruct (Hxs xs eq_refl) as (l2 & Hl & ls & -> & Hls). cbn [fst] in Hl, Ho2. subst l.
    apply wp_ret. split; [done|]. intros _ _. exists (l1 ++ concat ls). rewrite <- app_assoc. split; [done|].
    exists (l1 :: ls). split; [done|by constructor].
Qed.

(** The log of an import that returns. *)
Definition completed (l : log) : Prop :=
  ∃ l1 l2 fingerprint,
    l = l1 ++ Preflighted (lx_metadata manifest) policy (Ok ()) :: l2 ++ [Finalized manifest (Ok fingerprint)] ∧
    passed false (lx_partitions manifest) l1 ∧ passed true (lx_partitions manifest) l2.

(** C5: whatever the artifacts, the target, the transfer hook, the sink, the
    clock and the token do or raise, the calls of an import come in order: the
    preflight is asked only after every partition was read to its end with the
    size and digest of its manifest and without a call to the target; objects
    are transferred and records written only after the preflight agreed; a batch
    holds 1 to [batch_size] records of at most [maximum_record_bytes], and what
    was written of a partition is always a prefix of the lines read, in order;
    the target is finalized, once, only after every partition was written
    completely from content with the size and digest of its manifest, and
    nothing follows.  An import that returns made all of these calls. *)
Theorem import_ordered w :
  let '(r, (l, _)) := import_export recorded_import maximum_record_bytes manifest policy batch_size
                        (lift_snd <$> cancellation) ([], w) in
  ordered permitted_import l ∧ ∀ report, r = Ok report → completed l.
Proof.
  cut (wp (import_export recorded_import maximum_record_bytes manifest policy batch_size (lift_snd <$> cancellation))
    (λ r lw, in_order lw.1 ∧ ∀ report, r = Ok report → completed lw.1) ([], w)).
  { intros Hwp. apply wp_run in Hwp as (r & [l w'] & -> & Hl). exact Hl. }
  assert (in_order []) as Hnil by constructor. assert (unfinished []) as Hun by (by intros m r ?%elem_of_nil).
  unfold import_export. wp_check Hsize; [|done].
  apply raise_if_ok in Hsize. simplify_bool.
  apply wp_bind, poll_wp. intros [[]|e] w1; [|done].
  apply wp_bind. eapply wp_mono; [by apply pass_wp|]. intros [verified|e] [l w2] [Ho1 H1']; [|by split].
  destruct (H1' _ eq_refl) as (l1 & Hl & Hp1). cbn [fst app] in Hl, Ho1. subst l. clear H1'.
  apply wp_bind, wp_recorded. intros r w3.
  assert (in_order (l1 ++ [Preflighted (lx_metadata manifest) policy r])) as Ho2.
  { apply ordered_snoc; [done|]. split; [by eapply passed_unfinished|done]. }
  destruct r as [[]|e]; [|by split].
  assert (cleared (l1 ++ [Preflighted (lx_metadata manifest) policy (Ok ())]) []) as Hcl by (by exists l1).
  apply wp_bind. eapply wp_mono; [apply pass_wp; [done|done|]|].
  { split; [|intros _; by eexists]. apply unfinished_app; [by eapply passed_unfinished|].
    intros m r. rewrite list_elem_of_singleton. by intros [=]. }
  intros [results|e] [l w4] [Ho3 Hres]; [|by split].
  destruct (Hres _ eq_refl) as (l2 & Hl & Hp2). cbn [fst] in Hl, Ho3. rewrite <- app_assoc in Hl. cbn [app] in Hl. subst l. clear Hres.
  wp_check Hsame; [|by split].
  apply wp_bind, wp_recorded. intros r w5.
  assert (in_order ((l1 ++ Preflighted (lx_metadata manifest) policy (Ok ()) :: l2) ++ [Finalized manifest r])) as Ho4.
  { apply ordered_snoc; [done|]. split.
    - apply unfinished_app; [by eapply passed_unfinished|]. intros m r'. rewrite elem_of_cons. intros [[=]|Hin].
      by eapply passed_unfinished in Hin.
    - split; [done|]. exists l2. split; [by exists l1|done]. }
  destruct r as [fingerprint|e]; [|by split].
  assert (completed ((l1 ++ Preflighted (lx_metadata manifest) policy (Ok ()) :: l2) ++ [Finalized manifest (Ok fingerprint)])) as Hdone.
  { exists l1, l2, fingerprint. split; [by rewrite <- app_assoc|done]. }
  wp_check Hprint; [|by split]. wp_check Hreport; [|by split].
  apply wp_bind, wp_lift_snd. intros [now|e] w6; [|by split].
  apply wp_bind. unfold record_evidence. wp_check Hevidence; [|by split].
  apply wp_lift_snd. intros [[]|e] w7; [|by split]. apply wp_ret. by split.
Qed.
End order.
