(* ===== verification/PortRecord.v ===== *)
(** * The line of a record reads back

    The canonical line of a logical record is one line of UTF-8 text; reading it
    gives the record, its objects with their keys in order. *)
From S2P Require Import Prelude PyTime Sha256 Canonical Errors OutboxModel Runner JsonParse MigrationModel PortModel Port PortReading.

(** ** Canonical JSON has no line breaks *)
Definition number_char (c : ascii) : bool := is_digit c || bool_decide (code c ∈ [43; 45; 46; 69; 101]).

Lemma number_char_line c : number_char c = true → is_newline c = false.
Proof. unfold is_newline. intros Hc. apply bool_decide_eq_false. by intros ->. Qed.
Lemma all_number_line s : all_chars number_char s = true → one_line s = true.
Proof.
  induction s as [|c s IH]; [done|]. cbn. intros [Hc Hs]%andb_true_iff. by rewrite (number_char_line c Hc), (IH Hs).
Qed.

Lemma all_chars_mono (p q : ascii → bool) s : (∀ c, p c = true → q c = true) → all_chars p s = true → all_chars q s = true.
Proof. intros Hpq. induction s as [|c s IH]; [done|]. cbn. intros [?%Hpq ?%IH]%andb_true_iff. by apply andb_true_iff. Qed.

(** The consumed text of a scanner. *)
Definition consumes (s lex rest : string) : Prop := s = (lex +:+ rest)%string ∧ all_chars number_char lex = true.

Lemma digit_number c : is_digit c = true → number_char c = true.
Proof. unfold number_char. by intros ->. Qed.
Lemma sign_number c n : is_code n c = true → n ∈ [43; 45; 46; 69; 101] → number_char c = true.
Proof. unfold is_code, number_char. intros ->%Z.eqb_eq Hn. rewrite bool_decide_true by done. apply orb_true_r. Qed.
Lemma consumes_cons c s lex rest : number_char c = true → consumes s lex rest → consumes (String c s) (String c lex) rest.
Proof. intros Hc [-> Hl]. split; [done|]. cbn. by rewrite Hc. Qed.
Lemma consumes_nothing s : consumes s "" s.
Proof. done. Qed.

Lemma span_digits_consumes s : consumes s (span_digits s).1 (span_digits s).2.
Proof.
  induction s as [|c s IH]; [done|]. cbn [span_digits]. destruct (is_digit c) eqn:Hc; [|done].
  destruct (span_digits s) as [d r]. cbn [fst snd] in *. apply consumes_cons; [by apply digit_number|done].
Qed.
Lemma scan_sign_consumes s : consumes s (scan_sign s).1 (scan_sign s).2.
Proof.
  destruct s as [|c s]; [done|]. cbn [scan_sign]. destruct (is_code 45 c) eqn:Hc; [|done]. cbn [fst snd].
  apply consumes_cons; [|done]. eapply sign_number; [done|set_solver].
Qed.
Lemma scan_int_consumes s d r : scan_int s = Some (d, r) → consumes s d r.
Proof.
  destruct s as [|c s]; [done|]. cbn [scan_int]. destruct (is_code 48 c) eqn:H0.
  - intros [= <- <-]. apply consumes_cons; [|done]. unfold is_code in H0. apply Z.eqb_eq in H0. unfold number_char, is_digit.
    by rewrite H0.
  - destruct (is_digit c) eqn:Hc; [|done]. pose proof (span_digits_consumes s) as Hs.
    destruct (span_digits s) as [d' r']. intros [= <- <-]. apply consumes_cons; [by apply digit_number|done].
Qed.
Lemma scan_frac_consumes s : consumes s (scan_frac s).1 (scan_frac s).2.
Proof.
  destruct s as [|c s]; [done|]. cbn [scan_frac]. destruct (is_code 46 c) eqn:Hc; [|done].
  pose proof (span_digits_consumes s) as Hs. destruct (span_digits s) as [d r]. destruct (nonempty d); [|done].
  apply consumes_cons; [|done]. eapply sign_number; [done|set_solver].
Qed.
Lemma scan_exp_consumes s : consumes s (scan_exp s).1 (scan_exp s).2.
Proof.
  destruct s as [|c s]; [done|]. cbn [scan_exp]. destruct (_ || _) eqn:Hc; [|done].
  assert (number_char c = true) as Hnc.
  { apply orb_true_iff in Hc as [Hc|Hc]; (eapply sign_number; [done|set_solver]). }
  destruct s as [|g s].
  { done. }
  destruct (is_code 43 g || is_code 45 g) eqn:Hg.
  - pose proof (span_digits_consumes s) as Hs. destruct (span_digits s) as [d r]. destruct (nonempty d); [|done].
    cbn [fst snd] in *. change (String g "" +:+ d)%string with (String g d). apply consumes_cons; [done|]. apply consumes_cons; [|done].
    apply orb_true_iff in Hg as [Hg|Hg]; (eapply sign_number; [done|set_solver]).
  - pose proof (span_digits_consumes (String g s)) as Hs. destruct (span_digits (String g s)) as [d r]. destruct (nonempty d); [|done].
    by apply consumes_cons.
Qed.

Lemma consumes_app s l1 r1 l2 r2 : consumes s l1 r1 → consumes r1 l2 r2 → consumes s (l1 +:+ l2) r2.
Proof. intros [-> H1] [-> H2]. split; [by rewrite append_assoc|]. rewrite all_chars_app. by rewrite H1, H2. Qed.

Lemma scan_number_consumes `{FloatParser} s v rest : scan_number s = Some (v, rest) → ∃ lex, consumes s lex rest.
Proof.
  unfold scan_number. pose proof (scan_sign_consumes s) as Hsign. destruct (scan_sign s) as [sign s1]. cbn [fst snd] in Hsign.
  destruct (scan_int s1) as [[int s2]|] eqn:Hi; [|done]. apply scan_int_consumes in Hi.
  pose proof (scan_frac_consumes s2) as Hfrac. destruct (scan_frac s2) as [frac s3]. cbn [fst snd] in Hfrac.
  pose proof (scan_exp_consumes s3) as Hexp. destruct (scan_exp s3) as [exp s4]. cbn [fst snd] in Hexp.
  intros Hv. assert (s4 = rest) as <- by (destruct (_ || _); congruence).
  eexists. eapply consumes_app; [exact Hsign|]. eapply consumes_app; [exact Hi|]. by eapply consumes_app.
Qed.

Lemma scanned_line `{FloatParser} s v : scan_number s = Some (v, ""%string) → one_line s = true.
Proof. intros Hs. apply scan_number_consumes in Hs as [lex [-> Hl]]. rewrite append_nil. by apply all_number_line. Qed.

Lemma escape_char_line c : one_line (escape_char c) = true.
Proof. destruct c as [[] [] [] [] [] [] [] []]; reflexivity. Qed.
Lemma escape_line s : one_line (escape s) = true.
Proof. induction s as [|c s IH]; [done|]. cbn [escape]. by rewrite one_line_app, escape_char_line, IH. Qed.
Lemma dump_str_line s : one_line (dump_str s) = true.
Proof. unfold dump_str. cbn [one_line]. by rewrite one_line_app, escape_line. Qed.
Lemma join_line l : Forall (λ s, one_line s = true) l → one_line (join "," l) = true.
Proof.
  induction 1 as [|s l Hs Hl IH]; [done|]. destruct l; [done|].
  change (join "," (s :: s0 :: l)) with (s +:+ "," +:+ join "," (s0 :: l))%string. by rewrite !one_line_app, Hs, IH.
Qed.

Lemma dumps_line `{FloatParser} j : readable j → one_line (dumps j) = true.
Proof.
  induction j as [|b|z|r|s|l IH|l IH] using json_induction; intros Hr.
  - done.
  - by destruct b.
  - eapply scanned_line. rewrite <- (append_nil (dumps _)). by apply scan_number_pretty.
  - eapply scanned_line. rewrite <- (append_nil (dumps _)). by apply Hr.
  - apply dump_str_line.
  - rewrite readable_arr in Hr. cbn [dumps]. rewrite !one_line_app, join_line; [done|].
    rewrite Forall_map. exact (Forall_impl_Forall _ _ _ IH Hr).
  - rewrite readable_obj in Hr. destruct Hr as [_ Hr]. cbn [dumps]. rewrite !one_line_app, join_line; [done|].
    rewrite Forall_map, (sort_keys_perm (map _ l)), Forall_map.
    eapply Forall_impl; [exact (Forall_impl_Forall _ _ _ IH Hr)|]. intros [k j] Hj. cbn [fst snd] in *.
    unfold dump_entry. cbn [fst snd]. by rewrite !one_line_app, dump_str_line, Hj.
Qed.

(** ** Records *)
Definition normalize_record (r : LogicalRecord) : LogicalRecord :=
  MkLogicalRecord (lr_catalog r) (lr_namespace r) (lr_resource r) (lr_schema_ref r) (lr_logical_id r) (lr_version r)
    (normalize (lr_values r)) (map normalize (lr_references r)).

Lemma sort_fields {A} (a b c d e f g h : A) :
  sort_keys [("catalog", a); ("namespace", b); ("resource", c); ("schemaRef", d); ("logicalId", e); ("version", f);
             ("values", g); ("objectReferences", h)]%string =
  [("catalog", a); ("logicalId", e); ("namespace", b); ("objectReferences", h); ("resource", c); ("schemaRef", d);
   ("values", g); ("version", f)]%string.
Proof. reflexivity. Qed.

(** What the constructor guarantees. *)
Definition frozen (j : json) : Prop := (∃ l, j = JObj l) ∧ json_wf j.
Record record_ok (r : LogicalRecord) : Prop := {
  lo_fields : Forall (λ e, e.2 ≠ ""%string)
    [("catalog", lr_catalog r); ("namespace", lr_namespace r); ("resource", lr_resource r);
     ("schema_ref", lr_schema_ref r); ("logical_id", lr_logical_id r)]%string;
  lo_catalog : lr_catalog r ≠ "cache"%string ∧ lr_catalog r ∈ export_catalogs;
  lo_version : ∀ b, lr_version r ≠ VBool b;
  lo_values : frozen (lr_values r);
  lo_references : Forall frozen (lr_references r);
}.

Lemma immutable_mapping_frozen items j : immutable_mapping items = Ok j → frozen j.
Proof. exact (immutable_mapping_obj items j). Qed.

Lemma immutable_mappings_frozen l js : immutable_mappings l = Ok js → Forall frozen js.
Proof. apply res_all_inv. apply Forall_forall. intros items _ j. apply immutable_mapping_frozen. Qed.

Lemma make_record_ok a r : make_logical_record a = Ok r → record_ok r.
Proof.
  unfold make_logical_record. intros Hr. apply res_bind_ok in Hr as ([] & Hf & Hr).
  apply res_bind_ok in Hr as ([] & Hc%raise_if_ok & Hr). apply res_bind_ok in Hr as ([] & He%raise_if_ok & Hr).
  apply res_bind_ok in Hr as ([] & Hv%raise_if_ok & Hr). apply res_bind_ok in Hr as (values & Hvs & Hr).
  apply res_bind_ok in Hr as (refs & Hrs & Hr). injection Hr as <-. simplify_bool.
  split; cbn; [by apply require_nonempty_ok in Hf|done| |by eapply immutable_mapping_frozen|by eapply immutable_mappings_frozen].
  intros b Hb. by rewrite Hb in Hv.
Qed.

Lemma frozen_normalize j : frozen j → frozen (normalize j).
Proof. intros [[l ->] Hwf]. split; [by eexists|by apply normalize_wf]. Qed.

(** The constructor accepts what it made, normalized. *)
Lemma immutable_mapping_frozen_items j : frozen j → immutable_mapping (items_of j) = Ok j.
Proof. intros [[l ->] Hwf]. by apply (json_value_of_json (JObj l)). Qed.

Lemma immutable_mappings_items l : Forall frozen l → immutable_mappings (map items_of l) = Ok l.
Proof.
  unfold immutable_mappings. induction 1 as [|j l Hj _ IH]; [done|]. cbn [map res_all].
  rewrite immutable_mapping_frozen_items by done. cbn [res_bind]. by rewrite IH.
Qed.

Lemma as_mappings_frozen l : Forall frozen l → as_mappings (map of_json l) = Some (map items_of l).
Proof. induction 1 as [|j l [[items ->] _] _ IH]; [done|]. cbn. by rewrite IH. Qed.

Lemma make_normalized r :
  record_ok r →
  make_logical_record (RecordArgs (lr_catalog r) (lr_namespace r) (lr_resource r) (lr_schema_ref r) (lr_logical_id r)
    (lr_version r) (items_of (normalize (lr_values r))) (map items_of (map normalize (lr_references r)))) =
  Ok (normalize_record r).
Proof.
  intros Hr. unfold make_logical_record.
  cbn [ra_catalog ra_namespace ra_resource ra_schema_ref ra_logical_id ra_version ra_values ra_references].
  rewrite (proj2 (require_nonempty_ok _) (lo_fields r Hr)). cbn [res_bind].
  destruct (lo_catalog r Hr) as [Hc He]. rewrite (raise_if_intro (String.eqb _ _)) by (by apply String.eqb_neq).
  cbn [res_bind]. rewrite raise_if_intro by (apply negb_false_iff; by apply bool_decide_eq_true). cbn [res_bind].
  rewrite raise_if_intro by (destruct (lr_version r) eqn:Hv; [done..|by destruct (lo_version r Hr b)]). cbn [res_bind].
  rewrite immutable_mapping_frozen_items by (by apply frozen_normalize, lo_values). cbn [res_bind].
  rewrite immutable_mappings_items; [done|]. apply Forall_map. eapply Forall_impl; [by apply lo_references|].
  apply frozen_normalize.
Qed.

Lemma normalize_fields r :
  items_of (normalize (logical_to_mapping r)) =
  [(PStr "catalog", PStr (lr_catalog r)); (PStr "logicalId", PStr (lr_logical_id r));
   (PStr "namespace", PStr (lr_namespace r));
   (PStr "objectReferences", PSequence (map of_json (map normalize (lr_references r))));
   (PStr "resource", PStr (lr_resource r)); (PStr "schemaRef", PStr (lr_schema_ref r));
   (PStr "values", of_json (normalize (lr_values r)));
   (PStr "version", of_json (version_json (Some (lr_version r))))].
Proof.
  unfold logical_to_mapping. cbn [normalize map]. cbn [fst snd]. rewrite sort_fields.
  by destruct (lr_version r).
Qed.

Lemma from_mapping_normalized r :
  record_ok r → logical_from_mapping (items_of (normalize (logical_to_mapping r))) = Ok (normalize_record r).
Proof.
  intros Hr. rewrite normalize_fields. unfold logical_from_mapping, get_str. cbn [mapping_get].
  assert (Forall frozen (map normalize (lr_references r))) as Hrefs.
  { apply Forall_map. eapply Forall_impl; [by apply lo_references|apply frozen_normalize]. }
  destruct (frozen_normalize _ (lo_values r Hr)) as [[l Hl] _].
  cbn [String.eqb Ascii.eqb Bool.eqb]. rewrite as_mappings_frozen by done. cbn [res_bind].
  pose proof (make_normalized r Hr) as Hmake. rewrite Hl in Hmake |- *. cbn [of_json res_bind].
  assert (as_version (Some (of_json (version_json (Some (lr_version r))))) = Some (lr_version r)) as ->.
  { destruct (lr_version r) eqn:Hv; [done..|by destruct (lo_version r Hr b)]. }
  exact Hmake.
Qed.

(** ** Lines *)
Section lines.
Context `{FloatParser} `{ByteDecoder}.

(** A record that an export can carry: made by the constructor, with floats
    written as [repr] writes them, as UTF-8 text of at most [max] bytes. *)
Record exportable (max : Z) (r : LogicalRecord) : Prop := {
  er_made : ∃ a, make_logical_record a = Ok r;
  er_readable : readable (logical_to_mapping r);
  er_utf8 : valid_utf8 (record_line r) = true;
  er_fits : Z.of_nat (String.length (record_line r)) ≤ max;
}.

Lemma line_starts r : ∃ s, record_line r = String "{" (String dquote_char s).
Proof.
  unfold record_line, canonical_json_bytes, logical_to_mapping. cbn [dumps map]. cbn [fst snd]. rewrite sort_fields.
  cbn [map join]. unfold dump_entry, dump_str. cbn [fst snd]. eexists. reflexivity.
Qed.

Lemma line_is_text r : valid_utf8 (record_line r) = true → is_utf8_text (record_line r) = true.
Proof.
  unfold is_utf8_text. intros ->. destruct (line_starts r) as [s ->]. unfold detects_utf8. apply andb_true_iff. split; [|done].
  apply andb_true_iff. split; [done|]. by apply orb_true_iff; right.
Qed.

Lemma mapping_wf r : record_ok r → json_wf (logical_to_mapping r).
Proof.
  intros Hr. apply json_wf_obj. split.
  - apply (bool_decide_eq_true_1 (NoDup _)). reflexivity.
  - repeat (apply Forall_cons; split; [cbn [snd]; try done|]); [by destruct (lr_version r)|apply (lo_values r Hr)| |done].
    apply json_wf_arr. eapply Forall_impl; [by apply lo_references|]. by intros j [_ Hj].
Qed.

Lemma record_ok_normalize r : record_ok r → record_ok (normalize_record r).
Proof.
  intros Hr. split; cbn; try apply Hr; [by apply frozen_normalize, Hr|].
  apply Forall_map. eapply Forall_impl; [by apply lo_references|apply frozen_normalize].
Qed.

Lemma record_line_normalize r : record_ok r → record_line (normalize_record r) = record_line r.
Proof.
  intros Hr. unfold record_line, canonical_json_bytes.
  rewrite <- (dumps_normalize (logical_to_mapping r)) by (by apply mapping_wf).
  rewrite <- (dumps_normalize (logical_to_mapping (normalize_record r))) by (by apply mapping_wf, record_ok_normalize).
  f_equal. unfold logical_to_mapping. cbn [normalize map normalize_record lr_catalog lr_namespace lr_resource lr_schema_ref
    lr_logical_id lr_version lr_values lr_references fst snd].
  rewrite normalize_idem by apply (lo_values r Hr).
  assert (map normalize (map normalize (lr_references r)) = map normalize (lr_references r)) as ->; [|done].
  rewrite map_map. apply map_ext_Forall. eapply Forall_impl; [by apply lo_references|].
  intros j [_ Hj]. by apply normalize_idem.
Qed.

(** The reader takes the line of an exportable record for that record. *)
Lemma parse_line_record max r previous :
  exportable max r → not_after (lr_logical_id r) previous = false →
  parse_line max (record_line r) previous = Ok (normalize_record r).
Proof.
  intros [[a Ha] Hread Hutf Hfits] Hprev. apply make_record_ok in Ha. unfold parse_line.
  rewrite raise_if_intro by (by apply Z.ltb_ge). cbn [res_bind].
  unfold loads_bytes. rewrite (line_is_text r Hutf). unfold record_line at 1, canonical_json_bytes.
  rewrite json_loads_of_dumps by done. cbn [rethrow res_bind].
  assert (of_json (normalize (logical_to_mapping r)) = PMapping (items_of (normalize (logical_to_mapping r)))) as -> by done.
  cbn [res_bind]. rewrite from_mapping_normalized by done. cbn [res_bind].
  rewrite record_line_normalize, String.eqb_refl by done. cbn [negb raise_if res_bind].
  cbn [normalize_record lr_logical_id]. by rewrite Hprev.
Qed.

Lemma record_line_one max r : exportable max r → one_line (record_line r) = true.
Proof. intros Hr. apply dumps_line, Hr. Qed.
Lemma record_line_nonempty r : nonempty (record_line r) = true.
Proof. by destruct (line_starts r) as [s ->]. Qed.
End lines.
