(* ===== verification/PortExport.v ===== *)
(** * What an export writes

    [LogicalExportCoordinator.export] from a source that answers, into the
    in-memory artifacts: the manifest it returns and the artifacts it leaves. *)
From S2P Require Import Prelude PyTime Sha256 Canonical Errors OutboxModel Runner JsonParse MigrationModel PortModel Port PortReading PortRecord.

(** ** Tallies *)
Definition lines_of (rs : list LogicalRecord) : string := terminated (map record_line rs).
Definition counted (rs : list LogicalRecord) (t : tally) : tally := fold_left count_record rs t.
Definition tallied (rs : list LogicalRecord) (t : tally) : tally := fold_left tally_record rs t.

(** Ids that increase strictly, as the loops test it. *)
Fixpoint ascending (previous : option string) (rs : list LogicalRecord) : Prop :=
  match rs with
  | [] => True
  | r :: rs' => not_after (lr_logical_id r) previous = false ∧ ascending (Some (lr_logical_id r)) rs'
  end.

Definition last_id (p : option string) (rs : list LogicalRecord) : option string :=
  fold_left (λ _ r, Some (lr_logical_id r)) rs p.

Lemma ascending_app p rs rs' : ascending p (rs ++ rs') ↔ ascending p rs ∧ ascending (last_id p rs) rs'.
Proof. revert p. induction rs as [|r rs IH]; intros p; cbn; [tauto|]. rewrite IH. unfold last_id. tauto. Qed.

Lemma lines_of_cons r rs : lines_of (r :: rs) = ((record_line r +:+ newline) +:+ lines_of rs)%string.
Proof. reflexivity. Qed.

Lemma tallied_eq rs t :
  tallied rs t = Tally (hashed t +:+ lines_of rs) (count t + Z.of_nat (length rs))
    (byte_count t + Z.of_nat (String.length (lines_of rs))) (minimum (counted rs t)) (maximum (counted rs t)) (previous (counted rs t)).
Proof.
  revert t. induction rs as [|r rs IH]; intros t.
  - cbn. rewrite append_nil, !Z.add_0_r. by destruct t.
  - cbn [tallied counted fold_left]. fold (tallied rs (tally_record t r)). fold (counted rs (count_record t r)).
    rewrite IH. cbn [tally_record hashed count byte_count]. rewrite lines_of_cons, append_assoc, length_app_str.
    cbn [length]. assert (∀ t', minimum t' = minimum (count_record t r) → maximum t' = maximum (count_record t r) →
      previous t' = previous (count_record t r) →
      minimum (counted rs t') = minimum (counted rs (count_record t r)) ∧
      maximum (counted rs t') = maximum (counted rs (count_record t r)) ∧
      previous (counted rs t') = previous (counted rs (count_record t r))) as Hids.
    { generalize (count_record t r). clear. induction rs as [|r rs IH]; intros t t' Hm HM Hp; [done|].
      cbn [counted fold_left]. apply IH; cbn; [by rewrite Hm|done|done]. }
    destruct (Hids (tally_record t r)) as (-> & -> & ->); [done..|]. f_equal; [lia|]. rewrite !length_app_str. lia.
Qed.

(** The smallest id only depends on the ids. *)
Lemma counted_minimum rs t t' : minimum t = minimum t' → minimum (counted rs t) = minimum (counted rs t').
Proof.
  revert t t'. induction rs as [|r rs IH]; intros t t' Ht; [done|]. cbn [counted fold_left]. apply IH. cbn. by rewrite Ht.
Qed.

Lemma counted_frame rs t :
  hashed (counted rs t) = hashed t ∧ byte_count (counted rs t) = byte_count t ∧
  count (counted rs t) = count t + Z.of_nat (length rs).
Proof.
  revert t. induction rs as [|r rs IH]; intros t; cbn [counted fold_left]; [by rewrite Z.add_0_r|].
  fold (counted rs (count_record t r)). destruct (IH (count_record t r)) as (-> & -> & ->).
  cbn [count_record hashed byte_count count length]. split_and!; [done..|lia].
Qed.

(** The bounds of the ids. *)
Lemma counted_last rs t :
  maximum (counted rs t) = last_id (maximum t) rs ∧ previous (counted rs t) = last_id (previous t) rs.
Proof. revert t. induction rs as [|r rs IH]; intros t; [done|]. apply (IH (count_record t r)). Qed.

Lemma counted_first rs t m : minimum t = Some m → m ≠ ""%string → minimum (counted rs t) = Some m.
Proof.
  revert t. induction rs as [|r rs IH]; intros t Hm Hne; [done|]. apply IH; [|done].
  cbn. rewrite Hm. cbn. by rewrite (proj2 (nonempty_spec m) Hne).
Qed.

(** Ids that ascend after a previous one are greater, the last one too. *)
Lemma ascending_last p rs q : ascending (Some p) rs → last_id (Some p) rs = Some q → (p ≤ q)%string.
Proof.
  revert p. induction rs as [|r rs IH]; intros p; cbn.
  - by intros _ [= ->].
  - intros [Hr Hrs] Hq. apply bool_decide_eq_false in Hr. specialize (IH _ Hrs Hq).
    destruct (total String.le p (lr_logical_id r)) as [Hle|Hle]; [by etrans|done].
Qed.

(** ** The manifest of a partition *)
Definition manifest_of (p : string * list LogicalRecord) : PartitionManifest :=
  let t := tallied p.2 no_tally in
  MkPartition p.1 (artifact_name p.1 (lines_of p.2)) (count t) (byte_count t) (minimum t) (maximum t) (hex_digest (lines_of p.2)).

Lemma manifest_of_eq id rs :
  manifest_of (id, rs) = MkPartition id (artifact_name id (lines_of rs)) (Z.of_nat (length rs))
    (Z.of_nat (String.length (lines_of rs))) (minimum (counted rs no_tally)) (maximum (counted rs no_tally)) (hex_digest (lines_of rs)).
Proof. unfold manifest_of. by rewrite tallied_eq. Qed.

Lemma hex_digest_valid content field : require_sha256 (hex_digest content) field = Ok (hex_digest content).
Proof.
  unfold hex_digest. apply require_sha256_ok. split; [|done]. unfold is_sha256.
  destruct (sha256_hex_shape content) as [Hlen Hall]. by rewrite strip_prefix_app, Hlen, Hall.
Qed.

(** Two partitions with distinct ids have distinct artifacts. *)
Lemma append_inj_suffix (a b x y : string) :
  String.length x = String.length y → (a +:+ x = b +:+ y)%string → a = b ∧ x = y.
Proof.
  revert b. induction a as [|c a IH]; intros [|d b] Hlen; rewrite ?append_empty, ?append_cons.
  - done.
  - intros ->. cbn in Hlen. rewrite length_app_str in Hlen. lia.
  - intros <-. cbn in Hlen. rewrite length_app_str in Hlen. lia.
  - intros [= -> Heq]. destruct (IH b Hlen Heq) as [-> ->]. done.
Qed.
Lemma artifact_name_inj id id' content content' :
  artifact_name id content = artifact_name id' content' → id = id'.
Proof.
  unfold artifact_name. rewrite !append_cons. intros [= Heq]. rewrite !append_empty in Heq. apply append_inj_suffix in Heq as [-> _]; [done|].
  cbn [String.length]. by rewrite !(proj1 (sha256_hex_shape _)).
Qed.

Lemma last_id_some q rs : ∃ p, last_id (Some q) rs = Some p.
Proof. revert q. induction rs as [|r rs IH]; intros q; [by exists q|]. apply IH. Qed.

Lemma lines_of_nonempty r rs : (0 < String.length (lines_of (r :: rs)))%nat.
Proof. rewrite lines_of_cons, !length_app_str. cbn [String.length newline]. lia. Qed.

Lemma make_partition_manifest id rs :
  id ≠ ""%string → Forall (λ r, lr_logical_id r ≠ ""%string) rs → ascending None rs →
  make_partition (manifest_of (id, rs)) = Ok (manifest_of (id, rs)).
Proof.
  intros Hid Hne Hasc. rewrite manifest_of_eq. unfold make_partition.
  cbn [pm_id pm_ref pm_count pm_bytes pm_minimum pm_maximum pm_sha256].
  assert (require_all [id; artifact_name id (lines_of rs)] "partition identity and artifact reference must be non-empty" = Ok ()) as ->.
  { unfold require_all. cbn [forallb]. by rewrite (proj2 (nonempty_spec id) Hid). }
  cbn [res_bind]. rewrite raise_if_intro by (apply orb_false_iff; split; apply Z.ltb_ge; lia). cbn [res_bind].
  rewrite hex_digest_valid. destruct rs as [|r rs]; [done|].
  apply Forall_cons in Hne as [Hr _]. cbn [ascending] in Hasc. destruct Hasc as [_ Hasc].
  assert (minimum (counted (r :: rs) no_tally) = Some (lr_logical_id r)) as ->.
  { cbn [counted fold_left]. by apply (counted_first rs (count_record no_tally r)). }
  destruct (last_id_some (lr_logical_id r) rs) as [q Hq].
  assert (maximum (counted (r :: rs) no_tally) = Some q) as ->.
  { rewrite (proj1 (counted_last _ _)). exact Hq. }
  pose proof (lines_of_nonempty r rs) as Hbytes.
  rewrite raise_if_intro by (cbn [length]; apply andb_false_iff; left; apply Z.eqb_neq; lia). cbn [res_bind is_some negb orb].
  rewrite andb_false_r. cbn [raise_if res_bind].
  rewrite raise_if_intro by (apply andb_false_iff; right; apply Z.eqb_neq; lia). cbn [res_bind].
  rewrite bool_decide_true by (by eapply ascending_last). done.
Qed.

(** ** The export *)
Record export_plan : Type := ExportPlan {
  xp_boundary : ExportBoundary;
  xp_final : ExportBoundary;
  xp_metadata : ExportMetadata;
  xp_source : list (string * list (list LogicalRecord));
  xp_now : instant;
}.
(** The partitions with their records. *)
Definition partitions_of (p : export_plan) : list (string * list LogicalRecord) :=
  map (λ e, (e.1, concat e.2)) (xp_source p).

Section memory_export.
Context {X : Type}.
Abbreviation W := (artifacts * X)%type.
#[local] Instance quiet : EvidenceSink W := NullEvidenceSink.

Definition memory_export (p : export_plan) : export_hooks pyval W :=
  ExportHooks (λ _, ret (xp_boundary p)) (λ _ _, ret (xp_metadata p)) (λ _ _, ret (map fst (xp_source p)))
    (λ _ _ id, ret (iter_of_list (default [] (dict_get id (xp_source p))))) (λ _ _, ret (xp_final p))
    (λ id, lift_fst (memory_begin id)) (λ h c, lift_fst (memory_write h c)) (λ h id, lift_fst (memory_finish h id))
    (ret (at_utc (xp_now p))).

(** The artifacts while the partition of handle [h] is written. *)
Definition writing (a : artifacts) (h : Z) (content : string) : artifacts :=
  Artifacts (<[h := content]> (pending a)) (stored_artifacts a) (next_handle a).

Lemma memory_write_run a h c chunk : memory_write (PInt h) chunk (writing a h c) = (Ok (), writing a h (c +:+ chunk)).
Proof. unfold memory_write, bind, lift_res. cbn [int_handle writing pending]. rewrite lookup_insert_eq. unfold writing. cbn. by rewrite insert_insert_eq. Qed.

Context (p : export_plan) (request : ExportRequest).

Lemma export_records_run h rs t a x c :
  ascending (previous t) rs →
  for_list rs t (export_record (memory_export p) (PInt h)) (writing a h c, x) =
    (Ok (tallied rs t), (writing a h (c +:+ lines_of rs), x)).
Proof.
  revert t c. induction rs as [|r rs IH]; intros t c Hasc.
  - cbn. unfold lines_of. cbn. by rewrite append_nil.
  - cbn [ascending] in Hasc. destruct Hasc as [Hr Hasc]. cbn [for_list]. unfold bind at 1. unfold export_record at 1.
    unfold bind, lift_res. rewrite Hr. cbn [raise_if sink_write memory_export]. unfold lift_fst. rewrite memory_write_run.
    unfold ret.
    rewrite IH by done. by rewrite lines_of_cons, !append_assoc.
Qed.

Lemma tallied_app rs rs' t : tallied (rs ++ rs') t = tallied rs' (tallied rs t).
Proof. apply fold_left_app. Qed.
Lemma tallied_previous rs t : previous (tallied rs t) = last_id (previous t) rs.
Proof. rewrite tallied_eq. apply counted_last. Qed.
Lemma lines_of_app rs rs' : lines_of (rs ++ rs') = (lines_of rs +:+ lines_of rs')%string.
Proof. unfold lines_of, terminated. by rewrite !map_app, concat_all_app. Qed.

Lemma export_batches_run h batches t a x c :
  ascending (previous t) (concat batches) → Forall (λ b, Z.of_nat (length b) ≤ rq_batch_size request) batches →
  for_list batches t (export_batch (memory_export p) request never_cancelled (PInt h)) (writing a h c, x) =
    (Ok (tallied (concat batches) t), (writing a h (c +:+ lines_of (concat batches)), x)).
Proof.
  intros Hasc Hsize. revert t c Hasc. induction Hsize as [|b batches Hb _ IH]; intros t c Hasc.
  - cbn. unfold lines_of. cbn. by rewrite append_nil.
  - cbn [concat] in *. apply ascending_app in Hasc as [Hb1 Hrest]. cbn [for_list]. unfold bind at 1. unfold export_batch at 1.
    unfold bind at 1, lift_res. rewrite raise_if_intro by (by apply Z.ltb_ge).
    assert (∀ (k : unit → M W tally), bind (raise_if_cancelled never_cancelled) k (writing a h c, x) = k () (writing a h c, x)) as -> by done.
    rewrite export_records_run by done. rewrite IH by (by rewrite tallied_previous).
    by rewrite tallied_app, lines_of_app, append_assoc.
Qed.

(** One partition. *)
Lemma export_partition_run e a x :
  NoDup (map fst (xp_source p)) → e ∈ xp_source p → e.1 ≠ ""%string →
  Forall (λ r, lr_logical_id r ≠ ""%string) (concat e.2) → ascending None (concat e.2) →
  Forall (λ b, Z.of_nat (length b) ≤ rq_batch_size request) e.2 →
  ∃ a', export_partition (memory_export p) request (xp_boundary p) never_cancelled e.1 (a, x) =
      (Ok (manifest_of (e.1, concat e.2)), (a', x)) ∧
    stored_artifacts a' = <[artifact_name e.1 (lines_of (concat e.2)) := lines_of (concat e.2)]> (stored_artifacts a).
Proof.
  intros Hnd He Hid Hne Hasc Hsize. unfold export_partition.
  assert (∀ B (k : unit → M W B) w, bind (raise_if_cancelled never_cancelled) k w = k () w) as Hpoll by done.
  rewrite Hpoll. unfold bind at 1. cbn [sink_begin memory_export]. unfold lift_fst at 1, memory_begin. cbn beta iota zeta.
  set (h := next_handle a + 1). set (a0 := Artifacts (pending a) (stored_artifacts a) h).
  change (Artifacts (<[h := ""%string]> (pending a)) (stored_artifacts a) h) with (writing a0 h "").
  unfold bind at 1. cbn [xs_records memory_export]. unfold ret at 1.
  assert (dict_get e.1 (xp_source p) = Some e.2) as ->.
  { apply dict_get_in; [done|]. by destruct e. }
  cbn [default from_option id]. unfold bind at 1. rewrite for_iter_list, export_batches_run by done.
  unfold bind, lift_fst. cbn [sink_finish memory_export]. unfold lift_fst, memory_finish, bind, lift_res. cbn [int_handle writing pending].
  rewrite lookup_insert_eq. unfold lift_res. rewrite append_empty.
  assert (hashed (tallied (concat e.2) no_tally) = lines_of (concat e.2)) as -> by (by rewrite tallied_eq).
  match goal with |- context [make_partition ?m] => change m with (manifest_of (e.1, concat e.2)) end. rewrite make_partition_manifest by done.
  eexists. split; [reflexivity|]. done.
Qed.

(** What the artifacts hold after the partitions [l] were written. *)
Definition holds (a : artifacts) (l : list (string * list LogicalRecord)) : Prop :=
  Forall (λ q, stored_artifacts a !! pm_ref (manifest_of q) = Some (lines_of q.2)) l.

Lemma export_partitions_run l a x :
  NoDup (map fst (xp_source p)) → NoDup (map fst l) → Forall (λ e, e ∈ xp_source p) l →
  Forall (λ e, e.1 ≠ ""%string ∧ Forall (λ r, lr_logical_id r ≠ ""%string) (concat e.2) ∧ ascending None (concat e.2) ∧
    Forall (λ b, Z.of_nat (length b) ≤ rq_batch_size request) e.2) l →
  ∃ a', map_list (export_partition (memory_export p) request (xp_boundary p) never_cancelled) (map fst l) (a, x) =
      (Ok (map manifest_of (map (λ e, (e.1, concat e.2)) l)), (a', x)) ∧
    holds a' (map (λ e, (e.1, concat e.2)) l) ∧
    ∀ id content, id ∉ map fst l →
      stored_artifacts a' !! artifact_name id content = stored_artifacts a !! artifact_name id content.
Proof.
  intros Hnd. revert a. induction l as [|e l IH]; intros a Hndl Hin Hok.
  { exists a. by split_and!; [|constructor|]. }
  cbn [map] in Hndl. apply NoDup_cons in Hndl as [Hfresh Hndl]. apply Forall_cons in Hin as [He Hin].
  apply Forall_cons in Hok as [(Hid & Hne & Hasc & Hsize) Hok].
  destruct (export_partition_run e a x) as (a1 & Hrun & Hstored); [done..|].
  destruct (IH a1 Hndl Hin Hok) as (a2 & Hrest & Hholds & Hother).
  exists a2. split_and!.
  - cbn [map map_list]. unfold bind at 1. rewrite Hrun. unfold bind. by rewrite Hrest.
  - cbn [map]. constructor; [|done]. rewrite manifest_of_eq. cbn [pm_ref snd fst]. rewrite Hother by done. rewrite Hstored.
    apply lookup_insert_eq.
  - intros id content Hid'. cbn [map] in Hid'. rewrite not_elem_of_cons in Hid'. destruct Hid' as [Hne' Hid'].
    rewrite Hother, Hstored by done. apply lookup_insert_ne. intros Heq. apply Hne'. symmetry. by eapply artifact_name_inj.
Qed.

(** A source that keeps its promises. *)
Record keeps_promises : Prop := {
  kp_ids : NoDup (map fst (xp_source p));
  kp_partitions : Forall (λ e, e.1 ≠ ""%string ∧ Forall (λ r, lr_logical_id r ≠ ""%string) (concat e.2) ∧
    ascending None (concat e.2) ∧ Forall (λ b, Z.of_nat (length b) ≤ rq_batch_size request) e.2) (xp_source p);
  kp_boundary : xb_id (xp_final p) = xb_id (xp_boundary p) ∧ xb_start (xp_final p) = xb_start (xp_boundary p);
  kp_now : in_range (xp_now p) = true;
}.

Lemma export_run export_id a x :
  keeps_promises → export_id ≠ ""%string →
  ∃ manifest a', export_logical (memory_export p) request None export_id (a, x) = (Ok manifest, (a', x)) ∧
    lx_partitions manifest = map manifest_of (partitions_of p) ∧ lx_export_id manifest = export_id ∧
    lx_metadata manifest = xp_metadata p ∧ is_sha256 (lx_digest manifest) = true ∧ holds a' (partitions_of p).
Proof.
  intros [Hnd Hparts [Hbid Hbstart] Hnow] Hid.
  destruct (export_partitions_run (xp_source p) a x) as (a' & Hrun & Hholds & _); [done|done|by apply Forall_forall|done|].
  set (stamp h := MkExport (xp_metadata p) (xp_final p) (map manifest_of (partitions_of p)) export_id (xp_now p) h
    LOGICAL_EXPORT_FORMAT_VERSION).
  set (manifest := stamp (sha256_digest (JObj (export_material (stamp ""%string))))).
  exists manifest, a'.
  assert (make_export (xp_metadata p) (xp_final p) (map manifest_of (partitions_of p)) export_id (at_utc (xp_now p)) ""
    LOGICAL_EXPORT_FORMAT_VERSION = Ok manifest) as Hmake.
  { unfold make_export. rewrite String.eqb_refl. cbn [negb raise_if res_bind]. rewrite (proj2 (nonempty_spec _) Hid).
    cbn [negb raise_if res_bind]. rewrite raise_if_intro.
    - cbn [res_bind]. rewrite ensure_utc_at_utc by done. reflexivity.
    - unfold unique. rewrite bool_decide_true; [done|]. unfold partitions_of. rewrite !map_map. cbn [manifest_of pm_id fst]. exact Hnd. }
  split_and!; [|done..| |done].
  2:{ eapply (proj1 (require_sha256_ok _ "digest" _)), sha256_digest_valid. }
  unfold export_logical. cbn [default xs_begin xs_metadata xs_partition_ids xs_finish export_clock memory_export].
  unfold bind at 1 2 3, ret at 1 2 3. unfold bind at 1, lift_res at 1.
  unfold unique at 1. rewrite bool_decide_true by done. cbn [negb raise_if].
  unfold bind at 1. rewrite Hrun. unfold bind at 1, ret at 1. unfold bind at 1, lift_res at 1. rewrite Hbid, String.eqb_refl. cbn [negb raise_if].
  unfold bind at 1, lift_res at 1. rewrite Hbstart, String.eqb_refl. cbn [negb raise_if].
  unfold bind at 1, ret at 1. unfold bind at 1, lift_res at 1. fold (partitions_of p). rewrite Hmake.
  unfold bind at 1, ret at 1. unfold bind at 1, record_evidence, bind at 1, lift_res, make_evidence.
  assert (nonempty (lx_export_id manifest) = true) as -> by (by apply nonempty_spec). cbn [nonempty String.eqb negb orb raise_if res_bind].
  unfold immutable_mapping. cbn -[Z.of_nat length lx_digest lx_partitions lx_boundary ensure_utc evidence_fingerprint].
  rewrite ensure_utc_at_utc by done. reflexivity.
Qed.
End memory_export.
