(* ===== verification/PortRoundTrip.v ===== *)
(** * Export, then import

    What [LogicalExportCoordinator.export] writes into the in-memory artifacts,
    [LogicalImportCoordinator.import_export] gives to its target. *)
From S2P Require Import Prelude PyTime Sha256 Canonical Errors OutboxModel Runner JsonParse MigrationModel PortModel Port PortReading PortRecord PortExport.

(** Consume an iterable of the first component of a larger world. *)
Fixpoint lift_iter_fst {W X A} (it : iter W A) : iter (W * X) A :=
  match it with
  | MkIter next => MkIter (λ '(w, x),
      match next w with
      | (Ok None, w') => (Ok None, (w', x))
      | (Ok (Some (a, it')), w') => (Ok (Some (a, lift_iter_fst it')), (w', x))
      | (Raise e, w') => (Raise e, (w', x))
      end)
  end.

#[local] Existing Instance quiet.

Section round_trip.
Context `{FloatParser} `{ByteDecoder}.
(** The target keeps the batches it is given. *)
Abbreviation W := (artifacts * list (list LogicalRecord))%type.

Definition memory_import (fingerprint : string) (now : instant) : import_hooks W :=
  ImportHooks (λ ref, ret (lift_iter_fst (memory_chunks ref))) (λ _ _, ret ())
    (λ batch _ '(a, received), (Ok (), (a, received ++ [batch]))) (λ _, ret fingerprint) None (ret (at_utc now)).

Context (fingerprint : string) (now : instant) (maximum_record_bytes batch_size : Z) (policy : MergePolicy).
Abbreviation hooks := (memory_import fingerprint now).
Abbreviation line write := (consume_line hooks maximum_record_bytes batch_size policy write).

Lemma no_transfer references w : for_list references () (λ _, transfer_reference hooks) w = (Ok (), w).
Proof. induction references as [|j l IH]; [done|]. exact IH. Qed.

(** What the lines of [rs] do to the variables: the batches that were written
    and what is pending are the records, in order. *)
Definition moved (write : bool) (rs : list LogicalRecord) (s s' : reading) (batches : list (list LogicalRecord)) : Prop :=
  Forall (λ b, 1 ≤ Z.of_nat (length b) ≤ batch_size) batches ∧
  if write then
    concat batches ++ rd_batch s' = rd_batch s ++ map normalize_record rs ∧ Z.of_nat (length (rd_batch s')) < batch_size
  else batches = [] ∧ rd_batch s' = rd_batch s.

Lemma consume_record write r s a received :
  1 ≤ batch_size → exportable maximum_record_bytes r → not_after (lr_logical_id r) (previous (rd_tally s)) = false →
  (write = true → Z.of_nat (length (rd_batch s)) < batch_size) →
  ∃ s' batches, line write s (record_line r) (a, received) = (Ok s', (a, received ++ batches)) ∧
    rd_tally s' = count_record (rd_tally s) r ∧ rd_buffer s' = rd_buffer s ∧ moved write [r] s s' batches.
Proof.
  intros Hsize Hr Hid Hlen. unfold consume_line. rewrite record_line_nonempty. unfold consume, bind at 1, lift_res.
  rewrite parse_line_record by done. unfold moved. destruct write; cbn [andb].
  - unfold bind at 1. rewrite no_transfer. cbn [rd_batch rd_tally rd_buffer]. specialize (Hlen eq_refl).
    rewrite length_app. cbn [length]. destruct (_ =? _) eqn:Hfull.
    + apply Z.eqb_eq in Hfull. eexists _, [rd_batch s ++ [normalize_record r]]. split; [reflexivity|]. split; [done|].
      split; [done|]. split; [constructor; [rewrite length_app; cbn [length]; lia|constructor]|]. cbn. rewrite !app_nil_r. split; [done|lia].
    + apply Z.eqb_neq in Hfull. eexists _, []. rewrite app_nil_r. split; [reflexivity|]. split; [done|]. split; [done|].
      split; [constructor|]. cbn. rewrite length_app. cbn. split; [done|lia].
  - eexists _, []. rewrite app_nil_r. split; [reflexivity|]. done.
Qed.

Lemma moved_app write rs rs' s s1 s' b b' :
  moved write rs s s1 b → moved write rs' s1 s' b' → moved write (rs ++ rs') s s' (b ++ b').
Proof.
  intros [Hb Hw] [Hb' Hw']. split; [by apply Forall_app|]. destruct write.
  - destruct Hw as [Heq _], Hw' as [Heq' ?]. split; [|done]. by rewrite concat_app, map_app, <- app_assoc, Heq', !app_assoc, Heq.
  - destruct Hw as [-> ?], Hw' as [-> ?]. split; [done|congruence].
Qed.

Lemma consume_records write rs s a received :
  1 ≤ batch_size → Forall (exportable maximum_record_bytes) rs → ascending (previous (rd_tally s)) rs →
  (write = true → Z.of_nat (length (rd_batch s)) < batch_size) →
  ∃ s' batches, for_list (map record_line rs) s (line write) (a, received) = (Ok s', (a, received ++ batches)) ∧
    rd_tally s' = counted rs (rd_tally s) ∧ rd_buffer s' = rd_buffer s ∧ moved write rs s s' batches.
Proof.
  intros Hsize Hrs. revert s received. induction Hrs as [|r rs Hr _ IH]; intros s received Hasc Hlen.
  - exists s, []. rewrite app_nil_r. split_and!; [done..|]. split; [constructor|]. destruct write; [|done]. cbn. by rewrite app_nil_r; auto.
  - cbn [ascending] in Hasc. destruct Hasc as [Hid Hasc].
    destruct (consume_record write r s a received) as (s1 & b1 & Hrun1 & Ht1 & Hb1 & Hm1); [done..|].
    destruct (IH s1 (received ++ b1)) as (s2 & b2 & Hrun2 & Ht2 & Hb2 & Hm2).
    { by rewrite Ht1. } { intros ->. apply Hm1. }
    exists s2, (b1 ++ b2). cbn [map for_list]. unfold bind. rewrite Hrun1, Hrun2, app_assoc. split; [done|].
    split; [by rewrite Ht2, Ht1|]. split; [congruence|]. exact (moved_app _ [r] rs _ _ _ _ _ Hm1 Hm2).
Qed.

(** The whole artifact. *)
Lemma lines_split rs :
  Forall (exportable maximum_record_bytes) rs → split_lines (lines_of rs) = (map record_line rs, ""%string).
Proof.
  intros Hrs. rewrite <- (append_nil (lines_of rs)). unfold lines_of. rewrite split_terminated.
  - cbn. by rewrite app_nil_r.
  - apply Forall_map. eapply Forall_impl; [exact Hrs|]. intros r. apply record_line_one.
Qed.

Abbreviation feed_one write := (feed hooks maximum_record_bytes never_cancelled batch_size policy write).

Lemma read_content write rs ref a received :
  1 ≤ batch_size → 0 ≤ maximum_record_bytes → Forall (exportable maximum_record_bytes) rs → ascending None rs →
  stored_artifacts a !! ref = Some (lines_of rs) →
  ∃ s batches,
    bind (chunks hooks ref) (λ it, for_iter it no_reading (feed_one write)) (a, received) = (Ok s, (a, received ++ batches)) ∧
    rd_tally s = tallied rs no_tally ∧ rd_buffer s = ""%string ∧ moved write rs no_reading s batches.
Proof.
  intros Hsize Hmax Hrs Hasc Hstored. unfold bind. cbn [chunks memory_import]. unfold ret at 1. cbn [for_iter lift_iter_fst memory_chunks].
  rewrite Hstored. destruct (nonempty (lines_of rs)) eqn:Hne.
  - rewrite feed_eq. cbn [rd_buffer no_reading]. rewrite append_empty, lines_split by done.
    destruct (consume_records write rs (fed no_reading (lines_of rs) "") a received) as (s & b & Hrun & Ht & Hb & Hm); [done..|cbn; lia|].
    rewrite Hrun. rewrite Hb. cbn [fed reframe rd_buffer String.length Z.of_nat].
    rewrite (proj2 (Z.ltb_ge _ _)) by done. exists s, b. split; [done|]. split.
    + rewrite Ht, tallied_eq. destruct (counted_frame rs (rd_tally (fed no_reading (lines_of rs) ""))) as (Hh & Hn & Hc).
      assert (∀ t, t = Tally (hashed t) (count t) (byte_count t) (minimum t) (maximum t) (previous t)) as Heta by (by intros []).
      rewrite (Heta (counted _ _)), Hh, Hn, Hc. cbn [fed reframe rd_tally hashed byte_count count no_reading no_tally].
      rewrite !(proj1 (counted_last _ _)), !(proj2 (counted_last _ _)). f_equal.
      by apply counted_minimum.
    + split; [by rewrite Hb|exact Hm].
  - apply nonempty_false in Hne. destruct rs as [|r rs]; [|by pose proof (lines_of_nonempty r rs) as Hl; rewrite Hne in Hl; cbn in Hl; lia].
    exists no_reading, []. rewrite app_nil_r. split_and!; [done..|]. split; [constructor|]. by destruct write; [cbn; split; [|lia]|].
Qed.

Lemma matches_own id rs : matches_manifest (tallied rs no_tally) (manifest_of (id, rs)) = true.
Proof.
  unfold matches_manifest. rewrite manifest_of_eq, tallied_eq. cbn [count byte_count minimum maximum hashed pm_count pm_bytes pm_minimum
    pm_maximum pm_sha256 no_tally]. rewrite append_empty, !Z.add_0_l, !Z.eqb_refl, !bool_decide_true, String.eqb_refl by done. done.
Qed.

(** The result of reading a partition. *)
Definition result_of (q : string * list LogicalRecord) : PartitionImportResult :=
  let m := manifest_of q in MkPartitionResult (pm_id m) (pm_count m) (pm_bytes m) (pm_sha256 m).

Lemma result_valid id rs : id ≠ ""%string → make_partition_result (result_of (id, rs)) = Ok (result_of (id, rs)).
Proof.
  intros Hid. unfold make_partition_result, result_of. rewrite manifest_of_eq. cbn [pr_id pr_count pr_bytes pr_sha256 pm_id pm_count pm_bytes pm_sha256].
  rewrite (proj2 (nonempty_spec id) Hid). rewrite raise_if_intro; [by rewrite hex_digest_valid|].
  cbn [negb orb]. apply orb_false_iff. split; apply Z.ltb_ge; lia.
Qed.

(** What reaches the target. *)
Definition delivered (write : bool) (rs : list LogicalRecord) (batches : list (list LogicalRecord)) : Prop :=
  Forall (λ b, 1 ≤ Z.of_nat (length b) ≤ batch_size) batches ∧
  concat batches = if write then map normalize_record rs else [].

Lemma read_memory write id rs a received :
  1 ≤ batch_size → 0 ≤ maximum_record_bytes → Forall (exportable maximum_record_bytes) rs → ascending None rs →
  id ≠ ""%string → stored_artifacts a !! pm_ref (manifest_of (id, rs)) = Some (lines_of rs) →
  ∃ batches, read_partition hooks maximum_record_bytes batch_size policy never_cancelled write (manifest_of (id, rs)) (a, received) =
      (Ok (result_of (id, rs)), (a, received ++ batches)) ∧ delivered write rs batches.
Proof.
  intros Hsize Hmax Hrs Hasc Hid Hstored.
  destruct (read_content write rs (pm_ref (manifest_of (id, rs))) a received) as (s & b & Hrun & Ht & Hb & Hm); [done..|].
  assert (∀ w, read_partition hooks maximum_record_bytes batch_size policy never_cancelled write (manifest_of (id, rs)) w =
    bind (bind (chunks hooks (pm_ref (manifest_of (id, rs)))) (λ it, for_iter it no_reading (feed_one write)))
      (conclude_partition hooks policy write (manifest_of (id, rs))) w) as -> by (intros; reflexivity).
  unfold bind at 1. rewrite Hrun. unfold conclude_partition. rewrite Hb. cbn [nonempty String.eqb negb raise_if].
  unfold bind at 1, lift_res at 1. rewrite Ht, matches_own. cbn [negb raise_if].
  assert (MkPartitionResult (pm_id (manifest_of (id, rs))) (count (tallied rs no_tally)) (byte_count (tallied rs no_tally))
    (hex_digest (hashed (tallied rs no_tally))) = result_of (id, rs)) as ->.
  { unfold result_of. rewrite manifest_of_eq, tallied_eq. done. }
  rewrite result_valid by done. destruct Hm as [Hfit Hm]. destruct write; cbn [andb].
  - destruct Hm as [Heq Hlen]. cbn [rd_batch no_reading] in Heq. destruct (rd_batch s) as [|r pend] eqn:Hp.
    + rewrite bool_decide_true by done. exists b. split; [reflexivity|]. split; [done|]. by rewrite app_nil_r in Heq.
    + rewrite bool_decide_false by done. exists (b ++ [r :: pend]). rewrite app_assoc. split; [reflexivity|]. split.
      * apply Forall_app. split; [done|]. constructor; [|constructor]. cbn [length] in *. lia.
      * rewrite concat_app. cbn [concat]. by rewrite app_nil_r.
  - destruct Hm as [-> _]. exists []. split; [reflexivity|]. by split; [constructor|].
Qed.

(** ** One pass over the partitions, and the whole import *)
Definition importable (q : string * list LogicalRecord) : Prop :=
  q.1 ≠ ""%string ∧ Forall (exportable maximum_record_bytes) q.2 ∧ ascending None q.2.

Lemma pass_memory write l a received :
  1 ≤ batch_size → 0 ≤ maximum_record_bytes → Forall importable l → holds a l →
  ∃ batches, map_list (read_partition hooks maximum_record_bytes batch_size policy never_cancelled write) (map manifest_of l) (a, received) =
      (Ok (map result_of l), (a, received ++ batches)) ∧ delivered write (concat (map snd l)) batches.
Proof.
  intros Hsize Hmax Hl. revert received. induction Hl as [|[id rs] l (Hid & Hrs & Hasc) _ IH]; intros received Hholds.
  - exists []. rewrite app_nil_r. split; [done|]. split; [constructor|]. by destruct write.
  - apply Forall_cons in Hholds as [Hstored Hholds].
    destruct (read_memory write id rs a received) as (b1 & Hrun1 & Hf1 & Hd1); [done..|].
    destruct (IH (received ++ b1) Hholds) as (b2 & Hrun2 & Hf2 & Hd2).
    exists (b1 ++ b2). cbn [map map_list]. unfold bind. rewrite Hrun1. rewrite Hrun2, <- app_assoc. split; [done|].
    split; [by apply Forall_app|]. rewrite concat_app, Hd1, Hd2. destruct write; [|done]. cbn [map concat snd]. by rewrite map_app.
Qed.

Lemma import_run manifest l a received :
  1 ≤ batch_size ≤ 10000 → 0 ≤ maximum_record_bytes → is_sha256 fingerprint = true → in_range now = true →
  lx_partitions manifest = map manifest_of l → is_sha256 (lx_digest manifest) = true → lx_export_id manifest ≠ ""%string →
  NoDup (map fst l) → Forall importable l → holds a l →
  ∃ report batches,
    import_export hooks maximum_record_bytes manifest policy batch_size None (a, received) = (Ok report, (a, received ++ batches)) ∧
    delivered true (concat (map snd l)) batches ∧
    ir_export_digest report = lx_digest manifest ∧ ir_partitions report = map result_of l.
Proof.
  intros Hsize Hmax Hfp Hnow Hparts Hdigest Hid Hnd Hl Hholds.
  destruct (pass_memory false l a received) as (b0 & Hrun0 & Hf0 & Hb0); [lia|done..|].
  assert (b0 = []) as ->.
  { destruct b0 as [|b b0]; [done|]. apply Forall_cons in Hf0 as [Hb _]. cbn in Hb0. apply app_eq_nil in Hb0 as [-> _]. cbn in Hb. lia. }
  rewrite app_nil_r in Hrun0.
  destruct (pass_memory true l a received) as (batches & Hrun & Hdel); [lia|done..|].
  set (comparison := comparison_digest (lx_digest manifest) fingerprint (map result_of l)).
  set (report := MkImportReport (lx_digest manifest) fingerprint (map result_of l) comparison).
  exists report, batches. split; [|done].
  assert (make_import_report report = Ok report) as Hreport.
  { unfold make_import_report. cbn [ir_export_digest ir_fingerprint ir_comparison ir_partitions report require_digests].
    unfold require_sha256 at 1 2. rewrite Hdigest, Hfp. unfold comparison, comparison_digest.
    rewrite sha256_digest_valid. cbn [res_bind]. rewrite raise_if_intro; [done|]. unfold unique.
    rewrite bool_decide_true; [done|]. rewrite map_map. exact Hnd. }
  unfold import_export. unfold bind at 1, lift_res at 1.
  rewrite raise_if_intro by (apply orb_false_iff; split; apply Z.ltb_ge; lia). cbn [default].
  assert (∀ B (k : unit → M W B) w, bind (raise_if_cancelled never_cancelled) k w = k () w) as Hpoll by done.
  rewrite Hpoll, Hparts. unfold bind at 1. rewrite Hrun0. unfold bind at 1. cbn [preflight memory_import]. unfold ret at 1.
  unfold bind at 1. rewrite Hrun. unfold bind at 1, lift_res at 1. rewrite bool_decide_true by done. cbn [negb raise_if].
  unfold bind at 1. cbn [finalize memory_import]. unfold ret at 1. unfold bind at 1, lift_res at 1, require_sha256. rewrite Hfp.
  cbn [res_map rethrow]. fold comparison. fold report. unfold bind at 1, lift_res at 1. rewrite Hreport.
  cbn [import_clock memory_import]. unfold bind at 1, ret at 1. unfold bind at 1, record_evidence, bind at 1, lift_res, make_evidence.
  rewrite (proj2 (nonempty_spec _) Hid). cbn [nonempty String.eqb negb orb raise_if res_bind].
  unfold immutable_mapping. cbn -[lx_digest ensure_utc evidence_fingerprint comparison].
  rewrite ensure_utc_at_utc by done. reflexivity.
Qed.
End round_trip.

(** C3: nothing is lost on the way.  Export any source that keeps its promises
    (distinct partitions, ids that ascend, batches within the requested size)
    into the in-memory artifacts, and import the manifest with any batch size
    and merge policy: both succeed; the target is given exactly the exported
    records, partition after partition in their order, each with its objects'
    keys in canonical order, in batches of 1 to [batch_size] records; and the
    report names the digest of the manifest and the count, bytes and digest of
    every partition. *)
Theorem export_import_roundtrip `{FloatParser} `{ByteDecoder} p request export_id fingerprint now maximum_record_bytes batch_size policy
    a (received : list (list LogicalRecord)) :
  keeps_promises p request → Forall (λ q, Forall (exportable maximum_record_bytes) q.2) (partitions_of p) →
  export_id ≠ ""%string → is_sha256 fingerprint = true → in_range now = true →
  1 ≤ batch_size ≤ 10000 → 0 ≤ maximum_record_bytes →
  ∃ manifest report a' batches,
    export_logical (memory_export p) request None export_id (a, received) = (Ok manifest, (a', received)) ∧
    import_export (memory_import fingerprint now) maximum_record_bytes manifest policy batch_size None (a', received) =
      (Ok report, (a', received ++ batches)) ∧
    concat batches = map normalize_record (concat (map snd (partitions_of p))) ∧
    Forall (λ b, 1 ≤ Z.of_nat (length b) ≤ batch_size) batches ∧
    ir_export_digest report = lx_digest manifest ∧ ir_partitions report = map result_of (partitions_of p).
Proof.
  intros Hp Hrecords Hid Hfp Hnow Hsize Hmax.
  destruct (export_run p request export_id a received Hp Hid) as (manifest & a' & Hexp & Hparts & Hxid & _ & Hdig & Hholds).
  destruct (import_run fingerprint now maximum_record_bytes batch_size policy manifest (partitions_of p) a' received)
    as (report & batches & Himp & [Hfit Hcat] & Hrd & Hrp); try done.
  - by rewrite Hxid.
  - unfold partitions_of. rewrite map_map. apply Hp.
  - unfold partitions_of in *. rewrite !Forall_map in *. pose proof (kp_partitions _ _ Hp) as Hparts'.
    apply Forall_forall. intros e He. rewrite Forall_forall in Hrecords, Hparts'.
    destruct (Hparts' e He) as (? & _ & ? & _). by split_and!; [|apply Hrecords|].
  - exists manifest, report, a', batches. done.
Qed.

(** ** An example: two partitions, one of them empty. *)
Module round_trip_example.
Import PortReading.example.
#[local] Existing Instance floats.

Definition plan : export_plan :=
  ExportPlan (MkExportBoundary "b" LIVE_READ "0" "1") (MkExportBoundary "b" LIVE_READ "0" "2") (MkMetadata [] [] [] (JObj []))
    [("p1", [[rec "a"; rec "b"]; [rec "c"]]); ("p2", [])]%string 0.
Definition request : ExportRequest := MkRequest ["cases"]%string 2.

Lemma rec_exportable id :
  id ≠ ""%string → valid_utf8 (record_line (rec id)) = true → Z.of_nat (String.length (record_line (rec id))) ≤ 1024 →
  exportable 1024 (rec id).
Proof.
  intros Hid Hutf Hlen. split; [|by repeat split; try apply (bool_decide_eq_true_1 (NoDup _)); reflexivity|done|done].
  exists (RecordArgs "structured" "n" "r" "schema" id (VInt 1) [(PStr "a", PStr "x")] []).
  unfold make_logical_record. cbn [require_nonempty ra_catalog ra_namespace ra_resource ra_schema_ref ra_logical_id].
  rewrite (proj2 (nonempty_spec id) Hid). reflexivity.
Qed.

Lemma records_exportable : Forall (λ q, Forall (exportable 1024) q.2) (partitions_of plan).
Proof.
  unfold partitions_of, plan. cbn [map xp_source fst snd concat app].
  apply Forall_cons. split; [|apply Forall_cons; split; [by constructor|by constructor]]. cbn [snd].
  repeat (apply Forall_cons; split; [apply rec_exportable; [done|vm_compute; reflexivity|vm_compute; congruence]|]). constructor.
Qed.
Lemma plan_keeps_promises : keeps_promises plan request.
Proof.
  split; [apply (bool_decide_eq_true_1 (NoDup _)); reflexivity| |done|done].
  repeat (apply Forall_cons; split; [split_and!; [done| | |]|]); [..|constructor];
    cbn [fst snd concat app ascending]; repeat (apply Forall_cons; split; [done|]); try constructor; try done.
Qed.
End round_trip_example.

Lemma export_import_roundtrip_witness :
  ∃ manifest report a' batches,
    export_logical (H := quiet) (memory_export round_trip_example.plan) round_trip_example.request None "e"
        (no_artifacts, [] : list (list LogicalRecord)) = (Ok manifest, (a', [])) ∧
    import_export (H := PortReading.example.floats) (H0 := PortReading.example.decoder) (H1 := quiet)
      (memory_import (hex_digest "target") 0) 1024 manifest REPLACE 2 None (a', []) = (Ok report, (a', batches)) ∧
    concat batches = map normalize_record (concat (map snd (partitions_of round_trip_example.plan))) ∧
    Forall (λ b, 1 ≤ Z.of_nat (length b) ≤ 2) batches ∧
    ir_export_digest report = lx_digest manifest ∧ ir_partitions report = map result_of (partitions_of round_trip_example.plan).
Proof.
  apply (export_import_roundtrip (H := PortReading.example.floats) (H0 := PortReading.example.decoder) round_trip_example.plan
    round_trip_example.request "e" (hex_digest "target") 0 1024 2 REPLACE no_artifacts []);
    [exact round_trip_example.plan_keeps_promises|exact round_trip_example.records_exportable|done|vm_compute; reflexivity|done|lia|lia].
Defined.
