(* ===== verification/Transactional.v ===== *)
(** * The transactional outbox writer ([outbox/transactional.py])

    [TransactionalOutboxWriter.commit] executes a source mutation and the insert
    of its outbox intent inside one transaction of the runtime.  The runtime
    (catalogs, normalization, execution, transactions, the registry snapshot)
    is a parameter, and so are the types of its values. *)
From S2P Require Import Prelude PyTime Sha256 Canonical Errors OutboxModel Runner JsonParse CallLog.

(** ** What the writer uses of Core

    [CoreId] is the type of the contract names, versions and fingerprints, which
    the writer only compares. *)
Class TransactionCore : Type := {
  Mutation : Type;
  mutation_catalog : Mutation → string;
  mutation_method : Mutation → string;
  Ref : Type;
  ref_eq_dec :: EqDecision Ref;
  parse_resource : string → string → res Ref;                 (* [ResourceRef.parse(text, catalog=...)] *)
  CoreId : Type;
  core_id_eq_dec :: EqDecision CoreId;
  Schema : Type;
  schema_text : Schema → string;                              (* [str(schema_ref)] *)
  schema_short : Schema → string;                             (* [logical_name@version] *)
  Registry : Type;
  registry_id : Registry → CoreId;
  registry_schema : Registry → Ref → res (option Schema);     (* [snapshot.resource(source).schema] *)
  registry_definition : Registry → Schema → res (list (pyval * pyval));
}.

(** The fields of [Operation] and [OperationResult] that are read. *)
Record operation `{TransactionCore} : Type := MkOperation {
  op_catalog : string; op_resources : list Ref; op_read_only : bool;
  op_contract : CoreId; op_version : CoreId; op_fingerprint : CoreId; op_input : list (pyval * pyval) }.
Record outcome `{TransactionCore} : Type := MkOutcome {
  oc_catalog : string; oc_resources : list Ref;
  oc_contract : CoreId; oc_version : CoreId; oc_fingerprint : CoreId; oc_registry : CoreId; oc_data : pyval }.

(** The runtime.  [tx_exit] is the [__exit__] of the transaction: it gets the
    exception of the block, commits without one and rolls back with one, and
    does not suppress it. *)
Record meridian (W : Type) `{TransactionCore} : Type := Meridian {
  get_structured : M W unit;                                  (* [catalog("structured")] *)
  structured_put : string → json → string → M W Mutation;     (* resource, data, mode *)
  tx_enter : Ref → M W unit;
  tx_exit : option exn → M W unit;
  normalize_mutation : Mutation → M W operation;              (* provider, contract, normalize, validate *)
  execute_expression : Mutation → M W outcome;
  current_frame : M W (option Registry);                      (* the snapshot of [current_transaction()] *)
}.
Arguments Meridian {W _}.
Arguments get_structured {W _} _.
Arguments structured_put {W _} _ _ _ _.
Arguments tx_enter {W _} _ _.
Arguments tx_exit {W _} _ _.
Arguments normalize_mutation {W _} _ _.
Arguments execute_expression {W _} _ _.
Arguments current_frame {W _} _.

(** ** Validation *)

(** [_same]: both values are digested. *)
Definition same (left right : pyval) : res bool :=
  let? l := digest_of left in let? r := digest_of right in Ok (String.eqb l r).

(** [_record] *)
Definition record_of (data : pyval) : res (list (pyval * pyval)) :=
  match (match data with PSequence [x] => x | _ => data end) with
  | PMapping items => Ok items
  | _ => Raise (lifecycle_invalid "source result must identify exactly one Data value")
  end.

(** [mapping.get(name)] *)
Definition get_or_none (name : string) (items : list (pyval * pyval)) : pyval := default PNone (mapping_get name items).

Definition is_none (v : pyval) : bool := match v with PNone => true | _ => false end.

(** The names in the Schema's identity. *)
Fixpoint names_of (l : list pyval) : option (list string) :=
  match l with
  | [] => Some []
  | PStr s :: l' => cons s <$> names_of l'
  | _ => None
  end.
Definition identity_fields (definition : list (pyval * pyval)) : res (list string) :=
  let invalid := Raise (lifecycle_invalid "source Schema identity is invalid") in
  match default (PSequence []) (mapping_get "identity" definition) with
  | PSequence l => match names_of l with Some names => Ok names | None => invalid end
  | _ => invalid
  end.

(** [values[0] if len(values) == 1 else values or None] *)
Definition identity_of (values : list pyval) : pyval :=
  match values with [] => PNone | [v] => v | _ => PSequence values end.

Definition check_identity (fields : list string) (record : list (pyval * pyval)) (intent : OutboxDataV1) : res unit :=
  let values := map (λ name, get_or_none name record) fields in
  let wrong := lifecycle_invalid "source identity does not match outbox intent" in
  if existsb is_none values then Raise wrong
  else let? equal := same (identity_of values) (of_json (source_identity intent)) in raise_if (negb equal) wrong.

Definition check_version (record : list (pyval * pyval)) (intent : OutboxDataV1) : res unit :=
  let version := get_or_none "recordVersion" record in
  do? raise_if (match version with PStr _ | PInt _ | PNone => false | _ => true end)
        (lifecycle_invalid "source version is invalid") in
  let? equal := same version (of_json (version_json (source_version intent))) in
  raise_if (negb equal) (lifecycle_invalid "source version does not match outbox intent").

(** The identity given with the mutation, where it is given. *)
Fixpoint check_input (fields : list string) (data record : list (pyval * pyval)) : res unit :=
  match fields with
  | [] => Ok ()
  | name :: fields' =>
      do? match mapping_get name data with
          | None => Ok ()
          | Some v =>
              let? equal := same v (get_or_none name record) in
              raise_if (negb equal) (lifecycle_invalid "source identity differs from mutation Data")
          end in
      check_input fields' data record
  end.

Fixpoint check_payload (entries : list (string * json)) (record : list (pyval * pyval)) : res unit :=
  let wrong := lifecycle_invalid "source payload does not match result Data" in
  match entries with
  | [] => Ok ()
  | (name, value) :: entries' =>
      do? match mapping_get name record with
          | None => Raise wrong
          | Some v => let? equal := same (of_json value) v in raise_if (negb equal) wrong
          end in
      check_payload entries' record
  end.
Definition payload_entries (intent : OutboxDataV1) : list (string * json) :=
  match payload intent with Some (JObj entries) => entries | _ => [] end.

(** The block of a [with] statement whose [__exit__] does not suppress. *)
Definition with_exit {W A} (body : M W A) (exit : option exn → M W unit) : M W A := λ w,
  match body w with
  | (Ok a, w') => (do! exit None in ret a) w'
  | (Raise e, w') => (do! exit (Some e) in raise e) w'
  end.

Lemma wp_with_exit {W A} (body : M W A) exit (Q : res A → W → Prop) w :
  wp body (λ r w', match r with
    | Ok a => wp (do! exit None in ret a) Q w'
    | Raise e => wp (do! exit (Some e) in raise e) Q w'
    end) w →
  wp (with_exit body exit) Q w.
Proof. with_strategy transparent [wp] unfold wp, with_exit. by destruct (body w) as [[a|e] w']. Qed.

Section writer.
Context `{TransactionCore}.

(** The checks before the transaction frame is read, with the result contract
    after it, and those of the Schema. *)
Definition check_operation (op : operation) (mutation : Mutation) (result : outcome) (source : Ref) (intent : OutboxDataV1) : res unit :=
  do? raise_if (negb (String.eqb (op_catalog op) (source_catalog intent)) || negb (String.eqb (oc_catalog result) (op_catalog op)))
        (lifecycle_invalid "source Catalog does not match outbox intent") in
  do? raise_if (negb (bool_decide (op_resources op = [source])) || negb (bool_decide (oc_resources result = op_resources op)))
        (lifecycle_invalid "source Resource does not match outbox intent") in
  raise_if (op_read_only op || negb (String.eqb (mutation_method mutation) (mutation_kind intent)))
    (lifecycle_invalid "source mutation kind does not match outbox intent").

Definition check_result (op : operation) (result : outcome) (snapshot : Registry) : res unit :=
  raise_if (negb (bool_decide (oc_contract result = op_contract op)) || negb (bool_decide (oc_version result = op_version op)) ||
            negb (bool_decide (oc_fingerprint result = op_fingerprint op)) ||
            negb (bool_decide (oc_registry result = registry_id snapshot)))
    (lifecycle_invalid "source result does not match normalized mutation").

Definition schema_of (snapshot : Registry) (source : Ref) (intent : OutboxDataV1) : res Schema :=
  let wrong := Raise (lifecycle_invalid "source Schema does not match outbox intent") in
  let? schema := registry_schema snapshot source in
  match schema with
  | None => wrong
  | Some s => if bool_decide (source_schema intent ∈ [schema_text s; schema_short s]) then Ok s else wrong
  end.

Definition check_data (fields : list string) (op : operation) (result : outcome) (intent : OutboxDataV1) : res unit :=
  let? record := record_of (oc_data result) in
  do? check_identity fields record intent in
  do? check_version record intent in
  do? match mapping_get "data" (op_input op) with
      | Some (PMapping data) => check_input fields data record
      | _ => Ok ()
      end in
  check_payload (payload_entries intent) record.

Context {W : Type} (runtime : meridian W) (outbox_resource : string).

(** [_validate_source] *)
Definition validate_source (op : operation) (mutation : Mutation) (result : outcome) (source : Ref) (intent : OutboxDataV1)
    : M W unit :=
  do! lift_res (check_operation op mutation result source intent) in
  let! frame := current_frame runtime in
  match frame with
  | None => raise AssertionError
  | Some snapshot =>
      do! lift_res (check_result op result snapshot) in
      let! schema := lift_res (schema_of snapshot source intent) in
      let! definition := lift_res (registry_definition snapshot schema) in
      let! fields := lift_res (identity_fields definition) in
      lift_res (check_data fields op result intent)
  end.

(** The [with] statement. *)
Definition transaction {A} (source : Ref) (body : M W A) : M W A :=
  do! tx_enter runtime source in
  with_exit body (tx_exit runtime).

(** [commit] *)
Definition write_both (mutation : Mutation) (source : Ref) (intent : OutboxDataV1) : M W outcome :=
  let! op := normalize_mutation runtime mutation in
  let! result := execute_expression runtime mutation in
  do! validate_source op mutation result source intent in
  let! insert := structured_put runtime outbox_resource (outbox_to_mapping intent) "if_absent" in
  do! execute_expression runtime insert in
  ret result.

Definition commit (mutation : Mutation) (intent : OutboxDataV1) : M W outcome :=
  do! get_structured runtime in
  let! source := lift_res (parse_resource (source_resource intent) (source_catalog intent)) in
  transaction source (write_both mutation source intent).
End writer.

(** [TransactionalOutboxWriter.__init__] *)
Definition make_writer (outbox_resource : string) : res string :=
  do? raise_if (negb (nonempty outbox_resource)) (ValueError "outbox_resource must be non-empty") in Ok outbox_resource.
