(* ===== verification/TransactionalOrder.v ===== *)
(** * What the transactional writer guarantees

    The calls of [TransactionalOutboxWriter.commit], for an arbitrary runtime,
    and what a mutation that was committed has in common with its intent. *)
From S2P Require Import Prelude PyTime Sha256 Canonical Errors OutboxModel Runner JsonParse CallLog Transactional.

(** ** What the validation establishes *)

(** Both values have the same canonical digest. *)
Definition agree (a b : pyval) : Prop := ∃ d, digest_of a = Ok d ∧ digest_of b = Ok d.

Lemma same_agree a b : same a b = Ok true ↔ agree a b.
Proof.
  unfold same, agree. split.
  - intros Hs. apply res_bind_ok in Hs as (d & Ha & Hs). apply res_bind_ok in Hs as (d' & Hb & [= Hd]).
    apply String.eqb_eq in Hd as ->. eauto.
  - intros (d & -> & ->). cbn. by rewrite String.eqb_refl.
Qed.
Lemma same_check a b e u :
  (let? equal := same a b in raise_if (negb equal) e) = Ok u ↔ agree a b.
Proof.
  rewrite <- same_agree. split.
  - intros Hs. apply res_bind_ok in Hs as (q & -> & Hq%raise_if_ok). by apply negb_false_iff in Hq as ->.
  - intros ->. by destruct u.
Qed.

(** The record of the result agrees with the intent and with the data of the
    mutation. *)
Record same_data (fields : list string) (input record : list (pyval * pyval)) (intent : OutboxDataV1) : Prop := {
  sd_present : Forall (λ name, get_or_none name record ≠ PNone) fields;
  sd_identity : agree (identity_of (map (λ name, get_or_none name record) fields)) (of_json (source_identity intent));
  sd_version_type : match get_or_none "recordVersion" record with PStr _ | PInt _ | PNone => True | _ => False end;
  sd_version : agree (get_or_none "recordVersion" record) (of_json (version_json (source_version intent)));
  sd_input : ∀ data, mapping_get "data" input = Some (PMapping data) →
    Forall (λ name, ∀ v, mapping_get name data = Some v → agree v (get_or_none name record)) fields;
  sd_payload : Forall (λ e, ∃ v, mapping_get e.1 record = Some v ∧ agree (of_json e.2) v) (payload_entries intent);
}.

Lemma check_identity_ok fields record intent u :
  check_identity fields record intent = Ok u ↔
  Forall (λ name, get_or_none name record ≠ PNone) fields ∧
  agree (identity_of (map (λ name, get_or_none name record) fields)) (of_json (source_identity intent)).
Proof.
  unfold check_identity.
  assert (existsb is_none (map (λ name, get_or_none name record) fields) = false ↔
    Forall (λ name, get_or_none name record ≠ PNone) fields) as Hnone.
  { induction fields as [|f fields IH]; cbn; [done|]. rewrite orb_false_iff, Forall_cons, IH.
    destruct (get_or_none f record); naive_solver. }
  destruct (existsb _ _) eqn:He.
  - split; [done|]. intros [Hf%Hnone _]. done.
  - rewrite same_check. tauto.
Qed.

Lemma check_version_ok record intent u :
  check_version record intent = Ok u ↔
  (match get_or_none "recordVersion" record with PStr _ | PInt _ | PNone => True | _ => False end) ∧
  agree (get_or_none "recordVersion" record) (of_json (version_json (source_version intent))).
Proof.
  unfold check_version. rewrite res_bind_ok. split.
  - intros ([] & Ht%raise_if_ok & Hs%same_check). by destruct (get_or_none _ _).
  - intros [Ht Hs]. exists (). split; [by apply raise_if_intro; destruct (get_or_none _ _)|by apply same_check].
Qed.

Lemma check_input_ok fields data record u :
  check_input fields data record = Ok u ↔
  Forall (λ name, ∀ v, mapping_get name data = Some v → agree v (get_or_none name record)) fields.
Proof.
  destruct u. induction fields as [|f fields IH]; cbn [check_input]; [by split|]. rewrite Forall_cons, res_bind_ok, <- IH.
  destruct (mapping_get f data) as [v|]; setoid_rewrite <- (same_check _ _ (lifecycle_invalid "source identity differs from mutation Data") ()).
  - split; [intros ([] & Hs & ?); split; [by intros ? [= <-]|done]|intros [Hs ?]; exists (); auto].
  - split; [by intros (? & _ & ?)|by intros [_ ?]; exists ()].
Qed.

Lemma check_payload_ok entries record u :
  check_payload entries record = Ok u ↔ Forall (λ e, ∃ v, mapping_get e.1 record = Some v ∧ agree (of_json e.2) v) entries.
Proof.
  destruct u. induction entries as [|[name value] entries IH]; cbn [check_payload]; [by split|].
  rewrite Forall_cons, res_bind_ok, <- IH. cbn [fst snd].
  destruct (mapping_get name record) as [v|].
  - split; [intros ([] & Hs%same_check & ?); eauto|intros [(v' & [= <-] & Hs) ?]; exists (); by rewrite same_check].
  - split; [by intros (? & [=] & _)|by intros [(? & [=] & _) _]].
Qed.

Section writer.
Context `{TransactionCore}.

Lemma check_data_ok fields op result intent u :
  check_data fields op result intent = Ok u ↔
  ∃ record, record_of (oc_data result) = Ok record ∧ same_data fields (op_input op) record intent.
Proof.
  unfold check_data. rewrite res_bind_ok. f_equiv. intros record.
  assert ((match mapping_get "data" (op_input op) with Some (PMapping data) => check_input fields data record | _ => Ok () end = Ok ()) ↔
    ∀ data, mapping_get "data" (op_input op) = Some (PMapping data) →
      Forall (λ name, ∀ v, mapping_get name data = Some v → agree v (get_or_none name record)) fields) as Hinput.
  { destruct (mapping_get "data" (op_input op)) as [[]|]; try (by split; [intros _ ? [=]|]).
    rewrite check_input_ok. split; [by intros ? ? [= <-]|auto]. }
  split.
  - intros (Hr & Hc). split; [done|]. apply res_bind_ok in Hc as ([] & Hi%check_identity_ok & Hc).
    apply res_bind_ok in Hc as ([] & Hv%check_version_ok & Hc). apply res_bind_ok in Hc as ([] & Hin & Hp%check_payload_ok).
    pose proof (proj1 Hinput Hin) as Hin'.
    split; tauto.
  - intros (Hr & [? ? ? ? ? ?]). split; [done|]. apply res_bind_ok. exists (). split; [by apply check_identity_ok|].
    apply res_bind_ok. exists (). split; [by apply check_version_ok|]. apply res_bind_ok. exists (). split; [by apply Hinput|].
    by apply check_payload_ok.
Qed.

(** The result is that of the mutation, and both are what the intent says. *)
Record faithful (op : operation) (mutation : Mutation) (result : outcome) (source : Ref) (intent : OutboxDataV1)
    (snapshot : Registry) : Prop := {
  fa_catalog : op_catalog op = source_catalog intent ∧ oc_catalog result = source_catalog intent;
  fa_resource : op_resources op = [source] ∧ oc_resources result = [source];
  fa_kind : op_read_only op = false ∧ mutation_method mutation = mutation_kind intent;
  fa_result : oc_contract result = op_contract op ∧ oc_version result = op_version op ∧
    oc_fingerprint result = op_fingerprint op ∧ oc_registry result = registry_id snapshot;
  fa_data : ∃ schema definition fields record,
    registry_schema snapshot source = Ok (Some schema) ∧
    (source_schema intent = schema_text schema ∨ source_schema intent = schema_short schema) ∧
    registry_definition snapshot schema = Ok definition ∧ identity_fields definition = Ok fields ∧
    record_of (oc_data result) = Ok record ∧ same_data fields (op_input op) record intent;
}.

Lemma raise_or_false a b e : raise_if (negb a || negb b) e = Ok () ↔ a = true ∧ b = true.
Proof. destruct a, b; cbn; split; try done; by intros [[=] [=]]. Qed.

Lemma schema_of_ok snapshot source intent schema :
  schema_of snapshot source intent = Ok schema ↔
  registry_schema snapshot source = Ok (Some schema) ∧
  (source_schema intent = schema_text schema ∨ source_schema intent = schema_short schema).
Proof.
  unfold schema_of. rewrite res_bind_ok. split.
  - intros (q & Hq & Hs). destruct q as [s|]; [|done]. destruct (bool_decide _) eqn:Hb; [|done].
    injection Hs as <-. split; [done|]. apply bool_decide_eq_true in Hb. rewrite !elem_of_cons, elem_of_nil in Hb. tauto.
  - intros [Hq Hs]. exists (Some schema). split; [done|]. rewrite bool_decide_true; [done|].
    rewrite !elem_of_cons, elem_of_nil. tauto.
Qed.

(** ** The calls *)
Context {W : Type} (runtime : meridian W) (outbox_resource : string) (mutation : Mutation) (intent : OutboxDataV1).

Inductive tx_call : Type :=
| Structured (r : res unit)
| Entered (source : Ref) (r : res unit)
| Normalized (m : Mutation) (r : res operation)
| Executed (m : Mutation) (r : res outcome)
| Framed (r : res (option Registry))
| Built (resource : string) (data : json) (mode : string) (r : res Mutation)
| Exited (e : option exn) (r : res unit).
Abbreviation log := (list tx_call).

Definition recorded_runtime : meridian (log * W) :=
  Meridian (recorded Structured (get_structured runtime))
    (λ resource data mode, recorded (Built resource data mode) (structured_put runtime resource data mode))
    (λ source, recorded (Entered source) (tx_enter runtime source))
    (λ e, recorded (Exited e) (tx_exit runtime e))
    (λ m, recorded (Normalized m) (normalize_mutation runtime m))
    (λ m, recorded (Executed m) (execute_expression runtime m))
    (recorded Framed (current_frame runtime)).

(** The stages of a commit. *)
Definition begun (source : Ref) : log := [Structured (Ok ()); Entered source (Ok ())].
Definition mutated (source : Ref) (op : operation) (result : outcome) : log :=
  begun source ++ [Normalized mutation (Ok op); Executed mutation (Ok result)].
Definition validated (source : Ref) (op : operation) (result : outcome) (l : log) : Prop :=
  ∃ snapshot, l = mutated source op result ++ [Framed (Ok (Some snapshot))] ∧
    faithful op mutation result source intent snapshot.
Definition inserted (source : Ref) (op : operation) (result : outcome) (l : log) : Prop :=
  ∃ l0 insert stored, validated source op result l0 ∧
    l = l0 ++ [Built outbox_resource (outbox_to_mapping intent) "if_absent" (Ok insert); Executed insert (Ok stored)].

Definition never_exited (l : log) : Prop := ∀ e r, Exited e r ∉ l.
Definition permitted_commit (l : log) (c : tx_call) : Prop :=
  match c with
  | Structured _ => l = []
  | Entered source _ => l = [Structured (Ok ())] ∧ parse_resource (source_resource intent) (source_catalog intent) = Ok source
  | Normalized m _ => m = mutation ∧ ∃ source, l = begun source
  | Framed _ => ∃ source op result, l = mutated source op result
  | Built resource data mode _ =>
      resource = outbox_resource ∧ data = outbox_to_mapping intent ∧ mode = "if_absent"%string ∧
      ∃ source op result, validated source op result l
  | Executed m _ =>
      (m = mutation ∧ ∃ source op, l = begun source ++ [Normalized mutation (Ok op)]) ∨
      (∃ source op result l0, validated source op result l0 ∧
         l = l0 ++ [Built outbox_resource (outbox_to_mapping intent) "if_absent" (Ok m)])
  | Exited None _ => ∃ source op result, inserted source op result l
  | Exited (Some _) _ => never_exited l ∧ ∃ source, begun source `prefix_of` l
  end.

(** How a commit ends. *)
Definition committed (result : outcome) (l : log) : Prop :=
  ∃ source op l0, inserted source op result l0 ∧ l = l0 ++ [Exited None (Ok ())].
Definition concluded_tx (r : res outcome) (l : log) : Prop :=
  ordered permitted_commit l ∧
  match r with
  | Ok result => committed result l
  | Raise e =>
      Exited None (Ok ()) ∉ l ∧
      ∀ source, Entered source (Ok ()) ∈ l →
        ∃ l0 failure outcome, l = l0 ++ [Exited failure outcome] ∧ (outcome = Raise e ∨ outcome = Ok () ∧ failure = Some e)
  end.

Abbreviation in_order := (ordered permitted_commit).

(** An orderly log inside the transaction. *)
Definition inside (source : Ref) (l : log) : Prop := in_order l ∧ never_exited l ∧ begun source `prefix_of` l.
Definition exits (c : tx_call) : bool := match c with Exited _ _ => true | _ => false end.
Lemma inside_snoc source l c : inside source l → permitted_commit l c → exits c = false → inside source (l ++ [c]).
Proof.
  intros (Ho & Hn & Hp) Hc He. split; [by apply ordered_snoc|]. split.
  - intros e r. rewrite elem_of_app, list_elem_of_singleton. intros [Hin|<-]; [by eapply Hn|done].
  - by apply prefix_app_r.
Qed.

Lemma check_operation_ok op result source u :
  check_operation op mutation result source intent = Ok u →
  (op_catalog op = source_catalog intent ∧ oc_catalog result = source_catalog intent) ∧
  (op_resources op = [source] ∧ oc_resources result = [source]) ∧
  (op_read_only op = false ∧ mutation_method mutation = mutation_kind intent).
Proof.
  unfold check_operation. intros Hc. apply res_bind_ok in Hc as ([] & Hcat%raise_if_ok & Hc).
  apply res_bind_ok in Hc as ([] & Hres%raise_if_ok & Hkind%raise_if_ok). simplify_bool. split_and!; congruence.
Qed.
Lemma check_result_ok op result snapshot u :
  check_result op result snapshot = Ok u →
  oc_contract result = op_contract op ∧ oc_version result = op_version op ∧
  oc_fingerprint result = op_fingerprint op ∧ oc_registry result = registry_id snapshot.
Proof. unfold check_result. intros Hc%raise_if_ok. simplify_bool. done. Qed.

Lemma validate_wp source op result w :
  inside source (mutated source op result) →
  wp (validate_source recorded_runtime op mutation result source intent)
    (λ r lw, inside source lw.1 ∧ (r = Ok () → validated source op result lw.1)) (mutated source op result, w).
Proof.
  intros Hl. unfold validate_source. wp_check Hop; [|done]. apply check_operation_ok in Hop as (Hcat & Hres & Hkind).
  apply wp_bind, wp_recorded. intros r w1.
  assert (inside source (mutated source op result ++ [Framed r])) as Hl1 by (apply inside_snoc; [done|by eexists _, _, _|done]).
  destruct r as [[snapshot|]|]; [|by apply wp_raise|done].
  wp_check Hr; [|done]. apply check_result_ok in Hr. wp_check Hs; [|done]. apply schema_of_ok in Hs as [Hs Hn].
  wp_check Hd; [|done]. wp_check Hf; [|done].
  apply wp_lift_res. split; [done|]. intros Hdata. apply check_data_ok in Hdata as (record & Hrec & Hsame).
  exists snapshot. split; [done|]. split; try done. by eexists _, _, _, record.
Qed.

Lemma write_both_wp source w :
  inside source (begun source) →
  wp (write_both recorded_runtime outbox_resource mutation source intent)
    (λ r lw, inside source lw.1 ∧ ∀ result, r = Ok result → ∃ op, inserted source op result lw.1) (begun source, w).
Proof.
  intros Hl. unfold write_both. apply wp_bind, wp_recorded. intros r w1.
  assert (inside source (begun source ++ [Normalized mutation r])) as Hl1 by (apply inside_snoc; [done|by split; [|eexists]|done]).
  destruct r as [op|]; [|by split]. apply wp_bind, wp_recorded. intros r w2.
  assert (inside source ((begun source ++ [Normalized mutation (Ok op)]) ++ [Executed mutation r])) as Hl2.
  { apply inside_snoc; [done| |done]. left. split; [done|]. by eexists _, _. }
  rewrite <- app_assoc in *. cbn [app] in *. destruct r as [result|]; [|by split].
  apply wp_bind. eapply wp_mono; [by apply validate_wp|]. intros [[]|e] [l w3] [Hl3 Hv]; cbn [fst] in *; [|by split].
  specialize (Hv eq_refl). apply wp_bind, wp_recorded. intros r w4.
  assert (inside source (l ++ [Built outbox_resource (outbox_to_mapping intent) "if_absent" r])) as Hl4.
  { apply inside_snoc; [done| |done]. split_and!; [done..|by eexists _, _, _]. }
  destruct r as [insert|]; [|by split]. apply wp_bind, wp_recorded. intros r w5.
  assert (inside source ((l ++ [Built outbox_resource (outbox_to_mapping intent) "if_absent" (Ok insert)]) ++ [Executed insert r])) as Hl5.
  { apply inside_snoc; [done| |done]. right. by eexists _, _, _, _. }
  destruct r as [stored|]; [|by split]. apply wp_ret. split; [done|]. intros result' [= <-].
  exists op, l, insert, stored. split; [done|]. by rewrite <- app_assoc.
Qed.

Lemma not_last (l : log) c : never_exited l → c ≠ Exited None (Ok ()) → Exited None (Ok ()) ∉ l ++ [c].
Proof. intros Hn Hc. rewrite elem_of_app, list_elem_of_singleton. intros [Hin|Heq]; [by eapply Hn|by subst]. Qed.

Lemma transaction_wp source w :
  in_order [Structured (Ok ())] → parse_resource (source_resource intent) (source_catalog intent) = Ok source →
  wp (transaction recorded_runtime source (write_both recorded_runtime outbox_resource mutation source intent))
    (λ r lw, concluded_tx r lw.1) ([Structured (Ok ())], w).
Proof.
  intros Ho Hparse. unfold transaction. apply wp_bind, wp_recorded. intros r w1. cbn [app].
  assert (in_order ([Structured (Ok ())] ++ [Entered source r])) as Ho1 by (by apply ordered_snoc).
  destruct r as [[]|e].
  2:{ split; [exact Ho1|]. cbn [fst]. split; [|intros s]; unfold not; rewrite !elem_of_cons, elem_of_nil; by intros [[=]|[[=]|[]]]. }
  assert (inside source (begun source)) as Hl.
  { split; [exact Ho1|]. split; [|done]. intros e r. unfold begun. rewrite !elem_of_cons, elem_of_nil. by intros [[=]|[[=]|[]]]. }
  apply wp_with_exit. eapply wp_mono; [by apply write_both_wp|]. intros r [l w2] [Hl2 Hins]. cbn [fst] in Hl2, Hins.
  destruct r as [result|e].
  - destruct (Hins result eq_refl) as [op Hdone]. apply wp_bind, wp_recorded. intros r w3.
    assert (in_order (l ++ [Exited None r])) as Ho2 by (apply ordered_snoc; [apply Hl2|by eexists _, _, _]).
    destruct r as [[]|e]; [apply wp_ret; split; [done|by eexists _, _, _]|].
    split; [done|]. split; [apply not_last; [apply Hl2|by intros [=]]|]. intros s _. exists l, None, (Raise e). auto.
  - apply wp_bind, wp_recorded. intros r w3.
    assert (in_order (l ++ [Exited (Some e) r])) as Ho2.
    { apply ordered_snoc; [apply Hl2|]. split; [apply Hl2|]. exists source. apply Hl2. }
    destruct r as [[]|e']; [apply wp_raise|]; (split; [done|]); (split; [apply not_last; [apply Hl2|by intros [=]]|]).
    + intros s _. exists l, (Some e), (Ok ()). auto.
    + intros s _. exists l, (Some e), (Raise e'). auto.
Qed.

(** C8: a mutation and its intent are committed together or not at all.
    Whatever the runtime does or raises, the calls of a commit come in order:
    the mutation is normalized and executed inside the transaction of its
    source; the intent is inserted, if absent, in the same transaction, and only
    after the result was found to be that of the normalized mutation and to have
    the Catalog, Resource, kind, Schema, identity, version and payload of the
    intent; the transaction commits only after that insert, and a transaction
    that was entered is always left, as the last call, with the exception that
    ended its block.  The caller gets the result of the mutation exactly when
    the transaction committed; otherwise nothing was committed. *)
Theorem commit_all_or_nothing w :
  let '(r, (l, _)) := commit recorded_runtime outbox_resource mutation intent ([], w) in concluded_tx r l.
Proof.
  cut (wp (commit recorded_runtime outbox_resource mutation intent) (λ r lw, concluded_tx r lw.1) ([], w)).
  { intros Hwp. apply wp_run in Hwp as (r & [l w'] & -> & Hl). exact Hl. }
  unfold commit. apply wp_bind, wp_recorded. intros r w1. cbn [app].
  assert (in_order [Structured r]) as Ho by (apply (ordered_snoc _ []); [constructor|done]).
  assert (∀ e, concluded_tx (Raise e) [Structured r]) as Hearly.
  { intros e. split; [done|]. split; [|intros s]; rewrite list_elem_of_singleton; by intros [=]. }
  destruct r as [[]|e]; [|apply Hearly].
  apply wp_bind, wp_lift_res. destruct (parse_resource _ _) as [source|e] eqn:Hparse; [|apply Hearly].
  by apply transaction_wp.
Qed.
End writer.
