(* ===== verification/VersionedTarget.v ===== *)
(** * The versioned target profile ([examples/versioned_target.py])

    The projector that writes one immutable row per source version, and the
    reduction of a snapshot of such rows to the latest visible ones. *)
From S2P Require Import Prelude PyTime Sha256 Canonical Errors OutboxModel Runner JsonParse.

(** ** [canonical] and [digest]

    The values given to them are JSON values; [json.dumps] and [json.loads] are
    those of [Canonical] and [JsonParse]. *)
Section canonical.
Context `{FloatParser}.

Definition reload (text : res string) : res json :=
  let? s := text in let? v := json_loads s in json_value v.

Fixpoint canonical (value : json) : res string :=
  match value with
  | JObj l =>
      res_map (λ l, dumps (JObj l)) (res_all (λ e, res_map (λ j, (e.1, j)) (reload (canonical e.2))) l)
  | JArr l => res_map (λ l, dumps (JArr l)) (res_all (λ x, reload (canonical x)) l)
  | _ => Ok (dumps value)
  end.

Definition digest (value : json) : res string := res_map sha256_hex (canonical value).

Definition integer_version (v : pyval) : res Z :=
  match v with
  | PInt z => Ok z
  | _ => Raise (ValueError "the initial projection profile requires integer source versions")
  end.

Definition context_version (v : option version) : pyval :=
  match v with None => PNone | Some (VInt z) => PInt z | Some (VStr s) => PStr s | Some (VBool b) => PBool b end.

(** [source.get("deleted", False)], a [bool] *)
Definition deleted_flag (source : list (string * json)) : res bool :=
  match default (JBool false) (dict_get "deleted" source) with
  | JBool b => Ok b
  | _ => Raise (ValueError "deleted must be boolean")
  end.

(** [make_projector(...)](source, context): the data of the row; what [put]
    makes of it is Core's. *)
Definition source_key (scope : json) (c : ProjectionContext) : res string :=
  digest (JArr [JStr (ctx_projection c); scope; JStr (ctx_source_catalog c); JStr (ctx_source_resource c); ctx_source_identity c]).
Definition project_row (scope : json) (source : list (string * json)) (c : ProjectionContext) : res (list (string * json)) :=
  let? version := integer_version (context_version (ctx_source_version c)) in
  let? key := source_key scope c in
  let? deleted := deleted_flag source in
  let? id := digest (JArr [JStr key; JInt version]) in
  let? document := reload (canonical (JObj source)) in
  Ok [("id", JStr id); ("sourceKey", JStr key); ("sourceVersion", JInt version);
      ("deleted", JBool (deleted || String.eqb (ctx_mutation_kind c) "delete")); ("document", document)].
Definition make_projector (scope : json) : res (list (string * json) → ProjectionContext → res (list (string * json))) :=
  res_map project_row (reload (canonical scope)).
End canonical.

(** ** [latest_visible] *)
Abbreviation row := (list (pyval * pyval)).

(** [row[name]] *)
Definition getitem (name : string) (r : row) : res pyval :=
  match mapping_get name r with Some v => Ok v | None => Raise (KeyError (py_repr name)) end.

Definition invalid_row : exn := ValueError "invalid versioned target row".
Definition row_key (r : row) : res string :=
  let? key := getitem "sourceKey" r in
  match key with
  | PStr k =>
      let? deleted := getitem "deleted" r in
      match deleted with PBool _ => Ok k | _ => Raise invalid_row end
  | _ => Raise invalid_row
  end.
Definition row_version (r : row) : res Z := let? v := getitem "sourceVersion" r in integer_version v.

Definition take_row (latest : list (string * row)) (r : row) : res (list (string * row)) :=
  let? key := row_key r in
  let? version := row_version r in
  match dict_get key latest with
  | None => Ok (dict_set key r latest)
  | Some kept =>
      let? old := row_version kept in
      Ok (if old <? version then dict_set key r latest else latest)
  end.

Fixpoint take_rows (latest : list (string * row)) (rows : list row) : res (list (string * row)) :=
  match rows with
  | [] => Ok latest
  | r :: rows' => let? latest := take_row latest r in take_rows latest rows'
  end.

Definition is_deleted (r : row) : bool :=
  match mapping_get "deleted" r with Some (PBool b) => b | _ => false end.

(** The keys of the dict are distinct: [sorted] compares keys only. *)
Definition latest_visible (rows : list row) (matches : row → bool) : res (list row) :=
  let? latest := take_rows [] rows in
  Ok (List.filter (λ r, negb (is_deleted r) && matches r) (map snd (sort_keys latest))).

(** ** The recursion of [canonical] is the canonical encoding *)
Lemma reload_dumps `{FloatParser} j : readable j → reload (Ok (dumps j)) = Ok (normalize j).
Proof.
  intros Hj. unfold reload. cbn [res_bind]. rewrite json_loads_of_dumps by done. cbn [res_bind].
  by apply json_value_of_json, normalize_wf, readable_wf.
Qed.

Lemma res_all_ok {A B} (f : A → res B) (g : A → B) l : Forall (λ x, f x = Ok (g x)) l → res_all f l = Ok (map g l).
Proof. induction 1 as [|x l Hx _ IH]; [done|]. cbn. by rewrite Hx, IH. Qed.

Lemma canonical_dumps `{FloatParser} j : readable j → canonical j = Ok (dumps j).
Proof.
  induction j as [|b|z|r|s|l IH|l IH] using json_induction; intros Hj; try done.
  - pose proof (readable_wf _ Hj) as Hwf. rewrite readable_arr in Hj. cbn [canonical].
    rewrite (res_all_ok _ normalize).
    + cbn [res_map]. f_equal. change (JArr (map normalize l)) with (normalize (JArr l)). by apply dumps_normalize.
    + pose proof (Forall_impl_Forall _ _ _ IH Hj) as Hl. apply Forall_forall. intros x Hx.
      rewrite Forall_forall in Hl, Hj. rewrite Hl by done. by apply reload_dumps, Hj.
  - pose proof (readable_wf _ Hj) as Hwf. pose proof Hj as Hjr. rewrite readable_obj in Hj. destruct Hj as [Hnd Hj]. cbn [canonical].
    rewrite (res_all_ok _ (λ e, (e.1, normalize e.2))).
    + cbn [res_map]. f_equal. rewrite <- (dumps_normalize (JObj l)) by done. cbn [normalize].
      rewrite <- (dumps_normalize (JObj (map _ l))).
      * cbn [normalize]. f_equal. f_equal. f_equal. rewrite map_map. apply map_ext_Forall.
        apply json_wf_obj in Hwf as [_ Hwf]. eapply Forall_impl; [exact Hwf|]. intros [k j] Hk. cbn [fst snd] in *. by rewrite normalize_idem.
      * apply json_wf_obj. rewrite normalize_fst. apply json_wf_obj in Hwf as [_ Hwf]. split; [done|]. apply Forall_map.
        eapply Forall_impl; [exact Hwf|]. intros [k j] Hk. by apply normalize_wf.
    + pose proof (Forall_impl_Forall _ _ _ IH Hj) as Hl. apply Forall_forall. intros [k x] Hx.
      rewrite Forall_forall in Hl, Hj. specialize (Hl _ Hx). specialize (Hj _ Hx). cbn [fst snd] in *.
      rewrite Hl. by rewrite reload_dumps.
Qed.

(** ** What [latest_visible] returns *)

(** A row with its key and version. *)
Definition row_of (r : row) (k : string) (v : Z) : Prop := row_key r = Ok k ∧ row_version r = Ok v.
Definition valid_row (r : row) : Prop := ∃ k v, row_of r k v.
(** A row of the source [k], none of whose rows has a greater version. *)
Definition newest_of (rows : list row) (k : string) (r : row) : Prop :=
  r ∈ rows ∧ ∃ v, row_of r k v ∧ ∀ r' v', r' ∈ rows → row_of r' k v' → v' ≤ v.
(** One row per source and version. *)
Definition one_per_version (rows : list row) : Prop :=
  ∀ r r' k v, r ∈ rows → r' ∈ rows → row_of r k v → row_of r' k v → r = r'.

(** The dict after some rows. *)
Record reduces (rows : list row) (latest : list (string * row)) : Prop := {
  rd_keys : NoDup (map fst latest);
  rd_newest : ∀ k, match dict_get k latest with
    | Some r => newest_of rows k r
    | None => ∀ r v, r ∈ rows → ¬ row_of r k v
    end;
}.

Lemma row_of_unique r k k' v v' : row_of r k v → row_of r k' v' → k = k' ∧ v = v'.
Proof. intros [Hk Hv] [Hk' Hv']. rewrite Hk in Hk'. rewrite Hv in Hv'. by injection Hk' as <-; injection Hv' as <-. Qed.

Lemma newest_of_snoc rows k r r1 :
  newest_of rows k r → (∀ v v1, row_of r k v → row_of r1 k v1 → v1 ≤ v) → newest_of (rows ++ [r1]) k r.
Proof.
  intros [Hin (v & Hr & Hmax)] Hr1. split; [apply elem_of_app; by left|]. exists v. split; [done|].
  intros r' v'. rewrite elem_of_app, list_elem_of_singleton. intros [?| ->] Ho; [by eapply Hmax|by eapply Hr1].
Qed.

Lemma newest_of_new rows k r v :
  row_of r k v → (∀ r' v', r' ∈ rows → row_of r' k v' → v' ≤ v) → newest_of (rows ++ [r]) k r.
Proof.
  intros Hr Hmax. split; [apply elem_of_app; right; by apply list_elem_of_singleton|]. exists v. split; [done|].
  intros r' v'. rewrite elem_of_app, list_elem_of_singleton. intros [?| ->] Ho; [by eapply Hmax|].
  destruct (row_of_unique _ _ _ _ _ Hr Ho) as [_ ->]. lia.
Qed.

(** A row of [k] changes the entry of [k] only. *)
Lemma reduces_entry rows latest r k v latest' kept :
  reduces rows latest → row_of r k v → NoDup (map fst latest') →
  (∀ k', dict_get k' latest' = if String.eqb k' k then Some kept else dict_get k' latest) →
  newest_of (rows ++ [r]) k kept → reduces (rows ++ [r]) latest'.
Proof.
  intros [Hnd Hspec] Hr Hnd' Hget Hkept. split; [done|]. intros k'. rewrite Hget.
  destruct (String.eqb_spec k' k) as [->|Hne]; [done|]. specialize (Hspec k').
  assert (∀ v1, ¬ row_of r k' v1) as Hno by (intros v1 Ho; by destruct (row_of_unique _ _ _ _ _ Hr Ho)).
  destruct (dict_get k' latest) as [r0|].
  - apply newest_of_snoc; [done|]. intros v0 v1 _ Ho. by apply Hno in Ho.
  - intros r' v'. rewrite elem_of_app, list_elem_of_singleton. intros [?| ->]; [by apply Hspec|apply Hno].
Qed.

Lemma take_row_reduces rows latest r :
  valid_row r → reduces rows latest → ∃ latest', take_row latest r = Ok latest' ∧ reduces (rows ++ [r]) latest'.
Proof.
  intros (k & v & Hr) Hred. pose proof (rd_newest _ _ Hred k) as Hk. pose proof (rd_keys _ _ Hred) as Hnd.
  unfold take_row. rewrite (proj1 Hr), (proj2 Hr). cbn [res_bind].
  destruct (dict_get k latest) as [kept|] eqn:Hget.
  - destruct Hk as [Hin (old & Hold & Hmax)]. rewrite (proj2 Hold). cbn [res_bind]. eexists. split; [reflexivity|].
    destruct (Z.ltb_spec old v).
    + eapply reduces_entry; [done|done|by apply dict_set_NoDup|intros; apply dict_get_set|].
      eapply newest_of_new; [done|]. intros r' v' Hin' Ho. specialize (Hmax r' v' Hin' Ho). lia.
    + eapply (reduces_entry _ _ _ _ _ _ kept); [done|done|done| |].
      * intros k'. by destruct (String.eqb_spec k' k) as [->|].
      * apply newest_of_snoc; [by split; [|exists old]|]. intros v0 v1 H0 H1.
        destruct (row_of_unique _ _ _ _ _ Hold H0) as [_ <-]. destruct (row_of_unique _ _ _ _ _ Hr H1) as [_ <-]. lia.
  - eexists. split; [reflexivity|].
    eapply reduces_entry; [done|done|by apply dict_set_NoDup|intros; apply dict_get_set|].
    eapply newest_of_new; [done|]. intros r' v' Hin Ho. by destruct (Hk r' v').
Qed.

Lemma take_rows_reduces done_ rows latest :
  Forall valid_row rows → reduces done_ latest → ∃ latest', take_rows latest rows = Ok latest' ∧ reduces (done_ ++ rows) latest'.
Proof.
  intros Hv. revert done_ latest. induction Hv as [|r rows Hr _ IH]; intros ps latest Hred.
  - exists latest. by rewrite app_nil_r.
  - cbn [take_rows]. destruct (take_row_reduces _ _ _ Hr Hred) as (l1 & -> & Hred1). cbn [res_bind].
    destruct (IH _ _ Hred1) as (l2 & Hrun & Hred2). exists l2. by rewrite <- app_assoc in Hred2.
Qed.

Lemma reduces_in rows latest k r : one_per_version rows → reduces rows latest → (k, r) ∈ latest ↔ newest_of rows k r.
Proof.
  intros Hone [Hnd Hspec]. rewrite <- dict_get_in by done. specialize (Hspec k). split; [by intros Hg; rewrite Hg in Hspec|].
  intros [Hin (v & Hr & Hmax)]. destruct (dict_get k latest) as [r'|]; [|by destruct (Hspec r v)].
  destruct Hspec as [Hin' (v' & Hr' & Hmax')]. f_equal. pose proof (Hmax r' v' Hin' Hr'). pose proof (Hmax' r v Hin Hr).
  assert (v' = v) as -> by lia. by apply (Hone r' r k v).
Qed.

(** Snapshots with the same rows, in whatever order and number, have the same
    latest entries. *)
Lemma reduces_members rows rows' latest latest' :
  (∀ r, r ∈ rows ↔ r ∈ rows') → one_per_version rows → reduces rows latest → reduces rows' latest' → latest ≡ₚ latest'.
Proof.
  intros Hp Hone Hl Hl'. assert (one_per_version rows') as Hone'.
  { intros r r' k v. rewrite <- !Hp. apply Hone. }
  apply NoDup_Permutation; [eapply NoDup_fmap_1; apply Hl|eapply NoDup_fmap_1; apply Hl'|].
  intros [k r]. rewrite (reduces_in rows), (reduces_in rows') by done. unfold newest_of. setoid_rewrite Hp. done.
Qed.

Lemma reduces_nil : reduces [] [].
Proof. split; [constructor|by intros k r v ?%elem_of_nil]. Qed.

Lemma latest_visible_members rows rows' matches :
  (∀ r, r ∈ rows ↔ r ∈ rows') → Forall valid_row rows → one_per_version rows →
  latest_visible rows' matches = latest_visible rows matches.
Proof.
  intros Hp Hv Hone. assert (Forall valid_row rows') as Hv'.
  { rewrite Forall_forall in *. intros r Hr. by apply Hv, Hp. }
  destruct (take_rows_reduces [] rows [] Hv reduces_nil) as (l & Hrun & Hred).
  destruct (take_rows_reduces [] rows' [] Hv' reduces_nil) as (l' & Hrun' & Hred').
  unfold latest_visible. rewrite Hrun, Hrun'. cbn [res_bind].
  rewrite (sort_keys_permutation l' l); [done|apply Hred'|]. symmetry. by eapply reduces_members.
Qed.

Lemma latest_visible_total rows matches : Forall valid_row rows → ∃ result, latest_visible rows matches = Ok result.
Proof.
  intros Hv. destruct (take_rows_reduces [] rows [] Hv reduces_nil) as (l & Hrun & _).
  unfold latest_visible. rewrite Hrun. cbn [res_bind]. by eexists.
Qed.

(** C28: the reduction keeps exactly the newest visible row of every source.
    For a snapshot of valid rows with one row per source and version, the
    result is sorted by source key and has exactly the rows that are not
    deleted, match, and have the greatest version of their source, so that a
    deleted or no longer matching newest row hides all older ones; and the
    order in which the snapshot was collected does not matter. *)
Theorem latest_visible_exactly rows matches :
  Forall valid_row rows → one_per_version rows →
  ∃ result latest, latest_visible rows matches = Ok result ∧ result = List.filter (λ r, negb (is_deleted r) && matches r) (map snd latest) ∧
    Sorted key_le latest ∧ NoDup (map fst latest) ∧ (∀ k r, (k, r) ∈ latest ↔ newest_of rows k r) ∧
    (∀ r, r ∈ result ↔ (∃ k, newest_of rows k r) ∧ is_deleted r = false ∧ matches r = true) ∧
    ∀ rows', rows ≡ₚ rows' → latest_visible rows' matches = Ok result.
Proof.
  intros Hv Hone. destruct (take_rows_reduces [] rows [] Hv reduces_nil) as (l & Hrun & Hred). cbn [app] in Hred.
  assert (∀ k r, (k, r) ∈ sort_keys l ↔ newest_of rows k r) as Hin.
  { intros k r. rewrite (sort_keys_perm l). by apply reduces_in. }
  eexists _, (sort_keys l). split; [unfold latest_visible; rewrite Hrun; reflexivity|]. split; [done|].
  split; [apply sort_keys_sorted|]. split; [rewrite (sort_keys_perm l); apply Hred|]. split; [done|]. split.
  - intros r. rewrite list_elem_of_In, filter_In, in_map_iff, andb_true_iff, negb_true_iff. split.
    + intros (([k r'] & Hr & Hk%list_elem_of_In) & Hvis). cbn in Hr. subst r'. split; [|done]. exists k. by apply Hin.
    + intros ((k & Hk) & Hvis). split; [|done]. exists (k, r). split; [done|]. by apply list_elem_of_In, Hin.
  - intros rows' Hp. rewrite (latest_visible_members rows rows'); [|by intros; rewrite Hp|done|done].
    unfold latest_visible. by rewrite Hrun.
Qed.

(** ** An example: a deleted source, an updated one, and rows out of order. *)
Module example.
Definition version_row (key : string) (version : Z) (deleted : bool) : row :=
  [(PStr "sourceKey", PStr key); (PStr "sourceVersion", PInt version); (PStr "deleted", PBool deleted)].
Definition snapshot : list row := [version_row "b" 2 false; version_row "a" 2 true; version_row "a" 1 false; version_row "b" 1 false].
Lemma snapshot_valid : Forall valid_row snapshot.
Proof. repeat (apply Forall_cons; split; [by eexists _, _|]). constructor. Qed.
Lemma snapshot_versions : one_per_version snapshot.
Proof.
  intros r r' k v. unfold snapshot. rewrite !elem_of_cons, !elem_of_nil.
  intros [->|[->|[->|[->|[]]]]] [->|[->|[->|[->|[]]]]]
    [Hk Hv] [Hk' Hv']; vm_compute in Hk, Hv, Hk', Hv'; congruence.
Qed.
End example.

Lemma latest_visible_exactly_witness :
  latest_visible example.snapshot (λ _, true) = Ok [example.version_row "b" 2 false] ∧
  latest_visible (reverse example.snapshot) (λ _, true) = Ok [example.version_row "b" 2 false].
Proof.
  destruct (latest_visible_exactly example.snapshot (λ _, true) example.snapshot_valid example.snapshot_versions)
    as (result & latest & Hrun & _ & _ & _ & _ & _ & Hperm).
  assert (result = [example.version_row "b" 2 false]) as ->.
  { assert (latest_visible example.snapshot (λ _, true) = Ok [example.version_row "b" 2 false]) as Hval by (vm_compute; reflexivity).
    rewrite Hval in Hrun. by injection Hrun as <-. }
  split; [exact Hrun|]. apply Hperm. symmetry. apply reverse_Permutation.
Defined.
