(* ===== verification/Delivery.v ===== *)
(** * Deliveries among other workers

    A store of events and a target they are delivered to are changed by any
    number of workers, producers and operators, in steps: an operation of the
    store, or what a call does to the target.  A run of the runner, whatever
    happens between its calls and however it ends, is a sequence of such steps;
    and the steps keep the store and the target consistent: what a completed
    event stands for is in the target.  [Projection] instantiates the target. *)
From stdpp Require Import relations.
From S2P Require Import Prelude PyTime Sha256 Canonical Errors OutboxModel Redaction OutboxStore OutboxClaim OutboxLifecycle Runner RunnerStore.

(** ** A worker among others

    [env] is what happens before each of its calls, to the store and the rest
    of the world; it may raise, and then the call is not made. *)
Section among.
Context {S X : Type} (env : M (S * X) unit).

Definition hooks_among `{CoreApi} (hooks : runner_hooks X) : runner_hooks (S * X) :=
  Hooks (λ src ctx, do! env in lift_snd (project hooks src ctx)) (λ e, do! env in lift_snd (execute hooks e))
    ((λ loader reference v, do! env in lift_snd (loader reference v)) <$> source_loader hooks)
    (λ result d, do! env in lift_snd (acknowledgement hooks result d)) (do! env in lift_snd (clock hooks)).
Definition sink_among (sink : EvidenceSink X) : EvidenceSink (S * X) := λ e, do! env in lift_snd (sink e).
End among.

Definition port_among `{Core} {X} (env : M (store * X) unit) (utc_now : M X datetime) : OutboxPort (store * X) := {|
  port_atomic_claim own limit dur now := do! env in lift_fst (atomic_claim own limit dur now);
  port_complete id own v fp now := do! env in lift_fst (complete id own v fp now);
  port_release id own error retryable now := do! env in lift_fst (release id own error retryable now);
  port_lag now := do! env in let! n := (match now with Some n => ret n | None => lift_snd utc_now end) in
                  lift_fst (lag n);
|}.

Lemma wp_state {W A} (m : M W A) (P : W → Prop) w : wp m (λ _ w', P w') w ↔ P (m w).2.
Proof.
  split; [by intros (r & w' & -> & Hp)%wp_run|]. intros Hp. destruct (m w) as [r w'] eqn:E. by eapply wp_eq.
Qed.

(** ** Steps

    [sound] is what holds of the target at any time, [delivered] that it has
    what an event stands for; [touches] is what a call may do to it.  [events]
    are all the events there ever are; the store has some of them. *)
Section delivery.
Context `{CoreApi} {X : Type} (config : runner_config) (events : gmap string OutboxDataV1).
Context (sound : X → Prop) (delivered : X → OutboxDataV1 → Prop) (touches : X → X → Prop).

(** Producers append events, and nobody completes one that is not delivered. *)
Definition permitted (x : X) (o : operation) : Prop :=
  match o with
  | Append d => events !! event_id d = Some d
  | Complete id _ _ _ _ => ∀ d, events !! id = Some d → delivered x d
  | _ => True
  end.

Inductive world_step : store * X → store * X → Prop :=
| step_store o s x : admissible o → permitted x o → world_step (s, x) (after o s, x)
| step_target s x x' : touches x x' → world_step (s, x) (s, x').

Record consistent (s : store) (x : X) : Prop := {
  cs_sound : sound x;
  cs_events : ∀ k r, records s !! k = Some r → events !! k = Some (data r);
  cs_completed : ∀ k r, records s !! k = Some r → state r = COMPLETED → delivered x (data r);
}.

Definition good (w : store * X) : Prop := store_ok w.1 ∧ consistent w.1 w.2.

(** Whatever touches the target keeps what was delivered. *)
Context (Htouches : ∀ x x', touches x x' → sound x → sound x' ∧ ∀ d, delivered x d → delivered x' d).

(** A record is replaced by one with the same data. *)
Lemma consistent_insert s s' x k r r' :
  records s !! k = Some r → data r' = data r → records s' = <[k := r']> (records s) →
  (state r' = COMPLETED → delivered x (data r)) → consistent s x → consistent s' x.
Proof.
  intros Hr Hd Hs' Hdel [Hs He Hc].
  split; [done|..]; intros k' r1; rewrite Hs'; (destruct (decide (k' = k)) as [->|Hne];
    [rewrite lookup_insert_eq; intros [= <-]; rewrite Hd|rewrite lookup_insert_ne by done]);
    [by apply He|by apply He|done|by apply Hc].
Qed.

Lemma consistent_claim s x own limit dur cur : consistent s x → consistent (claim_step own limit dur cur s) x.
Proof.
  intros [Hs He Hc].
  split; [done|..]; intros k r; rewrite claim_step_lookup; (destruct (records s !! k) as [r0|] eqn:E; [|done]);
    case_bool_decide; intros [= <-]; [exact (He _ _ E)|by apply He|done|by eapply Hc].
Qed.

Lemma consistent_change s o s' x : consistent s x → change s o s' → permitted x o → consistent s' x.
Proof.
  intros Hc Hch Hp.
  destruct Hch as [o'|d Hd|own limit dur now cur Ho Hdur _|id own ack fp now cur r [_ _ [Hr Hst _] _]
    |id own error retryable now cur f r [_ [Hr Hst _] _]|id reason r [_ Hr Hst]|c expected Hcp Hrev].
  - done.
  - destruct Hc as [Hs He Hc]. split; [done|..]; intros k r; unfold added; cbn;
      (destruct (decide (k = event_id d)) as [->|Hne];
       [rewrite lookup_insert_eq; intros [= <-]|rewrite lookup_insert_ne by done]);
      [done|by apply He|done|by apply Hc].
  - by apply consistent_claim.
  - apply (consistent_insert s _ _ id r (completed fp cur r)); [done..| |done]. intros _.
    apply Hp. by eapply cs_events.
  - apply (consistent_insert s _ _ id r (released s f retryable r)); [done..| |done].
    cbn. by destruct (_ || _).
  - by apply (consistent_insert s _ _ id r (retried r)).
  - by destruct Hc.
Qed.

(** The invariant of the steps. *)
Lemma step_good w w' : world_step w w' → good w → good w' ∧ ∀ d, delivered w.2 d → delivered w'.2 d.
Proof.
  intros [o s x Ho Hp|s x x' Ht] [Hs Hc]; cbn in *.
  - pose proof (after_change o s Hs Ho) as Hch. split; [|done].
    split; [by eapply change_ok|by eapply consistent_change].
  - destruct (Htouches _ _ Ht (cs_sound _ _ Hc)) as [Hs' Hd]. split; [split; [done|]|done].
    destruct Hc as [_ He Hc]. split; [done..|]. intros k r Hr Hst. by eapply Hd, Hc.
Qed.

Lemma steps_good w w' : rtc world_step w w' → good w → good w' ∧ ∀ d, delivered w.2 d → delivered w'.2 d.
Proof.
  induction 1 as [|w1 w2 w3 H12 _ IH]; [done|]. intros Hg.
  destruct (step_good _ _ H12 Hg) as [Hg2 Hd2]. destruct (IH Hg2) as [Hg3 Hd3]. auto.
Qed.

(** ** A run is a sequence of steps *)
Definition in_calendar (now : datetime) : Prop :=
  ∀ cur, ensure_utc now "now" = Ok cur → in_range (cur + lease_duration config) = true.

(** The collaborators take steps; a claim is made at a time of the calendar, and
    a delivery that returns was made. *)
Record worker_steps (hooks : runner_hooks (store * X)) (sink : EvidenceSink (store * X)) (env : M (store * X) unit) : Prop := {
  ws_env : ∀ w, good w → wp env (λ _ w', rtc world_step w w') w;
  ws_clock : ∀ w, good w →
    wp (clock hooks) (λ o w', rtc world_step w w' ∧ match o with Ok now => in_calendar now | Raise _ => True end) w;
  ws_sink : ∀ e w, good w → wp (sink e) (λ _ w', rtc world_step w w') w;
  ws_deliver : ∀ r w, events !! event_id (data r) = Some (data r) → good w →
    wp (deliver hooks config r)
       (λ o w', rtc world_step w w' ∧ match o with Ok _ => delivered w'.2 (data r) | Raise _ => True end) w;
}.

Context (hooks : runner_hooks (store * X)) (sink : EvidenceSink (store * X)) (env : M (store * X) unit) (utc_now : M X datetime).
Context (Hsteps : worker_steps hooks sink env).
#[local] Instance port : OutboxPort (store * X) := port_among env utc_now.
#[local] Existing Instance sink.

(** Every computation of the runner is shown to take steps from a good world;
    the next one starts from a good world again. *)
Definition steps_to {A} (m : M (store * X) A) : Prop := ∀ w, good w → wp m (λ _ w', rtc world_step w w') w.

Lemma steps_bind {A B} (m : M (store * X) A) (k : A → M (store * X) B) :
  steps_to m → (∀ a, steps_to (k a)) → steps_to (bind m k).
Proof.
  intros Hm Hk w Hg. apply wp_bind. eapply wp_mono; [by apply Hm|]. intros [a|] w1 H1; [|done].
  eapply wp_mono; [apply Hk; by apply (steps_good w)|]. intros r w2 H2. by etrans.
Qed.

Lemma steps_operation {A} (m : M store A) o :
  (∀ s, (m s).2 = after o s) → admissible o →
  ∀ w, good w → (∀ w', rtc world_step w w' → permitted w'.2 o) → wp (do! env in lift_fst m) (λ _ w', rtc world_step w w') w.
Proof.
  intros Hm Ho w Hg Hp. apply wp_bind. eapply wp_mono; [by apply (ws_env _ _ _ Hsteps)|]. intros [[]|] w1 H1; [|done].
  pose proof (Hp _ H1) as Hp1. destruct w1 as [s x]. apply wp_lift_fst. pose proof (Hm s) as Hs.
  destruct (m s) as [r s'] eqn:E. eapply wp_eq; [exact E|]. cbn in Hs. subst s'.
  eapply rtc_r; [exact H1|]. by constructor.
Qed.

Lemma clock_steps : steps_to (clock hooks).
Proof. intros w Hg. eapply wp_mono; [by apply (ws_clock _ _ _ Hsteps)|]. by intros r w' []. Qed.

Lemma evidence_steps st details : steps_to (evidence_at hooks config st details).
Proof.
  unfold evidence_at, record_evidence. apply steps_bind; [exact clock_steps|intros now].
  apply steps_bind; [intros w Hg; by apply wp_lift_res|intros e]. intros w Hg. by apply (ws_sink _ _ _ Hsteps).
Qed.
Hint Resolve evidence_steps clock_steps : core.

(** In the loop the counters are beside the world. *)
Definition steps_beside {L A} (m : M (L * (store * X)) A) : Prop :=
  ∀ l w, good w → wp m (λ _ lw, rtc world_step w lw.2) (l, w).

Lemma steps_lift {L A} (m : M (store * X) A) : steps_to m → steps_beside (L := L) (lift_snd m).
Proof. intros Hm l w Hg. apply wp_lift_snd_run. by apply Hm. Qed.
Lemma steps_locals {L} (f : L → L) : steps_beside (set_locals f).
Proof. intros l w Hg. by apply wp_set_locals. Qed.
Lemma steps_beside_bind {L A B} (m : M (L * (store * X)) A) (k : A → M (L * (store * X)) B) :
  steps_beside m → (∀ a, steps_beside (k a)) → steps_beside (bind m k).
Proof.
  intros Hm Hk l w Hg. apply wp_bind. eapply wp_mono; [by apply Hm|]. intros [a|] [l1 w1] H1; [|done].
  eapply wp_mono; [apply Hk; by apply (steps_good w)|]. intros r lw H2. by etrans.
Qed.

Lemma handle_failure_steps record e : steps_beside (handle_failure hooks config record e).
Proof.
  unfold handle_failure. apply steps_beside_bind; [by apply steps_lift|intros now].
  apply steps_beside_bind; [apply steps_lift|intros r].
  { intros w Hg. apply (steps_operation _ (Release (event_id (data record)) (worker_id config) e (is_retryable e) now)); [|done..].
    intros s. unfold after. cbn [run]. by rewrite discard_snd. }
  apply steps_beside_bind; [apply steps_locals|intros _]. by apply steps_lift.
Qed.

Lemma process_steps record :
  events !! event_id (data record) = Some (data record) → steps_beside (process hooks config record).
Proof.
  intros Hev l w Hg. unfold process. apply wp_try_except.
  apply (wp_mono _ (λ _ lw, rtc world_step w lw.2)).
  - apply wp_bind, wp_lift_snd_run. eapply wp_mono; [by apply (ws_deliver _ _ _ Hsteps)|].
    intros [[v fp]|e] w1 [H1 Hdel]; [|done]. destruct (steps_good _ _ H1 Hg) as [Hg1 _].
    apply wp_bind, wp_lift_snd_run. eapply wp_mono; [by apply clock_steps|].
    intros [now|] w2 H2; [|cbn; by etrans]. destruct (steps_good _ _ H2 Hg1) as [Hg2 Hd2].
    apply wp_bind, wp_lift_snd_run. eapply wp_mono.
    { apply (steps_operation _ (Complete (event_id (data record)) (worker_id config) v fp now)); [|done|exact Hg2|].
      - intros s. unfold after. cbn [run]. by rewrite discard_snd.
      - intros w3 H3 d. rewrite Hev. intros [= <-]. by apply (steps_good _ _ H3 Hg2), Hd2. }
    intros [c|] w3 H3; [|cbn; do 2 (etrans; [eassumption|]); done].
    apply wp_bind, wp_set_locals, wp_lift_snd_run. eapply wp_mono; [apply evidence_steps; by apply (steps_good _ _ H3)|].
    intros r w4 H4. cbn. by do 3 (etrans; [eassumption|]).
  - intros [[]|e] [l1 w1] H1; [done|]. destruct (is_exception e); [|done].
    eapply wp_mono; [apply handle_failure_steps; by apply (steps_good _ _ H1)|]. intros r lw H2. by etrans.
Qed.

Lemma run_once_steps : steps_to (run_once hooks config None).
Proof.
  intros w Hg. unfold run_once. apply wp_bind. eapply wp_mono; [by apply (ws_clock _ _ _ Hsteps)|].
  intros [now|] w1 [H1 Hnow]; [|done]. destruct (steps_good _ _ H1 Hg) as [Hg1 _].
  apply wp_bind, wp_lift_res. destruct (ensure_utc now "now") as [t|] eqn:Ht; [|done].
  apply wp_bind. cbn [port_atomic_claim port port_among]. apply wp_bind.
  eapply wp_mono; [by apply (ws_env _ _ _ Hsteps)|]. intros [[]|] [s2 x2] H2; [|by etrans].
  destruct (steps_good _ _ H2 Hg1) as [Hg2 _]. destruct Hg2 as [Hs2 Hc2]. cbn in Hs2, Hc2.
  set (o := Claim (worker_id config) (batch_size config) (lease_duration config) (at_utc t)).
  assert (in_range t = true ∧ in_range (t + lease_duration config) = true) as [Hr Hr'].
  { split; [by apply (ensure_utc_ok now "now")|by apply Hnow]. }
  assert (admissible o) as Ho.
  { intros cur. rewrite ensure_utc_at_utc by done. by intros [= <-]. }
  apply wp_lift_fst. destruct (atomic_claim (worker_id config) (batch_size config) (lease_duration config) (at_utc t) s2) as [o' s3] eqn:Hclaim. eapply wp_eq; [exact Hclaim|].
  assert (world_step (s2, x2) (s3, x2)) as H3.
  { assert (s3 = after o s2) as ->; [|by constructor]. unfold after. cbn [run o]. by rewrite discard_snd, Hclaim. }
  assert (rtc world_step w (s3, x2)) as Hw by by do 2 (etrans; [eassumption|]); apply rtc_once.
  destruct o' as [rs|]; [|done].
  assert (Forall (λ r, events !! event_id (data r) = Some (data r)) rs) as Hrs.
  { destruct (atomic_claim_cases (worker_id config) (batch_size config) (lease_duration config) (at_utc t) s2)
      as [(cur & ? & ? & ? & Hcur)|[e He]]; [|by rewrite He in Hclaim].
    rewrite (atomic_claim_eq _ _ _ _ cur) in Hclaim by (first [exact Hs2|split; auto]). injection Hclaim as <- _.
    apply Forall_map, Forall_forall. intros [k r] Hin. rewrite leased_data. cbn [snd].
    pose proof (claim_targets_lookup _ _ _ _ _ Hin) as Hk. rewrite (store_ok_id _ _ _ Hs2 Hk). by eapply cs_events. }
  destruct (steps_good _ _ Hw Hg) as [Hg3 _]. apply wp_bind, wp_with_locals.
  apply (wp_for_list (λ l _ cw, rtc world_step w cw.2 ∧ Forall (λ r, events !! event_id (data r) = Some (data r)) l)).
  - done.
  - intros [] [[[c r] q] w'] [Hw' _]. by apply wp_ret.
  - intros record l [] [cs w'] [Hw' [Hrec Hl]%Forall_cons]. eapply wp_mono; [apply (process_steps record Hrec); by apply (steps_good _ _ Hw')|].
    intros [[]|] [cs' w''] H'; cbn in *; [split; [|done]|]; by etrans.
Qed.

(** So are the loops around it. *)
Lemma idle_loop_steps cycles total : steps_to (idle_loop hooks config cycles total).
Proof.
  revert total. induction cycles as [|n IH]; intros total; cbn [idle_loop]; [intros w Hg; by apply wp_raise|].
  apply steps_bind; [exact run_once_steps|intros current]. destruct (_ =? 0); [intros w Hg; by apply wp_ret|apply IH].
Qed.

Lemma stopped_loop_steps is_set wait fuel total :
  steps_to is_set → steps_to wait → steps_to (stopped_loop hooks config is_set wait fuel total).
Proof.
  intros Hset Hwait. revert total. induction fuel as [|n IH]; intros total; cbn [stopped_loop]; [intros w Hg; by apply wp_ret|].
  apply steps_bind; [exact Hset|intros []]; [intros w Hg; by apply wp_ret|].
  apply steps_bind; [exact run_once_steps|intros current].
  apply steps_bind; [destruct (_ =? 0); [exact Hwait|intros w Hg; by apply wp_ret]|intros _]. apply IH.
Qed.
End delivery.

(** ** Recovery

    A worker alone: once its leases have expired, what another left behind is
    delivered like everything else. *)
Section recovery.
Context `{CoreApi} {X : Type} (hooks : runner_hooks X) (sink : EvidenceSink X) (utc_now : M X datetime).
Context (config : runner_config) (time : X → instant) (pace : Z).
Context (Hanswers : answers hooks sink time pace) (Htime : in_time time pace config).

(** Not set aside, and not leased at [t] any more. *)
Definition recoverable (t : instant) (r : OutboxRecord) : Prop :=
  state r ≠ QUARANTINED ∧ (state r = LEASED → claimable t r = true).
Definition all_recoverable (t : instant) (s : store) : Prop := ∀ k r, records s !! k = Some r → recoverable t r.
Definition deliverable (d : OutboxDataV1) : Prop := ¬ undelivered hooks config d.

Lemma recoverable_claimable t t' r : recoverable t r → state r ≠ COMPLETED → t ≤ t' → claimable t' r = true.
Proof.
  unfold recoverable, claimable. destruct (state r); intros [Hq Hl] Hc Ht; try done.
  specialize (Hl eq_refl). destruct (lease r); [lia|done].
Qed.

Lemma run_once_recoverable t0 t s s' run :
  settled_run hooks config t s s' run → (∀ k r, records s !! k = Some r → deliverable (data r)) →
  all_recoverable t0 s → all_recoverable t0 s'.
Proof.
  intros (_ & _ & _ & _ & Hin & Hframe) Hdel Hopen k r' Hr'. destruct (records s !! k) as [r|] eqn:Hr.
  2:{ rewrite Hframe, Hr in Hr'; [done|]. intros r. by rewrite Hr. }
  destruct (decide ((k, r) ∈ claim_targets (batch_size config) t s)) as [Hk|Hk].
  - destruct (Hin k r Hr Hk) as (r1 & Hr1 & Hout). rewrite Hr' in Hr1. injection Hr1 as <-.
    destruct Hout as [fp now _ _|f retryable Hf]; [done|]. by destruct (Hdel k r Hr).
  - rewrite Hframe in Hr'; [by apply (Hopen k)|]. intros r1. rewrite Hr. by intros [= <-].
Qed.

Lemma run_once_data t s s' run : settled_run hooks config t s s' run → data <$> records s' = data <$> records s.
Proof.
  intros (_ & _ & _ & _ & Hin & Hframe). apply map_eq. intros k. rewrite !lookup_fmap.
  destruct (records s !! k) as [r|] eqn:Hr.
  2:{ rewrite Hframe, Hr; [done|]. intros r. by rewrite Hr. }
  destruct (decide ((k, r) ∈ claim_targets (batch_size config) t s)) as [Hk|Hk].
  - destruct (Hin k r Hr Hk) as (r1 & -> & Hout). by destruct Hout.
  - rewrite Hframe, Hr; [done|]. intros r1. rewrite Hr. by intros [= <-].
Qed.

(** A store with recoverable records only and nothing to claim is all completed. *)
Lemma idle_completed limit t t' s :
  1 ≤ limit → claim_targets limit t' s = [] → all_recoverable t s → t ≤ t' →
  ∀ k r, records s !! k = Some r → state r = COMPLETED.
Proof.
  intros Hl Hidle Hopen Ht k r Hr. destruct (decide (state r = COMPLETED)) as [|Hinc]; [done|].
  destruct (heads_cover ∅ (ordered_records s) (k, r)) as (h & Hh & _);
    [by apply elem_of_ordered_records|done|by apply not_elem_of_empty|].
  destruct h as [k' r']. pose proof (elem_of_heads _ _ _ Hh) as (Hr'%elem_of_ordered_records & Hinc' & _).
  pose proof (recoverable_claimable t t' r' (Hopen k' r' Hr') Hinc' Ht) as Hc.
  unfold claim_targets in Hidle.
  assert ((k', r') ∈ List.filter (λ e, claimable t' e.2) (heads ∅ (ordered_records s))) as Hin.
  { apply list_elem_of_In, filter_In. split; [by apply list_elem_of_In|done]. }
  destruct (List.filter _ _) as [|e l]; [by apply elem_of_nil in Hin|].
  destruct (Z.to_nat limit) eqn:E; [lia|done].
Qed.

Context (events : gmap string OutboxDataV1).
Context (sound : X → Prop) (delivered : X → OutboxDataV1 → Prop) (touches : X → X → Prop).
Context (Htouches : ∀ x x', touches x x' → sound x → sound x' ∧ ∀ d, delivered x d → delivered x' d).
Context (Hsteps : worker_steps config events sound delivered touches (hooks_beside hooks) (sink_beside sink) (ret ())).

(** Consistency and, as long as the events can be delivered, no record left
    leased or set aside. *)
Definition all_deliverable : Prop := ∀ k d, events !! k = Some d → deliverable d.
Definition converging (t : instant) (premise : Prop) (s : store) (x : X) : Prop :=
  consistent events sound delivered s x ∧ data <$> records s = events ∧ (premise → all_recoverable t s).

Lemma converging_preserved t (premise : Prop) :
  (premise → all_deliverable) → preserved hooks sink utc_now config time (converging t premise).
Proof.
  intros Hpremise s x run s' x' Hs (Hc & He & Hrec) Hrun Hset. split_and!.
  - pose proof (run_once_steps config events sound delivered touches Htouches _ _ _ utc_now Hsteps (s, x) (conj Hs Hc)) as Hwp.
    apply wp_run in Hwp as (r & w & Hrun' & Hg).
    change (run_once (H0 := store_port utc_now) (H1 := sink_beside sink) (hooks_beside hooks) config None (s, x) = (r, w)) in Hrun'.
    unfold RunnerStore.port, RunnerStore.beside in Hrun. rewrite Hrun in Hrun'. injection Hrun' as <- <-.
    by apply (steps_good events sound delivered touches Htouches _ _ Hg).
  - by rewrite (run_once_data _ _ _ _ Hset).
  - intros Hp. eapply run_once_recoverable; [done| |by apply Hrec].
    intros k r Hr. apply (Hpremise Hp k). by eapply cs_events.
Qed.
End recovery.
