(* ===== verification/Projection.v ===== *)
(** * A projection into the versioned target, end to end

    The runner of runner/runner.py over the reference store of outbox/store.py,
    with the projector of examples/versioned_target.py, writing to a target that
    upserts rows by their id.  Whatever fails on the way, the target holds rows
    of events only and a row for every completed event; when deliveries succeed,
    the latest visible rows of the target are those of the events. *)
From stdpp Require Import relations.
From S2P Require Import Prelude PyTime Sha256 Canonical JsonParse Errors OutboxModel Redaction OutboxStore OutboxClaim OutboxLifecycle Runner RunnerStore Delivery VersionedTarget.

(** ** What the projector and the acknowledgement raise *)

(** A value, or the raise of an ordinary exception. *)
Ltac raises_leaf := first [apply raises_ok | apply raises_raise; by split_and!].

Lemma json_value_raises v : raises_only reportable (json_value v).
Proof.
  revert v. fix IH 1. intros [|b|z|[]|s|t|v|fields|items|items|name]; cbn [json_value float_value].
  all: try raises_leaf.
  - apply raises_bind; [|intros; apply raises_ok]. unfold ensure_utc.
    destruct (utcoffset t); [case_match|]; raises_leaf.
  - apply IH.
  - apply raises_map, raises_dict. induction fields as [|[k v] fields IHl]; constructor; [|exact IHl].
    split; [apply raises_ok|]. apply IH.
  - apply raises_map, raises_dict. induction items as [|[k v] items IHl]; constructor; [|exact IHl].
    split; [|apply IH]. destruct k; raises_leaf.
  - apply raises_map, raises_all. induction items as [|v items IHl]; constructor; [|exact IHl]. apply IH.
Qed.

Section canonical.
Context `{FloatParser}.

Lemma json_loads_raises s : raises_only reportable (json_loads s).
Proof.
  unfold json_loads. destruct (parse_value _ _) as [[v r]|]; [case_match|]; raises_leaf.
Qed.

Lemma reload_raises r : raises_only reportable r → raises_only reportable (reload r).
Proof.
  intros Hr. apply raises_bind; [done|intros s]. apply raises_bind; [apply json_loads_raises|intros v].
  apply json_value_raises.
Qed.

Lemma canonical_raises j : raises_only reportable (canonical j).
Proof.
  induction j as [| | | | |l IH|l IH] using json_induction; try apply raises_ok; cbn [canonical];
    apply raises_map, raises_all; (eapply Forall_impl; [exact IH|]); intros x Hx; [by apply reload_raises|].
  by apply raises_map, reload_raises.
Qed.

Lemma project_row_raises scope entries ctx : raises_only reportable (project_row scope entries ctx).
Proof.
  unfold project_row. apply raises_bind; [|intros version].
  { destruct (context_version _); raises_leaf. }
  apply raises_bind; [apply raises_map, canonical_raises|intros key].
  apply raises_bind; [|intros deleted].
  { unfold deleted_flag. destruct (default _ _); raises_leaf. }
  apply raises_bind; [apply raises_map, canonical_raises|intros id].
  apply raises_bind; [apply reload_raises, canonical_raises|intros]. apply raises_ok.
Qed.
End canonical.

Lemma default_acknowledgement_raises `{CoreApi} result d : raises_only reportable (default_acknowledgement result d).
Proof.
  unfold default_acknowledgement. apply raises_bind; [|intros v].
  { destruct (source_version d); [|apply raises_ok].
    destruct (match result_data result with PMapping items => _ | _ => _ end); [apply raises_ok|].
    apply raises_raise, projection_rejected_reportable. }
  apply raises_bind; [|intros fp; apply raises_ok]. destruct (nonempty _); [apply raises_ok|].
  apply raises_map, json_value_raises.
Qed.

(** ** The versioned target

    [structured] builds the expression of an upsert, the runtime executes it:
    it writes the row under its id, or, when it raises, perhaps nothing.  The
    payload of an event is always an object. *)
Abbreviation fields := (list (string * json)).
Definition id_of (row : fields) : option json := dict_get "id" row.
Definition row_value (row : fields) : list (pyval * pyval) := map (λ e, (PStr e.1, of_json e.2)) row.

Class UpsertTarget `{CoreApi} (Y : Type) : Type := {
  structured_put : fields → res Expression;
  run_put : Expression → M (gmap string fields * Y) OperationResult;
  run_put_writes id row expr tbl y :
    id_of row = Some (JStr id) → structured_put row = Ok expr →
    wp (run_put expr) (λ r w, (w.1 = tbl ∨ w.1 = <[id := row]> tbl) ∧
                              match r with Ok _ => w.1 = <[id := row]> tbl | Raise _ => True end) (tbl, y);
}.

(** Projectors whose rows have an id made of their key and version. *)
Definition keyed_rows (project : fields → ProjectionContext → res fields) `{FloatParser} : Prop :=
  ∀ entries ctx row, project entries ctx = Ok row →
    ∃ k v id, id_of row = Some (JStr id) ∧ VersionedTarget.digest (JArr [JStr k; JInt v]) = Ok id ∧ row_of (row_value row) k v.

Section versioned.
Context `{FloatParser} `{UpsertTarget Y} (sink : EvidenceSink Y) (clk : M Y datetime).
Context (config : runner_config) (project : fields → ProjectionContext → res fields).

Definition projector_hooks : runner_hooks (gmap string fields * Y) :=
  Hooks (λ src ctx, lift_res (match src with
           | JObj entries => let? row := project entries ctx in structured_put row
           | _ => Raise (EPython "builtins" "AttributeError" "get")
           end))
    run_put None (λ result d, lift_res (default_acknowledgement result d)) (lift_snd clk).

(** The row an event stands for. *)
Definition event_row (d : OutboxDataV1) : option fields :=
  match payload d with
  | Some (JObj entries) => match project entries (context config (new_record d)) with Ok row => Some row | Raise _ => None end
  | _ => None
  end.

(** Collaborators that answer, each call within [pace]; what the projector and
    the default acknowledgement raise is ordinary. *)
Context (time : Y → instant) (pace : Z).
Definition target_time (w : gmap string fields * Y) : instant := time w.2.
Record target_answers : Prop := {
  ta_pace : 0 ≤ pace;
  ta_clock : ∀ y, ∃ y', clk y = (Ok (at_utc (time y)), y') ∧ passes time pace 1 y y';
  ta_sink : ∀ e y, ∃ y', sink e y = (Ok (), y') ∧ passes time pace 1 y y';
  ta_put : ∀ row, raises_only reportable (structured_put row);
  ta_run : ∀ expr, ordinary target_time pace (run_put expr);
}.

Lemma ordinary_res {A} (r : res A) : 0 ≤ pace → raises_only reportable r → ordinary target_time pace (lift_res r).
Proof. intros Hp Hr w. split; [unfold passes; cbn; lia|done]. Qed.

Lemma projector_answers :
  (∀ entries ctx, raises_only reportable (project entries ctx)) →
  target_answers → answers projector_hooks (sink_beside sink) target_time pace.
Proof.
  intros Hproj Ha. pose proof (ta_pace Ha) as Hpace. split.
  - done.
  - intros [tbl y]. destruct (ta_clock Ha y) as (y' & Hy & Hp). exists (tbl, y'). cbn. by rewrite Hy.
  - intros e [tbl y]. destruct (ta_sink Ha e y) as (y' & Hy & Hp). exists (tbl, y'). unfold sink_beside, lift_snd. by rewrite Hy.
  - intros src ctx. apply ordinary_res; [done|]. destruct src as [| | | | | |entries]; try raises_leaf.
    apply raises_bind; [apply Hproj|apply (ta_put Ha)].
  - apply (ta_run Ha).
  - done.
  - intros result d. apply ordinary_res; [done|]. apply default_acknowledgement_raises.
Qed.

(** When an event can be delivered. *)
Lemma deliverable_intro d entries row expr fp :
  payload d = Some (JObj entries) → project entries (context config (new_record d)) = Ok row →
  structured_put row = Ok expr → validate_record config (new_record d) = Ok () → validate_expression config expr = Ok () →
  (∀ w, ∃ result w', run_put expr w = (Ok result, w') ∧ default_acknowledgement result d = Ok (source_version d, fp)) →
  is_sha256 fp = true → deliverable projector_hooks config d.
Proof.
  intros Hp Hrow Hput Hrec Hexpr Hrun Hfp [w Hd]. revert Hd. unfold deliver, source, bind, lift_res. cbn [data new_record].
  rewrite Hrec, Hp. cbn [ret Runner.project projector_hooks]. unfold ret, lift_res. rewrite Hrow. cbn [res_bind].
  rewrite Hput, Hexpr. cbn [execute projector_hooks acknowledgement]. destruct (Hrun w) as (result & w' & -> & ->). cbn.
  rewrite Hfp. by intros [].
Qed.

Context (events : gmap string OutboxDataV1).

(** Events with the same row id stand for the same row: the source and its
    version determine the document, and digests do not collide. *)
Definition one_row_per_id : Prop :=
  ∀ k k' d d' row row', events !! k = Some d → events !! k' = Some d' →
    event_row d = Some row → event_row d' = Some row' → id_of row = id_of row' → row = row'.

Definition table_sound (w : gmap string fields * Y) : Prop :=
  ∀ id row, w.1 !! id = Some row → id_of row = Some (JStr id) ∧ ∃ k d, events !! k = Some d ∧ event_row d = Some row.
Definition row_written (w : gmap string fields * Y) (d : OutboxDataV1) : Prop :=
  ∃ id row, event_row d = Some row ∧ id_of row = Some (JStr id) ∧ w.1 !! id = Some row.

Context (Hproject : keyed_rows project) (Hids : one_row_per_id).

Lemma event_row_keyed d row : event_row d = Some row →
  ∃ k v id, id_of row = Some (JStr id) ∧ VersionedTarget.digest (JArr [JStr k; JInt v]) = Ok id ∧ row_of (row_value row) k v.
Proof.
  unfold event_row. destruct (payload d) as [[]|]; try done.
  destruct (project _ _) eqn:E; [|done]. intros [= <-]. by eapply Hproject.
Qed.

(** A call on the target writes the row of an event, or leaves the table. *)
Definition row_touched (w w' : gmap string fields * Y) : Prop :=
  w'.1 = w.1 ∨ ∃ k d row id, events !! k = Some d ∧ event_row d = Some row ∧ id_of row = Some (JStr id) ∧ w'.1 = <[id := row]> w.1.

Lemma row_touched_keeps w w' : row_touched w w' → table_sound w → table_sound w' ∧ ∀ d, row_written w d → row_written w' d.
Proof.
  destruct w as [tbl y], w' as [tbl' y']. cbn.
  intros [Htbl|(k & d & row & id & Hd & Hrow & Hid & Htbl)] Hs; cbn in Htbl; subst tbl'; [done|]. split.
  - intros id' row'. cbn. destruct (decide (id' = id)) as [->|Hne].
    + rewrite lookup_insert_eq. intros [= <-]. split; [done|by eauto].
    + rewrite lookup_insert_ne by done. apply Hs.
  - intros d' (id' & row' & Hrow' & Hid' & Hl). exists id', row'. split_and!; [done..|]. cbn in *.
    destruct (decide (id' = id)) as [->|Hne]; [|by rewrite lookup_insert_ne].
    rewrite lookup_insert_eq. f_equal. destruct (Hs _ _ Hl) as (_ & k' & d1 & Hd1 & Hrow1).
    apply (Hids k k' d d1 row row'); [done..|]. by rewrite Hid, Hid'.
Qed.

Abbreviation target_step := (world_step events row_written row_touched).
Abbreviation target_good := (good events table_sound row_written).

Section among.
Context (env : M (store * (gmap string fields * Y)) unit) (Henv : ∀ w, target_good w → wp env (λ _ w', rtc target_step w w') w).
Context (Hclock : ∀ y, match (clk y).1 with Ok now => in_calendar config now | Raise _ => True end).

Lemma env_then {A} (m : M (gmap string fields * Y) A) (Q : res A → store * (gmap string fields * Y) → Prop) w :
  target_good w → (∀ e w', rtc target_step w w' → Q (Raise e) w') →
  (∀ s x, rtc target_step w (s, x) → wp m (λ r x', Q r (s, x')) x) → wp (do! env in lift_snd m) Q w.
Proof.
  intros Hg Hraise Hm. apply wp_bind. eapply wp_mono; [by apply Henv|]. intros [[]|e] [s x] Hw; [|by apply Hraise].
  apply wp_lift_snd_run. by apply Hm.
Qed.

(** Calls that only concern the rest of the world. *)
Lemma env_beside {A} (m : M Y A) (P : res A → Prop) w :
  target_good w → (∀ y, P (m y).1) → (∀ e, P (Raise e)) →
  wp (do! env in lift_snd (lift_snd m)) (λ r w', rtc target_step w w' ∧ P r) w.
Proof.
  intros Hg HP Hraise. apply env_then; [done|by auto|]. intros s [tbl y] Hw. apply wp_lift_snd_run.
  destruct (m y) as [r y'] eqn:E. eapply wp_eq; [exact E|]. split.
  - eapply rtc_r; [exact Hw|]. apply step_target; by left.
  - specialize (HP y). by rewrite E in HP.
Qed.

Lemma projector_deliver r w :
  events !! event_id (data r) = Some (data r) → target_good w →
  wp (deliver (hooks_among env projector_hooks) config r)
     (λ o w', rtc target_step w w' ∧ match o with Ok _ => row_written w'.2 (data r) | Raise _ => True end) w.
Proof.
  intros Hr Hg. unfold deliver. apply wp_bind, wp_lift_res. destruct (validate_record config r) as [[]|]; [|done].
  unfold source. apply wp_bind.
  destruct (payload (data r)) as [p|] eqn:Hp.
  2:{ destruct (immutable_reference (data r)); by apply wp_raise. }
  apply wp_ret, wp_bind, env_then; [done|done|intros s x Hw]. apply wp_lift_res. destruct p as [| | | | | |entries]; try done.
  destruct (project entries (context config r)) as [row|] eqn:Hrow; [|done]. cbn [res_bind].
  destruct (structured_put row) as [expr|] eqn:Hexpr; [|done].
  apply wp_bind, wp_lift_res. destruct (validate_expression config expr) as [[]|]; [|done].
  assert (event_row (data r) = Some row) as Hev.
  { unfold event_row. rewrite Hp. change (context config (new_record (data r))) with (context config r). by rewrite Hrow. }
  destruct (event_row_keyed _ _ Hev) as (k & v & id & Hid & _).
  destruct (steps_good events _ _ _ row_touched_keeps _ _ Hw Hg) as [Hg1 _].
  apply wp_bind, env_then; [done|intros e w1 Hw1; split; [by etrans|done]|]. intros s1 [tbl1 y1] Hw1.
  eapply wp_mono; [by apply (run_put_writes id row)|]. intros o [tbl2 y2] [Hput Hok]. cbn [fst] in Hput, Hok.
  assert (rtc target_step w (s1, (tbl2, y2))) as Hw2.
  { etrans; [exact Hw|]. eapply rtc_r; [exact Hw1|]. apply step_target. destruct Hput as [-> | ->]; [by left|right; by exists (event_id (data r)), (data r), row, id]. }
  destruct o as [result|e]; [|done]. destruct (steps_good events _ _ _ row_touched_keeps _ _ Hw2 Hg) as [Hg2 _].
  cbn [acknowledgement projector_hooks hooks_among]. apply env_then; [done|intros e w3 Hw3; split; [by etrans|done]|].
  intros s3 x3 Hw3. apply wp_lift_res. split; [by etrans|]. destruct (default_acknowledgement _ _); [|done].
  apply (steps_good events _ _ _ row_touched_keeps _ _ Hw3 Hg2). exists id, row. split_and!; [done..|].
  cbn. by rewrite Hok, lookup_insert_eq.
Qed.

Lemma projector_steps :
  worker_steps config events table_sound row_written row_touched (hooks_among env projector_hooks)
    (sink_among env (sink_beside sink)) env.
Proof.
  split.
  - exact Henv.
  - intros w Hg. by apply (env_beside clk (λ o, match o with Ok now => in_calendar config now | Raise _ => True end)).
  - intros e w Hg. eapply wp_mono; [by apply (env_beside (sink e) (λ _, True))|]. by intros r w' [].
  - apply projector_deliver.
Qed.
End among.

(** ** The view of the target *)
Definition table_rows (tbl : gmap string fields) : list (list (pyval * pyval)) :=
  map (λ e, row_value e.2) (map_to_list tbl).
Definition event_rows : list (list (pyval * pyval)) :=
  omap (λ e, row_value <$> event_row e.2) (map_to_list events).

Lemma elem_of_event_rows r : r ∈ event_rows ↔ ∃ k d row, events !! k = Some d ∧ event_row d = Some row ∧ r = row_value row.
Proof.
  unfold event_rows. rewrite list_elem_of_omap. split.
  - intros ([k d] & Hin%elem_of_map_to_list & Hr). apply fmap_Some in Hr as (row & Hrow & ->). by eauto 8.
  - intros (k & d & row & Hd & Hrow & ->). exists (k, d). split; [by apply elem_of_map_to_list|]. apply fmap_Some. by exists row.
Qed.

Lemma elem_of_table_rows tbl r : r ∈ table_rows tbl ↔ ∃ id row, tbl !! id = Some row ∧ r = row_value row.
Proof.
  unfold table_rows. rewrite list_elem_of_fmap. split.
  - intros ([id row] & -> & Hin%elem_of_map_to_list). by eauto.
  - intros (id & row & Hrow & ->). exists (id, row). split; [done|]. by apply elem_of_map_to_list.
Qed.

Lemma event_rows_valid : Forall valid_row event_rows.
Proof.
  apply Forall_forall. intros r (k & d & row & _ & Hrow & ->)%elem_of_event_rows.
  destruct (event_row_keyed _ _ Hrow) as (key & v & id & _ & _ & Hr). by exists key, v.
Qed.

(** The id of a row is made of its key and version. *)
Lemma event_rows_versions : one_per_version event_rows.
Proof.
  intros r r' key v (k & d & row & Hd & Hrow & ->)%elem_of_event_rows (k' & d' & row' & Hd' & Hrow' & ->)%elem_of_event_rows Ho Ho'.
  destruct (event_row_keyed _ _ Hrow) as (k1 & v1 & id & Hid & Hdig & Hr).
  destruct (event_row_keyed _ _ Hrow') as (k2 & v2 & id' & Hid' & Hdig' & Hr').
  destruct (row_of_unique _ _ _ _ _ Ho Hr) as [<- <-]. destruct (row_of_unique _ _ _ _ _ Ho' Hr') as [<- <-].
  f_equal. apply (Hids k k' d d'); [done..|]. rewrite Hdig in Hdig'. injection Hdig' as <-. by rewrite Hid, Hid'.
Qed.

(** The target a store with completed events only is consistent with. *)
Lemma completed_rows s w :
  consistent events table_sound row_written s w → data <$> records s = events →
  (∀ k r, records s !! k = Some r → state r = COMPLETED) →
  ∀ r, r ∈ event_rows ↔ r ∈ table_rows w.1.
Proof.
  intros [Hs _ Hc] He Hall r. rewrite elem_of_event_rows, elem_of_table_rows. split.
  - intros (k & d & row & Hd & Hrow & ->). rewrite <- He in Hd. apply lookup_fmap_Some in Hd as (rec & <- & Hrec).
    destruct (Hc _ _ Hrec (Hall _ _ Hrec)) as (id & row' & Hrow' & Hid & Hl). rewrite Hrow in Hrow'. injection Hrow' as <-. by eauto.
  - intros (id & row & Hl & ->). destruct (Hs _ _ Hl) as (_ & k & d & Hd & Hrow). by eauto 6.
Qed.
End versioned.

Lemma project_row_keyed `{FloatParser} scope : keyed_rows (project_row scope).
Proof.
  intros entries ctx row. unfold project_row. destruct (integer_version _) as [v|]; [|done]. cbn [res_bind].
  destruct (source_key scope ctx) as [k|]; [|done]. cbn [res_bind].
  destruct (deleted_flag entries) as [b|]; [|done]. cbn [res_bind].
  destruct (VersionedTarget.digest (JArr [JStr k; JInt v])) as [id|] eqn:Hid; [|done]. cbn [res_bind].
  destruct (reload _) as [document|]; [|done]. intros [= <-]. exists k, v, id. by split_and!.
Qed.

Lemma projector_keyed `{FloatParser} scope project :
  make_projector scope = Ok project →
  keyed_rows project ∧ ∀ entries ctx, raises_only reportable (project entries ctx).
Proof.
  unfold make_projector. destruct (reload _) as [pinned|]; [|done]. intros [= <-].
  split; [apply project_row_keyed|apply project_row_raises].
Qed.

Lemma target_in_calendar `{UpsertTarget Y} sink clk config time pace :
  target_answers sink clk time pace → in_time (target_time time) pace config →
  ∀ y : Y, match (clk y).1 with Ok now => in_calendar config now | Raise _ => True end.
Proof.
  intros Ha Ht y. destruct (ta_clock _ _ _ _ Ha y) as (y' & -> & _). cbn [fst]. intros cur.
  destruct (it_calendar _ _ _ Ht (∅, y)) as [Hr Hr']. unfold target_time in *. cbn [snd] in *.
  rewrite ensure_utc_at_utc by done. by intros [= <-].
Qed.

(** ** The composition *)

(** C9: the projection converges.  Whatever the target writes, raises or
    acknowledges, when leases outlast a batch [run_until_idle] over the
    reference store returns; the target then holds rows of events only, each
    under its id, and the row of every completed event, although events are
    delivered again after failures and out of order.  If no event was set aside
    before, the leases that other workers left behind have expired, and events
    can be delivered, then all are completed, and every complete snapshot of the
    target reduces to the latest visible rows of the events. *)
Theorem projection_converges `{FloatParser} `{UpsertTarget Y} (sink : EvidenceSink Y) utc_now clk config scope project
    time pace s tbl (y : Y) cycles :
  let hooks := projector_hooks clk project in
  let events := data <$> records s in
  let agrees := consistent events (table_sound config project events) (row_written config project) in
  make_projector scope = Ok project →
  target_answers sink clk time pace → in_time (target_time time) pace config →
  one_row_per_id config project events → store_ok s → agrees s (tbl, y) →
  potential (poison_threshold s) (records s) < cycles →
  ∃ run s' tbl' y', run_until_idle (H0 := store_port utc_now) (H1 := sink_beside (sink_beside sink)) (hooks_beside hooks)
                      config cycles (s, (tbl, y)) = (Ok run, (s', (tbl', y'))) ∧
    store_ok s' ∧ agrees s' (tbl', y') ∧ data <$> records s' = events ∧
    (all_recoverable (time y) s ∧ all_deliverable hooks config events →
     (∀ k r, records s' !! k = Some r → state r = COMPLETED) ∧
     ∀ rows matches, rows ≡ₚ table_rows tbl' →
       ∃ visible, latest_visible rows matches = Ok visible ∧
                  latest_visible (event_rows config project events) matches = Ok visible).
Proof.
  intros hooks events agrees Hproject Htarget Htime Hids Hs Hagrees Hlt.
  destruct (projector_keyed _ _ Hproject) as [Hkeyed Hraises].
  pose proof (projector_answers sink clk _ time pace Hraises Htarget) as Hans.
  pose proof (row_touched_keeps (Y := Y) config _ events Hids) as Htouches.
  pose proof (projector_steps sink clk config _ events Hkeyed Hids (ret ()) (λ w _, wp_ret _ _ w (rtc_refl _ w))
    (target_in_calendar _ _ _ _ _ Htarget Htime)) as Hsteps.
  pose proof (potential_nonneg (poison_threshold s) (records s)).
  unfold run_until_idle, bind, lift_res. rewrite (proj2 (Z.ltb_ge _ _)) by lia. cbn [raise_if].
  set (premise := all_recoverable (time y) s ∧ all_deliverable hooks config events).
  pose proof (converging_preserved hooks (sink_beside sink) utc_now config (target_time time) events _ _ _ Htouches Hsteps
    (time y) premise (@proj2 _ _)) as Hpres.
  destruct (idle_loop_terminates hooks (sink_beside sink) utc_now config _ _ Hans Htime _ (Z.to_nat cycles) s (tbl, y)
    run_zero Hpres) as (run & s' & [tbl' y'] & Hrun & Hs' & (Hagrees' & Hev & Hrec) & (now & Hnow & Hnil) & _).
  { split_and!; [exact Hagrees|done|]. by intros []. }
  { done. }
  { lia. }
  exists run, s', tbl', y'. split; [exact Hrun|]. do 3 (split; [done|]). intros Hp.
  assert (∀ k r, records s' !! k = Some r → state r = COMPLETED) as Hdone
    by (apply (idle_completed (batch_size config) (time y) now); [apply (it_limit _ _ _ Htime)|done|by apply Hrec|apply Hnow]).
  split; [done|]. intros rows matches Hrows.
  pose proof (event_rows_valid config _ events Hkeyed) as Hvalid.
  destruct (latest_visible_total _ matches Hvalid) as [visible Hvisible]. exists visible. split; [|done].
  rewrite <- Hvisible. apply latest_visible_members; [|done|by apply event_rows_versions].
  intros r. rewrite Hrows. by apply (completed_rows config _ events s' (tbl', y')).
Qed.

(** C10: a worker among others is safe to interfere with and to kill.  Let the
    rest of the world take any steps before each call of the host's loop:
    operations of other workers, producers and operators on the store, rows of
    events written to the target, and whatever the collaborators keep; and let
    any call raise, as when the process dies.  Then what the loop has done, when
    it returns, raises or is cut off, is itself a sequence of such steps; so the
    store is well formed, and the target holds rows of events only and the row of
    every completed event, for any number of workers. *)
Theorem workers_interleave `{FloatParser} `{UpsertTarget Y} (sink : EvidenceSink Y) utc_now clk stop_is_set stop_wait config
    scope project events env poll fuel w :
  let hooks := hooks_among env (projector_hooks clk project) in
  let sound := table_sound config project events in let written := row_written config project in
  let agrees w := store_ok w.1 ∧ consistent events sound written w.1 w.2 in
  let other_steps := rtc (world_step events written (row_touched config project events)) in
  make_projector scope = Ok project → one_row_per_id config project events →
  (∀ y : Y, match (clk y).1 with Ok now => in_calendar config now | Raise _ => True end) →
  (∀ w, agrees w → other_steps w (env w).2) → agrees w →
  let w' := (run_until_stopped (H0 := port_among env utc_now) (H1 := sink_among env (sink_beside sink)) hooks config
               (do! env in lift_snd (lift_snd stop_is_set)) (λ t, do! env in lift_snd (lift_snd (stop_wait t))) poll fuel w).2 in
  other_steps w w' ∧ agrees w'.
Proof.
  intros hooks sound written agrees other_steps Hproject Hids Hclock Henv Hw w'.
  destruct (projector_keyed _ _ Hproject) as [Hkeyed _].
  assert (∀ w, agrees w → wp env (λ _ w', other_steps w w') w) as Hwp by (intros w0 Hw0; by apply wp_state, Henv).
  pose proof (row_touched_keeps (Y := Y) config _ events Hids) as Htouches.
  pose proof (projector_steps sink clk config _ events Hkeyed Hids env Hwp Hclock) as Hsteps.
  assert (∀ A (m : M Y A), steps_to events sound written (row_touched config project events) (do! env in lift_snd (lift_snd m))) as Hbeside.
  { intros A m w0 Hw0. eapply wp_mono; [by apply (env_beside config _ events env Hwp m (λ _, True))|]. by intros r w1 []. }
  assert (other_steps w w') as Hrun; [|split; [done|by apply (steps_good events _ _ _ Htouches _ _ Hrun)]].
  subst w'. apply (wp_state _ (other_steps w)). unfold run_until_stopped. apply wp_bind, wp_lift_res.
  destruct (raise_if _ _); [|done].
  by apply (stopped_loop_steps config events _ _ _ Htouches _ _ _ utc_now Hsteps).
Qed.

(** ** An example

    Two versions of one source and one of another; the row of the second
    version was written before the run, by a delivery that crashed. *)
Module example.
#[local] Instance floats : FloatParser := literal_floats.

Definition api : CoreApi := {|
  core_errors := example_core;
  Expression := string * string * fields;
  expression_catalog e := e.1.1;
  expression_argument e name := if String.eqb name "resource" then Some (PStr e.1.2) else None;
  OperationResult := fields;
  result_data row := PMapping (row_value row);
  operation_fingerprint _ := None;
|}.

Definition put (row : fields) : res (@Expression api) := Ok ("structured", "orders.search", row)%string.
Definition upsert (e : @Expression api) : M (gmap string fields * nat) (@OperationResult api) := λ w,
  match id_of e.2 with
  | Some (JStr id) => (Ok e.2, (<[id := e.2]> w.1, S w.2))
  | _ => (Raise (ValueError "id"), w)
  end.

#[local] Instance target : UpsertTarget (H := api) nat.
Proof.
  refine {| structured_put := put; run_put := upsert |}.
  intros id row expr tbl y Hid [= <-]. eapply wp_eq; [unfold upsert; cbn [snd]; by rewrite Hid|]. cbn. by split; [right|].
Defined.

Definition scope : json := JObj [("tenant", JStr "t1")]%string.
Lemma projector_pinned : make_projector scope = Ok (project_row scope).
Proof.
  unfold make_projector. assert (reload (canonical scope) = Ok scope) as -> by (vm_compute; reflexivity). reflexivity.
Qed.
Definition row_for (d : OutboxDataV1) : fields :=
  default [] (event_row example_config (project_row scope) d).
Definition row1 : fields := Eval vm_compute in row_for sample_event1.
Definition row2 : fields := Eval vm_compute in row_for sample_event2.
Definition row3 : fields := Eval vm_compute in row_for sample_event3.
Definition row_id (row : fields) : string := match id_of row with Some (JStr id) => id | _ => "" end.
Definition id2 : string := Eval vm_compute in row_id row2.
Definition table : gmap string fields := {[id2 := row2]}.

Lemma sample_records k r : records sample_store !! k = Some r →
  (k, data r) ∈ [("evt-1", sample_event1); ("evt-2", sample_event2); ("evt-3", sample_event3)]%string ∧ state r = PENDING.
Proof.
  unfold sample_store, added, with_records. cbn [records]. rewrite !lookup_insert_Some, lookup_empty, !elem_of_cons.
  intros [[<- <-]|[_ [[<- <-]|[_ [[<- <-]|[_ [=]]]]]]]; (split; [|done]); auto.
Qed.

Definition events : gmap string OutboxDataV1 := data <$> records sample_store.

(** The rows the events stand for. *)
Lemma event_rows_of k d : events !! k = Some d →
  ∃ row, (d, row) ∈ [(sample_event1, row1); (sample_event2, row2); (sample_event3, row3)] ∧
    event_row example_config (project_row scope) d = Some row ∧ id_of row = Some (JStr (row_id row)).
Proof.
  intros (r & <- & [Hr _]%sample_records)%lookup_fmap_Some.
  rewrite !elem_of_cons, elem_of_nil in Hr.
  destruct Hr as [[= _ ->]|[[= _ ->]|[[= _ ->]|[]]]]; [exists row1|exists row2|exists row3];
    (split; [rewrite !elem_of_cons; auto|]); split; vm_compute; reflexivity.
Qed.

Lemma rows_distinct : one_row_per_id example_config (project_row scope) events.
Proof.
  intros k k' d d' row row' (r1 & Hin & Hr & _)%event_rows_of (r2 & Hin' & Hr' & _)%event_rows_of Hrow Hrow' Hids.
  rewrite Hrow in Hr. rewrite Hrow' in Hr'. injection Hr as <-. injection Hr' as <-.
  rewrite !elem_of_cons, elem_of_nil in Hin, Hin'.
  destruct Hin as [[= _ ->]|[[= _ ->]|[[= _ ->]|[]]]], Hin' as [[= _ ->]|[[= _ ->]|[[= _ ->]|[]]]];
    first [reflexivity|by vm_compute in Hids].
Qed.

Lemma agrees_before : consistent events (table_sound example_config (project_row scope) events)
  (row_written example_config (project_row scope)) sample_store (table, 0%nat).
Proof.
  split.
  - intros id row Hrow. cbn [fst] in Hrow. unfold table in Hrow. apply lookup_singleton_Some in Hrow as [<- <-].
    split; [by vm_compute|]. exists "evt-2"%string, sample_event2. split; vm_compute; reflexivity.
  - intros k r Hr. unfold events. by rewrite lookup_fmap, Hr.
  - intros k r [_ Hst]%sample_records. by rewrite Hst.
Qed.

Lemma target_ok : target_answers (H0 := api) NullEvidenceSink example_clock example_time 500000.
Proof.
  split; [done| | |done|].
  - intros n. exists n. split; [done|apply example_passes].
  - intros e n. exists n. split; [done|apply example_passes].
  - intros expr [tbl n]. cbn. unfold upsert. destruct (id_of expr.2) as [[]|]; cbn;
      (split; [apply example_passes|]); try done; intros e [= <-]; by split_and!.
Qed.

Lemma in_time_ok : in_time (target_time (Y := nat) example_time) 500000 example_config.
Proof. destruct example_in_time as [Hn Ho Hl Hd Hc]. split; [done..|]. intros w. apply Hc. Qed.

Lemma deliveries_ok : all_deliverable (projector_hooks (H0 := api) example_clock (project_row scope)) example_config events.
Proof.
  intros k d (row & Hin & Hrow & Hid)%event_rows_of. rewrite !elem_of_cons, elem_of_nil in Hin.
  assert (∃ entries fp, payload d = Some (JObj entries) ∧ is_sha256 fp = true ∧
    project_row scope entries (context example_config (new_record d)) = Ok row ∧
    validate_record example_config (new_record d) = Ok () ∧
    default_acknowledgement (H := api) row d = Ok (source_version d, fp)) as (entries & fp & Hp & Hfp & Hproj & Hval & Hack).
  { destruct Hin as [[= -> ->]|[[= -> ->]|[[= -> ->]|[]]]]; eexists _, _;
      (split; [reflexivity|]); (split; [|split; [|split; [|vm_compute; reflexivity]]]); vm_compute; reflexivity. }
  apply (deliverable_intro (H0 := api) _ _ _ d entries row ("structured", "orders.search", row)%string fp); try done.
  intros [tbl n]. exists row. eexists. split; [|exact Hack]. cbn. unfold upsert. cbn [snd]. rewrite Hid. reflexivity.
Qed.
End example.

Lemma projection_converges_witness :
  ∃ run s' tbl' y', run_until_idle (H := example.api) (H0 := store_port (H := example_core) (ret (at_utc 0)))
      (H1 := sink_beside (sink_beside NullEvidenceSink))
      (hooks_beside (projector_hooks (H1 := example.target) example_clock (project_row (H := example.floats) example.scope)))
      example_config 10 (sample_store, (example.table, 0%nat)) = (Ok run, (s', (tbl', y'))) ∧
    (∀ k r, records s' !! k = Some r → state r = COMPLETED) ∧
    latest_visible (table_rows tbl') (λ _, true) = Ok [row_value example.row3; row_value example.row2].
Proof.
  destruct (projection_converges (H := example.floats) (H0 := example.api) (H1 := example.target) NullEvidenceSink (ret (at_utc 0)) example_clock
    example_config example.scope (project_row (H := example.floats) example.scope) example_time 500000 sample_store example.table 0%nat 10)
    as (run & s' & tbl' & y' & Hrun & _ & _ & _ & Hdone).
  - exact example.projector_pinned.
  - exact example.target_ok.
  - exact example.in_time_ok.
  - exact example.rows_distinct.
  - exact sample_store_ok.
  - exact example.agrees_before.
  - vm_compute. reflexivity.
  - exists run, s', tbl', y'. split; [exact Hrun|]. destruct Hdone as [Hall Hview].
    { split; [|exact example.deliveries_ok]. intros k r Hr. apply example.sample_records in Hr as [_ Hst].
      unfold recoverable. rewrite Hst. split; discriminate. }
    split; [exact Hall|]. clear Hall Hrun. destruct (Hview (table_rows tbl') (λ _, true)) as (visible & -> & Hev); [reflexivity|].
    rewrite <- Hev. vm_compute. reflexivity.
Defined.

(** ** An example of interference

    Two workers with leases of one second.  Before the ninth call of the first
    worker the second one makes a whole run, after the lease of the first has
    expired: it takes the event over and completes it, and the first worker,
    which has written the row again, loses its lease. *)
Module among_example.
Import example.
#[local] Existing Instances floats target.
Abbreviation world := (store * (gmap string fields * nat))%type.

Definition worker (name : string) : runner_config := Config (spec example_config) 1 (second 1) name.
Definition hooks : runner_hooks (H := api) (gmap string fields * nat) := projector_hooks example_clock (project_row scope).
Definition tick : M world unit := λ '(s, (tbl, n)), (Ok (), (s, (tbl, S n))).
Definition other_run : M world unit := λ w,
  (Ok (), (run_once (H := api) (H0 := store_port (H := example_core) (ret (at_utc 0))) (H1 := sink_beside (sink_beside NullEvidenceSink))
             (hooks_beside hooks) (worker "w2") None w).2).
Definition env : M world unit := λ w,
  if Nat.eqb w.2.2 8 then (do! tick in other_run) w else tick w.

Abbreviation row_steps := (world_step (H := api) events (row_written (Y := nat) example_config (project_row scope))
  (row_touched (Y := nat) example_config (project_row scope) events)).
Abbreviation rows_good := (good events (table_sound (Y := nat) example_config (project_row scope) events)
  (row_written (Y := nat) example_config (project_row scope))).

Lemma tick_steps w : rtc row_steps w (tick w).2.
Proof. destruct w as [s [tbl n]]. by apply rtc_once, step_target; left. Qed.

Lemma calendar name n : match (example_clock n).1 with Ok now => in_calendar (worker name) now | Raise _ => True end.
Proof.
  cbn [fst example_clock]. intros cur. unfold example_time, second, us_per_second.
  rewrite ensure_utc_at_utc by (apply small_in_range; lia). intros [= <-]. cbn [lease_duration worker].
  unfold second, us_per_second. apply small_in_range. lia.
Qed.

Lemma other_run_steps w : rows_good w → rtc row_steps w (other_run w).2.
Proof.
  intros Hg. unfold other_run. cbn [snd].
  pose proof (projector_steps (H0 := api) NullEvidenceSink example_clock (worker "w2") (project_row scope) events
    (project_row_keyed scope) rows_distinct (ret ()) (λ w _, wp_ret _ _ w (rtc_refl _ w)) (calendar "w2")) as Hsteps.
  apply (wp_state _ (rtc row_steps w)).
  exact (run_once_steps (worker "w2") events _ _ _ (row_touched_keeps (Y := nat) (worker "w2") _ events rows_distinct)
    _ _ _ (ret (at_utc 0)) Hsteps w Hg).
Qed.

Lemma env_steps w : rows_good w → rtc row_steps w (env w).2.
Proof.
  intros Hg. unfold env. destruct (Nat.eqb _ _).
  - pose proof (tick_steps w) as Ht. unfold bind. destruct w as [s [tbl n]]. cbn [tick] in *. etrans; [exact Ht|].
    apply other_run_steps. by apply (steps_good events _ _ _ (row_touched_keeps (Y := nat) (worker "w2") _ events rows_distinct) _ _ Ht).
  - apply tick_steps.
Qed.

Definition hosted : M world (option ProjectionRun) :=
  run_until_stopped (H := api) (H0 := port_among (H := example_core) env (ret (at_utc 0))) (H1 := sink_among env (sink_beside NullEvidenceSink))
    (hooks_among env hooks) (worker "w1") (do! env in lift_snd (lift_snd (ret false)))
    (λ t, do! env in lift_snd (lift_snd (ret ()))) f64_zero 5.
Definition states (w : world) : list (string * OutboxState * Z) :=
  map (λ e, (e.1, state e.2, attempt_count e.2)) (map_to_list (records w.1)).
End among_example.

#[local] Existing Instances example.floats example.target.
Lemma workers_interleave_witness :
  (rtc among_example.row_steps (sample_store, (example.table, 0%nat)) (among_example.hosted (sample_store, (example.table, 0%nat))).2 ∧
   among_example.rows_good (among_example.hosted (sample_store, (example.table, 0%nat))).2) ∧
  (among_example.hosted (sample_store, (example.table, 0%nat))).1 =
    Raise (LeaseLostError "outbox event 'evt-1' is not leased") ∧
  among_example.states (among_example.hosted (sample_store, (example.table, 0%nat))).2 =
    [("evt-3", PENDING, 0); ("evt-1", COMPLETED, 2); ("evt-2", PENDING, 0)]%string.
Proof.
  split; [|split; vm_compute; reflexivity].
  apply (workers_interleave (H := example.floats) (H0 := example.api) (H1 := example.target) NullEvidenceSink (ret (at_utc 0)) example_clock
    (ret false) (λ _, ret ()) (among_example.worker "w1") example.scope (project_row (H := example.floats) example.scope)
    example.events among_example.env f64_zero 5).
  - exact example.projector_pinned.
  - exact example.rows_distinct.
  - exact (among_example.calendar "w1").
  - exact among_example.env_steps.
  - split; [exact sample_store_ok|exact example.agrees_before].
Defined.
