(* ===== verification/Host.v ===== *)
(** * The conformance host ([conformance/postgresql/host.py])

    The host process of the conformance suite: a runner over a port, with the
    projector of the versioned target, a strict acknowledgement, and faults
    injected at the boundaries of a delivery.  The runtime and the port come
    from released packages; here the host meets the reference store. *)
From Stdlib Require Import SpecFloat.
From S2P Require Import Prelude PyTime Sha256 Canonical JsonParse Errors OutboxModel Redaction OutboxStore OutboxClaim OutboxLifecycle Runner RunnerStore RunnerFailures VersionedTarget Delivery Projection.

(** ** The process

    Its globals [stop] and [stop_at], and the lines it printed.  [os._exit] and
    a wait that never ends do not return: nothing between them and the end of
    the process runs, and nothing in the runner handles a [BaseException]. *)
Record host_process : Type := HostProcess { stop : bool; stop_at : option float; printed : list string }.
Definition set_stop (p : host_process) : host_process := HostProcess true (stop_at p) (printed p).
Definition set_stop_at (t : float) (p : host_process) : host_process := HostProcess (stop p) (Some t) (printed p).
Definition print_line (line : string) (p : host_process) : host_process := HostProcess (stop p) (stop_at p) (printed p ++ [line]).

Definition exited (code : Z) : exn := EBase "os" "_exit" (pretty code).
Definition os_exit {W A} (code : Z) : M W A := raise (exited code).
Definition hangs : exn := EBase "threading" "Event.wait" "killed".

(** [time.monotonic] and [time.sleep] *)
Class HostClock (Y : Type) : Type := { monotonic : M Y float; sleep : float → M Y unit }.

Section callbacks.
Context `{CoreApi} {Y : Type} `{HostClock Y} (phase : string).
Context (project : json → ProjectionContext → M Y Expression) (execute : Expression → M Y OperationResult).

Definition when {W} (name : string) (m : M W unit) : M W unit := if String.eqb phase name then m else ret ().

Definition callback_pause : float := f64_div (f64_of_Z 1) (f64_of_Z 100).   (* [0.01] *)

Definition intercepted_project (source : json) (context : ProjectionContext) : M (host_process * Y) Expression :=
  do! when "after-claim" (os_exit 91) in
  do! when "stuck" (do! set_locals set_stop in do! set_locals (print_line "entered") in raise hangs) in
  do! when "graceful"
        (let! p := get_locals in
         if stop p then ret ()
         else let! t := lift_snd monotonic in do! set_locals (set_stop_at t) in set_locals set_stop) in
  do! lift_snd (sleep callback_pause) in
  lift_snd (project source context).

(** [operation_fingerprint] may be [None]: completing with it is a [TypeError]. *)
Definition acknowledge (result : OperationResult) (source : OutboxDataV1) : M (host_process * Y) (option version * string) :=
  let! version := lift_res (subscript (result_data result) "sourceVersion") in
  let! z := match version with PInt z => ret z | _ => raise AssertionError end in
  do! lift_res (raise_if (negb (version_eqb (Some (VInt z)) (source_version source))) AssertionError) in
  do! when "after-target" (os_exit 92) in
  match operation_fingerprint result with
  | Some fingerprint => ret (Some (VInt z), fingerprint)
  | None => raise (TypeError "expected string or bytes-like object, got 'NoneType'")
  end.

(** [lambda: datetime(2026, 1, 1, tzinfo=UTC)] *)
Definition host_now : instant := 739616 * us_per_day.
Definition host_hooks : runner_hooks (host_process * Y) :=
  Hooks intercepted_project (λ e, lift_snd (execute e)) None acknowledge (ret (at_utc host_now)).
End callbacks.

Definition CrashBeforeCheckpoint `{OutboxPort W} : OutboxPort W := {|
  port_atomic_claim := port_atomic_claim;
  port_complete _ _ _ _ _ := os_exit 93;
  port_release := port_release;
  port_lag := port_lag;
|}.
Definition host_port {W} (phase : string) (port : OutboxPort W) : OutboxPort W :=
  if String.eqb phase "before-checkpoint" then CrashBeforeCheckpoint else port.

(** ** The script

    From the construction of the runner on: [spec] are the arguments of
    [ProjectionSpec], [within] is [with meridian.context(context)], [close]
    closes both runtimes; [S] is the state of the database. *)
Definition quoted (s : string) : string := String dquote_char (s +:+ String dquote_char "").
(** [json.dumps({"outcome": asdict(outcome), "drain_seconds": ...})] *)
Definition report_text (float_repr : float → string) (run : ProjectionRun) (seconds : float) : string :=
  "{" +:+ quoted "outcome" +:+ ": {" +:+
  join ", " (map (λ e : string * Z, quoted e.1 +:+ ": " +:+ pretty e.2)
    [("claimed", claimed run); ("completed", completed_n run); ("retryable", retryable_n run); ("quarantined", quarantined_n run)]%string)
  +:+ "}, " +:+ quoted "drain_seconds" +:+ ": " +:+ float_repr seconds +:+ "}".

Section host.
Context `{CoreApi} {S Y : Type} `{HostClock Y}.
Abbreviation W := (S * (host_process * Y))%type.
Context `{CoreRegistry W} (port : OutboxPort W) (spec : ProjectionSpec) (phase : string).
Context (project : json → ProjectionContext → M Y Expression) (execute : Expression → M Y OperationResult).
Context (within : ∀ A, M W A → M W A) (close : M W unit) (float_repr : float → string).

Definition host_batch : Z := if String.eqb phase "graceful" then 2 else 1.
Definition host_lease : Z := if String.eqb phase "graceful" then 120 else 1.

(** The runner and its run; [None]: the loop is still running after [fuel] cycles. *)
Definition host_run (config : runner_config) (fuel : nat) : M W (option ProjectionRun) :=
  run_until_stopped (H0 := host_port phase port) (H1 := sink_beside NullEvidenceSink)
    (hooks_beside (host_hooks phase project execute)) config
    (lift_snd (gets (λ x, stop x.1))) (λ _, ret ()) f64_zero fuel.

Definition host_main (uuid : string) (fuel : nat) : M W (option unit) :=
  let! spec := lift_res (make_spec spec) in
  let! config := make_runner spec host_batch (f64_of_Z host_lease) (Some "child-host"%string) uuid in
  let! outcome := within _ (host_run config fuel) in
  match outcome with
  | None => ret None
  | Some outcome =>
      let! now := lift_snd (lift_snd monotonic) in
      let! p := lift_snd get_locals in
      let! started := match stop_at p with
                      | Some t => ret t
                      | None => raise (TypeError "unsupported operand type(s) for -: 'float' and 'NoneType'")
                      end in
      do! lift_snd (set_locals (print_line (report_text float_repr outcome (SFsub 53 1024 now started)))) in
      do! close in ret (Some ())
  end.
End host.

(** ** The faults

    The phases, how the process ends in each, and whether the target row is
    written by then. *)
Inductive boundary : string → exn → bool → Prop :=
| at_claim : boundary "after-claim" (exited 91) false
| at_callback : boundary "stuck" hangs false
| at_target : boundary "after-target" (exited 92) true
| at_checkpoint : boundary "before-checkpoint" (exited 93) true.

Example host_date : isoformat_utc host_now = "2026-01-01T00:00:00.000000+00:00"%string.
Proof. vm_compute. reflexivity. Qed.
Lemma host_now_range : in_range host_now = true.
Proof. vm_compute. reflexivity. Qed.

(** The configuration the script gives its runner when the bindings are valid. *)
Lemma host_config `{CoreRegistry W} spec phase uuid (w w' : W) :
  phase ≠ "graceful"%string → validate_bindings spec w = (Ok (), w') →
  make_runner spec (host_batch phase) (f64_of_Z (host_lease phase)) (Some "child-host"%string) uuid w =
    (Ok (Config spec 1 (second 1) "child-host"), w').
Proof.
  intros Hphase Hvalid. unfold host_batch, host_lease. rewrite (proj2 (String.eqb_neq _ _) Hphase).
  unfold make_runner, bind, lift_res. cbn [raise_if Z.ltb Z.compare].
  assert (f64_le (f64_of_Z 1) f64_zero = false) as -> by (vm_compute; reflexivity).
  assert (timedelta_seconds (f64_of_Z 1) = Ok (second 1)) as -> by (vm_compute; reflexivity).
  cbn. by rewrite Hvalid.
Qed.

Section boundaries.
Context `{FloatParser} `{UpsertTarget Y} `{HostClock (gmap string fields * Y)}.
Context (spec : ProjectionSpec) (project : fields → ProjectionContext → res fields) (phase : string).
Definition host_project : json → ProjectionContext → M (gmap string fields * Y) Expression :=
  Runner.project (projector_hooks (ret (at_utc host_now)) project).
Abbreviation config := (Config spec 1 (second 1) "child-host").
Abbreviation hooks := (host_hooks phase host_project run_put).

(** A delivery that succeeds when nothing is injected. *)
Record delivers (d : OutboxDataV1) (row : fields) (rid : string) (z : Z) (fp : string) : Prop := {
  dl_row : event_row config project d = Some row;
  dl_id : id_of row = Some (JStr rid);
  dl_record : validate_record config (new_record d) = Ok ();
  dl_version : source_version d = Some (VInt z);
  dl_put : ∃ expr, structured_put row = Ok expr ∧ validate_expression config expr = Ok () ∧
    ∀ w : gmap string fields * Y, ∃ result y', run_put expr w = (Ok result, (<[rid := row]> w.1, y')) ∧
      subscript (result_data result) "sourceVersion" = Ok (PInt z) ∧ operation_fingerprint result = Some fp;
}.
Context (Hsleep : ∀ t (w : gmap string fields * Y), ∃ y', sleep t w = (Ok (), (w.1, y'))).

Lemma host_delivers err written r row rid z fp p tbl (y : Y) :
  boundary phase err written → delivers (data r) row rid z fp →
  ∃ p' y', deliver hooks config r (p, (tbl, y)) =
    ((if String.eqb phase "before-checkpoint" then Ok (Some (VInt z), fp) else Raise err),
     (p', (if written then <[rid := row]> tbl else tbl, y'))).
Proof.
  intros Hb [Hrow Hid Hrec Hz (expr & Hput & Hexpr & Hrun)]. unfold deliver, source, bind, lift_res.
  change (validate_record config r) with (validate_record config (new_record (data r))). rewrite Hrec.
  unfold event_row in Hrow. destruct (payload (data r)) as [[| | | | | |entries]|]; try done.
  destruct (project entries _) as [row'|] eqn:Hproject; [|done]. injection Hrow as ->.
  cbn [Runner.project host_hooks ret]. unfold intercepted_project, when, bind.
  destruct (Hsleep callback_pause (tbl, y)) as (y1 & Hs).
  assert (host_project (JObj entries) (context config r) (tbl, y1) = (Ok expr, (tbl, y1))) as Hproj.
  { change (context config (new_record (data r))) with (context config r) in Hproject.
    unfold host_project. cbn [Runner.project projector_hooks]. unfold lift_res. rewrite Hproject. cbn [res_bind]. by rewrite Hput. }
  destruct (Hrun (tbl, y1)) as (result & y2 & Hexec & Hsub & Hfp).
  destruct Hb; cbn -[sleep host_project run_put callback_pause]; [by eexists _, y|by eexists _, y|..];
    rewrite Hs; cbn -[host_project run_put]; rewrite Hproj, Hexpr; unfold lift_snd; rewrite Hexec, Hsub; cbn; rewrite Hz; cbn;
    rewrite Z.eqb_refl; cbn; [|rewrite Hfp]; by eexists _, y2.
Qed.
(** Nothing catches the end of the process. *)
Lemma process_ends utc_now err written r row rid z fp cs s p tbl (y : Y) :
  boundary phase err written → delivers (data r) row rid z fp →
  ∃ p' y', process (H0 := host_port phase (store_port utc_now)) (H1 := sink_beside NullEvidenceSink) (hooks_beside hooks) config r
      (cs, (s, (p, (tbl, y)))) = (Raise err, (cs, (s, (p', (if written then <[rid := row]> tbl else tbl, y'))))).
Proof.
  intros Hb Hd. destruct (host_delivers err written r row rid z fp p tbl y Hb Hd) as (p' & y' & Hdel).
  exists p', y'. unfold process, try_except, bind at 1. unfold lift_snd at 1. rewrite deliver_beside. unfold lift_snd at 1.
  rewrite Hdel. by destruct Hb.
Qed.
End boundaries.

(** C11: a crash at any boundary of a delivery keeps the intent.  When the
    process ends in the projector, after the write to the target, before the
    checkpoint, or hangs in a callback, it ends so the first time it claims an
    event; the event stays leased and its data and all checkpoints as they were,
    the target has its row exactly if it was written, and once the lease of one
    second has expired the event can be claimed again. *)
Theorem crash_boundaries `{FloatParser} `{UpsertTarget Y} `{HostClock (gmap string fields * Y)} phase err written utc_now
    spec project s p tbl (y : Y) id old rest row rid z fp fuel :
  let now_leased := leased "child-host" (second 1) host_now old in
  boundary phase err written → store_ok s → stop p = false →
  claim_targets 1 host_now s = (id, old) :: rest →
  delivers (Y := Y) spec project (data old) row rid z fp →
  (∀ t (w : gmap string fields * Y), ∃ y', sleep t w = (Ok (), (w.1, y'))) →
  ∃ s' p' y', host_run (store_port utc_now) phase (host_project project) run_put (Config spec 1 (second 1) "child-host")
      (S fuel) (s, (p, (tbl, y))) = (Raise err, (s', (p', (if written then <[rid := row]> tbl else tbl, y')))) ∧
    store_ok s' ∧ checkpoints s' = checkpoints s ∧ records s' !! id = Some now_leased ∧ data now_leased = data old ∧
    claimable (host_now + second 1) now_leased = true ∧
    ∀ key, key ≠ id → records s' !! key = records s !! key.
Proof.
  intros now_leased Hb Hs Hp Htargets Hdel Hsleep. pose proof host_now_range as Hnow.
  assert (in_range (host_now + second 1) = true) as Hend by (vm_compute; reflexivity).
  set (s' := claim_step "child-host" 1 (second 1) host_now s).
  assert (claim_targets 1 host_now s = [(id, old)]) as Hone.
  { pose proof Htargets as Ht. unfold claim_targets in Ht |- *. destruct (List.filter _ _) as [|e l]; [done|].
    cbn [Z.to_nat Pos.to_nat Pos.iter_op take] in *. change (Z.to_nat 1) with 1%nat in *. cbn in *. by injection Ht as -> <-. }
  destruct (process_ends spec project phase Hsleep utc_now err written now_leased row rid z fp (0, 0, 0) s' p tbl y Hb Hdel)
    as (p' & y' & Hprocess).
  exists s', p', y'. split; [|split_and!; [|reflexivity| |reflexivity|reflexivity|]].
  - unfold host_run, run_until_stopped, bind at 1, lift_res. cbn [raise_if].
    assert (f64_lt f64_zero f64_zero = false) as -> by reflexivity. cbn [raise_if stopped_loop].
    unfold bind at 1. unfold lift_snd at 1. cbn [gets fst]. rewrite Hp.
    unfold bind at 1. unfold run_once, bind at 1. cbn [clock hooks_beside host_hooks].
    unfold lift_snd at 1. cbn [ret]. unfold bind at 1, lift_res. rewrite ensure_utc_at_utc by done.
    unfold bind at 1.
    assert (port_atomic_claim (OutboxPort := host_port phase (store_port utc_now)) "child-host" 1 (second 1) (at_utc host_now)
              (s, (p, (tbl, y))) = (Ok [now_leased], (s', (p, (tbl, y))))) as Hclaim.
    { transitivity (lift_fst (atomic_claim "child-host" 1 (second 1) (at_utc host_now)) (s, (p, (tbl, y)))); [by destruct Hb|].
      unfold lift_fst. rewrite (atomic_claim_eq _ _ _ _ host_now), Hone; [done|done|]. by apply claim_args_limit; try apply ensure_utc_at_utc. }
    cbn [worker_id batch_size lease_duration]. rewrite Hclaim.
    unfold bind at 1. unfold with_locals. cbn [for_list]. unfold bind at 1. unfold counters in *. by rewrite Hprocess.
  - by apply claim_step_ok.
  - unfold s'. rewrite claim_step_lookup, Hone, (claim_targets_lookup 1 host_now s id old) by (rewrite Hone; left).
    by rewrite bool_decide_true by left.
  - intros key Hkey. unfold s'. rewrite claim_step_lookup, Hone. destruct (records s !! key) as [r|]; [|done].
    rewrite bool_decide_false; [done|]. intros [[= -> _]|?%elem_of_nil]%elem_of_cons; done.
Qed.


(** ** The host over the sample events *)
Module host_example.
#[local] Existing Instance Projection.example.floats.

Definition api : CoreApi := {|
  core_errors := example_core;
  Expression := string * string * fields;
  expression_catalog e := e.1.1;
  expression_argument e name := if String.eqb name "resource" then Some (PStr e.1.2) else None;
  OperationResult := fields;
  result_data row := PMapping (row_value row);
  operation_fingerprint row := Some (sha256_digest (JObj row));
|}.
#[local] Instance target : UpsertTarget (H := api) nat.
Proof.
  refine {| structured_put := Projection.example.put : _ → res (@Expression api);
            run_put := Projection.example.upsert : @Expression api → M _ (@OperationResult api) |}.
  intros id row expr tbl y Hid [= <-]. eapply wp_eq; [unfold Projection.example.upsert; cbn [snd]; by rewrite Hid|].
  cbn. by split; [right|].
Defined.
#[local] Instance wall : HostClock (gmap string fields * nat) := {|
  monotonic w := (Ok (f64_of_Z (Z.of_nat w.2)), w);
  sleep _ w := (Ok (), (w.1, S w.2));
|}.

Abbreviation world := (store * (host_process * (gmap string fields * nat)))%type.
Definition projected : fields → ProjectionContext → res fields := project_row Projection.example.scope.
Definition start : world := (sample_store, (HostProcess false None [], (∅, 0%nat))).
Definition host_spec : ProjectionSpec := spec example_config.
Definition hosted (phase : string) (config : runner_config) : M world (option ProjectionRun) :=
  host_run (H := api) (store_port (H := example_core) (ret (at_utc 0))) phase (host_project (H1 := target) projected)
    (run_put (UpsertTarget := target)) config 3.
Definition child : runner_config := Config host_spec 1 (second 1) "child-host".

(** Another worker, two seconds later. *)
Definition restart : M world ProjectionRun :=
  run_until_idle (H := api) (H0 := store_port (H := example_core) (ret (at_utc 0))) (H1 := sink_beside NullEvidenceSink)
    (hooks_beside (Hooks (λ src ctx, lift_snd (host_project (H1 := target) projected src ctx)) (λ e, lift_snd (run_put (UpsertTarget := target) e)) None
       (λ result d, lift_res (default_acknowledgement (H := api) result d)) (ret (at_utc (host_now + second 2)))))
    (Config host_spec 10 (second 60) "w2") 10.

Definition seen (w : world) : list (string * OutboxState * Z) * nat :=
  (map (λ e, (e.1, state e.2, attempt_count e.2)) (map_to_list (records w.1)), size w.2.2.1).
(** How the process ends, what it leaves, and what the restart makes of it. *)
Definition crash (phase : string) :=
  let '(r, w) := hosted phase child start in
  (match r with Raise e => Some e | Ok _ => None end, seen w, seen (restart w).2).
Definition drain := hosted "graceful" (Config host_spec 2 (second 120) "child-host") start.

Definition row1 : fields := Projection.example.row1.
Definition rid1 : string := Eval vm_compute in Projection.example.row_id row1.
Definition fp1 : string := Eval vm_compute in sha256_digest (JObj row1).

Lemma delivers1 : delivers (H0 := api) (Y := nat) host_spec projected sample_event1 row1 rid1 1 fp1.
Proof.
  split; [vm_compute; reflexivity..|]. exists ("structured", "orders.search", row1)%string.
  split; [reflexivity|]. split; [vm_compute; reflexivity|]. intros w. exists row1, (S w.2). split; [|split; vm_compute; reflexivity].
  assert (id_of row1 = Some (JStr rid1)) as Hid by (vm_compute; reflexivity).
  cbn [run_put target]. unfold Projection.example.upsert. cbn [snd]. by rewrite Hid.
Qed.

(** Whatever the boundary, the restart delivers all three events, the first one
    for the second time; a drain settles its batch of two and leaves the third. *)
Example restarts : map crash ["after-claim"; "stuck"; "after-target"; "before-checkpoint"]%string =
  let left n := ([("evt-3", PENDING, 0); ("evt-1", LEASED, 1); ("evt-2", PENDING, 0)]%string, n) in
  let all := ([("evt-3", COMPLETED, 1); ("evt-1", COMPLETED, 2); ("evt-2", COMPLETED, 1)]%string, 3%nat) in
  [(Some (exited 91), left 0%nat, all); (Some hangs, left 0%nat, all);
   (Some (exited 92), left 1%nat, all); (Some (exited 93), left 1%nat, all)].
Proof. vm_compute. reflexivity. Qed.
Example drains : drain.1 = Ok (Some (MkRun 2 2 0 0)) ∧ stop drain.2.2.1 = true ∧
  seen drain.2 = ([("evt-3", COMPLETED, 1); ("evt-1", COMPLETED, 1); ("evt-2", PENDING, 0)]%string, 2%nat).
Proof. vm_compute. done. Qed.
End host_example.

#[local] Existing Instance host_example.wall.
Lemma crash_boundaries_witness :
  let now_leased := leased "child-host" (second 1) host_now (new_record sample_event1) in
  ∃ s' p' y', host_run (H := host_example.api) (store_port (H := example_core) (ret (at_utc 0))) "before-checkpoint"
      (host_project (H1 := host_example.target) host_example.projected) (run_put (UpsertTarget := host_example.target))
      host_example.child 3 host_example.start =
      (Raise (exited 93), (s', (p', ({[host_example.rid1 := host_example.row1]}, y')))) ∧
    store_ok s' ∧ checkpoints s' = ∅ ∧ records s' !! "evt-1"%string = Some now_leased ∧ data now_leased = sample_event1 ∧
    claimable (host_now + second 1) now_leased = true ∧
    ∀ key, key ≠ "evt-1"%string → records s' !! key = records sample_store !! key.
Proof.
  apply (crash_boundaries (H := Projection.example.floats) (H0 := host_example.api) (H1 := host_example.target)
    "before-checkpoint" (exited 93) true (ret (at_utc 0)) host_example.host_spec host_example.projected sample_store
    (HostProcess false None []) ∅ 0%nat "evt-1" (new_record sample_event1) [] host_example.row1 host_example.rid1 1 host_example.fp1 2).
  - exact at_checkpoint.
  - exact sample_store_ok.
  - reflexivity.
  - vm_compute. reflexivity.
  - exact host_example.delivers1.
  - intros t [tbl n]. exists (S n). reflexivity.
Defined.
