(* ===== verification/Release.v ===== *)
(** * The release gates ([scripts/verify.py])

    The script reads the repository, runs the tools and writes the evidence of a
    release.  The file system, the processes and the parsers of the standard
    library are operations of the [Host]; the script itself is modelled whole. *)
From S2P Require Import Prelude Sha256 Canonical JsonParse Redaction Runner.

(** ** [json.dumps(value, indent=2, sort_keys=True)]

    Everything outside printable ASCII is escaped, above the basic plane as two
    surrogates.  Keys are strings: the values come from JSON, or are built here. *)
Definition hex4 (z : Z) : string :=
  String (hex_digit (z / 4096)) (String (hex_digit (z / 256 mod 16))
    (String (hex_digit (z / 16 mod 16)) (String (hex_digit (z mod 16)) ""))).
Definition unicode_escape (z : Z) : string := String backslash ("u" +:+ hex4 z).
Definition escape_point (z : Z) : string :=
  if (z <? 127) then if (32 <=? z) || bool_decide (z ∈ [8; 9; 10; 12; 13]) then escape_char (ascii_of_N (Z.to_N z)) else unicode_escape z
  else if z <? 65536 then unicode_escape z
  else unicode_escape (55296 + (z - 65536) / 1024) +:+ unicode_escape (56320 + (z - 65536) mod 1024).
Definition ascii_str (s : string) : string :=
  String dquote_char (join "" (map escape_point (code_points s)) +:+ String dquote_char "").

Definition newline : string := String (ascii_of_N 10) "".
(** A container: every item on a line of its own, one level deeper. *)
Definition indented (opening closing indent : string) (items : list string) : string :=
  match items with
  | [] => opening +:+ closing
  | _ => opening +:+ newline +:+ indent +:+ "  " +:+ join ("," +:+ newline +:+ indent +:+ "  ") items
         +:+ newline +:+ indent +:+ closing
  end.
Definition key_text (k : pyval) : string := match k with PStr s => s | _ => "" end.

Fixpoint dumps_indent (indent : string) (v : pyval) : string :=
  match v with
  | PBool true => "true"
  | PBool false => "false"
  | PInt z => pretty z
  | PFloat (FFinite r) => r
  | PFloat FNan => "NaN"
  | PFloat (FInfinity n) => if n then "-Infinity" else "Infinity"
  | PStr s => ascii_str s
  | PSequence l => indented "[" "]" indent (map (dumps_indent (indent +:+ "  ")) l)
  | PMapping l =>
      indented "{" "}" indent
        (map (λ e, ascii_str e.1 +:+ ": " +:+ e.2)
          (sort_keys (map (λ e, (key_text e.1, dumps_indent (indent +:+ "  ") e.2)) l)))
  | _ => "null"
  end.

(** ** The host *)
Definition path : Type := list string.   (* the parts below the root *)

(** What the script looks at in a parsed module and in a parsed report. *)
Inductive element : Type := Element (name : string) (attributes : list (string * string)) (nested : list element).
Definition tag (e : element) : string := let '(Element t _ _) := e in t.
Definition attrib (e : element) : list (string * string) := let '(Element _ a _) := e in a.
Definition children (e : element) : list element := let '(Element _ _ l) := e in l.
Inductive statement (E : Type) : Type :=
| Assign (targets : list E) (value : E)
| OtherStatement.
Arguments Assign {E} targets value.
Arguments OtherStatement {E}.

Class Host (W : Type) : Type := {
  read_text : path → M W string;
  read_bytes : path → M W string;
  rglob : path → string → M W (list path);
  glob : path → string → M W (list path);
  iterdir : path → M W (list path);
  is_file : path → M W bool;
  file_size : path → M W Z;
  path_exists : path → M W bool;
  make_dirs : path → bool → M W unit;                          (* [exist_ok] *)
  remove_tree : path → M W unit;
  write_text : path → string → M W unit;
  print_line : string → M W unit;
  run_process : list string → list (string * string) → M W unit;  (* [subprocess.run(check=True)] *)
  process_output : list string → M W string;                   (* its [stdout] *)
  environ : M W (list (string * string));
  installed_version : string → M W string;
  parse_xml : path → M W element;                              (* [parse(path).getroot()] *)
}.

(** The interpreter: its name and version, and the parsers of its library. *)
Class Interpreter : Type := {
  root_path : string;
  executable : string;
  python_version : list Z;
  toml_loads : string → res pyval;
  ast_expr : Type;
  ast_body : string → res (list (statement ast_expr));
  name_id : ast_expr → option string;                          (* of an [ast.Name] *)
  literal_eval : ast_expr → res pyval;
  int_of : string → res Z;                                     (* [int(text)] *)
  strip : string → string;
  str_of : pyval → string;                                     (* [str] of a value that is no [str] *)
  other_equal : pyval → pyval → bool;                          (* [==] of two values that are no [str] *)
}.

Definition path_text (p : path) : string := join "/" p.
Fixpoint path_leb (p q : path) : bool :=
  match p, q with
  | [], _ => true
  | _ :: _, [] => false
  | a :: p', b :: q' => if String.eqb a b then path_leb p' q' else bool_decide (a ≤ b)%string
  end.
Definition path_le (p q : path) : Prop := path_leb p q = true.
#[export] Instance path_le_dec : RelDecision path_le.
Proof. intros p q. unfold path_le. apply _. Defined.
(** [sorted(paths)] *)
Definition sorted_paths : list path → list path := merge_sort path_le.

Definition EVIDENCE : path := ["build"; "evidence"]%string.
Definition RELEASE : path := ["build"; "release"]%string.
Definition DEPENDENCIES : list string :=
  ["meridian-storage-core"; "meridian-storage-semantics"; "meridian-storage-query"]%string.

(** ** Values *)

(** [value.get(key)] *)
Definition get_method (v : pyval) (key : string) : res pyval :=
  match v with
  | PMapping items => Ok (default PNone (mapping_get key items))
  | _ => Raise (EPython "builtins" "AttributeError" "get")
  end.
(** [value.items()] of an object read from JSON: its keys are strings. *)
Definition dict_items (v : pyval) : res (list (string * pyval)) :=
  match v with
  | PMapping items => Ok (map (λ e, (key_text e.1, e.2)) items)
  | _ => Raise (EPython "builtins" "AttributeError" "items")
  end.
Definition list_repr (l : list string) : string := "[" +:+ join ", " (map py_repr l) +:+ "]".

Section script.
Context `{FloatParser} `{Interpreter} {W : Type} `{Host W}.

Definition values_equal (a b : pyval) : bool :=
  match a, b with
  | PStr x, PStr y => String.eqb x y
  | PStr _, _ | _, PStr _ => false
  | _, _ => other_equal a b
  end.
Definition format_value (v : pyval) : string := match v with PStr s => s | _ => str_of v end.

(** ** [_run], [_output], [_sha256] *)
Definition run_tool (arguments : list string) (environment : list (string * string)) : M W unit :=
  do! print_line ("+ " +:+ join " " arguments) in
  run_process arguments environment.
Definition output (arguments : list string) : M W string :=
  let! text := process_output arguments in ret (strip text).
Definition sha256_of (p : path) : M W string :=
  let! content := read_bytes p in ret (sha256_hex content).
Definition read_json (p : path) : M W pyval := let! text := read_text p in lift_res (json_loads text).

(** ** [_version_contract] *)

(** [next(literal_eval(node.value) for node in body if ...)] *)
Fixpoint assigned_version (body : list (statement ast_expr)) : res pyval :=
  match body with
  | [] => Raise (EPython "builtins" "StopIteration" "")
  | Assign targets value :: body' =>
      if existsb (λ t, bool_decide (name_id t = Some "__version__"%string)) targets then literal_eval value
      else assigned_version body'
  | OtherStatement :: body' => assigned_version body'
  end.

(** [set(value)], and [{...} == set(value)] for a set of strings. *)
Definition elements (v : pyval) : res (list pyval) :=
  match v with
  | PSequence l => Ok l
  | PMapping items => Ok (map fst items)
  | _ => Raise (TypeError "object is not iterable")
  end.
Definition is_text (s : string) (v : pyval) : bool := values_equal (PStr s) v.
Definition same_set (l : list string) (vs : list pyval) : bool :=
  forallb (λ s, existsb (is_text s) vs) l && forallb (λ v, existsb (λ s, is_text s v) l) vs.

Definition version_contract : M W (pyval * pyval) :=
  let! text := read_text ["pyproject.toml"%string] in
  let! project := lift_res (let? document := toml_loads text in subscript document "project") in
  let! version := lift_res (subscript project "version") in
  let! compatibility := read_json ["compatibility.json"%string] in
  let! text := read_text ["src"; "meridian_storage"; "projection"; "_version.py"]%string in
  let! source_version := lift_res (let? body := ast_body text in assigned_version body) in
  let! declared := lift_res (get_method compatibility "version") in
  do! lift_res (raise_if (negb (values_equal declared version) || negb (values_equal source_version version))
        (RuntimeError "package versions disagree across release metadata")) in
  let! dependencies := lift_res (subscript compatibility "dependencies") in
  let! project_dependencies := lift_res (let? l := subscript project "dependencies" in elements l) in
  let! constraints := lift_res (dict_items dependencies) in
  do! lift_res (raise_if (negb (same_set (map (λ e, e.1 +:+ format_value e.2) constraints) project_dependencies))
        (RuntimeError "dependency constraints disagree with compatibility.json")) in
  let! license := lift_res (get_method project "license") in
  do! lift_res (raise_if (negb (is_text "Apache-2.0" license))
        (RuntimeError "project license expression must be Apache-2.0")) in
  ret (version, compatibility).

(** ** [_license_gate] *)
Definition marker : string := "Licensed under the Apache License, Version 2.0".
(** [marker in text] *)
Fixpoint text_contains (sub text : string) : bool :=
  match strip_prefix sub text with
  | Some _ => true
  | None => match text with "" => false | String _ text' => text_contains sub text' end%string
  end.

Definition unmarked (missing : list string) (p : path) : M W (list string) :=
  let! text := read_text p in
  ret (if text_contains marker text then missing else missing ++ [path_text p]).
Definition check_spdx (u : unit) (p : path) : M W unit :=
  let! value := read_json p in
  let! comment := lift_res (get_method value "$comment") in
  lift_res (raise_if (negb (is_text "SPDX-License-Identifier: Apache-2.0" comment))
    (RuntimeError (path_text p +:+ " is missing its SPDX marker"))).

Definition license_gate : M W unit :=
  let! sources := rglob ["src"%string] "*.py" in
  let! tests := rglob ["tests"%string] "*.py" in
  let! scripts := rglob ["scripts"%string] "*.py" in
  let! missing := for_list (sorted_paths sources ++ sorted_paths tests ++ sorted_paths scripts) [] unmarked in
  do! lift_res (raise_if (negb (bool_decide (missing = [])))
        (RuntimeError ("Python sources missing Apache-2.0 headers: " +:+ list_repr missing))) in
  let! contracts := rglob ["contracts"%string] "*.json" in
  for_list (sorted_paths contracts ++ [["compatibility.json"%string]; ["validation"; "dependencies.json"]%string]) () check_spdx.

(** ** [main] *)
Definition lock_path : path := ["validation"; "dependencies.json"]%string.
Definition dict_value (entries : list (string * pyval)) : pyval := PMapping (map (λ e, (PStr e.1, e.2)) entries).

(** [installed == expected] *)
Definition same_versions (installed : list (string * string)) (expected : list (string * pyval)) : bool :=
  (length installed =? length expected)%nat &&
  forallb (λ e, match dict_get e.1 expected with Some v => is_text e.2 v | None => false end) installed.

(** The profile, its lock and the versions that are installed. *)
Definition check_dependencies : M W (string * pyval * list (string * string)) :=
  let! env := environ in
  let profile := default "core-1.1.0"%string (dict_get "MERIDIAN_VALIDATION_PROFILE" env) in
  let! locks := read_json lock_path in
  let! lock := lift_res (let? profiles := subscript locks "profiles" in subscript profiles profile) in
  let! installed := for_list DEPENDENCIES [] (λ acc name,
    let! v := installed_version name in ret (acc ++ [(name, v)])) in
  let! expected := lift_res (let? items := dict_items lock in
    res_all (λ e, res_map (λ v, (e.1, v)) (subscript e.2 "version")) items) in
  do! lift_res (raise_if (negb (same_versions installed expected))
        (RuntimeError ("installed dependencies differ from selected validation lock: " +:+ profile))) in
  ret (profile, lock, installed).

(** Clean directories, and the environment of the tools with its time stamp. *)
Definition prepare_build : M W (list (string * string) * string) :=
  do! make_dirs EVIDENCE true in
  let! found := path_exists RELEASE in
  do! (if found then remove_tree RELEASE else ret ()) in
  do! make_dirs RELEASE false in
  let! env := environ in
  let! epoch := (let given := default "" (dict_get "SOURCE_DATE_EPOCH" env) in
                 if nonempty given then ret given else output ["git"; "log"; "-1"; "--format=%ct"])%string in
  ret (dict_set "SOURCE_DATE_EPOCH" epoch env, epoch).

Definition host_path (p : path) : string := root_path +:+ "/" +:+ path_text p.
Definition commands : list (list string) :=
  [[executable; "-m"; "ruff"; "check"; "."];
   [executable; "-m"; "ruff"; "format"; "--check"; "."];
   [executable; "-m"; "mypy"; "src"; "tests"; "scripts"];
   [executable; "-m"; "pytest"; "--cov"; "--cov-report=term-missing"; "--cov-report=xml:build/evidence/coverage.xml";
    "--cov-report=json:build/evidence/coverage.json"; "--junitxml=build/evidence/junit.xml"];
   [executable; "-m"; "pip"; "check"];
   [executable; "-m"; "build"; "--no-isolation"; "--sdist"; "--wheel"; "--outdir"; host_path RELEASE; "."]]%string.
Definition twine_command (artifacts : list path) : list string :=
  [executable; "-m"; "twine"; "check"]%string ++ map host_path artifacts.

Definition run_gates (environment : list (string * string)) : M W (list path) :=
  do! for_list commands () (λ _ command, run_tool command environment) in
  let! entries := iterdir RELEASE in
  let! files := for_list entries [] (λ acc p, let! b := is_file p in ret (if b then acc ++ [p] else acc)) in
  let artifacts := sorted_paths files in
  do! run_tool (twine_command artifacts) environment in
  ret artifacts.

(** Digests of the contracts and of the artifacts. *)
Definition contract_hashes : M W pyval :=
  let! paths := glob ["contracts"; "data-lifecycle"]%string "*.json" in
  let! entries := for_list (sorted_paths paths) [] (λ acc p,
    let! h := sha256_of p in ret (acc ++ [(path_text p, PStr h)])) in
  ret (dict_value entries).
Definition artifact_evidence (artifacts : list path) : M W pyval :=
  let! entries := for_list artifacts [] (λ acc p,
    let! size := file_size p in
    let! h := sha256_of p in
    let entry := dict_value [("file", PStr (default "" (last p))); ("bytes", PInt size); ("sha256", PStr h)]%string in
    ret (acc ++ [entry])) in
  ret (PSequence entries).

(** The counters of the test report, summed over its suites. *)
Definition total (suites : list element) (field : string) : res Z :=
  res_map (foldr Z.add 0) (res_all (λ s, int_of (default "0"%string (dict_get field (attrib s)))) suites).
Definition test_fields : list string := ["tests"; "failures"; "errors"; "skipped"]%string.
Definition test_totals (root : element) : res (list (string * Z)) :=
  let suites := if String.eqb (tag root) "testsuite" then [root] else children root in
  res_all (λ field, res_map (λ n, (field, n)) (total suites field)) test_fields.
Definition count_of (totals : list (string * Z)) (field : string) : Z := default 0 (dict_get field totals).
Definition tests_failed (totals : list (string * Z)) : bool :=
  (count_of totals "tests" =? 0) ||
  existsb (λ field, negb (count_of totals field =? 0)) ["failures"; "errors"; "skipped"]%string.
Definition totals_repr (totals : list (string * Z)) : string :=
  "{" +:+ join ", " (map (λ e, py_repr e.1 +:+ ": " +:+ pretty e.2) totals) +:+ "}".

(** Coverage and test counters, which the tools have written. *)
Definition read_results : M W (pyval * list (string * Z)) :=
  let! coverage := read_json (EVIDENCE ++ ["coverage.json"%string]) in
  let! coverage_totals := lift_res (subscript coverage "totals") in
  let! root := parse_xml (EVIDENCE ++ ["junit.xml"%string]) in
  let! totals := lift_res (test_totals root) in
  do! lift_res (raise_if (tests_failed totals)
        (RuntimeError ("required tests must all execute and pass: " +:+ totals_repr totals))) in
  ret (coverage_totals, totals).

Definition coverage_fields : list string :=
  ["num_statements"; "missing_lines"; "num_branches"; "missing_branches"; "percent_covered"]%string.
Definition gate_names : list string := ["ruff"; "format"; "mypy"; "pytest-coverage"; "pip-check"; "twine"]%string.
Definition report_path : path := EVIDENCE ++ ["verification.json"%string].

Definition make_report (version compatibility : pyval) (profile : string) (lock : pyval)
    (installed : list (string * string)) (epoch : string) (hashes artifacts coverage_totals : pyval)
    (totals : list (string * Z)) : M W pyval :=
  let! status := output ["git"; "status"; "--porcelain"; "--untracked-files=normal"]%string in
  let! head := output ["git"; "rev-parse"; "HEAD"]%string in
  let! epoch := lift_res (int_of epoch) in
  let! lock_hash := sha256_of lock_path in
  let! coverage := lift_res (res_all (λ key, res_map (λ v, (key, v)) (subscript coverage_totals key)) coverage_fields) in
  ret (dict_value
    [("formatVersion", PStr "meridian.package-verification.v1"); ("package", PStr "meridian-storage-projection");
     ("version", version); ("gitHead", PStr head); ("gitDirty", PBool (nonempty status));
     ("sourceDateEpoch", PInt epoch); ("python", PStr (join "." (map pretty python_version)));
     ("dependencies", dict_value (map (λ e, (e.1, PStr e.2)) installed));
     ("dependencyValidation", dict_value
        [("profile", PStr profile); ("lockSha256", PStr lock_hash); ("artifacts", lock)]);
     ("compatibility", compatibility); ("contracts", hashes); ("artifacts", artifacts);
     ("coverage", dict_value coverage); ("tests", dict_value (map (λ e, (e.1, PInt e.2)) totals));
     ("gates", PSequence (map PStr gate_names))])%string.

Definition main : M W Z :=
  let! '(version, compatibility) := version_contract in
  do! license_gate in
  let! '(profile, lock, installed) := check_dependencies in
  let! '(environment, epoch) := prepare_build in
  let! artifacts := run_gates environment in
  let! hashes := contract_hashes in
  let! evidence := artifact_evidence artifacts in
  let! '(coverage_totals, totals) := read_results in
  let! report := make_report version compatibility profile lock installed epoch hashes evidence coverage_totals totals in
  do! write_text report_path (dumps_indent "" report +:+ newline) in
  do! print_line ("verified " +:+ format_value version +:+ "; evidence: " +:+ path_text report_path) in
  ret 0.
End script.

(** ** An example: a repository that passes its gates *)
Module example.
#[local] Instance floats : FloatParser := literal_floats.
#[local] Instance python : Interpreter := {|
  root_path := "/repository"; executable := "python"; python_version := [3; 12; 1];
  toml_loads := json_loads;
  ast_expr := string; ast_body text := Ok [OtherStatement; Assign ["__version__"%string] text];
  name_id := Some; literal_eval e := Ok (PStr e);
  int_of text := if String.eqb text "1700000000" then Ok 1700000000 else Ok (Z.of_nat (String.length text) - 1);
  strip := id; str_of _ := ""%string; other_equal _ _ := false |}.

Definition object (entries : list (string * string)) : json := JObj (map (λ e, (e.1, JStr e.2)) entries).
Definition pins : list (string * string) := map (λ name, (name, "1.0.0"%string)) DEPENDENCIES.
Definition spdx : string * json := ("$comment", JStr "SPDX-License-Identifier: Apache-2.0")%string.
Definition files (p : path) : string :=
  let text := path_text p in
  let named name := String.eqb text name in
  if named "pyproject.toml"%string then
    dumps (JObj [("project", JObj [("version", JStr "1.0.3"); ("license", JStr "Apache-2.0");
      ("dependencies", JArr (map (λ e, JStr (e.1 +:+ "==" +:+ e.2)) pins))])]%string)
  else if named "compatibility.json"%string then
    dumps (JObj [spdx; ("version", JStr "1.0.3"); ("dependencies", object (map (λ e, (e.1, "==" +:+ e.2)) pins))]%string)
  else if named "validation/dependencies.json"%string then
    dumps (JObj [spdx; ("profiles", JObj [("core-1.1.0", JObj (map (λ e, (e.1, object [("version", e.2)])) pins))])]%string)
  else if named "build/evidence/coverage.json"%string then
    dumps (JObj [("totals", JObj (map (λ f, (f, JInt 100)) coverage_fields))]%string)
  else if named "src/meridian_storage/projection/_version.py"%string then "1.0.3"%string
  else marker.

#[local] Instance host : Host unit := {|
  read_text p := ret (files p); read_bytes p := ret (files p);
  rglob p pattern := ret (if String.eqb pattern "*.py" then [p ++ ["b.py"%string]; p ++ ["a.py"%string]] else []);
  glob _ _ := ret []; iterdir p := ret [p ++ ["projection.whl"%string]]; is_file _ := ret true;
  file_size _ := ret 10; path_exists _ := ret true; make_dirs _ _ := ret (); remove_tree _ := ret ();
  write_text _ _ := ret (); print_line _ := ret (); run_process _ _ := ret ();
  process_output _ := ret "1700000000"%string; environ := ret []; installed_version _ := ret "1.0.0"%string;
  parse_xml _ := ret (Element "testsuite" [("tests", "10")] [])%string |}.

Example gates_pass : main () = (Ok 0, ()).
Proof. vm_compute. reflexivity. Qed.
End example.
