(* ===== verification/ReleaseGates.v ===== *)
(** * The gates of a release

    What a run of [scripts/verify.py] does, on a log of what it asks of the host:
    the processes it runs, the file it writes, and everything it reads on which
    its checks depend. *)
From S2P Require Import Prelude Sha256 Canonical JsonParse Redaction Runner CallLog Release.

Section gates.
Context `{FloatParser} `{Interpreter} {W : Type} `{Host W}.

Inductive host_call : Type :=
| Ran (command : list string) (environment : list (string * string)) (r : res unit)
| Wrote (p : path) (text : string) (r : res unit)
| ReadText (p : path) (r : res string)
| Listed (p : path) (pattern : string) (r : res (list path))
| Entries (p : path) (r : res (list path))
| IsFile (p : path) (r : res bool)
| Environment (r : res (list (string * string)))
| Installed (name : string) (r : res string)
| Parsed (p : path) (r : res element).
Abbreviation log := (list host_call).

#[local] Instance recorded_host : Host (log * W) := {|
  read_text p := recorded (ReadText p) (read_text p);
  read_bytes p := lift_snd (read_bytes p);
  rglob p pattern := recorded (Listed p pattern) (rglob p pattern);
  glob p pattern := lift_snd (glob p pattern);
  iterdir p := recorded (Entries p) (iterdir p);
  is_file p := recorded (IsFile p) (is_file p);
  file_size p := lift_snd (file_size p);
  path_exists p := lift_snd (path_exists p);
  make_dirs p ok := lift_snd (make_dirs p ok);
  remove_tree p := lift_snd (remove_tree p);
  write_text p text := recorded (Wrote p text) (write_text p text);
  print_line s := lift_snd (print_line s);
  run_process command env := recorded (Ran command env) (run_process command env);
  process_output command := lift_snd (process_output command);
  environ := recorded Environment environ;
  installed_version name := recorded (Installed name) (installed_version name);
  parse_xml p := recorded (Parsed p) (parse_xml p);
|}.

(** ** What the gates demand, independently of the script *)
Abbreviation variables := (list (string * string)).

(** Python's [==] on two values. *)
Definition same_value (a b : pyval) : Prop :=
  (∃ s, a = PStr s ∧ b = PStr s) ∨
  ((∀ s, a ≠ PStr s) ∧ (∀ s, b ≠ PStr s) ∧ other_equal a b = true).

(** [pyproject.toml], [compatibility.json] and [_version.py] state the same
    version; the first two state the same dependencies; the license is Apache-2.0. *)
Record versions_agree (l : log) (version compatibility : pyval) : Prop := {
  va_project : ∃ text document project,
    ReadText ["pyproject.toml"%string] (Ok text) ∈ l ∧ toml_loads text = Ok document ∧
    subscript document "project" = Ok project ∧ subscript project "version" = Ok version ∧
    subscript project "license" = Ok (PStr "Apache-2.0") ∧
    ∃ dependencies stated constraints, subscript project "dependencies" = Ok dependencies ∧
      elements dependencies = Ok stated ∧ subscript compatibility "dependencies" = Ok (PMapping constraints) ∧
      ∀ x, x ∈ stated ↔ ∃ name constraint, (name, constraint) ∈ constraints ∧
        x = PStr (key_text name +:+ format_value constraint);
  va_compatibility : ∃ text items,
    ReadText ["compatibility.json"%string] (Ok text) ∈ l ∧ json_loads text = Ok compatibility ∧
    compatibility = PMapping items ∧ same_value (default PNone (mapping_get "version" items)) version;
  va_source : ∃ text body before targets target value after v,
    ReadText ["src"; "meridian_storage"; "projection"; "_version.py"]%string (Ok text) ∈ l ∧
    ast_body text = Ok body ∧ body = before ++ Assign targets value :: after ∧
    target ∈ targets ∧ name_id target = Some "__version__"%string ∧ literal_eval value = Ok v ∧ same_value v version;
}.

(** Every Python source was read and contains the license header; every contract
    was read and contains the SPDX marker. *)
Record licensed (l : log) : Prop := {
  li_sources d : d ∈ ["src"; "tests"; "scripts"]%string →
    ∃ sources, Listed [d] "*.py" (Ok sources) ∈ l ∧
      ∀ p, p ∈ sources → ∃ before after,
        ReadText p (Ok (before +:+ "Licensed under the Apache License, Version 2.0" +:+ after)) ∈ l;
  li_contracts : ∃ contracts, Listed ["contracts"%string] "*.json" (Ok contracts) ∈ l ∧
    ∀ p, p ∈ contracts ++ [["compatibility.json"%string]; ["validation"; "dependencies.json"]%string] →
      ∃ text items, ReadText p (Ok text) ∈ l ∧ json_loads text = Ok (PMapping items) ∧
        mapping_get "$comment" items = Some (PStr "SPDX-License-Identifier: Apache-2.0");
}.

(** The three packages are installed in the versions that the lock of the chosen
    profile gives, and the lock names no others. *)
Definition locked (l : log) : Prop :=
  ∃ env text locks profiles packages,
    Environment (Ok env) ∈ l ∧ ReadText ["validation"; "dependencies.json"]%string (Ok text) ∈ l ∧
    json_loads text = Ok locks ∧ subscript locks "profiles" = Ok profiles ∧
    subscript profiles (default "core-1.1.0"%string (dict_get "MERIDIAN_VALIDATION_PROFILE" env)) = Ok (PMapping packages) ∧
    length packages = 3%nat ∧
    ∀ name, name ∈ ["meridian-storage-core"; "meridian-storage-semantics"; "meridian-storage-query"]%string →
      ∃ v key package, Installed name (Ok v) ∈ l ∧ (key, package) ∈ packages ∧ key_text key = name ∧
        subscript package "version" = Ok (PStr v).

(** The test report was read: over its suites some tests ran, and none failed,
    raised or was skipped. *)
Definition suites_of (root : element) : list element :=
  if String.eqb (tag root) "testsuite" then [root] else children root.
Definition sums_to (root : element) (field : string) (n : Z) : Prop :=
  ∃ counts, Forall2 (λ suite k, int_of (default "0"%string (dict_get field (attrib suite))) = Ok k) (suites_of root) counts ∧
    n = foldr Z.add 0 counts.
Definition all_passed (l : log) (tests : Z) : Prop :=
  ∃ root, Parsed ["build"; "evidence"; "junit.xml"]%string (Ok root) ∈ l ∧ tests ≠ 0 ∧ sums_to root "tests" tests ∧
    sums_to root "failures" 0 ∧ sums_to root "errors" 0 ∧ sums_to root "skipped" 0.

(** The commands: lint, format, types, tests with coverage, the installed
    packages, the build, and the check of every file the build left. *)
Definition required_commands (artifacts : list path) : list (list string) :=
  [[executable; "-m"; "ruff"; "check"; "."];
   [executable; "-m"; "ruff"; "format"; "--check"; "."];
   [executable; "-m"; "mypy"; "src"; "tests"; "scripts"];
   [executable; "-m"; "pytest"; "--cov"; "--cov-report=term-missing"; "--cov-report=xml:build/evidence/coverage.xml";
    "--cov-report=json:build/evidence/coverage.json"; "--junitxml=build/evidence/junit.xml"];
   [executable; "-m"; "pip"; "check"];
   [executable; "-m"; "build"; "--no-isolation"; "--sdist"; "--wheel"; "--outdir"; root_path +:+ "/build/release"; "."]]%string ++
  [[executable; "-m"; "twine"; "check"]%string ++ map (λ p, root_path +:+ "/" +:+ join "/" p) artifacts].
Definition release_files (l : log) (artifacts : list path) : Prop :=
  ∃ entries, Entries ["build"; "release"]%string (Ok entries) ∈ l ∧
    (∀ p, p ∈ entries → p ∈ artifacts ∨ IsFile p (Ok false) ∈ l) ∧ ∀ p, p ∈ artifacts → p ∈ entries.

(** ** Logs *)
Definition watches (c : host_call) : bool := match c with Ran _ _ _ | Wrote _ _ _ => false | _ => true end.
(** The processes that ran and the files that were written. *)
Definition effects (l : log) : log := List.filter (λ c, negb (watches c)) l.

Abbreviation anything := (λ (_ : log) (_ : host_call), True).
Abbreviation never := (λ _ : host_call, false).
Abbreviation grows := (CallLog.grows anything never watches).
Abbreviation triple := (CallLog.triple anything never watches).

Lemma effects_app l l' : effects (l ++ l') = effects l ++ effects l'.
Proof. apply List.filter_app. Qed.
Lemma effects_grows l l' : grows l l' → effects l' = effects l.
Proof.
  intros (k & -> & Hk & _). rewrite effects_app. replace (effects k) with (@nil host_call); [by rewrite app_nil_r|].
  symmetry. induction Hk as [|c k Hc _ IH]; [done|]. unfold effects. cbn. by rewrite Hc.
Qed.

Lemma watched {A} l (ev : res A → host_call) (m : M W A) (Q : A → log → Prop) :
  (∀ r, watches (ev r) = true) → (∀ a, Q a (l ++ [ev (Ok a)])) → triple l (recorded ev m) Q.
Proof. intros Hev HQ. by apply triple_recorded. Qed.

(** What was in the log is in the log that grew from it. *)
Ltac forward Hg :=
  cbv beta in *; apply grows_prefix in Hg;
  repeat match goal with
  | Hin : ?x ∈ ?l |- _ => match type of Hg with l `prefix_of` ?l' => apply (in_prefix l l' x Hg) in Hin end
  end; clear Hg.
Ltac seen := first [eassumption | apply in_snoc].
Ltac watch lem := eapply triple_bind; [apply lem|].
Tactic Notation "checked" ident(b) ident(Heq) := eapply triple_check; intros b Heq.

Lemma read_text_triple l p : triple l (read_text p) (λ t l', ReadText p (Ok t) ∈ l').
Proof. apply watched; [done|]. intros. apply in_snoc. Qed.
Lemma read_json_triple l p : triple l (read_json p) (λ v l', ∃ t, ReadText p (Ok t) ∈ l' ∧ json_loads t = Ok v).
Proof.
  unfold read_json. watch read_text_triple. intros t l1 _ Ht. apply triple_lift. intros v Hv. by exists t.
Qed.
Lemma rglob_triple l p pattern : triple l (rglob p pattern) (λ ps l', Listed p pattern (Ok ps) ∈ l').
Proof. apply watched; [done|]. intros. apply in_snoc. Qed.

(** ** The checks, value by value *)
Lemma values_equal_same a b : values_equal a b = true → same_value a b.
Proof.
  unfold values_equal, same_value.
  destruct a; destruct b; try done; intros Heq; try (right; by split_and!).
  left. apply String.eqb_eq in Heq. subst. by eexists.
Qed.
Lemma is_text_eq s v : is_text s v = true → v = PStr s.
Proof. unfold is_text. intros [(t & [= ->] & ->)|(Hs & _)]%values_equal_same; [done|by destruct (Hs s)]. Qed.

Lemma same_set_spec l vs :
  same_set l vs = true → ∀ v, v ∈ vs ↔ ∃ s, s ∈ l ∧ v = PStr s.
Proof.
  unfold same_set. rewrite andb_true_iff, !forallb_forall. intros [Hl Hvs] v. split.
  - intros Hv%list_elem_of_In%Hvs. apply existsb_exists in Hv as (s & Hs & ->%is_text_eq). exists s.
    by rewrite list_elem_of_In.
  - intros (s & Hs & ->). apply list_elem_of_In, Hl in Hs. apply existsb_exists in Hs as (v & Hv & ->%is_text_eq).
    by apply list_elem_of_In.
Qed.

Lemma assigned_version_inv body v :
  assigned_version body = Ok v → ∃ before targets target value after, body = before ++ Assign targets value :: after ∧
    target ∈ targets ∧ name_id target = Some "__version__"%string ∧ literal_eval value = Ok v.
Proof.
  induction body as [|[targets value|] body IH]; cbn; [done|..].
  - destruct (existsb _ targets) eqn:Hx.
    + intros Hv. apply existsb_exists in Hx as (target & Hin & Hname%bool_decide_eq_true).
      exists [], targets, target, value, body. rewrite list_elem_of_In. done.
    + intros (before & ts & t & x & after & -> & ?)%IH. exists (Assign targets value :: before), ts, t, x, after. done.
  - intros (before & ts & t & x & after & -> & ?)%IH. exists (OtherStatement :: before), ts, t, x, after. done.
Qed.

Lemma strip_prefix_inv p s r : strip_prefix p s = Some r → s = p +:+ r.
Proof.
  revert s. induction p as [|c p IH]; intros [|d s]; cbn; try by intros [= <-].
  case_bool_decide; [|done]. subst. by intros ->%IH.
Qed.
Lemma text_contains_inv sub text : text_contains sub text = true → ∃ before after, text = before +:+ sub +:+ after.
Proof.
  induction text as [|c text IH]; cbn -[strip_prefix].
  - destruct (strip_prefix sub "") as [r|] eqn:Hr; [|done]. intros _. exists ""%string, r. exact (strip_prefix_inv _ _ _ Hr).
  - destruct (strip_prefix sub (String c text)) as [r|] eqn:Hr.
    + intros _. exists ""%string, r. exact (strip_prefix_inv _ _ _ Hr).
    + intros (before & after & ->)%IH. by exists (String c before), after.
Qed.

Lemma get_method_inv v key x : get_method v key = Ok x → ∃ items, v = PMapping items ∧ x = default PNone (mapping_get key items).
Proof. destruct v; try done. cbn. intros [= <-]. by eexists. Qed.
Lemma get_method_text v key s :
  get_method v key = Ok (PStr s) → ∃ items, v = PMapping items ∧ mapping_get key items = Some (PStr s).
Proof.
  intros (items & -> & Hx)%get_method_inv. exists items. split; [done|]. by destruct (mapping_get key items); cbn in Hx; subst.
Qed.

Lemma dict_items_inv v d :
  dict_items v = Ok d → ∃ items, v = PMapping items ∧ d = map (λ e, (key_text e.1, e.2)) items.
Proof. destruct v; try done. cbn. intros [= <-]. by eexists. Qed.

Lemma res_all_forall2 {A B} (f : A → res B) l ys : res_all f l = Ok ys → Forall2 (λ x y, f x = Ok y) l ys.
Proof.
  revert ys. induction l as [|x l IH]; intros ys; cbn; [by intros [= <-]|].
  intros (y & Hy & (zs & Hzs & [= <-])%res_bind_ok)%res_bind_ok. constructor; auto.
Qed.

(** ** The checks, in the script *)
Lemma version_contract_triple l : triple l version_contract (λ vc l', versions_agree l' vc.1 vc.2).
Proof.
  unfold version_contract. watch read_text_triple. intros text l1 _ Htext.
  checked project Hproject. apply res_bind_ok in Hproject as (document & Hdocument & Hproject).
  checked version Hversion.
  watch read_json_triple. intros compatibility l2 Hg (ctext & Hctext & Hjson). forward Hg.
  watch read_text_triple. intros vtext l3 Hg Hvtext. forward Hg.
  checked source Hsource. apply res_bind_ok in Hsource as (body & Hbody & Hsource).
  apply assigned_version_inv in Hsource as (before & targets & target & value & after & Hshape & Htarget & Hname & Hvalue).
  checked declared Hdeclared. apply get_method_inv in Hdeclared as (items & Hitems & Hdeclared).
  checked u1 Hequal. apply raise_if_ok, orb_false_iff in Hequal as [Hd%negb_false_iff%values_equal_same Hs%negb_false_iff%values_equal_same].
  checked dependencies Hdependencies. checked stated Hstated.
  apply res_bind_ok in Hstated as (listed & Hlisted & Hstated). checked constraints Hconstraints.
  checked u2 Hsame. apply raise_if_ok, negb_false_iff in Hsame. pose proof (same_set_spec _ _ Hsame) as Hset.
  checked license Hlicense. checked u3 Htext'. apply raise_if_ok, negb_false_iff, is_text_eq in Htext'. subst license.
  apply get_method_text in Hlicense as (pitems & Hpitems & Hlicense).
  apply triple_ret. cbn. split.
  - exists text, document, project. split_and!; [done..| |].
    + rewrite Hpitems. cbn. by rewrite Hlicense.
    + destruct (dict_items_inv _ _ Hconstraints) as (ds & -> & ->).
      exists listed, stated, ds. split_and!; [done..|]. intros x'. rewrite Hset. split.
      * intros (s & Hin & ->). apply list_elem_of_fmap in Hin as ([n c] & -> & Hin).
        apply list_elem_of_fmap in Hin as ([k v] & [= -> ->] & Hin). by exists k, v.
      * intros (n & c & Hin & ->). eexists. split; [|reflexivity]. apply list_elem_of_fmap.
        exists (key_text n, c). split; [done|]. apply list_elem_of_fmap. by exists (n, c).
  - exists ctext, items. by subst.
  - exists vtext, body, before, targets, target, value, after, source. done.
Qed.

Definition marked (l : log) (p : path) : Prop := ∃ before after,
  ReadText p (Ok (before +:+ "Licensed under the Apache License, Version 2.0" +:+ after)) ∈ l.
Definition spdx_marked (l : log) (p : path) : Prop := ∃ text items, ReadText p (Ok text) ∈ l ∧
  json_loads text = Ok (PMapping items) ∧ mapping_get "$comment" items = Some (PStr "SPDX-License-Identifier: Apache-2.0").
Lemma marked_prefix l l' p : l `prefix_of` l' → marked l p → marked l' p.
Proof. intros Hp (a & b & Hin). exists a, b. by eapply in_prefix. Qed.
Lemma spdx_prefix l l' p : l `prefix_of` l' → spdx_marked l p → spdx_marked l' p.
Proof. intros Hp (a & b & Hin & ?). exists a, b. split; [by eapply in_prefix|done]. Qed.

Lemma sorted_paths_in p l : p ∈ sorted_paths l ↔ p ∈ l.
Proof. unfold sorted_paths. by rewrite merge_sort_Permutation. Qed.

(** The sources without a header are collected: none means that all have one. *)
Lemma unmarked_triple l ps :
  triple l (for_list ps [] unmarked) (λ missing l', missing = [] → ∀ p, p ∈ ps → marked l' p).
Proof.
  eapply triple_weaken; [apply (triple_for _ _ _ (λ todo missing l', ∃ seen, ps = seen ++ todo ∧
    (missing = [] → ∀ p, p ∈ seen → marked l' p)))|].
  - exists []. split; [done|]. intros _ p Hp. by apply elem_of_nil in Hp.
  - intros p todo missing l1 (seen & -> & Hseen). unfold unmarked. watch read_text_triple. intros text l2 Hg Htext.
    apply grows_prefix in Hg. cbv beta in Htext.
    apply triple_ret. exists (seen ++ [p]). rewrite <- app_assoc. split; [done|].
    destruct (text_contains marker text) eqn:Hmark; [|by intros [_ [=]]%app_eq_nil].
    intros Hnil q. rewrite elem_of_app, list_elem_of_singleton. intros [Hq| ->].
    + eapply marked_prefix; [done|]. by apply Hseen.
    + apply text_contains_inv in Hmark as (a & b & ->). by exists a, b.
  - intros missing l' _ (seen & Hps & Hseen) Hnil. rewrite app_nil_r in Hps. subst. by apply Hseen.
Qed.

Lemma spdx_triple l ps : triple l (for_list ps () check_spdx) (λ _ l', ∀ p, p ∈ ps → spdx_marked l' p).
Proof.
  eapply triple_weaken; [apply (triple_for _ _ _ (λ todo _ l', ∃ seen, ps = seen ++ todo ∧
    (∀ p, p ∈ seen → spdx_marked l' p)))|].
  - exists []. split; [done|]. intros p Hp. by apply elem_of_nil in Hp.
  - intros p todo [] l1 (seen & -> & Hseen). unfold check_spdx. watch read_json_triple.
    intros value l2 Hg (text & Htext & Hjson). apply grows_prefix in Hg. checked comment Hcomment.
    apply triple_lift. intros [] Hc%raise_if_ok%negb_false_iff%is_text_eq. subst comment.
    apply get_method_text in Hcomment as (items & -> & Hcomment).
    exists (seen ++ [p]). rewrite <- app_assoc. split; [done|].
    intros q. rewrite elem_of_app, list_elem_of_singleton. intros [Hq| ->].
    + eapply spdx_prefix; [done|]. by apply Hseen.
    + by exists text, items.
  - intros [] l' _ (seen & Hps & Hseen). rewrite app_nil_r in Hps. by subst.
Qed.

Lemma license_gate_triple l : triple l license_gate (λ _ l', licensed l').
Proof.
  unfold license_gate.
  watch rglob_triple. intros sources l1 _ Hsources. watch rglob_triple. intros tests l2 Hg Htests. forward Hg.
  watch rglob_triple. intros scripts l3 Hg Hscripts. forward Hg.
  watch unmarked_triple. intros missing l4 Hg Hmarked. forward Hg.
  checked u1 Hmissing. apply raise_if_ok, negb_false_iff, bool_decide_eq_true in Hmissing. specialize (Hmarked Hmissing).
  watch rglob_triple. intros contracts l5 Hg Hcontracts. pose proof (grows_prefix _ _ _ _ _ Hg) as Hp. forward Hg.
  assert (∀ p, p ∈ sources ++ tests ++ scripts → marked l5 p) as Hmarked5.
  { intros p Hin. eapply marked_prefix; [exact Hp|]. apply Hmarked. rewrite !elem_of_app, !sorted_paths_in. by rewrite !elem_of_app in Hin. }
  clear Hmarked Hp. eapply triple_weaken; [apply spdx_triple|]. intros [] l6 Hg Hspdx.
  pose proof (grows_prefix _ _ _ _ _ Hg) as Hp. forward Hg. split.
  - intros d. rewrite !elem_of_cons, elem_of_nil.
    intros [->|[->|[->|[]]]]; eexists; (split; [eassumption|]); intros p Hin; eapply (marked_prefix l5); try done;
      apply Hmarked5; rewrite !elem_of_app; auto.
  - exists contracts. split; [done|]. intros p Hin. apply Hspdx. rewrite elem_of_app, sorted_paths_in. by rewrite elem_of_app in Hin.
Qed.

(** The installed versions. *)
Lemma installed_triple l :
  triple l (for_list DEPENDENCIES [] (λ acc name, let! v := installed_version name in ret (acc ++ [(name, v)])))
    (λ found l', map fst found = DEPENDENCIES ∧ ∀ e, e ∈ found → Installed e.1 (Ok e.2) ∈ l').
Proof.
  eapply triple_weaken; [apply (triple_for _ _ _ (λ todo found l', DEPENDENCIES = map fst found ++ todo ∧
    (∀ e : string * string, e ∈ found → Installed e.1 (Ok e.2) ∈ l')))|].
  - split; [done|]. intros e He. by apply elem_of_nil in He.
  - intros name todo found l1 (Hdone & Hfound).
    eapply triple_bind; [apply watched with (Q := λ v l', Installed name (Ok v) ∈ l'); [done|intros; apply in_snoc]|].
    intros v l2 Hg Hv. apply grows_prefix in Hg. cbv beta in Hv. apply triple_ret.
    split; [by rewrite map_app, <- app_assoc|]. intros e. rewrite elem_of_app, list_elem_of_singleton. intros [He| ->]; [|done].
    eapply in_prefix; [done|]. by apply Hfound.
  - intros found l' _ [Hdone Hfound]. by rewrite app_nil_r in Hdone.
Qed.

Lemma dict_get_elem {A} k (d : list (string * A)) v : dict_get k d = Some v → (k, v) ∈ d.
Proof.
  induction d as [|[k' v'] d IH]; cbn; [done|]. destruct (String.eqb_spec k k') as [->|].
  - intros [= <-]. by left.
  - intros ?%IH. by right.
Qed.

(** Each expected version is what the lock says of a package. *)
Lemma expected_versions items expected :
  res_all (λ e : string * pyval, res_map (λ v, (e.1, v)) (subscript e.2 "version")) items = Ok expected →
  length expected = length items ∧
  ∀ name v, (name, v) ∈ expected → ∃ package, (name, package) ∈ items ∧ subscript package "version" = Ok v.
Proof.
  intros Hall%res_all_forall2. split; [symmetry; by eapply Forall2_length|]. intros name v Hin.
  apply list_elem_of_lookup in Hin as [i Hi]. destruct (Forall2_lookup_r _ _ _ _ _ Hall Hi) as ([n p] & Hp & Hv).
  cbn in Hv. apply res_map_ok in Hv as (x & Hx & [= -> ->]). exists p. split; [|done]. by eapply list_elem_of_lookup_2.
Qed.

Lemma check_dependencies_triple l : triple l check_dependencies (λ _ l', locked l').
Proof.
  unfold check_dependencies.
  eapply triple_bind; [apply watched with (Q := λ env l', Environment (Ok env) ∈ l'); [done|intros; apply in_snoc]|].
  intros env l1 _ Henv. watch read_json_triple. intros locks l2 Hg (text & Htext & Hjson). forward Hg.
  checked lock Hlock. apply res_bind_ok in Hlock as (profiles & Hprofiles & Hlock).
  watch installed_triple. intros installed l3 Hg [Hnames Hinstalled]. forward Hg.
  checked expected Hexpected. apply res_bind_ok in Hexpected as (items & Hitems & Hexpected).
  apply dict_items_inv in Hitems as (packages & -> & ->). apply expected_versions in Hexpected as [Hlen Hexpected].
  checked u1 Hsame. apply raise_if_ok, negb_false_iff in Hsame. unfold same_versions in Hsame.
  apply andb_true_iff in Hsame as [Hsize%Nat.eqb_eq Hsame]. rewrite forallb_forall in Hsame.
  apply triple_ret. exists env, text, locks, profiles, packages. split_and!; try done.
  - rewrite Hlen, length_map in Hsize. by rewrite <- Hsize, <- (length_map fst), Hnames.
  - intros name Hname. assert (name ∈ map fst installed) as Hin by (by rewrite Hnames).
    apply list_elem_of_fmap in Hin as ([n v] & -> & Hin). cbn [fst]. specialize (Hsame (n, v)).
    rewrite <- list_elem_of_In in Hsame. specialize (Hsame Hin). cbn in Hsame.
    destruct (dict_get n expected) as [x|] eqn:Hx; [|done]. apply is_text_eq in Hsame. subst x.
    apply dict_get_elem, Hexpected in Hx as (package & Hpackage & Hversion).
    apply list_elem_of_fmap in Hpackage as ([k p] & [= -> ->] & Hp).
    exists v, k, p. split_and!; [by apply (Hinstalled (_, v))|done..].
Qed.

(** Steps whose results do not matter. *)
Create HintDb quiet.
Ltac quiet :=
  lazymatch goal with
  | |- CallLog.triple _ _ _ _ (bind _ _) _ => eapply triple_bind with (Q := λ _ _, True); [quiet|intros ? ? _ _; quiet]
  | |- CallLog.triple _ _ _ _ (ret _) _ => by apply triple_ret
  | |- CallLog.triple _ _ _ _ (lift_res _) _ => by apply triple_lift
  | |- CallLog.triple _ _ _ _ (for_list _ _ _) _ => apply (triple_for _ _ _ (λ _ _ _, True)); [done|intros; quiet]
  | |- CallLog.triple _ _ _ _ (if ?b then _ else _) _ => destruct b; quiet
  | |- CallLog.triple _ _ _ _ _ _ => first [solve [auto with quiet] | by apply triple_silent | by apply watched]
  | |- _ => idtac
  end.
Ltac skip := eapply triple_bind with (Q := λ _ _, True); [quiet|intros ? ? ? _].

Lemma output_triple l arguments : triple l (output arguments) (λ _ _, True).
Proof. unfold output. quiet. Qed.
Lemma sha256_of_triple l p : triple l (sha256_of p) (λ _ _, True).
Proof. unfold sha256_of. quiet. Qed.
#[local] Hint Resolve output_triple sha256_of_triple : quiet.

Lemma prepare_build_triple l : triple l prepare_build (λ e _, dict_get "SOURCE_DATE_EPOCH" e.1 = Some e.2).
Proof. unfold prepare_build. do 6 skip. apply triple_ret. cbn. by rewrite dict_get_set, String.eqb_refl. Qed.
Lemma contract_hashes_triple l : triple l contract_hashes (λ _ _, True).
Proof. unfold contract_hashes. quiet. Qed.
Lemma artifact_evidence_triple l artifacts : triple l (artifact_evidence artifacts) (λ _ _, True).
Proof. unfold artifact_evidence. quiet. Qed.

(** The counters of the tests. *)
Definition clean_totals (tests : Z) : list (string * Z) :=
  [("tests", tests); ("failures", 0); ("errors", 0); ("skipped", 0)]%string.

Lemma total_sums root field n : total (suites_of root) field = Ok n → sums_to root field n.
Proof. unfold total. intros (ns & Hns%res_all_forall2 & ->)%res_map_ok. by exists ns. Qed.

Lemma clean_totals_inv root totals :
  test_totals root = Ok totals → tests_failed totals = false →
  ∃ t, totals = clean_totals t ∧ t ≠ 0 ∧ sums_to root "tests" t ∧
    sums_to root "failures" 0 ∧ sums_to root "errors" 0 ∧ sums_to root "skipped" 0.
Proof.
  unfold test_totals, test_fields. fold (suites_of root). cbn [res_all].
  intros (? & (t & Ht%total_sums & ->)%res_map_ok & Hrest)%res_bind_ok. apply res_bind_ok in Hrest as (? & Hrest & [= <-]).
  apply res_bind_ok in Hrest as (? & (f & Hf%total_sums & ->)%res_map_ok & Hrest). apply res_bind_ok in Hrest as (? & Hrest & [= <-]).
  apply res_bind_ok in Hrest as (? & (e & He%total_sums & ->)%res_map_ok & Hrest). apply res_bind_ok in Hrest as (? & Hrest & [= <-]).
  apply res_bind_ok in Hrest as (? & (s & Hs%total_sums & ->)%res_map_ok & [= <-]).
  unfold tests_failed, count_of. cbn. intros Hfail. repeat rewrite orb_false_iff in Hfail.
  destruct Hfail as (Hn & Hf0 & He0 & Hs0 & _). apply Z.eqb_neq in Hn. apply negb_false_iff, Z.eqb_eq in Hf0, He0, Hs0. subst.
  by exists t.
Qed.

Lemma read_results_triple l :
  triple l read_results (λ e l', ∃ t, e.2 = clean_totals t ∧ all_passed l' t).
Proof.
  unfold read_results. watch read_json_triple. intros report l0 _ _. checked coverage Hcoverage.
  eapply triple_bind; [apply watched with (Q := λ root l', Parsed ["build"; "evidence"; "junit.xml"]%string (Ok root) ∈ l');
    [done|intros; apply in_snoc]|].
  intros root l1 _ Hroot. checked totals Htotals. checked u1 Hfailed. apply raise_if_ok in Hfailed.
  destruct (clean_totals_inv _ _ Htotals Hfailed) as (t & -> & Ht). apply triple_ret. exists t. split; [done|]. by exists root.
Qed.

(** What the report says. *)
Record reported (version compatibility : pyval) (tests : Z) (report : pyval) : Prop := {
  rp_version : subscript report "version" = Ok version;
  rp_compatibility : subscript report "compatibility" = Ok compatibility;
  rp_tests : subscript report "tests" = Ok (PMapping
    [(PStr "tests", PInt tests); (PStr "failures", PInt 0); (PStr "errors", PInt 0); (PStr "skipped", PInt 0)]);
}.

Lemma make_report_triple l version compatibility profile lock installed epoch hashes artifacts coverage tests :
  triple l (make_report version compatibility profile lock installed epoch hashes artifacts coverage (clean_totals tests))
    (λ report _, reported version compatibility tests report).
Proof. unfold make_report. do 5 skip. apply triple_ret. by split. Qed.

(** ** The commands *)
Definition passed (cs : list (list string)) (env : variables) : log := map (λ c, Ran c env (Ok ())) cs.

Lemma commands_required artifacts : required_commands artifacts = commands ++ [twine_command artifacts].
Proof. reflexivity. Qed.

(** Some of the commands passed, in order; the next one may have failed. *)
Definition interrupted (l : log) : Prop :=
  ∃ env artifacts cs rest, required_commands artifacts = cs ++ rest ∧
    (l = passed cs env ∨ ∃ c rest' e, rest = c :: rest' ∧ l = passed cs env ++ [Ran c env (Raise e)]).

Lemma interrupted_prefix artifacts cs rest env :
  required_commands artifacts = cs ++ rest → interrupted (passed cs env).
Proof. intros Hcs. exists env, artifacts, cs, rest. auto. Qed.
Lemma interrupted_failure artifacts cs c rest env e :
  required_commands artifacts = cs ++ c :: rest → interrupted (passed cs env ++ [Ran c env (Raise e)]).
Proof. intros Hcs. exists env, artifacts, cs, (c :: rest). split; [done|]. right. by exists c, rest, e. Qed.

Lemma triple_wp {A} (m : M _ A) Q (P : res A → log * W → Prop) l w :
  triple l m Q → (∀ a l' w', grows l l' → Q a l' → P (Ok a) (l', w')) →
  (∀ e l' w', grows l l' → P (Raise e) (l', w')) → wp m P (l, w).
Proof.
  intros Hm Hok Hraise. eapply wp_mono; [apply Hm|]. intros [a|e] [l' w'] [Hg HQ]; cbn in *; auto.
Qed.

Lemma run_tool_wp command env (P : res unit → log * W → Prop) l w :
  (∀ e w', P (Raise e) (l, w')) → (∀ r w', P r (l ++ [Ran command env r], w')) → wp (run_tool command env) P (l, w).
Proof.
  intros Hprint Hran. unfold run_tool. apply wp_bind, wp_lift_snd. intros [u|e] w'; [|apply Hprint].
  apply wp_recorded. apply Hran.
Qed.
Lemma effects_ran l c env r : effects (l ++ [Ran c env r]) = effects l ++ [Ran c env r].
Proof. by rewrite effects_app. Qed.
Lemma passed_snoc cs c env : passed (cs ++ [c]) env = passed cs env ++ [Ran c env (Ok ())].
Proof. unfold passed. by rewrite map_app. Qed.

(** The files among the entries. *)
Lemma files_triple l entries :
  triple l (for_list entries [] (λ acc p, let! b := is_file p in ret (if b then acc ++ [p] else acc)))
    (λ files l', (∀ p, p ∈ entries → p ∈ files ∨ IsFile p (Ok false) ∈ l') ∧ ∀ p, p ∈ files → p ∈ entries).
Proof.
  eapply triple_weaken; [apply (triple_for _ _ _ (λ todo files l', ∃ seen, entries = seen ++ todo ∧
    (∀ p, p ∈ seen → p ∈ files ∨ IsFile p (Ok false) ∈ l') ∧ ∀ p, p ∈ files → p ∈ seen))|].
  - exists []. split; [done|]. split; intros p Hp; by apply elem_of_nil in Hp.
  - intros p todo files l1 (seen & -> & Hseen & Hfiles).
    eapply triple_bind; [apply watched with (Q := λ b l', IsFile p (Ok b) ∈ l'); [done|intros; apply in_snoc]|].
    intros b l2 Hg Hb. apply grows_prefix in Hg. cbv beta in Hb. apply triple_ret. exists (seen ++ [p]).
    rewrite <- app_assoc. split; [done|]. split.
    + intros q. rewrite elem_of_app, list_elem_of_singleton. intros [Hq| ->].
      * destruct (Hseen q Hq) as [?|?]; [left; destruct b; [rewrite elem_of_app; by left|done]|right; by eapply in_prefix].
      * destruct b; [left; rewrite elem_of_app, list_elem_of_singleton; by right|by right].
    + intros q Hq. rewrite elem_of_app, list_elem_of_singleton. destruct b; [|left; auto].
      rewrite elem_of_app, list_elem_of_singleton in Hq. destruct Hq; auto.
  - intros files l' _ (seen & Hs & Hseen & Hfiles). rewrite app_nil_r in Hs. by subst.
Qed.

Lemma run_gates_wp env l w :
  effects l = [] →
  wp (run_gates env) (λ r lw, match r with
    | Ok artifacts => l `prefix_of` lw.1 ∧ effects lw.1 = passed (required_commands artifacts) env ∧
        release_files lw.1 artifacts
    | Raise _ => interrupted (effects lw.1)
    end) (l, w).
Proof.
  intros Hl. unfold run_gates. apply wp_bind.
  apply (wp_for_list (λ rest _ lw, l `prefix_of` lw.1 ∧ ∃ cs, commands = cs ++ rest ∧ effects lw.1 = passed cs env)).
  - split; [done|]. by exists [].
  - intros [] [l1 w1] (Hp & cs & Hcs & Heff). cbn [fst] in Hp, Heff. rewrite app_nil_r in Hcs. subst cs.
    assert (∀ l', grows l1 l' → interrupted (effects l')) as Hint.
    { intros l' Hg. rewrite (effects_grows _ _ Hg), Heff. apply (interrupted_prefix [] commands [twine_command []]). done. }
    apply wp_bind. eapply triple_wp; [apply watched with (Q := λ es l', Entries ["build"; "release"]%string (Ok es) ∈ l');
      [done|intros; apply in_snoc]| |by eauto].
    intros entries l2 w2 Hg2 Hentries. cbv beta in Hentries.
    apply wp_bind. eapply triple_wp; [apply files_triple| |].
    2:{ intros e l3 w3 Hg3. apply Hint. by etrans. }
    intros files l3 w3 Hg3 [Hfiles Honly]. assert (grows l1 l3) as Hg by (by etrans).
    pose proof (grows_prefix _ _ _ _ _ Hg) as Hp13. pose proof (grows_prefix _ _ _ _ _ Hg3) as Hp23.
    apply wp_bind, run_tool_wp; [intros e w4; by apply Hint|]. intros [[]|e] w4.
    + apply wp_ret. cbn [fst]. rewrite effects_ran, (effects_grows _ _ Hg), Heff, commands_required, passed_snoc.
      split; [etrans; [exact Hp|]; etrans; [exact Hp13|]; by eexists|]. split; [done|]. exists entries. split_and!.
      * rewrite elem_of_app. left. by eapply in_prefix.
      * intros p Hin%Hfiles. rewrite sorted_paths_in. destruct Hin as [?|?]; [by left|right; rewrite elem_of_app; by left].
      * intros p. rewrite sorted_paths_in. apply Honly.
    + cbn [fst]. rewrite effects_ran, (effects_grows _ _ Hg), Heff.
      by apply (interrupted_failure (sorted_paths files) commands _ []).
  - intros command rest [] [l1 w1] (Hp & cs & Hcs & Heff). cbn [fst] in Hp, Heff.
    assert (required_commands [] = cs ++ command :: (rest ++ [twine_command []])) as Hreq
      by (rewrite commands_required, Hcs, <- app_assoc; done).
    apply run_tool_wp; [intros e w2|intros [[]|e] w2]; cbn [fst]; rewrite ?effects_ran, Heff.
    + by eapply interrupted_prefix.
    + split; [etrans; [exact Hp|by eexists]|]. exists (cs ++ [command]). rewrite <- app_assoc, passed_snoc. done.
    + by eapply interrupted_failure.
Qed.
(** ** What was read stays read *)
Lemma versions_agree_prefix l l' version compatibility :
  l `prefix_of` l' → versions_agree l version compatibility → versions_agree l' version compatibility.
Proof.
  intros Hp [(t & d & p & Hin & ?) (t2 & i & Hin2 & ?) (t3 & b & c & d3 & e & f & g & v & Hin3 & ?)]. split.
  - exists t, d, p. split; [by eapply in_prefix|done].
  - exists t2, i. split; [by eapply in_prefix|done].
  - exists t3, b, c, d3, e, f, g, v. split; [by eapply in_prefix|done].
Qed.
Lemma licensed_prefix l l' : l `prefix_of` l' → licensed l → licensed l'.
Proof.
  intros Hp [Hs (contracts & Hin & Hc)]. split.
  - intros d (sources & Hl & Hm)%Hs. exists sources. split; [by eapply in_prefix|]. intros p Hq%Hm. by apply (marked_prefix l).
  - exists contracts. split; [by eapply in_prefix|]. intros p Hq%Hc. by apply (spdx_prefix l).
Qed.
Lemma locked_prefix l l' : l `prefix_of` l' → locked l → locked l'.
Proof.
  intros Hp (env & text & locks & profiles & packages & He & Ht & Hj & Hpr & Hs & Hlen & Hall).
  exists env, text, locks, profiles, packages. split_and!; try done; try by eapply in_prefix.
  intros name (v & key & package & Hi & ?)%Hall. exists v, key, package. split; [by eapply in_prefix|done].
Qed.
Lemma tests_passed_prefix l l' tests : l `prefix_of` l' → all_passed l tests → all_passed l' tests.
Proof. intros Hp (root & Hin & ?). exists root. split; [by eapply in_prefix|done]. Qed.
Lemma release_files_prefix l l' artifacts : l `prefix_of` l' → release_files l artifacts → release_files l' artifacts.
Proof.
  intros Hp (entries & Hin & Hall & Honly). exists entries. split_and!; [by eapply in_prefix| |done].
  intros p [?|?]%Hall; [by left|right; by eapply in_prefix].
Qed.

(** ** A run of the script *)

Lemma interrupted_nil l : effects l = effects [] → interrupted (effects l).
Proof. intros ->. by apply (interrupted_prefix [] [] (required_commands []) []). Qed.

(** The effects of a log that grew. *)
Ltac silent_since :=
  repeat match goal with Hg : CallLog.grows _ _ _ ?a ?b |- _ => rewrite !(effects_grows a b Hg) end; congruence.
Ltac still_read := repeat first [eassumption | etrans; [eassumption|]].
(** A part of the script that reads: what it raises is raised by the script. *)
Tactic Notation "phase" constr(lem) "or" constr(raised) :=
  apply wp_bind; eapply triple_wp; [apply lem| |by intros; apply raised; silent_since].

(** The evidence was written, after every gate had passed. *)
Definition published (l : log) (r : res Z) : Prop :=
  ∃ l0 env epoch artifacts version compatibility tests report written,
    l = l0 ++ [Wrote ["build"; "evidence"; "verification.json"]%string (dumps_indent "" report +:+ newline) written] ∧
    effects l0 = passed (required_commands artifacts) env ∧ dict_get "SOURCE_DATE_EPOCH" env = Some epoch ∧
    release_files l0 artifacts ∧ versions_agree l0 version compatibility ∧ licensed l0 ∧ locked l0 ∧ all_passed l0 tests ∧
    reported version compatibility tests report ∧ (r = Ok 0 → written = Ok ()).

End gates.
